(* ===== verification/_CoqProject ===== *)
-Q . S2P
Prelude.v
Text.v
Backoff.v
Event.v
Client.v
Committer.v
Storage.v
CommitterSpec.v
Subscriber.v
SubscriberSpec.v
Time.v
Json.v
Number.v
Base64.v
Handler.v
HandlerSteps.v
Sinks.v
Schema.v
Config.v
Auth.v
AuthShared.v
Url.v
Exchange.v
Health.v
Migrations.v
Pool.v
App.v
Pipeline.v
Service.v
Monotone.v
Healthy.v
Shutdown.v
Progress.v
Recovery.v
Schedule.v
Metrics.v
Deployment.v
Encoding.v
Admin.v
Wiring.v
Launch.v
Assembly.v
Unencodable.v
