(* ===== verification/Prelude.v ===== *)
(** * A verification of the Salesforce Pub/Sub event processor

    The service subscribes to Salesforce Pub/Sub topics over gRPC, decodes each event
    with its Avro schema, stores it in PostgreSQL, forwards it to Kafka, remembers it
    in Redis, and keeps a replay cursor per topic so that a restart resumes where it
    left off. Its promise is at-least-once delivery: the cursor never passes an event
    that did not reach the sinks.

    ** How the program is put together

    One subscriber per topic (src/internal/pubsub/subscriber.go) owns a stream, numbers
    the events it receives and emits them on a channel; fan-in goroutines
    (src/internal/app/app.go) forward them to a shared channel; a pool of workers
    (src/internal/worker/pool.go) fetches the schema, decodes, runs the handler chain
    with retries, and calls back [ack], which reports the completion to the replay
    committer (src/internal/replay/committer.go) and returns a flow-control credit to
    the subscriber. The committer turns completions that arrive out of order into a
    low-water mark per topic and flushes it to the database once a second.

    ** Files, in dependency order

    - Prelude: machine integers, nil-able byte slices, errors, the state-passing monad
      [M], counters, step-relation lemmas, tactics.
    - Text: bytes of strings, decimal digits.
    - Backoff: the delays of the reconnect loop, of the unary interceptor and of the
      pool's retry loop, with the wrap-around of shifts and binary64 jitter.
    - Event: the Pub/Sub messages with their nil-safe getters, [RawEvent],
      [DecodedEvent].
    - Client: interceptor.go (the retrying unary interceptor) and client.go (GetTopic,
      GetSchema).
    - Committer, CommitterSpec: committer.go. [Done], [snapshot], [Flush], [markDirty],
      [Run]; [Flush] is given the completions that workers report while a save is in
      progress, when its lock [mu] is free. Then the interleaving of [Done] and [Flush] as
      a step relation that refines an abstract forward-only cursor.
    - Storage: src/internal/storage. The two tables, the statements with faults before
      and after they take effect, the repositories and the store, which is an instance
      of the committer's [CursorStore] interface.
    - Subscriber, SubscriberSpec: subscriber.go. [initialFetch], [runSender],
      [runReceiver], [runOnce], [Run], [Ack]; what the server and the scheduler do is
      given as lists of events the functions consume.
    - Time, Json: RFC 3339 times and JSON documents as bytes (UTF-8, string escapes,
      number literals), printing and parsing, with their round trips.
    - Number: what a number literal stands for, an integer or the nearest float32 or
      float64 ([parseFloat], with rounding to even), and what is promised of the text that
      [strconv] writes for a float, with an instance that keeps the promise.
    - Base64, Handler: src/internal/handler. The persist, forward, log, chain and dedup
      handlers over the interfaces [EventStore], [RecordProducer], [SeenCache];
      [SinkLaws] states what they rely on.
    - HandlerSteps: the handler cut at every call to a sink, so that the handlers of
      several workers interleave; without interruption it is the handler.
    - Sinks: src/internal/rediscache and src/internal/kafka over interfaces of the client
      libraries; database, cache and producer together satisfy [SinkLaws].
    - Schema: src/internal/schema. The schema cache, for one caller and for concurrent
      callers through singleflight, and the decoder.
    - Config: src/internal/config/config.go. The records, [Validate], [Load], and
      net.SplitHostPort.
    - Auth, AuthShared: src/internal/auth/oauth.go and src/internal/pubsub/credentials.go,
      for one caller, and for concurrent callers that share a refresh.
    - Url, Exchange: [url.Parse], the encoding of forms and [json.Unmarshal] of the token
      response; the whole exchange with the token endpoint as text.
    - Health: src/internal/health and the lifecycle of src/internal/httpserver.
    - Migrations: src/internal/storage/migrate.go over the migrator as a class, and the
      files of src/migrations.
    - Pool: pool.go. [retry], [process], [worker], [Run]; the same worker attempt by
      attempt, and any number of them interleaved on one channel.
    - App: app.go and src/cmd/processor/main.go. Construction and release, [ack],
      [fanIn], [flushReplay], [discoverTopics], the outcome of the process.
    - Pipeline: the state of the running service ([App.Run]), the steps of everything
      around the workers (streams, fan-in, flushes under their lock), the invariant and
      that these steps and any attempt of a worker preserve it; the laws it needs of the
      sinks are the class [PipelineLaws].
    - Service: the whole machine, with the workers, whose calls to the sinks are steps of
      their own. What a living process does is [move]; a [step] is a move, something from
      outside (time, cancellation, an expired cache entry, the end of a stream) or a crash
      with a restart; [onward] is a move of a process that is not canceled.
    - Monotone: over the machine's runs stored cursors only move forward.
    - Healthy: what it means for the services around the process to work
      ([servicesWork], [topicWorks]), and what one attempt of a worker then does.
    - Shutdown: what is stored when a flush is over.
    - Progress: a process whose context is not canceled loses nothing ([lossless]); from
      such a state its workers can finish all they have.
    - Recovery: the machine can always catch up with the log, after a crash or from the
      state it is in.
    - Schedule: runs of the machine written as lists of commands and evaluated.
    - Metrics: the collectors of every component and their registration at start-up,
      against an interface of the registry.
    - Deployment: the real sinks satisfy [PipelineLaws]; executable runs of the machine.
    - Encoding: [json.Marshal] of payloads (event_repo.go) and envelopes
      (src/internal/handler/kafka.go), and a reader that knows the types of the Avro
      record ([shape], [ofJson]).
    - Admin: the responses of the admin endpoints as bytes, from the configuration.
    - Wiring: the structs of the handlers, the worker pool, the store and the client with
      their constructors; a variable of the handler interface as a tree of structs, on
      which [Handle] dispatches.
    - Launch: the constructors with the options they pass to the libraries (client.go,
      storage.go, producer.go, cache.go, src/internal/log/log.go), [app.New] and [run]
      composed of them.
    - Assembly: what [app.New] of Launch builds is the machine of Pipeline.
    - Unencodable: what happens to an event whose payload has no JSON form.

    ** What is shown

    - End to end (Service, Monotone, Recovery, Shutdown, C1 to C7, with C39 and C40 in
      Deployment): over any interleaving and any number of crashes a stored cursor covers
      only settled events; once a topic has a cursor its base never moves; a restart
      redelivers what is not settled; the stored cursor never moves back; whatever a
      process leaves behind, the next one can settle every event after the cursor and
      commit the last, when the services work; a process that is not canceled can do so
      from any state it reaches, through retries, calls half done and failed saves, by its
      own moves alone and with nothing it had taken left unacknowledged; and a flush that
      leaves a topic clean has committed all that was finished. C24 says what every
      reachable state looks like: where each event is, and what the committer holds. Two hypotheses
      are needed and shown to be necessary: a topic must have a cursor before it is
      protected (a crash before the first commit can lose an event that was received), and
      the configured topics must be distinct.
    - The committer (C8, C9, C13 to C15): refinement of a forward-only cursor,
      independence of completion order, the outcome of a flush under faults and with
      completions reported while it saves.
    - The workers (C10, C16, C17): one acknowledgement per event, draining at a shutdown,
      termination of processing once the stages succeed; and C22, an event that decodes,
      with its schema, to a value without a JSON form is never finished.
    - The subscriber (C12, C18, C19): resumption without gaps, conservation of credits,
      no lost wake-up.
    - The handlers and sinks (C11, C20, C21, C32, C33): acknowledged means finished, for
      one worker and for any number of them side by side, the cache is never
      authoritative, idempotent persistence, cursor round trip.
    - Text on the wire (C23, C30, C31): a published envelope reads back to the event with
      its payload, the
      exchange with the token endpoint, the readiness response.
    - Start-up (C26 to C29, C37, C38): configuration, registration of metrics, the outcome
      of a start whichever step fails, the sizes and options of what is built, the
      application built as the machine of the end-to-end properties, release of everything
      that was opened.
    - Tokens, schemas, client and back-off (C25, C34 to C36).

    ** Modelling choices

    - Go integers are [Z] with the wrap of their width written out; durations and times
      are nanoseconds; a nil slice is told from an empty one.
    - Code outside the repository is a parameter or an interface with laws: the database
      statements, Redis, Kafka, gRPC, the Avro library, the metrics registry, the HTTP
      client and the environment parser; so are the text of a floating-point number, of
      which Number says that its nearest float is the number, and hosts in brackets. Every law has a concrete instance. Auth, Config and Handler take
      [url.Parse], [json.Unmarshal] and [json.Marshal] as arguments and hold for any; Url,
      Exchange and Encoding write them out.
    - Logging has no effect on the state and is left out, but for the version a migration
      reports; metrics are kept where the
      code's counters say something (retries, commits, cache hits).
    - A [select] and a map iteration are resolved by an argument (the branch picked, the
      order ranged over), over which the properties quantify.
    - Atomicity: the machine of Service takes one step per call to a sink, per critical
      section of the committer and per save of a cursor; a flush holds its lock from its
      snapshot to its last save. A fan-in drops an event, and the shared channel is
      closed, only when the context is canceled. A schema lookup and an acknowledgement (the committer's
      critical section and the subscriber's counter) are one step each; Schema splits the
      lookup, and the wake-up protocol between [Ack] and the sender and the refresh of a
      token are split into their atomic actions in SubscriberSpec and AuthShared. In Pool
      a handler attempt is one step ([attempt_alone] relates the two).
    - Fuel: the retry loop of the pool has no bound in the code and takes fuel; any fuel
      above the number of failures gives the same result ([retryFrom_spec]), and
      [process_completes] shows that it returns. The loop in [Done] takes one more turn
      than there are entries, which is enough ([advance_exits]). The JSON parser takes one
      unit per byte ([cost_print]), the printer of digits one per bit ([decimal_fuel]);
      the parser has no limit on nesting, where Go's stops at 10,000 levels. Everything
      else is structural.

    ** What is not modelled

    Log output, TLS itself, the matching of requests to routes, SQL parsing and the
    generated stubs: they belong to libraries and the service only calls them. The objects
    that structs point to are not tracked by address: there is one store, one producer and
    one cache in a process, and their state is that of the world the methods work on; so
    [Wiring.Handle] does not look at the store, producer or cache that a handler's struct
    holds. The connection the migrator opens and closes for itself (Migrations) is not in
    the list of resources of App and Launch. What remains of the sources is import lists,
    log calls and the durations given to [context.WithTimeout]. Bounds on memory and on time
    (deadlines of contexts) are not modelled either: an operation that times out is one
    that answers an error. *)

From stdpp Require Export base tactics numbers list gmap strings.
From stdpp Require Export relations.
From Stdlib Require Export ZArith Lia.
From Stdlib Require Import Strings.Byte.

#[global] Open Scope Z_scope.
#[global] Set Default Goal Selector "!".

(** ** Shared prelude

    Go's machine integers, errors, durations and counters, the state-passing monad the
    operations are written in, and the generic lemmas and tactics the components
    share. *)

(** ** Machine integers

    A Go integer is a [Z] kept in the range of its type; an operation that can
    leave the range is followed by the wrap of its width. *)

Definition wrapU64 (z : Z) : Z := z mod 2 ^ 64.
Definition wrapS64 (z : Z) : Z := (z + 2 ^ 63) mod 2 ^ 64 - 2 ^ 63.
Definition wrapS32 (z : Z) : Z := (z + 2 ^ 31) mod 2 ^ 32 - 2 ^ 31.

Definition in_S64 (z : Z) : Prop := - 2 ^ 63 <= z < 2 ^ 63.
Definition in_S32 (z : Z) : Prop := - 2 ^ 31 <= z < 2 ^ 31.
Definition in_U64 (z : Z) : Prop := 0 <= z < 2 ^ 64.

Lemma wrapU64_id z : in_U64 z -> wrapU64 z = z.
Proof. unfold in_U64, wrapU64. intros. by apply Z.mod_small. Qed.

Lemma wrapU64_range z : in_U64 (wrapU64 z).
Proof. apply Z.mod_pos_bound. lia. Qed.

Lemma wrapS64_id z : in_S64 z -> wrapS64 z = z.
Proof. unfold in_S64, wrapS64. intros. rewrite Z.mod_small; lia. Qed.

Lemma wrapS64_range z : in_S64 (wrapS64 z).
Proof.
  unfold in_S64, wrapS64.
  pose proof (Z.mod_pos_bound (z + 2 ^ 63) (2 ^ 64) ltac:(lia)). lia.
Qed.

Lemma wrapS32_id z : in_S32 z -> wrapS32 z = z.
Proof. unfold in_S32, wrapS32. intros. rewrite Z.mod_small; lia. Qed.

Lemma wrapS32_range z : in_S32 (wrapS32 z).
Proof.
  unfold in_S32, wrapS32.
  pose proof (Z.mod_pos_bound (z + 2 ^ 31) (2 ^ 32) ltac:(lia)). lia.
Qed.

(** ** Byte slices and strings

    A Go [[]byte] is [None] when it is nil and [Some l] otherwise: the code
    tells nil from an empty slice, and so does the database. *)

Abbreviation GoBytes := (option (list Byte.byte)).

#[global] Instance byte_eq_dec : EqDecision Byte.byte := Byte.byte_eq_dec.

(** [len] of a possibly nil slice. *)
Definition go_len (b : GoBytes) : nat := length (default [] b).

(** ** Durations, in nanoseconds *)

Definition Millisecond : Z := 1000000.
Definition Second : Z := 1000 * Millisecond.
Definition Hour : Z := 3600 * Second.

(** ** Errors

    A package-level error value is a [Sentinel]; an error made at a call site
    keeps the pieces of its message apart, so that no quoting has to be
    modelled; [Wrap] is [fmt.Errorf] with [%w]; [Join] is [errors.Join] of a
    non-empty list; [External] is an error of code outside the repository. *)

Inductive frag :=
| Lit (s : string)
| Quoted (s : string)
| Dec (z : Z)
| Dur (z : Z).

Inductive error :=
| Sentinel (name : string)
| NewErr (msg : list frag)
| Wrap (msg : list frag) (inner : error)
| Join (es : list error)
| External (name : string) (code : Z).

(** [errors.Is] against a sentinel: walks the wrapped errors. *)
Fixpoint errors_Is (e : error) (target : string) : bool :=
  match e with
  | Sentinel n => bool_decide (n = target)
  | NewErr _ | External _ _ => false
  | Wrap _ inner => errors_Is inner target
  | Join es => existsb (fun e' => errors_Is e' target) es
  end.

Definition ioEOF : error := Sentinel "io.EOF".
Definition ctxCanceled : error := Sentinel "context.Canceled".
Definition ctxDeadlineExceeded : error := Sentinel "context.DeadlineExceeded".

Inductive result (A : Type) :=
| Ok (a : A)
| Err (e : error).
Arguments Ok {A} _.
Arguments Err {A} _.

Definition is_Ok {A} (r : result A) : bool :=
  match r with Ok _ => true | Err _ => false end.

(** ** The state-passing monad

    An operation that reads or changes the world [W] it runs in. *)

Definition M (W A : Type) : Type := W -> A * W.

#[global] Instance M_ret W : MRet (M W) := fun A a w => (a, w).
#[global] Instance M_bind W : MBind (M W) :=
  fun A B f m w => let '(a, w') := m w in f a w'.

Definition get {W} : M W W := fun w => (w, w).
Definition modify {W} (f : W -> W) : M W unit := fun w => (tt, f w).

Lemma M_bind_unfold {W A B} (m : M W A) (f : A -> M W B) w :
  (m ≫= f) w = f (m w).1 (m w).2.
Proof. unfold mbind, M_bind. by destruct (m w). Qed.

Lemma pair_eta {A B} (x : A * B) a : x.1 = a -> x = (a, x.2).
Proof. intros <-. by destruct x. Qed.

(** ** Prometheus counters

    A counter is its value; a counter vector maps label values to counts. *)

Abbreviation CounterVec := (gmap (list string) Z).

Definition Inc (labels : list string) (v : CounterVec) : CounterVec :=
  <[labels := default 0 (v !! labels) + 1]> v.

Definition count (labels : list string) (v : CounterVec) : Z :=
  default 0 (v !! labels).

Lemma count_Inc_eq ls v : count ls (Inc ls v) = count ls v + 1.
Proof. unfold count, Inc. by rewrite lookup_insert_eq. Qed.

Lemma count_Inc ls ls' v : count ls (Inc ls' v) = count ls v + (if decide (ls = ls') then 1 else 0).
Proof. unfold count, Inc. rewrite lookup_insert. repeat case_decide; simplify_eq; simpl; lia. Qed.

(** ** Invariants of step relations *)

Lemma rtc_invariant {A} (R : relation A) (P : A -> Prop) x y :
  (forall a b, P a -> R a b -> P b) -> P x -> rtc R x y -> P y.
Proof. intros Hstep Hx Hxy. induction Hxy; eauto. Qed.

(** A forward simulation carries every run of the concrete machine to a run of
    the abstract one. *)
Lemma rtc_simulation {A B} (R : relation A) (S : relation B) (sim : A -> B -> Prop) :
  (forall a a' b, sim a b -> R a a' -> exists b', rtc S b b' /\ sim a' b') ->
  forall a a' b, rtc R a a' -> sim a b -> exists b', rtc S b b' /\ sim a' b'.
Proof.
  intros Hstep a a' b Haa'. revert b.
  induction Haa' as [a | a a1 a2 Hs _ IH]; intros b Hsim.
  - exists b. split; [constructor | done].
  - destruct (Hstep _ _ _ Hsim Hs) as (b1 & Hb1 & Hsim1).
    destruct (IH _ Hsim1) as (b2 & Hb2 & Hsim2).
    exists b2. split; [by etrans | done].
Qed.

(** ** Tactics *)

(** Case analysis on every [match] and [if] of the goal and hypotheses, keeping
    the equations. *)
Ltac split_match :=
  repeat match goal with
  | |- context [match ?x with _ => _ end] => destruct x eqn:?; simplify_eq/=
  | H : context [match ?x with _ => _ end] |- _ => destruct x eqn:?; simplify_eq/=
  end.

(** Boolean comparisons of the code as propositions. *)
Ltac bools :=
  repeat match goal with
  | H : (_ <? _) = true |- _ => apply Z.ltb_lt in H
  | H : (_ <? _) = false |- _ => apply Z.ltb_ge in H
  | H : (_ <=? _) = true |- _ => apply Z.leb_le in H
  | H : (_ <=? _) = false |- _ => apply Z.leb_gt in H
  | H : (_ >? _) = true |- _ => rewrite Z.gtb_ltb in H; apply Z.ltb_lt in H
  | H : (_ >? _) = false |- _ => rewrite Z.gtb_ltb in H; apply Z.ltb_ge in H
  | H : (_ =? _) = true |- _ => apply Z.eqb_eq in H
  | H : (_ =? _) = false |- _ => apply Z.eqb_neq in H
  | H : (_ && _)%bool = true |- _ => apply andb_true_iff in H as [? ?]
  | H : (_ || _)%bool = false |- _ => apply orb_false_iff in H as [? ?]
  | H : bool_decide _ = true |- _ => apply bool_decide_eq_true in H
  | H : bool_decide _ = false |- _ => apply bool_decide_eq_false in H
  end.

(** Runs the monad: binds become applications, returns become pairs. *)
Ltac runM :=
  repeat match goal with
  | H : context [(_ ≫= _) _] |- _ => rewrite M_bind_unfold in H
  | |- context [(_ ≫= _) _] => rewrite M_bind_unfold
  end;
  unfold mret, M_ret, get, modify in *; cbn [fst snd] in *.

Create HintDb pubsub.
#[export] Hint Resolve wrapU64_range wrapS64_range wrapS32_range : pubsub.
