(* ===== verification/Text.v ===== *)
(** * Text

    What the encoders share: decimal numbers as [strconv] prints and reads them, and
    the walk over the runes of a byte string as [unicode/utf8] does it. *)

From S2P Require Import Prelude.
From Stdlib Require Import Strings.Byte.

Module Text.

Abbreviation bytes := (list Byte.byte).

(** The bytes of a Go string, and back. *)
Definition bytesOf (s : string) : bytes := String.list_byte_of_string s.
Definition stringOf (b : bytes) : string := String.string_of_list_byte b.

Lemma stringOf_bytesOf s : stringOf (bytesOf s) = s.
Proof. apply String.string_of_list_byte_of_string. Qed.

Lemma bytesOf_inj s s' : bytesOf s = bytesOf s' -> s = s'.
Proof. intros Hs. by rewrite <- (stringOf_bytesOf s), Hs, stringOf_bytesOf. Qed.

(** ** Decimal digits *)

Definition digitByte (d : Z) : Byte.byte :=
  match d with
  | 0 => x30 | 1 => x31 | 2 => x32 | 3 => x33 | 4 => x34
  | 5 => x35 | 6 => x36 | 7 => x37 | 8 => x38 | _ => x39
  end.

Definition digitVal (b : Byte.byte) : option Z :=
  match b with
  | x30 => Some 0 | x31 => Some 1 | x32 => Some 2 | x33 => Some 3 | x34 => Some 4
  | x35 => Some 5 | x36 => Some 6 | x37 => Some 7 | x38 => Some 8 | x39 => Some 9
  | _ => None
  end.

Definition isDigit (b : Byte.byte) : bool := match digitVal b with Some _ => true | None => false end.

Lemma digitVal_digitByte d : 0 <= d < 10 -> digitVal (digitByte d) = Some d.
Proof.
  intros Hd. assert (d ∈ seqZ 0 10) as Hin by (apply elem_of_seqZ; lia).
  vm_compute in Hin. set_unfold in Hin. naive_solver.
Qed.

Lemma isDigit_digitByte d : 0 <= d < 10 -> isDigit (digitByte d) = true.
Proof. intros Hd. unfold isDigit. by rewrite digitVal_digitByte. Qed.

(** The value of a string of digits, most significant first. *)
Definition valFrom (acc : Z) (l : bytes) : Z :=
  fold_left (fun a b => a * 10 + default 0 (digitVal b)) l acc.
Definition decVal (l : bytes) : Z := valFrom 0 l.

Lemma valFrom_app acc l l' : valFrom acc (l ++ l') = valFrom (valFrom acc l) l'.
Proof. apply fold_left_app. Qed.

Lemma valFrom_acc acc l : valFrom acc l = acc * 10 ^ Z.of_nat (length l) + valFrom 0 l.
Proof.
  revert acc. induction l as [|b l IH] using rev_ind; intros acc; [unfold valFrom; simpl; lia|].
  rewrite !valFrom_app, length_app, IH. unfold valFrom at 1 3. simpl.
  rewrite Nat2Z.inj_add, Z.pow_add_r by lia. change (10 ^ Z.of_nat 1) with 10. lia.
Qed.

(** [w] digits of [z], with leading zeros. *)
Fixpoint padded (w : nat) (z : Z) : bytes :=
  match w with
  | O => []
  | S w' => padded w' (z / 10) ++ [digitByte (z mod 10)]
  end.

Lemma padded_length w z : length (padded w z) = w.
Proof. revert z. induction w as [|w IH]; intros z; simpl; [done|]. rewrite length_app, IH. simpl. lia. Qed.

Lemma padded_digits w z : Forall (fun b => isDigit b = true) (padded w z).
Proof.
  revert z. induction w as [|w IH]; intros z; simpl; [constructor|].
  apply Forall_app. split; [done|]. apply Forall_singleton, isDigit_digitByte. apply Z.mod_pos_bound. lia.
Qed.

Lemma decVal_padded w z : 0 <= z < 10 ^ Z.of_nat w -> decVal (padded w z) = z.
Proof.
  revert z. induction w as [|w IH]; intros z Hz; simpl; [simpl in Hz; unfold decVal, valFrom; simpl; lia|].
  unfold decVal in *. rewrite valFrom_app, IH.
  - unfold valFrom. simpl. rewrite digitVal_digitByte by (apply Z.mod_pos_bound; lia). simpl.
    pose proof (Z.div_mod z 10). lia.
  - rewrite Nat2Z.inj_succ, Z.pow_succ_r in Hz by lia. split; [apply Z.div_pos; lia|].
    apply Z.div_lt_upper_bound; lia.
Qed.

(** [strconv.AppendInt] in base 10: no leading zeros. *)
Fixpoint digitsFrom (fuel : nat) (z : Z) : bytes :=
  match fuel with
  | O => []
  | S fuel' => (if z <? 10 then [] else digitsFrom fuel' (z / 10)) ++ [digitByte (z mod 10)]
  end.

Definition decimal (z : Z) : bytes :=
  let digits n := digitsFrom (S (Z.to_nat (Z.log2 n))) n in
  if z <? 0 then x2d :: digits (- z) else digits z.

(** A natural number as the printers write it. *)
Definition plainDigits (l : bytes) : Prop :=
  l <> [] /\ Forall (fun b => isDigit b = true) l /\ (head l = Some x30 -> l = [x30]).

Lemma digitsFrom_spec fuel z :
  0 <= z < 10 ^ Z.of_nat fuel -> (0 < fuel)%nat ->
  decVal (digitsFrom fuel z) = z /\ plainDigits (digitsFrom fuel z) /\ (0 < z -> head (digitsFrom fuel z) <> Some x30).
Proof.
  revert z. induction fuel as [|fuel IH]; intros z Hz Hf; [lia|]. cbn [digitsFrom].
  assert (0 <= z mod 10 < 10) as Hm by (apply Z.mod_pos_bound; lia).
  pose proof (isDigit_digitByte _ Hm) as Hd. pose proof (digitVal_digitByte _ Hm) as Hv.
  pose proof (Z.div_mod z 10 ltac:(lia)) as Hdm.
  destruct (z <? 10) eqn:E; bools.
  - rewrite Z.mod_small in * by lia. simpl. unfold decVal, valFrom. simpl. rewrite Hv. simpl.
    split; [lia|]. split.
    + split; [done|]. split; [by constructor|]. by intros [= ->].
    + intros Hp [= Hh]. rewrite Hh in Hv. injection Hv as <-. lia.
  - rewrite Nat2Z.inj_succ, Z.pow_succ_r in Hz by lia.
    assert (0 <= z / 10 < 10 ^ Z.of_nat fuel) as Hz'
      by (split; [apply Z.div_pos; lia | apply Z.div_lt_upper_bound; lia]).
    destruct fuel as [|fuel0]; [simpl in Hz'; lia|].
    destruct (IH (z / 10) Hz' ltac:(lia)) as (Hval & (Hne & Hall & _) & Hhd).
    specialize (Hhd ltac:(lia)). destruct (digitsFrom (S fuel0) (z / 10)) as [|b l] eqn:El; [done|].
    unfold decVal in *. rewrite valFrom_app, Hval. unfold valFrom. simpl. rewrite Hv. simpl. split; [lia|].
    split; [|done]. split; [done|]. split; [|intros [= ->]; done].
    simpl. apply Forall_cons in Hall as [? ?]. constructor; [done|]. apply Forall_app. by split; [|constructor].
Qed.

Lemma decimal_fuel z : 0 <= z -> 0 <= z < 10 ^ Z.of_nat (S (Z.to_nat (Z.log2 z))).
Proof.
  intros Hz. split; [done|]. rewrite Nat2Z.inj_succ, Z2Nat.id by apply Z.log2_nonneg.
  destruct (Z.eq_dec z 0) as [->|]; [done|].
  pose proof (Z.log2_spec z ltac:(lia)). pose proof (Z.log2_nonneg z).
  apply Z.lt_le_trans with (2 ^ Z.succ (Z.log2 z)); [lia|]. apply Z.pow_le_mono_l. lia.
Qed.

(** [strconv.ParseInt] on a plain literal. *)
Definition parseDecimal (l : bytes) : Z :=
  match l with
  | x2d :: rest => - decVal rest
  | _ => decVal l
  end.

Lemma decimal_roundtrip z : parseDecimal (decimal z) = z.
Proof.
  unfold decimal. destruct (z <? 0) eqn:E; bools.
  - unfold parseDecimal. destruct (digitsFrom_spec _ _ (decimal_fuel (- z) ltac:(lia)) ltac:(lia)) as [-> _]. lia.
  - destruct (digitsFrom_spec _ _ (decimal_fuel z ltac:(lia)) ltac:(lia)) as (Hv & (_ & Hd & _) & _).
    destruct (digitsFrom _ z) as [|b l]; [done|]. apply Forall_cons in Hd as [Hb _]. by destruct b.
Qed.

(** The digits a string starts with, and the rest. *)
Fixpoint spanDigits (l : bytes) : bytes * bytes :=
  match l with
  | b :: rest => if isDigit b then let '(d, r) := spanDigits rest in (b :: d, r) else ([], l)
  | [] => ([], [])
  end.

Lemma spanDigits_all l : Forall (fun b => isDigit b = true) l -> spanDigits l = (l, []).
Proof. induction 1 as [|b l Hb _ IH]; simpl; [done|]. by rewrite Hb, IH. Qed.

End Text.
