(* ===== verification/Backoff.v ===== *)
(** * Backoff delays and clamping

    The delay computations of the reconnect loop (src/internal/pubsub/subscriber.go),
    of the unary interceptor (src/internal/pubsub/interceptor.go) and of the worker
    pool's retry loop (src/internal/worker/pool.go), on 64-bit durations with the
    wrap-around of [<<] and the binary64 multiplication of the jitter written out. *)

From Stdlib Require Import Floats.SpecFloat.
From S2P Require Import Prelude.

(** ** Go's [float64] conversions and product

    The specification floats of the Standard Library at the parameters of
    binary64: 53 bits of precision, maximal exponent 1024. *)

Module Float64.

Definition of_int64 (z : Z) : spec_float := binary_normalize 53 1024 z 0 false.

Definition mul (x y : spec_float) : spec_float := SFmul 53 1024 x y.

(** Conversion to an integer discards the fraction (truncates toward zero). A
    value that is not finite has no defined conversion; none occurs here. *)
Definition to_int64 (f : spec_float) : Z :=
  match f with
  | S754_finite s m e =>
      let v := if 0 <=? e then Z.pos m * 2 ^ e else Z.pos m / 2 ^ (- e) in
      if s then - v else v
  | _ => 0
  end.

(** The constant 0.25 of the sources: 1 * 2^-2. *)
Definition quarter : spec_float := binary_normalize 53 1024 1 (-2) false.

End Float64.

Module Backoff.

(** ** Constants of the sources *)

Definition reconnectMinDelay : Z := 1 * Second.
Definition reconnectMaxDelay : Z := 30 * Second.
Definition maxRetryAttempts : nat := 5.
Definition baseRetryDelay : Z := 100 * Millisecond.
Definition maxRetryDelay : Z := 5 * Second.
Definition retryJitterFactor : spec_float := Float64.quarter.
Definition retryMinDelay : Z := 100 * Millisecond.
Definition retryMaxDelay : Z := 10 * Second.
Definition maxInt32 : Z := 2 ^ 31 - 1.

Definition clampToInt32 (n : Z) : Z :=
  if n >? maxInt32 then maxInt32
  else if n <? 0 then 0
  else n.

(** [d << attempt] on a signed 64-bit integer, for a shift count that is not
    negative (Go panics on a negative one). *)
Definition shl64 (d : Z) (attempt : Z) : Z := wrapS64 (Z.shiftl d attempt).

(** The part of [reconnectDelay] before the jitter. *)
Definition reconnectBase (attempt : Z) : Z :=
  let d := shl64 reconnectMinDelay attempt in
  if (d >? reconnectMaxDelay) || (d <=? 0) then reconnectMaxDelay else d.

(** [time.Duration(float64(d) * 0.25)] *)
Definition spreadOf (d : Z) : Z :=
  Float64.to_int64 (Float64.mul (Float64.of_int64 d) Float64.quarter).

(** [rnd n] is the value [rand.Int64N] returns for the bound [n]. *)
Definition withJitter (rnd : Z -> Z) (d : Z) : Z :=
  let spread := spreadOf d in
  if spread <=? 0 then d
  else
    let jitter := wrapS64 (rnd (wrapS64 (2 * spread)) - spread) in
    wrapS64 (d + jitter).

Definition reconnectDelay (rnd : Z -> Z) (attempt : Z) : Z :=
  withJitter rnd (reconnectBase attempt).

(** The part of [backoffDelay] before the jitter: no guard against a product
    that wrapped to zero or below. *)
Definition backoffBase (attempt : Z) : Z :=
  let d := shl64 baseRetryDelay attempt in
  if d >? maxRetryDelay then maxRetryDelay else d.

Definition backoffDelay (rnd : Z -> Z) (attempt : Z) : Z :=
  withJitter rnd (backoffBase attempt).

(** The update of [delay] at the end of an iteration of the pool's retry loop. *)
Definition nextRetryDelay (delay : Z) : Z :=
  Z.min (wrapS64 (delay * 2)) retryMaxDelay.

(** The delay slept before attempt [k + 2] of the pool's retry loop. *)
Definition retryDelayAt (k : nat) : Z := Nat.iter k nextRetryDelay retryMinDelay.

(** What [rand.Int64N] documents: a value in [0, n) for positive [n]. *)
Definition rand_ok (rnd : Z -> Z) : Prop := forall n, 0 < n -> 0 <= rnd n < n.

(** ** Clamping *)

Lemma clampToInt32_spec n : clampToInt32 n = Z.max 0 (Z.min n maxInt32).
Proof. unfold clampToInt32, maxInt32. repeat case_match; bools; lia. Qed.

Lemma clampToInt32_range n : 0 <= clampToInt32 n <= maxInt32.
Proof. rewrite clampToInt32_spec. unfold maxInt32. lia. Qed.

(** ** The exponential base of the reconnect delay *)

(** Checks a predicate on every shift count below [n]. *)
Fixpoint check_below (n : nat) (p : Z -> bool) : bool :=
  match n with
  | O => true
  | S n' => p (Z.of_nat n') && check_below n' p
  end.

Lemma check_below_spec n p a :
  check_below n p = true -> 0 <= a < Z.of_nat n -> p a = true.
Proof.
  induction n as [|n IH]; intros H Ha; [lia|].
  simpl in H. apply andb_true_iff in H as [Hn Hr].
  destruct (decide (a = Z.of_nat n)) as [->|]; [done|].
  apply IH; [done|lia].
Qed.

(** A shift by 64 or more leaves nothing. *)
Lemma shl64_large d a : 64 <= a -> shl64 d a = 0.
Proof.
  intros Ha. unfold shl64, wrapS64.
  rewrite Z.shiftl_mul_pow2 by lia.
  replace a with (64 + (a - 64)) by lia.
  rewrite Z.pow_add_r by lia.
  rewrite Z.mul_assoc, (Z.mul_comm d), <- Z.mul_assoc, Z.add_comm.
  rewrite (Z.mul_comm (2 ^ 64)), Z.mod_add by lia.
  by vm_compute.
Qed.

Lemma pow2_ge_cut a k : 0 <= k -> k <= a -> 2 ^ k <= 2 ^ a.
Proof. intros. apply Z.pow_le_mono_r; lia. Qed.

(** Whatever the wrap-around of the shift does, the base is the doubling
    sequence cut off at the maximum. *)
Lemma reconnectBase_spec a :
  0 <= a -> reconnectBase a = Z.min (reconnectMinDelay * 2 ^ a) reconnectMaxDelay.
Proof.
  intros Ha. destruct (Z_lt_ge_dec a 64) as [Hlt|Hge].
  - apply Z.eqb_eq.
    apply (check_below_spec 64 (fun a =>
      reconnectBase a =? Z.min (reconnectMinDelay * 2 ^ a) reconnectMaxDelay));
      [by vm_compute | lia].
  - unfold reconnectBase. rewrite shl64_large by lia.
    pose proof (pow2_ge_cut a 64 ltac:(lia) ltac:(lia)).
    unfold reconnectMinDelay, reconnectMaxDelay, Second, Millisecond. simpl. lia.
Qed.

Lemma reconnectBase_values a :
  0 <= a ->
  reconnectBase a ∈ [1 * Second; 2 * Second; 4 * Second; 8 * Second; 16 * Second; 30 * Second].
Proof.
  intros Ha. rewrite reconnectBase_spec by done.
  destruct (Z_lt_ge_dec a 5) as [Hlt|Hge].
  - assert (a = 0 \/ a = 1 \/ a = 2 \/ a = 3 \/ a = 4) as Hc by lia.
    destruct Hc as [->|[->|[->|[->| ->]]]]; vm_compute; repeat constructor.
  - replace (Z.min _ _) with (30 * Second).
    { repeat constructor. }
    pose proof (pow2_ge_cut a 5 ltac:(lia) ltac:(lia)).
    unfold reconnectMinDelay, reconnectMaxDelay, Second, Millisecond. lia.
Qed.

(** ** Jitter *)

(** The jitter keeps a delay within a quarter of its base, when the float
    product is exactly a quarter. *)
Lemma withJitter_bounds rnd d s :
  rand_ok rnd -> spreadOf d = s -> 0 < s -> 4 * s = d -> d < 2 ^ 40 ->
  3 * s <= withJitter rnd d < 5 * s.
Proof.
  intros Hr Hs Hpos H4 Hd. unfold withJitter. rewrite Hs.
  rewrite (proj2 (Z.leb_gt s 0)) by lia.
  rewrite (wrapS64_id (2 * s)) by (unfold in_S64; lia).
  pose proof (Hr (2 * s) ltac:(lia)).
  rewrite (wrapS64_id (rnd (2 * s) - s)) by (unfold in_S64; lia).
  rewrite wrapS64_id by (unfold in_S64; lia). lia.
Qed.

Lemma reconnectBase_spread a :
  0 <= a -> 4 * spreadOf (reconnectBase a) = reconnectBase a /\
            0 < spreadOf (reconnectBase a) /\ reconnectBase a < 2 ^ 40.
Proof.
  intros Ha. pose proof (reconnectBase_values a Ha) as H.
  set_unfold in H. destruct_or! H; rewrite H; by vm_compute.
Qed.

Lemma backoffBase_spread a :
  0 <= a < 37 -> backoffBase a = Z.min (baseRetryDelay * 2 ^ a) maxRetryDelay /\
  4 * spreadOf (backoffBase a) = backoffBase a /\
  0 < spreadOf (backoffBase a) /\ backoffBase a < 2 ^ 40.
Proof.
  intros Ha.
  pose proof (check_below_spec 37 (fun a =>
    (backoffBase a =? Z.min (baseRetryDelay * 2 ^ a) maxRetryDelay) &&
    ((4 * spreadOf (backoffBase a) =? backoffBase a) &&
    ((0 <? spreadOf (backoffBase a)) && (backoffBase a <? 2 ^ 40)))) a
    ltac:(by vm_compute) Ha) as H.
  simpl in H. bools. tauto.
Qed.

(** ** Retry delays of the worker pool *)

Lemma retryDelayAt_spec k :
  retryDelayAt k = Z.min (retryMinDelay * 2 ^ Z.of_nat k) retryMaxDelay.
Proof.
  induction k as [|k IH]; [done|].
  unfold retryDelayAt in *. rewrite Nat.iter_succ, IH. clear IH.
  unfold nextRetryDelay. rewrite wrapS64_id.
  - rewrite Nat2Z.inj_succ, Z.pow_succ_r by lia.
    unfold retryMinDelay, retryMaxDelay, Second, Millisecond. lia.
  - pose proof (Z.pow_pos_nonneg 2 (Z.of_nat k) ltac:(lia) ltac:(lia)).
    unfold in_S64, retryMinDelay, retryMaxDelay, Second, Millisecond. lia.
Qed.

(** ** Properties *)

(** C36. The reconnect delay: for every attempt number, whatever the wrap-around of
    the 64-bit shift, the delay is within a quarter of the doubling sequence that
    starts at one second and is cut off at thirty. *)
Theorem reconnectDelay_bounds rnd attempt :
  rand_ok rnd -> 0 <= attempt ->
  let d := Z.min (reconnectMinDelay * 2 ^ attempt) reconnectMaxDelay in
  3 * d <= 4 * reconnectDelay rnd attempt < 5 * d.
Proof.
  intros Hr Ha d. subst d. rewrite <- reconnectBase_spec by done.
  destruct (reconnectBase_spread attempt Ha) as (H4 & Hp & Hb).
  pose proof (withJitter_bounds rnd (reconnectBase attempt) _ Hr eq_refl Hp H4 Hb).
  unfold reconnectDelay. lia.
Qed.

Lemma reconnectDelay_bounds_witness :
  3 * (30 * Second) <= 4 * reconnectDelay (fun _ => 0) 1000 < 5 * (30 * Second).
Proof. apply (reconnectDelay_bounds (fun _ => 0) 1000); [intros n Hn; lia | lia]. Defined.

(** The unary interceptor's delay: on every attempt it can sleep after, it is
    within a quarter of 100ms * 2^attempt, the five-second cap is not reached and
    no intermediate value overflows. *)
Theorem backoffDelay_bounds rnd attempt :
  rand_ok rnd -> 0 <= attempt < Z.of_nat maxRetryAttempts - 1 ->
  let d := baseRetryDelay * 2 ^ attempt in
  3 * d <= 4 * backoffDelay rnd attempt < 5 * d /\ d < maxRetryDelay.
Proof.
  intros Hr Ha d. unfold maxRetryAttempts in Ha.
  destruct (backoffBase_spread attempt) as (Hb & H4 & Hp & Hlt); [lia|].
  assert (d < maxRetryDelay) as Hd.
  { assert (attempt = 0 \/ attempt = 1 \/ attempt = 2 \/ attempt = 3) as Hc by lia.
    subst d. destruct Hc as [->|[->|[->| ->]]]; by vm_compute. }
  split; [|done].
  pose proof (withJitter_bounds rnd (backoffBase attempt) _ Hr eq_refl Hp H4 Hlt).
  unfold backoffDelay. subst d. lia.
Qed.

Lemma backoffDelay_bounds_witness :
  3 * (800 * Millisecond) <= 4 * backoffDelay (fun n => n - 1) 3 < 5 * (800 * Millisecond).
Proof.
  refine (proj1 (backoffDelay_bounds (fun n => n - 1) 3 _ _)); [intros n Hn; lia | by vm_compute].
Defined.

End Backoff.
