(* ===== verification/Event.v ===== *)
(** * Messages and events

    The Pub/Sub messages the service reads and writes
    (src/proto/salesforce/pubsub_api.pb.go), the raw event a subscriber emits
    (src/internal/pubsub/subscriber.go) and the decoded event the handlers see
    (src/internal/event/event.go). *)

From S2P Require Import Prelude.
From Stdlib Require Import SpecFloat.

(** ** Pub/Sub API messages

    A pointer to a message is an [option]; the generated getters return the zero
    value on nil. Reserved fields the service neither reads nor writes (headers,
    RPC identifiers, auth_refresh) are left out. *)

Module Proto.

Inductive ReplayPreset := LATEST | EARLIEST | CUSTOM.

#[global] Instance ReplayPreset_eq_dec : EqDecision ReplayPreset.
Proof. solve_decision. Defined.

Record ProducerEvent := mkProducerEvent {
  pe_Id : string;
  pe_SchemaId : string;
  pe_Payload : GoBytes;
}.

Record ConsumerEvent := mkConsumerEvent {
  ce_Event : option ProducerEvent;
  ce_ReplayId : GoBytes;
}.

Record FetchRequest := mkFetchRequest {
  fr_TopicName : string;
  fr_ReplayPreset : ReplayPreset;
  fr_ReplayId : GoBytes;
  fr_NumRequested : Z;
}.

Record FetchResponse := mkFetchResponse {
  fresp_Events : list (option ConsumerEvent);
}.

Record TopicInfo := mkTopicInfo {
  ti_TopicName : string;
  ti_CanPublish : bool;
  ti_CanSubscribe : bool;
  ti_SchemaId : string;
}.

Record SchemaInfo := mkSchemaInfo {
  si_SchemaJson : string;
  si_SchemaId : string;
}.

#[global] Instance ProducerEvent_eq_dec : EqDecision ProducerEvent.
Proof. solve_decision. Defined.
#[global] Instance ConsumerEvent_eq_dec : EqDecision ConsumerEvent.
Proof. solve_decision. Defined.

Definition GetId (x : option ProducerEvent) : string :=
  match x with Some e => pe_Id e | None => "" end.
Definition GetSchemaId (x : option ProducerEvent) : string :=
  match x with Some e => pe_SchemaId e | None => "" end.
Definition GetPayload (x : option ProducerEvent) : GoBytes :=
  match x with Some e => pe_Payload e | None => None end.

Definition GetEvent (x : option ConsumerEvent) : option ProducerEvent :=
  match x with Some e => ce_Event e | None => None end.
Definition GetReplayId (x : option ConsumerEvent) : GoBytes :=
  match x with Some e => ce_ReplayId e | None => None end.

Definition GetEvents (x : option FetchResponse) : list (option ConsumerEvent) :=
  match x with Some r => fresp_Events r | None => [] end.

Definition GetSchemaJson (x : option SchemaInfo) : string :=
  match x with Some i => si_SchemaJson i | None => "" end.

Definition TopicInfo_GetSchemaId (x : option TopicInfo) : string :=
  match x with Some i => ti_SchemaId i | None => "" end.

End Proto.

(** ** Events inside the service *)

Module Event.
Import Proto.

(** A decoded Avro value: what the decoder documents it produces. A map is an
    association list without duplicate keys; a floating-point number is a float32 or a
    float64; a timestamp is its nanoseconds, in UTC. *)
Inductive any :=
| ANull
| ABool (b : bool)
| AInt (z : Z)
| AFloat (single : bool) (f : spec_float)
| AString (s : string)
| ABytes (b : list Byte.byte)
| ATime (ns : Z)
| AArray (l : list any)
| AMap (m : list (string * any)).

Abbreviation payload := (list (string * any)).

(** [pubsub.RawEvent]; times are nanoseconds. *)
Record RawEvent := mkRawEvent {
  raw_Topic : string;
  raw_Seq : Z;
  raw_Event : option ConsumerEvent;
  raw_ReceivedAt : Z;
}.

#[global] Instance RawEvent_eq_dec : EqDecision RawEvent.
Proof. solve_decision. Defined.

(** [event.DecodedEvent] *)
Record DecodedEvent := mkDecodedEvent {
  Topic : string;
  EventID : string;
  SchemaID : string;
  ReplayID : GoBytes;
  Payload : payload;
  ReceivedAt : Z;
}.

End Event.
