(* ===== verification/Client.v ===== *)
(** * The gRPC client

    Model of src/internal/pubsub/interceptor.go (the retrying unary interceptor) and
    of the wrappers of src/internal/pubsub/client.go. The transport, the clock and the
    classification of an error into a status code are parameters. *)

From S2P Require Import Prelude Backoff Event.

(** ** Status codes of gRPC *)

Module Grpc.

Inductive Code :=
| OK | Canceled | Unknown | InvalidArgument | DeadlineExceeded | NotFound
| AlreadyExists | PermissionDenied | ResourceExhausted | FailedPrecondition
| Aborted | OutOfRange | Unimplemented | Internal | Unavailable | DataLoss
| Unauthenticated.

#[global] Instance Code_eq_dec : EqDecision Code.
Proof. solve_decision. Defined.

Definition Code_String (c : Code) : string :=
  match c with
  | OK => "OK" | Canceled => "Canceled" | Unknown => "Unknown"
  | InvalidArgument => "InvalidArgument" | DeadlineExceeded => "DeadlineExceeded"
  | NotFound => "NotFound" | AlreadyExists => "AlreadyExists"
  | PermissionDenied => "PermissionDenied" | ResourceExhausted => "ResourceExhausted"
  | FailedPrecondition => "FailedPrecondition" | Aborted => "Aborted"
  | OutOfRange => "OutOfRange" | Unimplemented => "Unimplemented"
  | Internal => "Internal" | Unavailable => "Unavailable" | DataLoss => "DataLoss"
  | Unauthenticated => "Unauthenticated"
  end.

End Grpc.

Module Client.
Import Grpc Backoff Proto.

(** ** Metrics: the duration histogram is kept as its observation count. *)
Record clientMetrics := mkClientMetrics {
  rpcDuration : CounterVec;
  rpcTotal : CounterVec;
  rpcRetries : CounterVec;
}.

Definition noMetrics : clientMetrics := mkClientMetrics ∅ ∅ ∅.

Definition incTotal (method : string) (c : Code) (m : clientMetrics) : clientMetrics :=
  mkClientMetrics (rpcDuration m) (Inc [method; Code_String c] (rpcTotal m)) (rpcRetries m).
Definition observe (method : string) (m : clientMetrics) : clientMetrics :=
  mkClientMetrics (Inc [method] (rpcDuration m)) (rpcTotal m) (rpcRetries m).
Definition incRetries (method : string) (c : Code) (m : clientMetrics) : clientMetrics :=
  mkClientMetrics (rpcDuration m) (rpcTotal m) (Inc [method; Code_String c] (rpcRetries m)).

Definition isRetryable (c : Code) : bool :=
  bool_decide (c = Unavailable) || bool_decide (c = DeadlineExceeded).

Section Interceptor.
(** [invoker] makes the call; [sleep d] waits in the select on [ctx.Done] and
    [time.After d] and tells whether the context won; [rnd k] draws the jitter of
    attempt [k]. *)
Context {W : Type}.
Context (status_Code : error -> Code).
Context (invoker : M W (option error)) (sleep : Z -> M W bool) (ctx_Err : W -> error).
Context (rnd : nat -> Z -> Z) (method : string).

(** The loop [for attempt := range maxRetryAttempts]: [left] iterations remain,
    and [attempt] is the number of the current one. *)
Fixpoint unaryLoop (left attempt : nat) (lastErr : option error) (m : clientMetrics) (w : W)
    : option error * clientMetrics * W :=
  match left with
  | O => (lastErr, m, w)
  | S left' =>
      let '(err, w1) := invoker w in
      match err with
      | None => (None, observe method (incTotal method OK m), w1)
      | Some e =>
          let code := status_Code e in
          if negb (isRetryable code) || (attempt =? maxRetryAttempts - 1)%nat then
            (Some e, observe method (incTotal method code m), w1)
          else
            let m1 := incRetries method code m in
            let delay := backoffDelay (rnd attempt) (Z.of_nat attempt) in
            let '(ctxDone, w2) := sleep delay w1 in
            if ctxDone then (Some (ctx_Err w2), incTotal method Canceled m1, w2)
            else unaryLoop left' (S attempt) (Some e) m1 w2
      end
  end.

Definition unaryInterceptor (m : clientMetrics) (w : W) : option error * clientMetrics * W :=
  unaryLoop maxRetryAttempts 0 None m w.

End Interceptor.

(** ** Typed wrappers

    The unary call itself is the argument [call]. *)

Definition ErrTopicNotFound : error := Sentinel "ErrTopicNotFound".
Definition ErrSchemaNotFound : error := Sentinel "ErrSchemaNotFound".

Section Wrappers.
Context (status_Code : error -> Code).

Definition GetTopic (call : string -> result TopicInfo) (name : string) : result TopicInfo :=
  match call name with
  | Err err =>
      if decide (status_Code err = NotFound) then Err (Wrap [Lit name] ErrTopicNotFound)
      else Err (Wrap [Lit "GetTopic "; Quoted name] err)
  | Ok info => Ok info
  end.

Definition GetSchema (call : string -> result SchemaInfo) (schemaID : string) : result SchemaInfo :=
  match call schemaID with
  | Err err =>
      if decide (status_Code err = NotFound) then Err (Wrap [Lit schemaID] ErrSchemaNotFound)
      else Err (Wrap [Lit "GetSchema "; Quoted schemaID] err)
  | Ok info => Ok info
  end.

End Wrappers.

(** ** Properties *)

Section Spec.
(** The k-th call answers [responses k]; the sleep after it ends by cancellation
    when [cancels k]. The state is the number of calls made. *)
Context (status_Code : error -> Code).
Context (responses : nat -> option error) (cancels : nat -> bool) (ctxErr : error).
Context (rnd : nat -> Z -> Z) (method : string).

Definition scriptInvoker : M nat (option error) := fun n => (responses n, S n).
Definition scriptSleep (d : Z) : M nat bool := fun n => (cancels (n - 1)%nat, n).

Definition interceptScript (m : clientMetrics) : option error * clientMetrics * nat :=
  unaryInterceptor status_Code scriptInvoker scriptSleep (fun _ => ctxErr) rnd method m 0%nat.

(** Call [k] failed with an error worth another attempt, and its sleep was not
    interrupted. *)
Definition retried (k : nat) : Prop :=
  exists e, responses k = Some e /\ isRetryable (status_Code e) = true /\ cancels k = false.

(** How the call numbered [k] ends the loop, with the code it is counted under. *)
Inductive ends (k : nat) : option error -> Code -> Prop :=
| ends_ok : responses k = None -> ends k None OK
| ends_err e : responses k = Some e ->
    isRetryable (status_Code e) = false \/ k = 4%nat -> ends k (Some e) (status_Code e)
| ends_cancel e : responses k = Some e -> isRetryable (status_Code e) = true -> (k < 4)%nat ->
    cancels k = true -> ends k (Some ctxErr) Canceled.

Lemma unaryLoop_spec left attempt lastErr m r m' n :
  (attempt + left = 5)%nat -> (0 < left)%nat ->
  unaryLoop status_Code scriptInvoker scriptSleep (fun _ => ctxErr) rnd method
    left attempt lastErr m attempt = (r, m', n) ->
  exists k c, n = S k /\ (attempt <= k <= 4)%nat /\
    (forall j, (attempt <= j < k)%nat -> retried j) /\ ends k r c /\
    rpcTotal m' = Inc [method; Code_String c] (rpcTotal m).
Proof.
  revert attempt lastErr m. induction left as [|left IH]; intros attempt lastErr m Hsum Hpos H; [lia|].
  cbn [unaryLoop] in H. unfold scriptInvoker at 1 in H. cbn in H.
  destruct (responses attempt) as [e|] eqn:Er.
  2: { simplify_eq. exists attempt, OK. split_and!; [done|lia|lia|intros j Hj; lia|by constructor|done]. }
  destruct (negb (isRetryable (status_Code e)) || (attempt =? 4)%nat) eqn:Eb.
  - simplify_eq. exists attempt, (status_Code e). split_and!; [done|lia|lia|intros j Hj; lia| |done].
    apply ends_err; [done|]. apply orb_true_iff in Eb as [Eb|Eb].
    + left. by apply negb_true_iff.
    + right. by apply Nat.eqb_eq.
  - apply orb_false_iff in Eb as [Eb Ea]. apply negb_false_iff in Eb. apply Nat.eqb_neq in Ea.
    rewrite Nat.sub_0_r in H. destruct (cancels attempt) eqn:Ec.
    + simplify_eq. exists attempt, Canceled. split_and!; [done|lia|lia|intros j Hj; lia| |done].
      eapply ends_cancel; eauto. lia.
    + destruct (IH (S attempt) (Some e) (incRetries method (status_Code e) m)) as
        (k & c & Hn & Hk & Hr & He & Hm); [lia..|done|].
      exists k, c. split_and!; try done; try lia.
      intros j Hj. destruct (decide (j = attempt)) as [->|]; [exists e; auto|].
      apply Hr. lia.
Qed.

(** C35. The unary interceptor, in full: it makes between one and five calls; every
    call but the last failed with UNAVAILABLE or DEADLINE_EXCEEDED and was slept
    on; the last one decides the result (success, an error that is not retried or
    that came on the fifth attempt, or cancellation during the sleep); the final
    "return lastErr" is not reached; and exactly one sample is added to
    pubsub_grpc_rpc_total, under the code of the outcome. *)
Theorem unaryInterceptor_spec m r m' n :
  interceptScript m = (r, m', n) ->
  exists k c, n = S k /\ (k <= 4)%nat /\ (forall j, (j < k)%nat -> retried j) /\ ends k r c /\
    rpcTotal m' = Inc [method; Code_String c] (rpcTotal m).
Proof.
  intros H. destruct (unaryLoop_spec 5 0 None m r m' n) as (k & c & Hn & Hk & Hr & He & Hm);
    [done | lia | exact H |].
  exists k, c. split_and!; try done; try lia. intros j Hj. apply Hr. lia.
Qed.

End Spec.

(** Two transient failures, then success: three calls. *)
Lemma unaryInterceptor_spec_witness :
  let responses k := if (k <? 2)%nat then Some (External "rpc" 14) else None in
  exists k c, 3%nat = S k /\ (k <= 4)%nat /\
    (forall j, (j < k)%nat -> retried (fun _ => Unavailable) responses (fun _ => false) j) /\
    ends (fun _ => Unavailable) responses (fun _ => false) ctxCanceled k None c /\
    rpcTotal (interceptScript (fun _ => Unavailable) responses (fun _ => false) ctxCanceled
                (fun _ _ => 0) "m" noMetrics).1.2 = Inc ["m"; Code_String c] ∅.
Proof.
  intros responses.
  apply (unaryInterceptor_spec (fun _ => Unavailable) responses (fun _ => false) ctxCanceled
           (fun _ _ => 0) "m" noMetrics None).
  by vm_compute.
Defined.

(** The typed wrappers hide no failure and invent none: [GetTopic] and
    [GetSchema] return the response exactly when the call succeeded, and report
    their not-found sentinel exactly when the status code is NOT_FOUND. *)
Lemma wrappers_not_found status_Code calltopic callschema name id :
  (forall info, GetTopic status_Code calltopic name = Ok info <-> calltopic name = Ok info) /\
  (forall info, GetSchema status_Code callschema id = Ok info <-> callschema id = Ok info) /\
  (forall e, calltopic name = Err e -> errors_Is e "ErrTopicNotFound" = false ->
     exists e', GetTopic status_Code calltopic name = Err e' /\
       (errors_Is e' "ErrTopicNotFound" = true <-> status_Code e = NotFound)) /\
  (forall e, callschema id = Err e -> errors_Is e "ErrSchemaNotFound" = false ->
     exists e', GetSchema status_Code callschema id = Err e' /\
       (errors_Is e' "ErrSchemaNotFound" = true <-> status_Code e = NotFound)).
Proof.
  unfold GetTopic, GetSchema.
  split; [|split; [|split]].
  - intros info. destruct (calltopic name); [done|]. case_decide; done.
  - intros info. destruct (callschema id); [done|]. case_decide; done.
  - intros e -> He. case_decide as Hd; eexists; (split; [reflexivity|]); simpl.
    + done.
    + rewrite He. split; [done | intros; contradiction].
  - intros e -> He. case_decide as Hd; eexists; (split; [reflexivity|]); simpl.
    + done.
    + rewrite He. split; [done | intros; contradiction].
Qed.

End Client.
