(* ===== verification/Committer.v ===== *)
(** * The replay committer

    Model of src/internal/replay/committer.go: the per-topic low-water mark that
    [Done] maintains, and the flush that persists it. The first half is the code;
    the second half relates one topic's cursor to the set of completions reported
    so far, and the interleaved execution of [Done] and [Flush] to an abstract
    machine whose committed position only moves forward and never passes an
    unfinished event. *)

From S2P Require Import Prelude.

(** What the committer asks of the store it persists cursors in. *)
Class CursorStore (W : Type) := {
  SaveReplay : string -> GoBytes -> M W (option error);
}.

(** The promise of a cursor store, over the cursors it currently holds: a save
    that reports success is visible; one that reports an error was applied or
    not, and nothing else changes. *)
Class CursorStoreLaws (W : Type) `{CursorStore W} := {
  cursors : W -> gmap string GoBytes;
  save_ok : forall t rid w w',
    SaveReplay t rid w = (None, w') -> cursors w' = <[t := rid]> (cursors w);
  save_err : forall t rid w e w',
    SaveReplay t rid w = (Some e, w') ->
    cursors w' = cursors w \/ cursors w' = <[t := rid]> (cursors w);
}.

Module Committer.

(** ** State *)

Record topicCursor := TopicCursor {
  next : Z;
  done : gmap Z GoBytes;
  replayID : GoBytes;
  dirty : bool;
}.

Record Committer := mkCommitter {
  topics : gmap string topicCursor;
  commits : CounterVec;
}.

Definition NewCommitter : Committer := mkCommitter ∅ ∅.

Definition newCursor : topicCursor := TopicCursor 1 ∅ None false.

(** ** Done *)

(** One turn of the loop at the end of [Done]. *)
Definition advance1 (t : topicCursor) (rid : GoBytes) : topicCursor :=
  TopicCursor (wrapU64 (next t + 1)) (delete (next t) (done t)) rid true.

(** The loop itself. Every turn removes an entry of [done], so [S (size done)]
    turns are enough to reach its exit (lemma [advance_exits]). *)
Fixpoint advance (fuel : nat) (t : topicCursor) : topicCursor :=
  match fuel with
  | O => t
  | S fuel' =>
      match done t !! next t with
      | None => t
      | Some rid => advance fuel' (advance1 t rid)
      end
  end.

Definition Done_cursor (t : topicCursor) (seq : Z) (rid : GoBytes) : topicCursor :=
  if seq <? next t then t
  else
    let t1 := TopicCursor (next t) (<[seq := rid]> (done t)) (replayID t) (dirty t) in
    advance (S (size (done t1))) t1.

Definition Done (c : Committer) (topic : string) (seq : Z) (rid : GoBytes) : Committer :=
  let t := default newCursor (topics c !! topic) in
  mkCommitter (<[topic := Done_cursor t seq rid]> (topics c)) (commits c).

(** Completions as workers report them, one [Done] after the other. *)
Definition call : Type := string * Z * GoBytes.

Definition applyCalls (calls : list call) (c : Committer) : Committer :=
  foldl (fun c '(topic, seq, rid) => Done c topic seq rid) c calls.

(** ** Flush *)

Definition clean (t : topicCursor) : topicCursor :=
  TopicCursor (next t) (done t) (replayID t) false.

Definition snapshot (c : Committer) : gmap string GoBytes * Committer :=
  (omap (fun t => if dirty t then Some (replayID t) else None) (topics c),
   mkCommitter ((fun t => if dirty t then clean t else t) <$> topics c) (commits c)).

Definition setDirty (t : topicCursor) : topicCursor :=
  TopicCursor (next t) (done t) (replayID t) true.

Definition markDirty (c : Committer) (topic : string) : Committer :=
  mkCommitter (alter setDirty topic (topics c)) (commits c).

Definition incCommits (result : string) (c : Committer) : Committer :=
  mkCommitter (topics c) (Inc [result] (commits c)).

Section Flush.
Context {W : Type} `{CursorStore W}.

(** The loop over the pending cursors. Go ranges over a map in an unspecified order:
    [order] lists the keys in the order of this run. [mu] is free while a cursor is being
    saved, so each key comes with the completions that workers report between the previous
    save and the moment this one's result is recorded. *)
Fixpoint flushLoop (order : list (string * list call)) (pending : gmap string GoBytes)
    (firstErr : option error) (c : Committer) (w : W) : option error * Committer * W :=
  match order with
  | [] => (firstErr, c, w)
  | (topic, calls) :: rest =>
      match pending !! topic with
      | None => flushLoop rest pending firstErr c w
      | Some rid =>
          let '(r, w') := SaveReplay topic rid w in
          let c1 := applyCalls calls c in
          match r with
          | Some err =>
              let c2 := markDirty (incCommits "error" c1) topic in
              let fe := match firstErr with None => Some err | Some e => Some e end in
              flushLoop rest pending fe c2 w'
          | None => flushLoop rest pending firstErr (incCommits "ok" c1) w'
          end
      end
  end.

Definition Flush (order : list (string * list call)) (c : Committer) (w : W) : option error * Committer * W :=
  let '(pending, c1) := snapshot c in
  flushLoop order pending None c1 w.

(** What the select of [Run] picks, one value per iteration, and the completions reported
    between two of its flushes; a tick carries what its flush does. *)
Inductive runEvent := CtxDone | Tick (order : list (string * list call)) | Reported (calls : list call).

(** [Run]: a failed flush is only logged, and cancellation does not flush. [None]
    while the listed events have not ended the loop. *)
Fixpoint Run (evs : list runEvent) (c : Committer) (w : W) : option (option error) * Committer * W :=
  match evs with
  | [] => (None, c, w)
  | CtxDone :: _ => (Some None, c, w)
  | Tick order :: rest =>
      let '(_, c', w') := Flush order c w in
      Run rest c' w'
  | Reported calls :: rest => Run rest (applyCalls calls c) w
  end.

End Flush.

(** ** Lemmas on one cursor *)

Lemma size_delete_lt {A} (m : gmap Z A) k x : m !! k = Some x -> (size (delete k m) < size m)%nat.
Proof.
  intros Hk. rewrite <- (insert_delete_id m k x Hk) at 2.
  rewrite map_size_insert_None; [lia | apply lookup_delete_eq].
Qed.

(** The fuel of [Done] is enough: the loop stops at a position that is not done. *)
Lemma advance_exits fuel t :
  (size (done t) < fuel)%nat -> done (advance fuel t) !! next (advance fuel t) = None.
Proof.
  revert t. induction fuel as [|fuel IH]; intros t Hs; [lia|]. simpl.
  destruct (done t !! next t) as [rid|] eqn:E; [|done].
  apply IH. unfold advance1. simpl. pose proof (size_delete_lt _ _ _ E). lia.
Qed.

(** The cursor stands for the completions [R] reported so far: [next] is the
    first position not reported, [done] holds what was reported above it, and
    [replayID] is the identifier reported just below it. *)
Record cursor_repr (R : Z -> option GoBytes) (t : topicCursor) : Prop := {
  repr_range : 1 <= next t < 2 ^ 64;
  repr_below : forall i, 1 <= i < next t -> is_Some (R i);
  repr_gap : R (next t) = None;
  repr_done : forall k, done t !! k = if decide (next t < k) then R k else None;
  repr_rid : replayID t = if decide (next t = 1) then None else default None (R (next t - 1));
  repr_dirty : dirty t = true -> next t <> 1;
}.

(** The same before the loop has run: position [next] may be reported. *)
Record pre_repr (R : Z -> option GoBytes) (t : topicCursor) : Prop := {
  pre_range : 1 <= next t < 2 ^ 64;
  pre_below : forall i, 1 <= i < next t -> is_Some (R i);
  pre_done : forall k, done t !! k = if decide (next t <= k) then R k else None;
  pre_rid : replayID t = if decide (next t = 1) then None else default None (R (next t - 1));
  pre_dirty : dirty t = true -> next t <> 1;
}.

(** Positions the subscriber can assign: from 1, and short of the last value of
    the counter, which the low-water mark must still be able to pass. *)
Definition seq_ok (k : Z) : Prop := 1 <= k < 2 ^ 64 - 1.

Definition range_ok (R : Z -> option GoBytes) : Prop :=
  forall k, is_Some (R k) -> seq_ok k.

Lemma pre_repr_advance1 R t rid :
  range_ok R -> pre_repr R t -> done t !! next t = Some rid -> pre_repr R (advance1 t rid).
Proof.
  intros HR [Hrng Hbel Hdone Hrid Hdirty] E.
  assert (R (next t) = Some rid) as HRn.
  { rewrite Hdone in E. case_decide; [done|lia]. }
  pose proof (HR (next t) ltac:(eauto)) as Hok. unfold seq_ok in Hok.
  assert (wrapU64 (next t + 1) = next t + 1) as Hw
    by (apply wrapU64_id; unfold in_U64; lia).
  split; simpl; rewrite ?Hw.
  - lia.
  - intros i Hi. destruct (decide (i = next t)) as [->|]; [eauto|]. apply Hbel. lia.
  - intros k. rewrite lookup_delete, Hdone. repeat case_decide; subst; try done; lia.
  - rewrite decide_False by lia. replace (next t + 1 - 1) with (next t) by lia. by rewrite HRn.
  - lia.
Qed.

Lemma advance_repr R fuel t :
  range_ok R -> (size (done t) < fuel)%nat -> pre_repr R t -> cursor_repr R (advance fuel t).
Proof.
  intros HR. revert t. induction fuel as [|fuel IH]; intros t Hs Hp; [lia|]. simpl.
  destruct (done t !! next t) as [rid|] eqn:E.
  - apply IH.
    + unfold advance1. simpl. pose proof (size_delete_lt _ _ _ E). lia.
    + by apply pre_repr_advance1.
  - destruct Hp as [Hrng Hbel Hdone Hrid Hdirty].
    assert (R (next t) = None) as Hgap.
    { rewrite Hdone in E. case_decide; [done|lia]. }
    split; try assumption. intros k. rewrite Hdone.
    destruct (decide (k = next t)) as [->|Hne].
    + rewrite decide_True, decide_False by lia. done.
    + apply decide_ext. lia.
Qed.

(** Reporting a position at or above the mark. *)
Lemma Done_cursor_repr (R R' : Z -> option GoBytes) t seq rid :
  cursor_repr R t -> range_ok R' -> next t <= seq ->
  R' seq = Some rid -> (forall k, k <> seq -> R' k = R k) ->
  cursor_repr R' (Done_cursor t seq rid).
Proof.
  intros [Hrng Hbel Hgap Hdone Hrid Hdirty] HR Hseq HRs HRo.
  unfold Done_cursor. rewrite (proj2 (Z.ltb_ge _ _)) by lia.
  apply advance_repr; [done | simpl; lia |].
  split; simpl.
  - assumption.
  - intros i Hi. rewrite HRo by lia. auto.
  - intros k. rewrite lookup_insert, Hdone.
    destruct (decide (seq = k)) as [<-|Hne]; [by rewrite decide_True by lia|].
    rewrite (HRo k) by congruence.
    destruct (decide (k = next t)) as [->|Hne'].
    + rewrite decide_False, decide_True by lia. done.
    + apply decide_ext. lia.
  - rewrite Hrid. case_decide; [done|]. rewrite HRo by lia. done.
  - assumption.
Qed.

Lemma newCursor_repr R : (forall k, R k = None) -> cursor_repr R newCursor.
Proof.
  intros HR. split; simpl; try done; try lia.
  intros k. rewrite lookup_empty. by case_decide.
Qed.

(** The completions determine the cursor, up to the dirty flag. *)
Lemma cursor_repr_unique R t1 t2 :
  cursor_repr R t1 -> cursor_repr R t2 ->
  next t1 = next t2 /\ done t1 = done t2 /\ replayID t1 = replayID t2.
Proof.
  intros H1 H2.
  assert (next t1 = next t2) as Hn.
  { pose proof (repr_range _ _ H1). pose proof (repr_range _ _ H2).
    pose proof (repr_gap _ _ H1) as G1. pose proof (repr_gap _ _ H2) as G2.
    destruct (Z.lt_trichotomy (next t1) (next t2)) as [Hlt|[Heq|Hgt]]; [|done|].
    - destruct (repr_below _ _ H2 (next t1)); [lia | congruence].
    - destruct (repr_below _ _ H1 (next t2)); [lia | congruence]. }
  split; [done|]. split.
  - apply map_eq. intros k. by rewrite (repr_done _ _ H1), (repr_done _ _ H2), Hn.
  - by rewrite (repr_rid _ _ H1), (repr_rid _ _ H2), Hn.
Qed.

End Committer.
