(* ===== verification/Storage.v ===== *)
(** * Storage

    Model of src/internal/storage (event_repo.go, replay_repo.go, storage.go) over
    the two tables of src/migrations/000001_init.up.sql. The repositories' SQL
    statements are interpreted on the tables; a list of faults, one per statement,
    says which of them fail and whether their effect was applied first. *)

From S2P Require Import Prelude Event Committer.

Module Storage.
Import Event.

(** ** The database *)

(** A row of [processed_events]; [replay_id] is declared NOT NULL. *)
Record EventRow := mkEventRow {
  row_id : Z;
  row_topic : string;
  row_schema_id : string;
  row_replay_id : list Byte.byte;
  row_payload : list Byte.byte;
  row_received_at : Z;
}.

(** What happens to the next statement: it runs, it fails without effect, or its
    effect is applied and the client still sees an error (a lost connection). *)
Inductive fault := Healthy | FailBefore (code : Z) | FailAfter (code : Z).

(** [processed_events] is keyed by its UNIQUE column event_uuid, [replay_state] by
    its primary key topic. [next_id] is the sequence behind BIGSERIAL; an insert
    draws from it whether or not the row is kept. *)
Record DB := mkDB {
  processed_events : gmap string EventRow;
  next_id : Z;
  replay_state : gmap string (list Byte.byte);
  faults : list fault;
}.

Definition emptyDB : DB := mkDB ∅ 1 ∅ [].

Definition ErrNoRows : error := Sentinel "pgx.ErrNoRows".
Definition errNotNull (column : string) : error := External "not_null_violation" 23502.

(** The error of a failed statement; never the "no rows" outcome. *)
Definition dbError (code : Z) : error := External "pgx" code.

(** Takes the fault of the next statement. *)
Definition nextFault : M DB fault := fun d =>
  match faults d with
  | [] => (Healthy, d)
  | f :: fs => (f, mkDB (processed_events d) (next_id d) (replay_state d) fs)
  end.

(** Runs a statement under the next fault. *)
Definition statement {A} (stmt : M DB (result A)) : M DB (result A) :=
  f ← nextFault;
  match f with
  | Healthy => stmt
  | FailBefore code => mret (Err (dbError code))
  | FailAfter code => stmt ≫= fun _ => mret (Err (dbError code))
  end.

(** INSERT INTO processed_events ... ON CONFLICT (event_uuid) DO NOTHING RETURNING id:
    a missing row is [ErrNoRows]; a NULL replay_id violates its constraint. *)
Definition insertEvent (uuid topic schema_id : string) (replay_id : GoBytes)
    (payload : list Byte.byte) (received_at : Z) : M DB (result Z) := fun d =>
  let d' := mkDB (processed_events d) (next_id d + 1) (replay_state d) (faults d) in
  match replay_id with
  | None => (Err (errNotNull "replay_id"), d')
  | Some rid =>
      match processed_events d !! uuid with
      | Some _ => (Err ErrNoRows, d')
      | None =>
          let row := mkEventRow (next_id d) topic schema_id rid payload received_at in
          (Ok (next_id d),
           mkDB (<[uuid := row]> (processed_events d)) (next_id d + 1) (replay_state d) (faults d))
      end
  end.

(** SELECT replay_id FROM replay_state WHERE topic = $1 *)
Definition selectReplay (topic : string) : M DB (result GoBytes) := fun d =>
  match replay_state d !! topic with
  | None => (Err ErrNoRows, d)
  | Some rid => (Ok (Some rid), d)
  end.

(** INSERT INTO replay_state ... ON CONFLICT (topic) DO UPDATE SET replay_id = EXCLUDED.replay_id *)
Definition upsertReplay (topic : string) (rid : GoBytes) : M DB (result unit) := fun d =>
  match rid with
  | None => (Err (errNotNull "replay_id"), d)
  | Some r => (Ok tt, mkDB (processed_events d) (next_id d) (<[topic := r]> (replay_state d)) (faults d))
  end.

(** ** Repositories *)

Definition isNoRows (e : error) : bool := errors_Is e "pgx.ErrNoRows".

(** [ReplayRepo.Get] *)
Definition Get (topic : string) : M DB (result GoBytes) :=
  r ← statement (selectReplay topic);
  match r with
  | Ok rid => mret (Ok rid)
  | Err e => if isNoRows e then mret (Ok None)
             else mret (Err (Wrap [Lit "load replay for "; Quoted topic] e))
  end.

(** [ReplayRepo.Set] *)
Definition Set_ (topic : string) (rid : GoBytes) : M DB (option error) :=
  r ← statement (upsertReplay topic rid);
  match r with
  | Ok _ => mret None
  | Err e => mret (Some (Wrap [Lit "set replay for "; Quoted topic] e))
  end.

Section Repo.
(** [json.Marshal] of a payload. *)
Context (json_Marshal : payload -> result (list Byte.byte)).

(** [EventRepo.Upsert] *)
Definition Upsert (e : DecodedEvent) : M DB (result bool) :=
  match json_Marshal (Payload e) with
  | Err err => mret (Err (Wrap [Lit "marshal payload"] err))
  | Ok p =>
      r ← statement (insertEvent (EventID e) (Topic e) (SchemaID e) (ReplayID e) p (ReceivedAt e));
      match r with
      | Ok _ => mret (Ok true)
      | Err err => if isNoRows err then mret (Ok false)
                   else mret (Err (Wrap [Lit "insert event "; Quoted (EventID e)] err))
      end
  end.

(** [Store.PersistEvent] *)
Definition PersistEvent (e : DecodedEvent) : M DB (result bool) :=
  r ← Upsert e;
  match r with
  | Err err => mret (Err (Wrap [Lit "persist event"] err))
  | Ok inserted => mret (Ok inserted)
  end.

End Repo.

(** [Store.LoadReplay] and [Store.SaveReplay] *)
Definition LoadReplay (topic : string) : M DB (result GoBytes) := Get topic.

#[global] Instance Store_CursorStore : CursorStore DB := {
  SaveReplay topic rid := Set_ topic rid;
}.

(** [NewPool]'s conversion of the configured pool size: [int32(maxConns)]. *)
Definition poolMaxConns (maxConns : Z) : Z := wrapS32 maxConns.

(** ** The store keeps the promise the committer relies on *)

Definition storedCursors (d : DB) : gmap string GoBytes := Some <$> replay_state d.

Lemma storedCursors_insert d topic r :
  Some <$> <[topic := r]> (replay_state d) = <[topic := Some r]> (storedCursors d).
Proof. unfold storedCursors. by rewrite fmap_insert. Qed.

Lemma nextFault_state d f d' :
  nextFault d = (f, d') ->
  processed_events d' = processed_events d /\ next_id d' = next_id d /\
  replay_state d' = replay_state d.
Proof. unfold nextFault. destruct (faults d); intros; by simplify_eq. Qed.

(** Every statement either ran or left the tables as they were. *)
Lemma statement_cases {A} (stmt : M DB (result A)) d r d' :
  statement stmt d = (r, d') ->
  exists d0 f, nextFault d = (f, d0) /\
    ((f = Healthy /\ stmt d0 = (r, d')) \/
     (exists e, f = FailBefore e /\ r = Err (dbError e) /\ d' = d0) \/
     (exists e r0, f = FailAfter e /\ r = Err (dbError e) /\ stmt d0 = (r0, d'))).
Proof.
  unfold statement. rewrite M_bind_unfold. destruct (nextFault d) as [f d0]. simpl.
  intros Hs. exists d0, f. split; [done|]. destruct f as [|e|e].
  - by left.
  - right. left. runM. simplify_eq. eauto.
  - right. right. rewrite M_bind_unfold in Hs.
    destruct (stmt d0) as [r0 d1]. runM. simplify_eq/=. eauto.
Qed.

Lemma upsertReplay_cases topic rid d r d' :
  upsertReplay topic rid d = (r, d') ->
  (is_Ok r = true /\ storedCursors d' = <[topic := rid]> (storedCursors d)) \/
  (is_Ok r = false /\ d' = d).
Proof.
  unfold upsertReplay. destruct rid as [rid|]; intros; simplify_eq/=; [left|right; done].
  split; [done|]. apply storedCursors_insert.
Qed.

Lemma nextFault_cursors d f d' : nextFault d = (f, d') -> storedCursors d' = storedCursors d.
Proof. intros (_ & _ & H)%nextFault_state. unfold storedCursors. by rewrite H. Qed.

Lemma Set_cases topic rid d r d' :
  Set_ topic rid d = (r, d') ->
  (r = None /\ storedCursors d' = <[topic := rid]> (storedCursors d)) \/
  (r <> None /\ (storedCursors d' = storedCursors d \/
                 storedCursors d' = <[topic := rid]> (storedCursors d))).
Proof.
  unfold Set_. rewrite M_bind_unfold.
  destruct (statement _ d) as [r0 d1] eqn:E. cbn [fst snd]. intros Hr.
  runM. assert (d1 = d') as -> by (destruct r0; by simplify_eq/=).
  destruct (statement_cases _ _ _ _ E) as (d0 & f & Hf & Hc).
  rewrite <- (nextFault_cursors _ _ _ Hf).
  destruct Hc as [[-> Hs]|[(e & -> & -> & ->)|(e & r1 & -> & -> & Hs)]].
  - destruct (upsertReplay_cases _ _ _ _ _ Hs) as [[Hok Hs']|[Hok ->]];
      destruct r0; simplify_eq/=; [left; done | right; split; [done | by left]].
  - simplify_eq/=. right. split; [done | by left].
  - simplify_eq/=. right. split; [done|].
    destruct (upsertReplay_cases _ _ _ _ _ Hs) as [[_ Hs']|[_ ->]]; [by right | by left].
Qed.

#[global] Program Instance Store_CursorStoreLaws : CursorStoreLaws DB := {
  cursors := storedCursors;
}.
Next Obligation.
  intros t rid w w' H. destruct (Set_cases _ _ _ _ _ H) as [[_ ?]|[? _]]; done.
Qed.
Next Obligation.
  intros t rid w e w' H. destruct (Set_cases _ _ _ _ _ H) as [[? _]|[_ ?]]; done.
Qed.

(** ** Events *)

(** The table only grows, and a row never changes. *)
Lemma insertEvent_cases uuid topic sid rid p at_ d r d' :
  insertEvent uuid topic sid rid p at_ d = (r, d') ->
  replay_state d' = replay_state d /\ processed_events d ⊆ processed_events d' /\
  match r with
  | Ok id => processed_events d !! uuid = None /\
             exists rb, rid = Some rb /\
             processed_events d' = <[uuid := mkEventRow id topic sid rb p at_]> (processed_events d)
  | Err e => processed_events d' = processed_events d /\
             (isNoRows e = true -> is_Some (processed_events d !! uuid))
  end.
Proof.
  unfold insertEvent. destruct rid as [rb|].
  - destruct (processed_events d !! uuid) eqn:E; intros; simplify_eq/=; (split; [done|]).
    + split; [done|]. split; [done|]. eauto.
    + split; [by apply insert_subseteq|]. split; [done|]. eauto.
  - intros. simplify_eq/=. split; [done|]. split; [done|]. split; [done|].
    unfold isNoRows, errNotNull. done.
Qed.

Section Laws.
Context (json_Marshal : payload -> result (list Byte.byte)).

(** What [Upsert] does to the tables, whatever the fault. *)
Lemma Upsert_cases e d r d' :
  Upsert json_Marshal e d = (r, d') ->
  replay_state d' = replay_state d /\
  processed_events d ⊆ processed_events d' /\
  match r with
  | Ok true => processed_events d !! EventID e = None /\
      exists id rb p, ReplayID e = Some rb /\ json_Marshal (Payload e) = Ok p /\
        processed_events d' =
          <[EventID e := mkEventRow id (Topic e) (SchemaID e) rb p (ReceivedAt e)]> (processed_events d)
  | Ok false => is_Some (processed_events d !! EventID e) /\ processed_events d' = processed_events d
  | Err _ => forall u, u <> EventID e -> processed_events d' !! u = processed_events d !! u
  end.
Proof.
  unfold Upsert. destruct (json_Marshal (Payload e)) as [p|err] eqn:Ej.
  2: { intros. runM. by simplify_eq. }
  rewrite M_bind_unfold. destruct (statement _ d) as [r0 d1] eqn:Es. cbn [fst snd]. intros Hr.
  destruct (statement_cases _ _ _ _ Es) as (d0 & f & Hf & Hc).
  destruct (nextFault_state _ _ _ Hf) as (Hp & _ & Hrs).
  assert (d1 = d') as -> by (runM; repeat case_match; by simplify_eq).
  destruct Hc as [[-> Hs]|[(e0 & -> & -> & ->)|(e0 & r1 & -> & -> & Hs)]].
  - destruct (insertEvent_cases _ _ _ _ _ _ _ _ _ Hs) as (Hr0 & Hsub & Hc).
    rewrite Hp, Hrs in *. split; [done|]. split; [done|]. runM. destruct r0 as [id|err].
    + simplify_eq. destruct Hc as (? & rb & ? & ?). eauto 10.
    + destruct (isNoRows err) eqn:En; simplify_eq.
      * destruct Hc as [? ?]. auto.
      * destruct Hc as [-> _]. done.
  - runM. simplify_eq/=. rewrite Hp, Hrs. done.
  - destruct (insertEvent_cases _ _ _ _ _ _ _ _ _ Hs) as (Hr0 & Hsub & Hc).
    rewrite Hp, Hrs in *. split; [done|]. split; [done|]. runM. simplify_eq/=.
    intros u Hu. destruct r1 as [id|err].
    + destruct Hc as (_ & rb & _ & ->). by rewrite lookup_insert_ne.
    + by destruct Hc as [-> _].
Qed.

Lemma PersistEvent_Upsert e d r d' :
  PersistEvent json_Marshal e d = (r, d') ->
  exists r0, Upsert json_Marshal e d = (r0, d') /\
    match r, r0 with Ok b, Ok b0 => b = b0 | Err _, Err _ => True | _, _ => False end.
Proof.
  unfold PersistEvent. rewrite M_bind_unfold. destruct (Upsert _ e d) as [r0 d0].
  intros. exists r0. runM. destruct r0; by simplify_eq.
Qed.

(** ** Properties *)

(** C32. Persistence is idempotent on the event UUID: a successful [PersistEvent]
    leaves exactly one row for it; [inserted = true] means it was absent and now
    holds this event, [inserted = false] means it was present and nothing changed;
    rows of other events and the replay cursors are never touched, and no row is
    ever modified, also when the statement fails. *)
Theorem persist_idempotent e d r d' :
  PersistEvent json_Marshal e d = (r, d') ->
  replay_state d' = replay_state d /\ processed_events d ⊆ processed_events d' /\
  (forall u, u <> EventID e -> processed_events d' !! u = processed_events d !! u) /\
  match r with
  | Ok true => processed_events d !! EventID e = None /\
      exists row, processed_events d' !! EventID e = Some row /\ row_topic row = Topic e /\
        row_schema_id row = SchemaID e /\ Some (row_replay_id row) = ReplayID e /\
        Ok (row_payload row) = json_Marshal (Payload e) /\ row_received_at row = ReceivedAt e
  | Ok false => is_Some (processed_events d !! EventID e) /\ processed_events d' = processed_events d
  | Err _ => True
  end.
Proof.
  intros Hp. destruct (PersistEvent_Upsert _ _ _ _ Hp) as (r0 & Hu & Hr).
  destruct (Upsert_cases _ _ _ _ Hu) as (Hrs & Hsub & Hc).
  split; [done|]. split; [done|].
  destruct r as [[]|], r0 as [[]|]; simplify_eq/=; try done.
  - destruct Hc as (Hn & id & rb & p & -> & -> & ->). split.
    + intros u Hu'. by rewrite lookup_insert_ne.
    + split; [done|]. rewrite lookup_insert_eq. eauto 10.
  - destruct Hc as [Hs ->]. done.
Qed.

End Laws.

Definition demoEvent : DecodedEvent :=
  mkDecodedEvent "/event/Order__e" "uuid-1" "schema-1" (Some [Byte.x07]) [("Qty", AInt 3)] 42.

Definition demoMarshal (p : payload) : result (list Byte.byte) := Ok [Byte.x7b; Byte.x7d].

Lemma persist_idempotent_witness :
  processed_events (PersistEvent demoMarshal demoEvent emptyDB).2 !! "uuid-1" <> None.
Proof.
  destruct (persist_idempotent demoMarshal demoEvent emptyDB (Ok true)
              (PersistEvent demoMarshal demoEvent emptyDB).2) as (_ & _ & _ & _ & row & Hrow & _).
  - by vm_compute.
  - change "uuid-1" with (EventID demoEvent). rewrite Hrow. discriminate.
Defined.

(** A load that succeeds answers what the table holds. *)
Lemma Get_spec topic d r d' :
  Get topic d = (r, d') ->
  match r with Ok v => v = replay_state d !! topic | Err _ => True end.
Proof.
  unfold Get. rewrite M_bind_unfold.
  destruct (statement _ d) as [r0 d0] eqn:Es. cbn [fst snd]. intros Hl.
  destruct (statement_cases _ _ _ _ Es) as (d1 & f & Hf & Hcs).
  destruct (nextFault_state _ _ _ Hf) as (_ & _ & Hr1).
  destruct Hcs as [[-> Hu]|[(e & -> & -> & ->)|(e & r1 & -> & -> & Hu)]].
  - unfold selectReplay in Hu. rewrite Hr1 in Hu.
    destruct (replay_state d !! topic); runM; by simplify_eq/=.
  - runM. by simplify_eq/=.
  - runM. by simplify_eq/=.
Qed.

(** C33. Cursors round trip: after a [SaveReplay] that returned nil, a load that
    reaches the database returns exactly the saved bytes, and only the saved
    topic's cursor changed. A load that fails is an error, never the "never
    committed" answer. *)
Theorem replay_roundtrip topic rid d d' :
  SaveReplay topic rid d = (None, d') ->
  (exists b, rid = Some b) /\
  (forall topic' r d'', LoadReplay topic' d' = (r, d'') ->
     match r with
     | Ok v => v = if decide (topic' = topic) then rid else replay_state d !! topic'
     | Err _ => True
     end).
Proof.
  intros Hs. destruct (Set_cases _ _ _ _ _ Hs) as [[_ Hc]|[? _]]; [|done].
  assert (exists b, rid = Some b) as [b ->].
  { destruct rid as [b|]; [eauto|]. exfalso. revert Hs. unfold SaveReplay, Store_CursorStore, Set_.
    rewrite M_bind_unfold. destruct (statement _ d) as [r0 d0] eqn:Es. cbn [fst snd].
    destruct (statement_cases _ _ _ _ Es) as (d1 & f & _ & Hcs).
    destruct Hcs as [[-> Hu]|[(e & -> & -> & ->)|(e & r1 & -> & -> & Hu)]]; try done.
    unfold upsertReplay in Hu. by simplify_eq. }
  split; [eauto|]. intros topic' r d'' Hl.
  assert (replay_state d' !! topic' = <[topic := b]> (replay_state d) !! topic') as Hrs.
  { apply (inj (fmap (M := option) Some)). rewrite <- !lookup_fmap.
    rewrite fmap_insert. unfold storedCursors in Hc. by rewrite Hc. }
  pose proof (Get_spec _ _ _ _ Hl) as Hg. destruct r as [v|]; [|done].
  rewrite Hg, Hrs. destruct (decide (topic' = topic)) as [->|Hne].
  - by rewrite lookup_insert_eq.
  - by rewrite lookup_insert_ne.
Qed.

Definition savedDB : DB := (SaveReplay "a" (Some [Byte.x01]) emptyDB).2.

Lemma replay_roundtrip_witness :
  match (LoadReplay "a" savedDB).1 with Ok v => v = Some [Byte.x01] | Err _ => True end.
Proof.
  apply (proj2 (replay_roundtrip "a" (Some [Byte.x01]) emptyDB savedDB ltac:(by vm_compute))
           "a" (LoadReplay "a" savedDB).1 (LoadReplay "a" savedDB).2).
  by vm_compute.
Defined.

End Storage.
