(* ===== verification/CommitterSpec.v ===== *)
(** * What the replay committer promises

    The interleaved execution of [Done] (workers) and [Flush] (the ticker and the
    shutdown path) as a step relation, the abstract machine it refines, and the
    properties of the persisted cursor. *)

From S2P Require Import Prelude Event Committer Storage.

Module CommitterSpec.
Import Committer.

(** ** All topics *)

(** The completions of one topic in a history keyed by topic and position. *)
Definition reports (h : gmap (string * Z) GoBytes) (topic : string) (k : Z) : option GoBytes :=
  h !! (topic, k).

Definition hist_ok (h : gmap (string * Z) GoBytes) : Prop :=
  forall topic, range_ok (reports h topic).

Definition committer_repr (h : gmap (string * Z) GoBytes) (c : Committer) : Prop :=
  forall topic,
    match topics c !! topic with
    | Some t => cursor_repr (reports h topic) t
    | None => forall k, reports h topic k = None
    end.

Lemma committer_repr_new : committer_repr ∅ NewCommitter.
Proof. intros topic. simpl. rewrite lookup_empty. intros k. apply lookup_empty. Qed.

Lemma committer_repr_cursor h c topic :
  committer_repr h c -> cursor_repr (reports h topic) (default newCursor (topics c !! topic)).
Proof.
  intros Hc. specialize (Hc topic). destruct (topics c !! topic); [done|].
  by apply newCursor_repr.
Qed.

Lemma hist_ok_insert h topic seq rid :
  hist_ok h -> seq_ok seq -> hist_ok (<[(topic, seq) := rid]> h).
Proof.
  intros Hh Hs topic' k. unfold reports. rewrite lookup_insert.
  case_decide; simplify_eq; [done|]. apply Hh.
Qed.

Lemma reports_insert_ne h topic topic' seq rid k :
  topic <> topic' -> reports (<[(topic, seq) := rid]> h) topic' k = reports h topic' k.
Proof. intros. unfold reports. rewrite lookup_insert_ne; congruence. Qed.

Lemma cursor_repr_ext R R' t : (forall k, R' k = R k) -> cursor_repr R t -> cursor_repr R' t.
Proof.
  intros HR [H1 H2 H3 H4 H5 H6]. split; try done.
  - intros i Hi. rewrite HR. auto.
  - by rewrite HR.
  - intros k. rewrite H4, HR. done.
  - by rewrite HR.
Qed.

Lemma fresh_not_below R t seq : cursor_repr R t -> 1 <= seq -> R seq = None -> next t <= seq.
Proof.
  intros Ht Hs Hn. destruct (Z_lt_ge_dec seq (next t)); [|lia].
  destruct (repr_below _ _ Ht seq); [lia | congruence].
Qed.

Lemma Done_repr h c topic seq rid :
  committer_repr h c -> hist_ok h -> seq_ok seq -> h !! (topic, seq) = None ->
  committer_repr (<[(topic, seq) := rid]> h) (Done c topic seq rid).
Proof.
  intros Hc Hh Hs Hfresh topic'. simpl.
  destruct (decide (topic = topic')) as [<-|Hne].
  - rewrite lookup_insert_eq.
    pose proof (committer_repr_cursor h c topic Hc) as Ht.
    apply (Done_cursor_repr (reports h topic)); [done | | | |].
    + apply (hist_ok_insert h topic seq rid Hh Hs topic).
    + unfold seq_ok in Hs. apply (fresh_not_below _ _ _ Ht); [lia | done].
    + apply lookup_insert_eq.
    + intros k Hk. unfold reports. apply lookup_insert_ne. congruence.
  - rewrite lookup_insert_ne by done. specialize (Hc topic').
    destruct (topics c !! topic').
    + eapply cursor_repr_ext; [|done]. intros. by apply reports_insert_ne.
    + intros k. by rewrite reports_insert_ne.
Qed.

(** ** A run of completions without flushes *)

(** The calls as a history. *)
Definition history (calls : list call) : gmap (string * Z) GoBytes := list_to_map calls.

(** Distinct positions per topic, in range: what the subscriber guarantees. *)
Definition calls_ok (calls : list call) : Prop :=
  NoDup calls.*1 /\ Forall (fun cl => seq_ok cl.1.2) calls.

Lemma applyCalls_snoc calls topic seq rid c :
  applyCalls (calls ++ [(topic, seq, rid)]) c = Done (applyCalls calls c) topic seq rid.
Proof. unfold applyCalls. by rewrite foldl_app. Qed.

Lemma history_snoc calls topic seq rid :
  (topic, seq) ∉ calls.*1 ->
  history (calls ++ [(topic, seq, rid)]) = <[(topic, seq) := rid]> (history calls).
Proof. intros Hni. unfold history. by rewrite list_to_map_snoc. Qed.

Lemma hist_ok_empty : hist_ok ∅.
Proof. intros topic k [x Hx]. unfold reports in Hx. by rewrite lookup_empty in Hx. Qed.

Lemma calls_ok_snoc calls topic seq rid :
  calls_ok (calls ++ [((topic, seq), rid)]) ->
  calls_ok calls /\ ((topic, seq) ∉ calls.*1) /\ seq_ok seq.
Proof.
  intros [Hnd Hf]. rewrite fmap_app in Hnd. simpl in Hnd.
  apply NoDup_app in Hnd as (Hnd & Hni & _).
  apply Forall_app in Hf as [Hf Hs]. inversion Hs; subst.
  split; [by split|]. split; [|done].
  intros Hin. apply (Hni _ Hin). by constructor.
Qed.

Lemma applyCalls_repr calls :
  calls_ok calls ->
  hist_ok (history calls) /\ committer_repr (history calls) (applyCalls calls NewCommitter).
Proof.
  induction calls as [|[[topic seq] rid] calls IH] using rev_ind; intros Hok.
  - split; [apply hist_ok_empty | apply committer_repr_new].
  - apply calls_ok_snoc in Hok as (Hok & Hni & Hs).
    destruct (IH Hok) as [Hh Hc].
    rewrite history_snoc, applyCalls_snoc by done.
    split; [by apply hist_ok_insert|].
    apply Done_repr; try done. by apply not_elem_of_list_to_map_1.
Qed.

(** Without a flush a topic is dirty exactly when its mark has moved, and only
    reported topics have a cursor. *)
Lemma advance_dirty fuel t :
  dirty t = bool_decide (next t <> 1) -> 1 <= next t ->
  (forall k, is_Some (done t !! k) -> k < 2 ^ 64 - 1) ->
  dirty (advance fuel t) = bool_decide (next (advance fuel t) <> 1).
Proof.
  revert t. induction fuel as [|fuel IH]; intros t Hd Hn Hk; [done|]. simpl.
  destruct (done t !! next t) as [rid|] eqn:E; [|done].
  pose proof (Hk (next t) ltac:(eauto)).
  assert (wrapU64 (next t + 1) = next t + 1) as Hw
    by (apply wrapU64_id; unfold in_U64; lia).
  apply IH; unfold advance1; simpl; rewrite ?Hw.
  - symmetry. apply bool_decide_true. lia.
  - lia.
  - intros k [x Hx]. apply lookup_delete_Some in Hx as [_ Hx]. eauto.
Qed.

Lemma Done_cursor_dirty R t seq rid :
  cursor_repr R t -> range_ok R -> seq_ok seq ->
  dirty t = bool_decide (next t <> 1) ->
  dirty (Done_cursor t seq rid) = bool_decide (next (Done_cursor t seq rid) <> 1).
Proof.
  intros Ht HR Hs Hd. unfold Done_cursor. destruct (seq <? next t); [done|].
  apply advance_dirty; simpl; [done | apply (repr_range _ _ Ht) |].
  intros k. destruct (decide (seq = k)) as [<-|Hne].
  - intros _. apply Hs.
  - rewrite lookup_insert_ne, (repr_done _ _ Ht) by done.
    destruct (decide (next t < k)); intros [x Hx]; [|done].
    apply (HR k). eauto.
Qed.

Lemma applyCalls_dirty calls topic t :
  calls_ok calls -> topics (applyCalls calls NewCommitter) !! topic = Some t ->
  dirty t = bool_decide (next t <> 1).
Proof.
  revert topic t. induction calls as [|[[topic' seq] rid] calls IH] using rev_ind;
    intros topic t Hok Ht.
  - simpl in Ht. by rewrite lookup_empty in Ht.
  - apply calls_ok_snoc in Hok as (Hok & Hni & Hs).
    rewrite applyCalls_snoc in Ht. simpl in Ht.
    destruct (applyCalls_repr calls Hok) as [Hh Hc].
    destruct (decide (topic' = topic)) as [->|Hne].
    + rewrite lookup_insert_eq in Ht. simplify_eq.
      apply (Done_cursor_dirty (reports (history calls) topic)); try done.
      * by apply committer_repr_cursor.
      * destruct (topics (applyCalls calls NewCommitter) !! topic) eqn:E; [|done].
        simpl. eauto.
    + rewrite lookup_insert_ne in Ht by done. eauto.
Qed.

Lemma applyCalls_dom calls topic :
  is_Some (topics (applyCalls calls NewCommitter) !! topic) <-> topic ∈ calls.*1.*1.
Proof.
  induction calls as [|[[topic' seq] rid] calls IH] using rev_ind.
  - simpl. rewrite lookup_empty. split; [by intros [? ?] | by intros ?%not_elem_of_nil].
  - rewrite applyCalls_snoc. simpl. rewrite !fmap_app. simpl.
    rewrite elem_of_app, list_elem_of_singleton.
    rewrite lookup_insert. case_decide as Hd.
    + subst. split; [by right | eauto].
    + rewrite IH. split; [by left | intros [?|?]; [done | congruence]].
Qed.

(** ** Interleaved completions and flushes

    [flushing] holds the pending cursors of the flush that owns [flushMu], if
    any; [hist] records the completions reported so far and is not part of the
    program's state. *)

Record Sys := mkSys {
  com : Committer;
  flushing : option (gmap string GoBytes);
  stored : gmap string GoBytes;
  hist : gmap (string * Z) GoBytes;
}.

Definition init : Sys := mkSys NewCommitter None ∅ ∅.

Inductive step : relation Sys :=
| step_Done c f st h topic seq rid :
    seq_ok seq -> h !! (topic, seq) = None ->
    step (mkSys c f st h) (mkSys (Done c topic seq rid) f st (<[(topic, seq) := rid]> h))
| step_begin c st h :
    step (mkSys c None st h) (mkSys (snapshot c).2 (Some (snapshot c).1) st h)
| step_save_ok c pending st h topic rid :
    pending !! topic = Some rid ->
    step (mkSys c (Some pending) st h)
         (mkSys (incCommits "ok" c) (Some (delete topic pending)) (<[topic := rid]> st) h)
| step_save_err c pending st h topic rid (applied : bool) :
    pending !! topic = Some rid ->
    step (mkSys c (Some pending) st h)
         (mkSys (markDirty (incCommits "error" c) topic) (Some (delete topic pending))
                (if applied then <[topic := rid]> st else st) h)
| step_end c st h :
    step (mkSys c (Some ∅) st h) (mkSys c None st h).

(** The abstract machine: completions accumulate, and the committed position of
    a topic moves forward, up to a position below which everything completed. *)
Record Abs := mkAbs {
  finished : gset (string * Z);
  committed : gmap string Z;
}.

Inductive astep : relation Abs :=
| astep_report f cm topic seq :
    astep (mkAbs f cm) (mkAbs ({[(topic, seq)]} ∪ f) cm)
| astep_commit f cm topic p :
    1 <= p -> default 0 (cm !! topic) <= p ->
    (forall i, 1 <= i <= p -> (topic, i) ∈ f) ->
    astep (mkAbs f cm) (mkAbs f (<[topic := p]> cm)).

(** The position of a topic's mark; 0 when nothing contiguous has completed. *)
Definition markOf (c : Committer) (topic : string) : Z :=
  next (default newCursor (topics c !! topic)) - 1.

(** A cursor value is the identifier reported at position [p]. *)
Definition at_position (h : gmap (string * Z) GoBytes) (topic : string) (rid : GoBytes) (p : Z) : Prop :=
  1 <= p /\ h !! (topic, p) = Some rid.

Record sim (s : Sys) (a : Abs) : Prop := {
  sim_hist_ok : hist_ok (hist s);
  sim_finished : finished a = dom (hist s);
  sim_repr : committer_repr (hist s) (com s);
  sim_stored : forall topic,
    match committed a !! topic with
    | None => stored s !! topic = None
    | Some p => p <= markOf (com s) topic /\
                exists rid, stored s !! topic = Some rid /\ at_position (hist s) topic rid p
    end;
  sim_pending : forall pending topic rid,
    flushing s = Some pending -> pending !! topic = Some rid ->
    exists p, at_position (hist s) topic rid p /\
              default 0 (committed a !! topic) <= p <= markOf (com s) topic /\
              (forall t, topics (com s) !! topic = Some t -> dirty t = false -> p = next t - 1);
  sim_clean : forall topic t,
    topics (com s) !! topic = Some t -> dirty t = false ->
    (forall pending, flushing s = Some pending -> pending !! topic = None) ->
    default 0 (committed a !! topic) = next t - 1;
}.

(** *** The mark under each operation *)

Lemma next_mono R R' t t' :
  cursor_repr R t -> cursor_repr R' t' -> (forall k, R' k = None -> R k = None) ->
  next t <= next t'.
Proof.
  intros Ht Ht' Hext. apply (fresh_not_below R); [done | apply (repr_range _ _ Ht') |].
  apply Hext, (repr_gap _ _ Ht').
Qed.

Lemma hist_insert_mono (h : gmap (string * Z) GoBytes) topic seq rid topic' k :
  reports (<[(topic, seq) := rid]> h) topic' k = None -> reports h topic' k = None.
Proof. unfold reports. by intros [? ?]%lookup_insert_None. Qed.

Lemma markOf_Done h c topic seq rid topic' :
  committer_repr h c -> hist_ok h -> seq_ok seq -> h !! (topic, seq) = None ->
  markOf c topic' <= markOf (Done c topic seq rid) topic'.
Proof.
  intros Hc Hh Hs Hf. unfold markOf.
  pose proof (committer_repr_cursor h c topic' Hc) as Ht.
  pose proof (committer_repr_cursor _ _ topic' (Done_repr h c topic seq rid Hc Hh Hs Hf)) as Ht'.
  enough (next (default newCursor (topics c !! topic'))
          <= next (default newCursor (topics (Done c topic seq rid) !! topic'))) by lia.
  eapply next_mono; [done..|]. intros k. apply hist_insert_mono.
Qed.

Lemma markOf_markDirty c topic topic' : markOf (markDirty c topic) topic' = markOf c topic'.
Proof.
  unfold markOf, markDirty. simpl. destruct (decide (topic = topic')) as [<-|Hne].
  - rewrite lookup_alter_eq. by destruct (topics c !! topic).
  - by rewrite lookup_alter_ne.
Qed.

Lemma markOf_snapshot c topic : markOf (snapshot c).2 topic = markOf c topic.
Proof.
  unfold markOf, snapshot. simpl. rewrite lookup_fmap.
  destruct (topics c !! topic) as [t|]; [|done]. simpl. by destruct (dirty t).
Qed.

(** A mark above zero is the position of the cursor's identifier, and everything
    up to it is reported. *)
Lemma mark_position h c topic t :
  committer_repr h c -> topics c !! topic = Some t -> next t <> 1 ->
  at_position h topic (replayID t) (markOf c topic).
Proof.
  intros Hc Ht Hn. specialize (Hc topic) as Hr. rewrite Ht in Hr.
  unfold markOf. rewrite Ht. simpl. pose proof (repr_range _ _ Hr).
  split; [lia|]. rewrite (repr_rid _ _ Hr), decide_False by done.
  destruct (repr_below _ _ Hr (next t - 1)) as [rid Hrid]; [lia|].
  rewrite Hrid. done.
Qed.

Lemma mark_covers h c topic i :
  committer_repr h c -> 1 <= i <= markOf c topic -> is_Some (h !! (topic, i)).
Proof.
  intros Hc Hi. unfold markOf in Hi.
  apply (repr_below _ _ (committer_repr_cursor h c topic Hc)). lia.
Qed.

(** *** The representation under the flush operations *)

Lemma committer_repr_markDirty h c topic :
  committer_repr h c -> 0 < markOf c topic -> committer_repr h (markDirty c topic).
Proof.
  intros Hc Hm topic'. specialize (Hc topic'). simpl.
  destruct (decide (topic = topic')) as [<-|Hne].
  - unfold markOf in Hm. rewrite lookup_alter_eq.
    destruct (topics c !! topic) as [t|]; [|done]. simpl in *.
    destruct Hc. split; try done. simpl. lia.
  - by rewrite lookup_alter_ne.
Qed.

Lemma committer_repr_snapshot h c : committer_repr h c -> committer_repr h (snapshot c).2.
Proof.
  intros Hc topic. specialize (Hc topic). simpl. rewrite lookup_fmap.
  destruct (topics c !! topic) as [t|]; [|done]. simpl.
  destruct (dirty t); [|done]. destruct Hc. by split.
Qed.

Lemma snapshot_lookup c topic rid :
  (snapshot c).1 !! topic = Some rid ->
  exists t, topics c !! topic = Some t /\ dirty t = true /\ replayID t = rid.
Proof.
  simpl. rewrite lookup_omap. intros (t & Ht & Hd)%bind_Some.
  exists t. destruct (dirty t); by simplify_eq.
Qed.

Lemma snapshot_lookup_None c topic t :
  topics c !! topic = Some t -> (snapshot c).1 !! topic = None -> dirty t = false.
Proof.
  intros Ht. simpl. rewrite lookup_omap, Ht. simpl. by destruct (dirty t).
Qed.

Lemma at_position_insert h topic seq rid0 topic' rid p :
  h !! (topic, seq) = None -> at_position h topic' rid p ->
  at_position (<[(topic, seq) := rid0]> h) topic' rid p.
Proof. intros Hf [Hp Hh]. split; [done|]. rewrite lookup_insert_ne; congruence. Qed.

Lemma Committer_eq c c' : topics c = topics c' -> commits c = commits c' -> c = c'.
Proof. destruct c, c'. simpl. congruence. Qed.

(** A cursor that is clean after [Done] did not move. *)
Lemma advance_keeps_dirty fuel t : dirty t = true -> dirty (advance fuel t) = true.
Proof.
  revert t. induction fuel as [|fuel IH]; intros t Hd; [done|]. simpl.
  destruct (done t !! next t); [by apply IH | done].
Qed.

Lemma Done_cursor_clean t seq rid :
  dirty (Done_cursor t seq rid) = false ->
  dirty t = false /\ next (Done_cursor t seq rid) = next t.
Proof.
  unfold Done_cursor. destruct (seq <? next t); [done|]. cbn [advance done next].
  destruct (<[seq := rid]> (done t) !! next t); [|done].
  intros Hd. by rewrite advance_keeps_dirty in Hd.
Qed.

Lemma Done_cursor_clean_id t seq rid :
  dirty (Done_cursor t seq rid) = false -> replayID (Done_cursor t seq rid) = replayID t.
Proof.
  unfold Done_cursor. destruct (seq <? next t); [done|]. cbn [advance done next].
  destruct (<[seq := rid]> (done t) !! next t); [|done].
  intros Hd. by rewrite advance_keeps_dirty in Hd.
Qed.

(** A topic that is clean afterwards was clean before, with the same cursor. *)
Definition unmoved (c c' : Committer) : Prop :=
  forall topic t', topics c' !! topic = Some t' -> dirty t' = false -> next t' <> 1 ->
    exists t, topics c !! topic = Some t /\ dirty t = false /\ next t = next t' /\ replayID t = replayID t'.

Lemma unmoved_refl c : unmoved c c.
Proof. intros topic t' Ht Hd _. by exists t'. Qed.

Lemma unmoved_markDirty c topic : unmoved c (markDirty c topic).
Proof.
  intros topic' t' Ht Hd _. simpl in Ht. apply lookup_alter_Some in Ht as [(-> & t & Ht & ->)|[_ Ht]]; [done|].
  by exists t'.
Qed.

Lemma Done_unmoved c topic seq rid : unmoved c (Done c topic seq rid).
Proof.
  intros topic' t' Ht Hd Hn. unfold Done in Ht. simpl in Ht.
  apply lookup_insert_Some in Ht as [[<- <-]|[_ Ht]]; [|by exists t'].
  destruct (Done_cursor_clean _ _ _ Hd) as [Hd0 Hn0]. rewrite Hn0 in *. pose proof (Done_cursor_clean_id _ _ _ Hd) as Hr.
  destruct (topics c !! topic) as [t|]; [by exists t|]. done.
Qed.

(** *** The simulation, one step at a time *)

Lemma sim_Done c f st h a topic seq rid :
  sim (mkSys c f st h) a -> seq_ok seq -> h !! (topic, seq) = None ->
  sim (mkSys (Done c topic seq rid) f st (<[(topic, seq) := rid]> h))
      (mkAbs ({[(topic, seq)]} ∪ finished a) (committed a)).
Proof.
  intros [Hok Hfin Hrep Hst Hpen Hcl] Hs Hf. simpl in *.
  assert (forall topic', markOf c topic' <= markOf (Done c topic seq rid) topic') as Hmono
    by (intros; eapply markOf_Done; eauto).
  split; simpl.
  - by apply hist_ok_insert.
  - by rewrite dom_insert_L, Hfin.
  - by apply Done_repr.
  - intros topic'. specialize (Hst topic'). destruct (committed a !! topic') as [p|]; [|done].
    destruct Hst as (Hle & rid' & Hs' & Hat). specialize (Hmono topic').
    split; [lia|]. eauto using at_position_insert.
  - intros pending topic' rid' Hp Hl.
    destruct (Hpen pending topic' rid' Hp Hl) as (p & Hat & Hle & Hpc). specialize (Hmono topic').
    exists p. split; [eauto using at_position_insert|]. split; [lia|].
    intros t Ht Hd. destruct (decide (topic = topic')) as [<-|Hne].
    + rewrite lookup_insert_eq in Ht. simplify_eq.
      destruct (Done_cursor_clean _ _ _ Hd) as [Hd0 Hn0]. rewrite Hn0.
      destruct (topics c !! topic) as [t|] eqn:E; simpl in *; [by apply Hpc|].
      unfold markOf in Hle. rewrite E in Hle. simpl in Hle. destruct Hat. lia.
    + rewrite lookup_insert_ne in Ht by done. by apply Hpc.
  - intros topic' t Ht Hd Hnp.
    destruct (decide (topic = topic')) as [<-|Hne].
    + rewrite lookup_insert_eq in Ht. simplify_eq.
      destruct (Done_cursor_clean _ _ _ Hd) as [Hd0 Hn0]. rewrite Hn0. destruct (topics c !! topic) as [t|] eqn:E; simpl in *; [by apply (Hcl topic t)|].
      specialize (Hst topic). unfold markOf in Hst. rewrite E in Hst. simpl in Hst.
      destruct (committed a !! topic) as [p|]; [|done].
      destruct Hst as (Hle & rid' & _ & [Hp _]). lia.
    + rewrite lookup_insert_ne in Ht by done. eauto.
Qed.

Lemma sim_begin c st h a :
  sim (mkSys c None st h) a -> sim (mkSys (snapshot c).2 (Some (snapshot c).1) st h) a.
Proof.
  intros [Hok Hfin Hrep Hst Hpen Hcl]. cbn [com flushing stored hist] in *.
  split; cbn [com flushing stored hist].
  - done.
  - done.
  - by apply committer_repr_snapshot.
  - intros topic. rewrite markOf_snapshot. apply Hst.
  - intros pending topic rid Hp Hl. simplify_eq.
    destruct (snapshot_lookup _ _ _ Hl) as (t & Ht & Hd & <-).
    pose proof (Hrep topic) as Hr. rewrite Ht in Hr.
    exists (markOf c topic). split; [apply mark_position; try done; by apply (repr_dirty _ _ Hr)|].
    rewrite markOf_snapshot. split.
    + split; [|lia]. specialize (Hst topic).
      destruct (committed a !! topic); simpl; [tauto|].
      unfold markOf. rewrite Ht. simpl. pose proof (repr_range _ _ Hr). lia.
    + intros t' Ht' _. simpl in Ht'. rewrite lookup_fmap, Ht in Ht'. simplify_eq/=.
      unfold markOf. rewrite Ht. simpl. by rewrite Hd.
  - intros topic t Ht Hd Hnp. specialize (Hnp _ eq_refl).
    cbn [snapshot snd topics] in Ht. rewrite lookup_fmap in Ht.
    destruct (topics c !! topic) as [t0|] eqn:E; simplify_eq/=.
    pose proof (snapshot_lookup_None _ _ _ E Hnp) as Hd0. rewrite Hd0.
    by apply (Hcl topic).
Qed.

(** A pending save, seen from the abstract machine: it may commit the position of
    the pending cursor. *)
Lemma sim_pending_commit c pending st h a topic rid :
  sim (mkSys c (Some pending) st h) a -> pending !! topic = Some rid ->
  exists p, at_position h topic rid p /\
    (default 0 (committed a !! topic) <= p <= markOf c topic) /\
    (forall t, topics c !! topic = Some t -> dirty t = false -> p = next t - 1) /\
    astep a (mkAbs (finished a) (<[topic := p]> (committed a))).
Proof.
  intros [Hok Hfin Hrep Hst Hpen Hcl] Hp. simpl in *.
  destruct (Hpen pending topic rid eq_refl Hp) as (p & Hat & Hle & Hpc).
  exists p. do 3 (split; [done|]). destruct a as [f cm]. simpl in *.
  constructor; [apply Hat | lia |].
  intros i Hi. rewrite Hfin, elem_of_dom. eapply mark_covers; [done | lia].
Qed.

(** The pending entry leaves the flush; the store and the committed position
    either both take its value or both stay. The committer may change the dirty
    flag of that topic only. *)
Lemma sim_save c c' pending st h a topic rid p (applied : bool) :
  sim (mkSys c (Some pending) st h) a -> pending !! topic = Some rid ->
  at_position h topic rid p -> default 0 (committed a !! topic) <= p <= markOf c topic ->
  committer_repr h c' -> (forall topic', markOf c' topic' = markOf c topic') ->
  (forall topic', topic <> topic' -> topics c' !! topic' = topics c !! topic') ->
  (forall t, topics c' !! topic = Some t -> dirty t = false -> applied = true /\ p = next t - 1) ->
  sim (mkSys c' (Some (delete topic pending)) (if applied then <[topic := rid]> st else st) h)
      (mkAbs (finished a) (if applied then <[topic := p]> (committed a) else committed a)).
Proof.
  intros [Hok Hfin Hrep Hst Hpen Hcl] Hp Hat Hle Hrep' Hmark Hother Hself. simpl in *.
  split; simpl; try done.
  - intros topic'. rewrite Hmark. destruct applied; [|apply Hst].
    destruct (decide (topic = topic')) as [<-|Hne].
    + rewrite !lookup_insert_eq. split; [lia|]. eauto.
    + rewrite !lookup_insert_ne by done. apply Hst.
  - intros pending' topic' rid' ? Hl. simplify_eq.
    apply lookup_delete_Some in Hl as [Hne Hl]. rewrite Hmark, Hother by done.
    destruct (Hpen pending topic' rid' eq_refl Hl) as (p' & Hp').
    exists p'. destruct applied; by rewrite ?lookup_insert_ne.
  - intros topic' t Ht Hd Hnp. destruct (decide (topic = topic')) as [<-|Hne].
    + destruct (Hself t Ht Hd) as [-> ->]. by rewrite lookup_insert_eq.
    + replace (default 0 _) with (default 0 (committed a !! topic'))
        by (destruct applied; by rewrite ?lookup_insert_ne).
      apply (Hcl topic'); [by rewrite <- Hother | done |].
      intros pending' ?. simplify_eq. specialize (Hnp _ eq_refl).
      by rewrite lookup_delete_ne in Hnp.
Qed.

Lemma sim_end c st h a : sim (mkSys c (Some ∅) st h) a -> sim (mkSys c None st h) a.
Proof.
  intros [Hok Hfin Hrep Hst Hpen Hcl]. simpl in *. split; simpl; try done.
  intros topic t Ht Hd _. apply (Hcl topic t Ht Hd).
  intros pending ?. simplify_eq. apply lookup_empty.
Qed.

Lemma sim_init : sim init (mkAbs ∅ ∅).
Proof.
  split; simpl; try done.
  - apply hist_ok_empty.
  - apply committer_repr_new.
Qed.

Lemma sim_step s s' a :
  sim s a -> step s s' -> exists a', rtc astep a a' /\ sim s' a'.
Proof.
  intros Hsim Hstep.
  destruct Hstep as [c f st h topic seq rid Hs Hf | c st h | c pending st h topic rid Hp
                    | c pending st h topic rid applied Hp | c st h].
  - eexists. split; [|by apply sim_Done]. apply rtc_once. destruct a. constructor.
  - exists a. split; [done | by apply sim_begin].
  - destruct (sim_pending_commit _ _ _ _ _ _ _ Hsim Hp) as (p & Hat & Hle & Hpc & Ha).
    eexists. split; [by apply rtc_once|].
    apply (sim_save c (incCommits "ok" c) pending st h a topic rid p true Hsim Hp Hat Hle);
      try done; [apply (sim_repr _ _ Hsim) |].
    intros t Ht Hd. split; [done | by apply Hpc].
  - destruct (sim_pending_commit _ _ _ _ _ _ _ Hsim Hp) as (p & Hat & Hle & Hpc & Ha).
    exists (mkAbs (finished a) (if applied then <[topic := p]> (committed a) else committed a)).
    split; [destruct applied; [by apply rtc_once | by destruct a]|].
    apply (sim_save c _ pending st h a topic rid p applied Hsim Hp Hat Hle).
    + apply committer_repr_markDirty; [apply (sim_repr _ _ Hsim) |].
      destruct Hat as [Hp1 _]. change (0 < markOf c topic). lia.
    + intros topic'. by rewrite markOf_markDirty.
    + intros topic' Hne. simpl. by rewrite lookup_alter_ne.
    + intros t Ht Hd. simpl in Ht. rewrite lookup_alter_eq in Ht.
      destruct (topics c !! topic); simplify_eq/=.
  - exists a. split; [done | by apply sim_end].
Qed.

(** *** The executable flush takes these steps *)

Section FlushSteps.
Context {W : Type} `{CursorStoreLaws W}.

(** [P] is what is left of [pending] when the topics of [order] remain. *)
Definition remaining (pending P : gmap string GoBytes) (order : list string) : Prop :=
  (forall t, t ∈ order -> P !! t = pending !! t) /\ (forall t, t ∉ order -> P !! t = None).

Lemma remaining_skip pending P t order :
  remaining pending P (t :: order) -> t ∉ order -> P !! t = None -> remaining pending P order.
Proof.
  intros [H1 H2] Hni HP. split.
  - intros t' Ht'. apply H1. by right.
  - intros t' Ht'. destruct (decide (t' = t)) as [->|]; [done|].
    apply H2. rewrite not_elem_of_cons. done.
Qed.

Lemma remaining_take pending P t order :
  remaining pending P (t :: order) -> t ∉ order -> remaining pending (delete t P) order.
Proof.
  intros [H1 H2] Hni. split.
  - intros t' Ht'. rewrite lookup_delete_ne by congruence. apply H1. by right.
  - intros t' Ht'. destruct (decide (t' = t)) as [->|]; [apply lookup_delete_eq|].
    rewrite lookup_delete_ne by done. apply H2. rewrite not_elem_of_cons. done.
Qed.

(** Completions, reported while a flush is in progress or not. *)
Definition fresh (h : gmap (string * Z) GoBytes) (calls : list call) : Prop :=
  calls_ok calls /\ forall cl, cl ∈ calls -> h !! cl.1 = None.

(** The history with them. *)
Definition reported (calls : list call) (h : gmap (string * Z) GoBytes) : gmap (string * Z) GoBytes :=
  foldl (fun h '(topic, seq, rid) => <[(topic, seq) := rid]> h) h calls.

Lemma fresh_cons h topic seq rid calls :
  fresh h ((topic, seq, rid) :: calls) ->
  seq_ok seq /\ h !! (topic, seq) = None /\ fresh (<[(topic, seq) := rid]> h) calls.
Proof.
  intros [[Hnd Hf] Hh]. apply NoDup_cons in Hnd as [Hni Hnd].
  apply Forall_cons in Hf as [Hs Hf]. split; [done|]. split; [apply (Hh (topic, seq, rid)); by left|].
  split; [done|]. intros cl Hcl. rewrite lookup_insert_ne; [apply Hh; by right|].
  intros Heq. apply Hni. simpl. rewrite Heq. by apply list_elem_of_fmap_2.
Qed.

Lemma fresh_app h calls calls' : fresh h (calls ++ calls') -> fresh h calls /\ fresh (reported calls h) calls'.
Proof.
  intros Hf. split.
  - destruct Hf as [[Hnd Hs] Hh]. rewrite fmap_app in Hnd. apply NoDup_app in Hnd as [Hnd _].
    apply Forall_app in Hs as [Hs _]. split; [done|]. intros cl Hcl. apply Hh, elem_of_app. by left.
  - revert h Hf. induction calls as [|[[topic seq] rid] calls IH]; intros h Hf; [done|].
    apply fresh_cons in Hf as (_ & _ & Hf). by apply IH.
Qed.

Lemma reported_steps calls c f st h :
  fresh h calls -> rtc step (mkSys c f st h) (mkSys (applyCalls calls c) f st (reported calls h)).
Proof.
  revert c h. induction calls as [|[[topic seq] rid] calls IH]; intros c h Hf; [constructor|].
  apply fresh_cons in Hf as (Hs & Hh & Hf). eapply rtc_l; [by apply step_Done|]. by apply IH.
Qed.

Lemma flushLoop_steps order pending P fe c w fe' c' w' h :
  NoDup order.*1 -> remaining pending P order.*1 -> fresh h (concat order.*2) ->
  (forall t, t ∈ order.*1 -> is_Some (pending !! t)) ->
  flushLoop order pending fe c w = (fe', c', w') ->
  rtc step (mkSys c (Some P) (cursors w) h) (mkSys c' None (cursors w') (reported (concat order.*2) h)).
Proof.
  revert P fe c w h. induction order as [|[topic calls] order IH]; intros P fe c w h Hnd Hrem Hfr Hp Hfl.
  - simpl in Hfl. simplify_eq.
    assert (P = ∅) as ->.
    { apply map_empty. intros t. apply Hrem. apply not_elem_of_nil. }
    apply rtc_once, step_end.
  - cbn [fmap list_fmap concat fst snd] in *. apply NoDup_cons in Hnd as [Hni Hnd]. cbn [flushLoop] in Hfl.
    apply fresh_app in Hfr as [Hf1 Hf2].
    destruct (Hp topic ltac:(by left)) as [rid E]. rewrite E in Hfl.
    assert (P !! topic = Some rid) as EP by (rewrite (proj1 Hrem); [done | by left]).
    etrans; [by apply reported_steps|]. unfold reported at 2. rewrite foldl_app. fold (reported calls h).
    specialize (IH (delete topic P)). destruct (SaveReplay topic rid w) as [[err|] w1] eqn:Es.
    + eapply rtc_l; [|eapply IH; [done|by eapply remaining_take|done|intros; apply Hp; by right|exact Hfl]].
      destruct (save_err _ _ _ _ _ Es) as [Hw|Hw]; rewrite Hw.
      * by apply (step_save_err _ P (cursors w) _ topic rid false).
      * by apply (step_save_err _ P (cursors w) _ topic rid true).
    + eapply rtc_l; [|eapply IH; [done|by eapply remaining_take|done|intros; apply Hp; by right|exact Hfl]].
      rewrite (save_ok _ _ _ _ Es). by apply step_save_ok.
Qed.

(** [order] is an order in which Go may range over the pending cursors. *)
Definition rangeOrder (order : list string) (c : Committer) : Prop :=
  NoDup order /\ forall t, t ∈ order <-> is_Some ((snapshot c).1 !! t).

Lemma Flush_steps order c w e c' w' h :
  rangeOrder order.*1 c -> fresh h (concat order.*2) -> Flush order c w = (e, c', w') ->
  rtc step (mkSys c None (cursors w) h) (mkSys c' None (cursors w') (reported (concat order.*2) h)).
Proof.
  intros [Hnd Hin] Hfr Hfl. unfold Flush in Hfl.
  eapply rtc_l; [apply step_begin|].
  eapply flushLoop_steps; [exact Hnd| |exact Hfr|by intros t ?%Hin|exact Hfl].
  split; [done|]. intros t Ht. rewrite Hin in Ht. by apply eq_None_not_Some.
Qed.

(** *** What one flush does *)

(** The saves alone: which failed, in their order, and what they leave. *)
Fixpoint saveAll (order : list string) (pending : gmap string GoBytes) (w : W) : list (string * error) * W :=
  match order with
  | [] => ([], w)
  | topic :: rest =>
      match pending !! topic with
      | None => saveAll rest pending w
      | Some rid =>
          let '(r, w1) := SaveReplay topic rid w in
          let '(failed, w2) := saveAll rest pending w1 in
          (match r with Some err => (topic, err) :: failed | None => failed end, w2)
      end
  end.

Lemma save_frame t rid w r w' t' :
  SaveReplay t rid w = (r, w') -> t <> t' -> cursors w' !! t' = cursors w !! t'.
Proof.
  intros Hs Hne. destruct r as [e|].
  - destruct (save_err _ _ _ _ _ Hs) as [->| ->]; [done | by rewrite lookup_insert_ne].
  - rewrite (save_ok _ _ _ _ Hs). by rewrite lookup_insert_ne.
Qed.

Lemma saveAll_order order pending w failed w' :
  saveAll order pending w = (failed, w') -> forall t, t ∈ failed.*1 -> t ∈ order.
Proof.
  revert w failed. induction order as [|t0 order IH]; intros w failed Hs t Hin; simpl in Hs.
  { simplify_eq. by apply not_elem_of_nil in Hin. }
  destruct (pending !! t0) as [rid|]; [|right; by eapply IH].
  destruct (SaveReplay t0 rid w) as [r w1]. destruct (saveAll order pending w1) as [failed1 w2] eqn:E.
  injection Hs as <- <-. destruct r as [err|]; [|right; by eapply IH].
  simpl in Hin. apply elem_of_cons in Hin as [->|Hin]; [by left|right; by eapply IH].
Qed.

(** A topic that is not saved keeps its cursor. *)
Lemma saveAll_frame order pending w failed w' t :
  saveAll order pending w = (failed, w') -> t ∉ order -> cursors w' !! t = cursors w !! t.
Proof.
  revert w failed. induction order as [|t0 order IH]; intros w failed Hs Hni; simpl in Hs; [by simplify_eq|].
  apply not_elem_of_cons in Hni as [Hne Hni]. destruct (pending !! t0) as [rid|]; [|by eapply IH].
  destruct (SaveReplay t0 rid w) as [r w1] eqn:Es. destruct (saveAll order pending w1) as [failed1 w2] eqn:E.
  injection Hs as _ <-. rewrite (IH _ _ E Hni). by eapply save_frame.
Qed.

(** One whose save succeeds has it. *)
Lemma saveAll_saved order pending w failed w' t rid :
  NoDup order -> saveAll order pending w = (failed, w') -> t ∈ order -> pending !! t = Some rid ->
  t ∉ failed.*1 -> cursors w' !! t = Some rid.
Proof.
  revert w failed. induction order as [|t0 order IH]; intros w failed Hnd Hs Hin Hp Hnf; simpl in Hs;
    [by apply not_elem_of_nil in Hin|].
  apply NoDup_cons in Hnd as [Hni Hnd].
  destruct (pending !! t0) as [rid0|] eqn:E0.
  2: { apply elem_of_cons in Hin as [->|Hin]; [congruence|]. by eapply IH. }
  destruct (SaveReplay t0 rid0 w) as [r w1] eqn:Es. destruct (saveAll order pending w1) as [failed1 w2] eqn:E.
  injection Hs as <- <-. apply elem_of_cons in Hin as [->|Hin].
  - rewrite (saveAll_frame _ _ _ _ _ _ E Hni). destruct r as [err|]; [destruct Hnf; by left|].
    rewrite (save_ok _ _ _ _ Es), lookup_insert_eq. congruence.
  - apply (IH w1 failed1 Hnd E Hin Hp). intros Hf. apply Hnf. destruct r; [by right|done].
Qed.

(** A re-queued topic takes completions the same way. *)
Lemma Done_cursor_setDirty t seq rid : Done_cursor (setDirty t) seq rid = setDirty (Done_cursor t seq rid).
Proof.
  unfold Done_cursor. cbn [setDirty next]. destruct (seq <? next t); [done|].
  set (u := TopicCursor (next t) (<[seq := rid]> (done t)) (replayID t) (dirty t)).
  change (TopicCursor _ _ _ _) with (setDirty u) at 2. change (done (setDirty u)) with (done u).
  cbn [advance]. change (done (setDirty u) !! next (setDirty u)) with (done u !! next u).
  destruct (done u !! next u) as [r|]; [|done].
  change (advance1 (setDirty u) r) with (advance1 u r).
  assert (forall t, dirty t = true -> setDirty t = t) as Hid by (intros []; simpl; by intros ->).
  symmetry. apply Hid. by apply advance_keeps_dirty.
Qed.

Lemma applyCalls_markDirty calls c t :
  is_Some (topics c !! t) -> topics (applyCalls calls (markDirty c t)) = topics (markDirty (applyCalls calls c) t).
Proof.
  revert c. induction calls as [|[[topic seq] rid] calls IH]; intros c Ht; [done|].
  assert (Done (markDirty c t) topic seq rid = markDirty (Done c topic seq rid) t) as Hc.
  { apply Committer_eq; [|done]. simpl. destruct (decide (topic = t)) as [->|Hne].
    - rewrite lookup_alter_eq. destruct Ht as [tc ->]. simpl. rewrite Done_cursor_setDirty. by rewrite alter_insert_eq, insert_alter_eq.
    - rewrite lookup_alter_ne by done. by rewrite alter_insert_ne. }
  cbn [applyCalls foldl]. unfold applyCalls in *. rewrite Hc. apply IH.
  simpl. rewrite lookup_insert. case_decide; [eauto|done].
Qed.

Lemma applyCalls_has calls c t : is_Some (topics c !! t) -> is_Some (topics (applyCalls calls c) !! t).
Proof.
  revert c. induction calls as [|[[topic seq] rid] calls IH]; intros c Ht; [done|].
  apply IH. simpl. rewrite lookup_insert. case_decide; eauto.
Qed.

Lemma applyCalls_inc calls c r : topics (applyCalls calls (incCommits r c)) = topics (applyCalls calls c).
Proof.
  assert (forall c c', topics c = topics c' -> topics (applyCalls calls c) = topics (applyCalls calls c')) as Hx; [|by apply Hx].
  induction calls as [|[[topic seq] rid] calls IH]; intros c1 c2 Heq; [done|].
  apply IH. simpl. by rewrite Heq.
Qed.

Lemma flushLoop_spec order pending fe c w :
  (forall t, t ∈ order.*1 -> is_Some (pending !! t) /\ is_Some (topics c !! t)) ->
  let '(failed, w2) := saveAll order.*1 pending w in
  exists c', flushLoop order pending fe c w = (match fe with Some e => Some e | None => snd <$> head failed end, c', w2) /\
    forall t, topics c' !! t = (if decide (t ∈ failed.*1) then setDirty else id) <$> topics (applyCalls (concat order.*2) c) !! t.
Proof.
  revert fe c w. induction order as [|[t0 calls] order IH]; intros fe c w Hp.
  { simpl. exists c. split; [by destruct fe|]. intros t. by destruct (topics c !! t). }
  cbn [fmap list_fmap concat fst snd saveAll flushLoop] in *.
  destruct (Hp t0 ltac:(by left)) as [[rid E] Ht0]. rewrite E.
  destruct (SaveReplay t0 rid w) as [r w1] eqn:Es.
  assert (applyCalls (calls ++ concat order.*2) c = applyCalls (concat order.*2) (applyCalls calls c)) as Happ
    by apply foldl_app.
  assert (is_Some (topics (applyCalls calls c) !! t0)) as Ht1 by (by apply applyCalls_has).
  destruct r as [err|].
  - specialize (IH (Some (default err fe)) (markDirty (incCommits "error" (applyCalls calls c)) t0) w1).
    destruct (saveAll order.*1 pending w1) as [failed w2]. destruct IH as (c' & Hc' & Ht).
    { intros t Ht. destruct (Hp t) as [? Hh]; [by right|]. split; [done|]. simpl.
      apply (applyCalls_has calls) in Hh. destruct (decide (t0 = t)) as [->|];
        [rewrite lookup_alter_eq; by apply fmap_is_Some|by rewrite lookup_alter_ne]. }
    exists c'. split; [by destruct fe|]. intros t. rewrite Ht, Happ, applyCalls_markDirty by done.
    change (((t0, err) :: failed).*1) with (t0 :: failed.*1). unfold markDirty; cbn [topics]. rewrite applyCalls_inc. pose proof (elem_of_cons failed.*1 t t0) as Hcons.
    destruct (decide (t ∈ failed.*1)), (decide (t ∈ t0 :: failed.*1)), (decide (t = t0)) as [->|Hne];
      rewrite ?lookup_alter_eq, ?lookup_alter_ne by done; try tauto; 
      by destruct (topics (applyCalls (concat order.*2) (applyCalls calls c)) !! t0).
  - specialize (IH fe (incCommits "ok" (applyCalls calls c)) w1).
    destruct (saveAll order.*1 pending w1) as [failed w2]. destruct IH as (c' & Hc' & Ht).
    { intros t Ht. destruct (Hp t) as [? Hh]; [by right|]. split; [done|]. by apply applyCalls_has. }
    exists c'. split; [done|]. intros t. by rewrite Ht, Happ, applyCalls_inc.
Qed.

(** A cursor taken is that of its topic, which is clean now. *)
Lemma snapshot_taken c t rid : (snapshot c).1 !! t = Some rid ->
  exists tc, topics (snapshot c).2 !! t = Some tc /\ replayID tc = rid.
Proof.
  intros (tc & Htc & Hd & <-)%snapshot_lookup. exists (clean tc). split; [|done].
  simpl. rewrite lookup_fmap, Htc. simpl. by rewrite Hd.
Qed.

(** A topic whose cursor is clean after completions has the cursor it had before them. *)
Lemma applyCalls_clean calls c t tc0 tc :
  topics c !! t = Some tc0 -> topics (applyCalls calls c) !! t = Some tc -> dirty tc = false ->
  replayID tc0 = replayID tc /\ dirty tc0 = false.
Proof.
  revert c tc0. induction calls as [|[[topic seq] rid] calls IH]; intros c tc0 Hc Ht Hd.
  { simpl in Ht. by simplify_eq. }
  destruct (decide (topic = t)) as [->|Hne].
  - destruct (IH (Done c t seq rid) (Done_cursor tc0 seq rid)) as [Hr Hd0]; [|done|done|].
    + simpl. by rewrite lookup_insert_eq, Hc.
    + destruct (Done_cursor_clean _ _ _ Hd0) as [? _]. by rewrite <- (Done_cursor_clean_id _ _ _ Hd0).
  - apply (IH (Done c topic seq rid)); [|done|done]. simpl. by rewrite lookup_insert_ne.
Qed.

Lemma snapshot_clean c t tc : topics (snapshot c).2 !! t = Some tc -> dirty tc = false.
Proof.
  simpl. rewrite lookup_fmap. destruct (topics c !! t) as [t0|]; [|done]. simpl.
  intros. simplify_eq. destruct (dirty t0) eqn:E; [done | exact E].
Qed.

End FlushSteps.

(** *** Consequences of the simulation *)

Lemma reachable_sim s : rtc step init s -> exists a, rtc astep (mkAbs ∅ ∅) a /\ sim s a.
Proof.
  intros Hs. eapply (rtc_simulation step astep sim); [|exact Hs|apply sim_init].
  intros. by eapply sim_step.
Qed.

Lemma step_hist_mono s s' : rtc step s s' -> hist s ⊆ hist s'.
Proof.
  induction 1 as [|s s1 s2 Hstep _ IH]; [done|].
  etrans; [|exact IH]. destruct Hstep; simpl; try done. by apply insert_subseteq.
Qed.

Lemma astep_committed_mono a a' topic :
  rtc astep a a' -> default 0 (committed a !! topic) <= default 0 (committed a' !! topic).
Proof.
  induction 1 as [|a a1 a2 Hstep _ IH]; [lia|]. etrans; [|exact IH].
  destruct Hstep as [|f cm topic' p Hp Hle]; simpl; [lia|].
  rewrite lookup_insert. case_decide; subst; simpl; [done | lia].
Qed.

Lemma sim_stored_position s a topic rid :
  sim s a -> stored s !! topic = Some rid ->
  exists p, committed a !! topic = Some p /\ at_position (hist s) topic rid p /\
            p <= markOf (com s) topic.
Proof.
  intros Hsim Hst. pose proof (sim_stored _ _ Hsim topic) as H.
  destruct (committed a !! topic) as [p|]; [|congruence].
  destruct H as (Hle & rid' & Hst' & Hat). exists p. split; [done|].
  split; [congruence | done].
Qed.

(** *** Equal histories give equal committers *)

Lemma applyCalls_commits calls c : commits (applyCalls calls c) = commits c.
Proof.
  induction calls as [|[[topic seq] rid] calls IH] using rev_ind; [done|].
  by rewrite applyCalls_snoc.
Qed.

Lemma applyCalls_lookup_eq calls calls' topic :
  calls_ok calls -> calls_ok calls' -> calls.*1.*1 ≡ₚ calls'.*1.*1 ->
  history calls' = history calls ->
  topics (applyCalls calls NewCommitter) !! topic = topics (applyCalls calls' NewCommitter) !! topic.
Proof.
  intros Hok Hok' Hp Hh.
  destruct (applyCalls_repr calls Hok) as [_ Hc]. specialize (Hc topic).
  destruct (applyCalls_repr calls' Hok') as [_ Hc']. specialize (Hc' topic). rewrite Hh in Hc'.
  pose proof (applyCalls_dom calls topic) as Hd. rewrite Hp, <- applyCalls_dom in Hd.
  destruct (topics (applyCalls calls NewCommitter) !! topic) as [t|] eqn:E;
    destruct (topics (applyCalls calls' NewCommitter) !! topic) as [t'|] eqn:E'.
  - pose proof (applyCalls_dirty _ _ _ Hok E) as Hdt.
    pose proof (applyCalls_dirty _ _ _ Hok' E') as Hdt'.
    destruct (cursor_repr_unique _ _ _ Hc Hc') as (Hn & Hdn & Hr).
    rewrite Hn, <- Hdt' in Hdt. destruct t, t'. simpl in *. by subst.
  - exfalso. apply (is_Some_None (A := topicCursor)), Hd. eauto.
  - exfalso. apply (is_Some_None (A := topicCursor)), Hd. eauto.
  - done.
Qed.

(** ** Properties *)

(** C13. Order of completion is irrelevant: the committer reaches the same state
    for every order in which distinct positions of its topics are reported. *)
Theorem done_order_irrelevant calls calls' :
  calls_ok calls -> calls ≡ₚ calls' ->
  applyCalls calls NewCommitter = applyCalls calls' NewCommitter.
Proof.
  intros Hok Hperm. apply Committer_eq; [|by rewrite !applyCalls_commits].
  apply map_eq. intros topic. apply applyCalls_lookup_eq; try done.
  - destruct Hok. split; by rewrite <- Hperm.
  - by rewrite Hperm.
  - symmetry. apply list_to_map_proper; [apply Hok | done].
Qed.

Lemma done_order_irrelevant_witness :
  applyCalls [("a", 2, Some [Byte.x02]); ("b", 1, None); ("a", 1, Some [Byte.x01])] NewCommitter =
  applyCalls [("a", 1, Some [Byte.x01]); ("a", 2, Some [Byte.x02]); ("b", 1, None)] NewCommitter.
Proof.
  apply done_order_irrelevant.
  - split.
    + simpl. repeat (constructor; [set_solver|]). constructor.
    + repeat constructor; vm_compute; congruence.
  - apply (Permutation_app_comm [_; _] [_]).
Defined.

(** C14. After any completions at distinct positions, a topic's cursor sits at the
    first position not reported: everything below it was reported, it was not,
    and the replay ID is the one reported just below it. *)
Theorem done_marks_first_gap calls topic t :
  calls_ok calls -> topics (applyCalls calls NewCommitter) !! topic = Some t ->
  1 <= next t /\
  (forall i, 1 <= i < next t -> (topic, i) ∈ calls.*1) /\
  ((topic, next t) ∉ calls.*1) /\
  (next t = 1 -> replayID t = None) /\
  (next t <> 1 -> ((topic, next t - 1), replayID t) ∈ calls).
Proof.
  intros Hok Ht. destruct (applyCalls_repr calls Hok) as [_ Hc].
  pose proof (Hc topic) as Hr. rewrite Ht in Hr. unfold history, reports in *.
  split; [apply (repr_range _ _ Hr)|]. split; [|split; [|split]].
  - intros i Hi. destruct (repr_below _ _ Hr i Hi) as [rid Hrid].
    apply elem_of_list_to_map_2 in Hrid. by apply (list_elem_of_fmap_2 fst) in Hrid.
  - apply not_elem_of_list_to_map_2, (repr_gap _ _ Hr).
  - intros Hn. by rewrite (repr_rid _ _ Hr), decide_True.
  - intros Hn. pose proof (repr_range _ _ Hr).
    destruct (repr_below _ _ Hr (next t - 1)) as [rid Hrid]; [lia|].
    rewrite (repr_rid _ _ Hr), decide_False, Hrid by done. by apply elem_of_list_to_map_2.
Qed.

Lemma done_marks_first_gap_witness :
  exists t, topics (applyCalls [("a", 2, Some [Byte.x02]); ("a", 4, None); ("a", 1, None)]
                               NewCommitter) !! "a" = Some t /\
            next t = 3 /\ ("a", next t) ∉ [("a", 2); ("a", 4); ("a", 1)].
Proof.
  eexists. split; [vm_compute; reflexivity|]. split; [reflexivity|].
  apply (done_marks_first_gap [("a", 2, Some [Byte.x02]); ("a", 4, None); ("a", 1, None)] "a").
  - split.
    + simpl. repeat (constructor; [set_solver|]). constructor.
    + repeat constructor; vm_compute; congruence.
  - vm_compute. reflexivity.
Defined.

(** C8. Refinement: every interleaving of completions and flushes, failed saves
    included, is an execution of the abstract machine in which the committed
    position of a topic only moves forward and never passes an unreported event;
    [sim] ties the stored cursor to that position. *)
Theorem committer_refines_forward_cursor s :
  rtc step init s -> exists a, rtc astep (mkAbs ∅ ∅) a /\ sim s a.
Proof. apply reachable_sim. Qed.

Definition demo1 : Sys :=
  mkSys (Done (Done NewCommitter "a" 2 (Some [Byte.x02])) "a" 1 (Some [Byte.x01])) None ∅
        (<[("a", 1) := Some [Byte.x01]]> (<[("a", 2) := Some [Byte.x02]]> ∅)).

Definition demo2 : Sys :=
  mkSys (incCommits "ok" (snapshot (com demo1)).2) (Some (delete "a" (snapshot (com demo1)).1))
        (<["a" := Some [Byte.x02]]> ∅) (hist demo1).

Lemma demo1_reachable : rtc step init demo1.
Proof.
  unfold demo1, init. eapply rtc_l; [apply (step_Done _ _ _ _ "a" 2)|]; [by vm_compute..|].
  eapply rtc_l; [apply (step_Done _ _ _ _ "a" 1)|]; [by vm_compute..|]. constructor.
Qed.

Lemma demo2_reachable : rtc step demo1 demo2.
Proof.
  eapply rtc_l; [apply step_begin|].
  eapply rtc_l; [apply (step_save_ok _ _ _ _ "a" (Some [Byte.x02])); by vm_compute|].
  constructor.
Qed.

Lemma committer_refines_forward_cursor_witness :
  exists a, rtc astep (mkAbs ∅ ∅) a /\ sim demo2 a.
Proof.
  apply committer_refines_forward_cursor.
  etrans; [apply demo1_reachable | apply demo2_reachable].
Defined.

(** C9. The stored cursor never skips: whatever the interleaving, a cursor in the
    store is the replay ID of a position at or below which every event of the
    topic has been reported as finished. *)
Theorem stored_cursor_never_skips s topic rid :
  rtc step init s -> stored s !! topic = Some rid ->
  exists p, 1 <= p /\ hist s !! (topic, p) = Some rid /\
    forall i, 1 <= i <= p -> is_Some (hist s !! (topic, i)).
Proof.
  intros Hs Hst. destruct (reachable_sim s Hs) as (a & _ & Hsim).
  destruct (sim_stored_position _ _ _ _ Hsim Hst) as (p & _ & [Hp Hat] & Hle).
  exists p. split; [done|]. split; [done|]. intros i Hi.
  eapply mark_covers; [apply (sim_repr _ _ Hsim) | lia].
Qed.

Lemma stored_cursor_never_skips_witness :
  exists p, 1 <= p /\ hist demo2 !! ("a", p) = Some (Some [Byte.x02]) /\
    forall i, 1 <= i <= p -> is_Some (hist demo2 !! ("a", i)).
Proof.
  apply stored_cursor_never_skips; [|by vm_compute].
  etrans; [apply demo1_reachable | apply demo2_reachable].
Defined.

(** The stored cursor never moves back: with distinct replay IDs in a topic,
    whatever happens between two moments (more completions, flushes that fail,
    succeed, or fail after being applied), the later cursor is at the same
    position as the earlier one or beyond. *)
Theorem stored_cursor_never_regresses s s' topic rid p :
  rtc step init s -> rtc step s s' ->
  (forall i j r, hist s' !! (topic, i) = Some r -> hist s' !! (topic, j) = Some r -> i = j) ->
  stored s !! topic = Some rid -> hist s !! (topic, p) = Some rid ->
  exists rid' p', stored s' !! topic = Some rid' /\ hist s' !! (topic, p') = Some rid' /\ p <= p'.
Proof.
  intros Hs Hs' Hinj Hst Hp. destruct (reachable_sim s Hs) as (a & _ & Hsim).
  destruct (rtc_simulation step astep sim (fun _ _ _ H1 H2 => sim_step _ _ _ H1 H2)
              _ _ _ Hs' Hsim) as (a' & Ha' & Hsim').
  destruct (sim_stored_position _ _ _ _ Hsim Hst) as (q & Hq & [Hq1 Hat] & _).
  pose proof (step_hist_mono _ _ Hs') as Hsub.
  assert (p = q) as -> by (eapply Hinj; eapply lookup_weaken; eauto).
  pose proof (astep_committed_mono _ _ topic Ha') as Hmono. rewrite Hq in Hmono. simpl in Hmono.
  pose proof (sim_stored _ _ Hsim' topic) as Hst'.
  destruct (committed a' !! topic) as [q'|]; simpl in Hmono; [|lia].
  destruct Hst' as (_ & rid' & Hst' & [_ Hat']). eauto.
Qed.

Lemma stored_cursor_never_regresses_witness :
  exists rid' p', stored demo2 !! "a" = Some rid' /\ hist demo2 !! ("a", p') = Some rid' /\ 2 <= p'.
Proof.
  apply (stored_cursor_never_regresses demo2 demo2 "a" (Some [Byte.x02]) 2);
    [etrans; [apply demo1_reachable | apply demo2_reachable] | constructor | | by vm_compute..].
  intros i j r. unfold demo2, demo1. cbn [hist]. rewrite !lookup_insert_Some, !lookup_empty.
  intros [[? ?]|[? [[? ?]|[? ?]]]] [[? ?]|[? [[? ?]|[? ?]]]]; simplify_eq; done.
Defined.

Lemma demo_order : rangeOrder ["a"] (com demo1).
Proof.
  split; [repeat constructor; set_solver|]. intros t. rewrite list_elem_of_singleton. split.
  - intros ->. exists (Some [Byte.x02]). by vm_compute.
  - intros [rid (tc & Htc & _)%snapshot_lookup]. unfold demo1 in Htc. simpl in Htc.
    apply lookup_insert_Some in Htc as [[? _]|[_ Htc]]; [done|].
    apply lookup_insert_Some in Htc as [[? _]|[_ Htc]]; [done|].
    by rewrite lookup_empty in Htc.
Qed.

(** C15. What one flush does while workers go on reporting completions. The saves are made
    with the cursors it took, in the order of the range, one after the other whatever
    fails; the error is that of the first that failed, so nil exactly when none did. A
    cursor it took is in the store unless its save failed, and then the topic is dirty
    again; no other topic's stored cursor changes. The completions reported meanwhile are
    all there: the topics are what the completions alone make of the snapshot, the failed
    ones marked dirty. And a topic it took that is clean afterwards is stored with the
    cursor it has then. *)
Theorem flush_outcome {W} `{CursorStoreLaws W} order c c' (w w' : W) e :
  rangeOrder order.*1 c -> Flush order c w = (e, c', w') ->
  let '(taken, c1) := snapshot c in
  let '(failed, w2) := saveAll order.*1 taken w in
  w' = w2 /\ e = snd <$> head failed /\
  (forall t, topics c' !! t =
     (if decide (t ∈ failed.*1) then setDirty else id) <$> topics (applyCalls (concat order.*2) c1) !! t) /\
  (forall t rid, taken !! t = Some rid -> t ∉ failed.*1 -> cursors w' !! t = Some rid) /\
  (forall t, taken !! t = None -> cursors w' !! t = cursors w !! t) /\
  (forall t rid tc, taken !! t = Some rid -> topics c' !! t = Some tc -> dirty tc = false ->
     replayID tc = rid /\ cursors w' !! t = Some rid).
Proof.
  intros [Hnd Hin] Hfl. unfold Flush in Hfl.
  pose proof (flushLoop_spec order (snapshot c).1 None (snapshot c).2 w) as Hs.
  revert Hs Hin Hfl. destruct (snapshot c) as [taken c1] eqn:Esn. cbn [fst snd]. intros Hs Hin Hfl.
  destruct (saveAll order.*1 taken w) as [failed w2] eqn:Esv.
  assert (forall t rid, taken !! t = Some rid -> exists tc, topics c1 !! t = Some tc /\ replayID tc = rid) as Htaken.
  { intros t rid Ht. replace taken with (snapshot c).1 in Ht by (by rewrite Esn). by apply snapshot_taken in Ht; rewrite Esn in Ht. }
  destruct Hs as (c0 & Hc0 & Ht).
  { intros t Ht%Hin. simpl in Ht. split; [done|]. destruct Ht as [rid (tc & -> & _)%Htaken]. done. }
  cbn [fst snd] in *. rewrite Hc0 in Hfl. simplify_eq.
  assert (forall t rid, taken !! t = Some rid -> t ∉ failed.*1 -> cursors w' !! t = Some rid) as Hsaved.
  { intros t rid Hr Hf. eapply saveAll_saved; [exact Hnd|exact Esv|apply Hin; eauto|done|done]. }
  split; [done|]. split; [done|]. split; [done|]. split; [done|]. split.
  - intros t Hn. eapply saveAll_frame; [exact Esv|]. rewrite Hin. by rewrite Hn; intros [? ?].
  - intros t rid tc Hr Htc Hd. rewrite Ht in Htc. apply fmap_Some in Htc as (tc1 & Htc1 & ->).
    destruct (decide (t ∈ failed.*1)) as [|Hf]; [done|].
    destruct (Htaken _ _ Hr) as (tc0 & Htc0 & <-).
    destruct (applyCalls_clean _ _ _ _ _ Htc0 Htc1 Hd). split; [done|]. by apply Hsaved.
Qed.

(** The third event is reported while the cursor of the second is being saved: the flush
    returns nil, the second's cursor is stored, and the topic is dirty for the third. *)
Lemma flush_outcome_witness :
  let '(e, c', db) := Flush [("a", [("a", 3, Some [Byte.x03])])] (com demo1) (Storage.mkDB ∅ 1 ∅ []) in
  e = None /\ cursors db !! "a" = Some (Some [Byte.x02]) /\
  dirty <$> topics c' !! "a" = Some true /\ replayID <$> topics c' !! "a" = Some (Some [Byte.x03]).
Proof.
  destruct (Flush [("a", [("a", 3, Some [Byte.x03])])] (com demo1) (Storage.mkDB ∅ 1 ∅ [])) as [[e c'] db] eqn:Hf.
  pose proof (flush_outcome [("a", [("a", 3, Some [Byte.x03])])] (com demo1) c' (Storage.mkDB ∅ 1 ∅ []) db e demo_order Hf)
    as (_ & -> & Ht & Hs & _).
  split; [by vm_compute|]. split; [by apply (Hs "a"); vm_compute; [|intros ?%not_elem_of_nil]|].
  rewrite (Ht "a"). by vm_compute.
Defined.

End CommitterSpec.
