(* ===== verification/Subscriber.v ===== *)
(** * The subscriber

    Model of src/internal/pubsub/subscriber.go: one Subscribe stream per topic,
    its initial request, the sender that replenishes flow control, the receiver
    that numbers and emits events, and the reconnect loop. What the outside world
    does (answers of the server, cancellation, which branch a select takes) is
    given as lists of events that the functions consume. *)

From S2P Require Import Prelude Backoff Event Client Committer Storage.

(** What the subscriber asks of the cursor store. *)
Class CursorLoader (W : Type) := {
  LoadReplay : string -> M W (result GoBytes);
}.

#[global] Instance Store_CursorLoader : CursorLoader Storage.DB := {
  LoadReplay := Storage.LoadReplay;
}.

Module Subscriber.
Import Proto Event Backoff.

(** ** State

    [out] is everything sent on the events channel, in order; the channel's
    capacity only decides when a send may happen, which the consumed events say.
    [ackWake] is whether the one-slot wake channel holds a token. *)

Definition subscriberOutBuffer : nat := 1024.

Record Subscriber := mkSubscriber {
  topic : string;
  batchSize : Z;
  out : list RawEvent;
  seq : Z;
  lastReplayID : GoBytes;
  pendingAck : Z;
  ackWake : bool;
  eventsReceived : CounterVec;
  reconnects : CounterVec;
  streamOpen : gmap (list string) Z;
}.

Definition NewSubscriber (tp : string) (batch : Z) : Subscriber :=
  mkSubscriber tp (wrapS32 (clampToInt32 batch)) [] 0 None 0 false ∅ ∅ ∅.

Definition set_ack (p : Z) (wk : bool) (s : Subscriber) : Subscriber :=
  mkSubscriber (topic s) (batchSize s) (out s) (seq s) (lastReplayID s) p wk
    (eventsReceived s) (reconnects s) (streamOpen s).

Definition set_streamOpen (v : Z) (s : Subscriber) : Subscriber :=
  mkSubscriber (topic s) (batchSize s) (out s) (seq s) (lastReplayID s) (pendingAck s) (ackWake s)
    (eventsReceived s) (reconnects s) (<[[topic s] := v]> (streamOpen s)).

Definition inc_reconnects (reason : string) (s : Subscriber) : Subscriber :=
  mkSubscriber (topic s) (batchSize s) (out s) (seq s) (lastReplayID s) (pendingAck s) (ackWake s)
    (eventsReceived s) (Inc [topic s; reason] (reconnects s)) (streamOpen s).

(** ** Ack: the atomic add, then the non-blocking send on the wake channel *)

Definition ackAdd (n : Z) (s : Subscriber) : Subscriber :=
  set_ack (wrapS64 (pendingAck s + n)) (ackWake s) s.

Definition ackSignal (s : Subscriber) : Subscriber := set_ack (pendingAck s) true s.

Definition Ack (n : Z) (s : Subscriber) : Subscriber :=
  if n <=? 0 then s else ackSignal (ackAdd n s).

(** ** The initial request *)

Section InitialFetch.
Context {W : Type} `{CursorLoader W}.

Definition initialFetch (s : Subscriber) : M W (result FetchRequest) :=
  let req := mkFetchRequest (topic s) LATEST None (batchSize s) in
  let finish (replayID : GoBytes) :=
    match replayID with
    | None => req
    | Some _ => mkFetchRequest (topic s) CUSTOM replayID (batchSize s)
    end in
  match lastReplayID s with
  | Some _ => mret (Ok (finish (lastReplayID s)))
  | None =>
      r ← LoadReplay (topic s);
      match r with
      | Err err => mret (Err (Wrap [Lit "load replay cursor"] err))
      | Ok rid => mret (Ok (finish rid))
      end
  end.

End InitialFetch.

(** ** The sender *)

(** The sender takes the wake token. *)
Definition senderTake (s : Subscriber) : Subscriber := set_ack (pendingAck s) false s.

(** [pendingAck.Swap(0)] *)
Definition senderSwap (s : Subscriber) : Z * Subscriber := (pendingAck s, set_ack 0 (ackWake s) s).

(** The replenishing request: only [NumRequested] is set. *)
Definition replenish (n : Z) : FetchRequest :=
  mkFetchRequest "" LATEST None (wrapS32 (clampToInt32 n)).

(** What happens around the sender: its select picks [ctx.Done], or the wake
    channel (with the result of the send that may follow), or a worker calls
    [Ack] meanwhile. *)
Inductive senderEvent := SCtxDone | SWake (sendErr : option error) | SAck (n : Z).

(** [runSender]: [None] while the listed events have not ended it; the requests
    sent are returned in order. The wake branch cannot be picked without a token. *)
Fixpoint runSender (evs : list senderEvent) (s : Subscriber)
    : option (option error) * Subscriber * list FetchRequest :=
  match evs with
  | [] => (None, s, [])
  | SCtxDone :: _ => (Some None, s, [])
  | SAck n :: rest => runSender rest (Ack n s)
  | SWake sendErr :: rest =>
      if negb (ackWake s) then runSender rest s
      else
        let '(n, s1) := senderSwap (senderTake s) in
        if n <=? 0 then runSender rest s1
        else
          match sendErr with
          | Some err => (Some (Some (Wrap [Lit "send replenish"] err)), s1, [])
          | None =>
              let '(r, s2, reqs) := runSender rest s1 in (r, s2, replenish n :: reqs)
          end
  end.

(** ** The receiver *)

(** Sending one event on the channel and the updates that follow. *)
Definition emit (e : option ConsumerEvent) (now : Z) (s : Subscriber) : Subscriber :=
  mkSubscriber (topic s) (batchSize s)
    (out s ++ [mkRawEvent (topic s) (wrapU64 (seq s + 1)) e now])
    (wrapU64 (seq s + 1)) (GetReplayId e) (pendingAck s) (ackWake s)
    (Inc [topic s] (eventsReceived s)) (reconnects s) (streamOpen s).

(** The loop over one response. Each event carries what its select picked:
    [Some now] sends it at time [now], [None] is [ctx.Done]. [true] when the
    receiver returned. *)
Fixpoint emitAll (evs : list (option ConsumerEvent * option Z)) (s : Subscriber) : bool * Subscriber :=
  match evs with
  | [] => (false, s)
  | (_, None) :: _ => (true, s)
  | (e, Some now) :: rest => emitAll rest (emit e now s)
  end.

(** One [Recv]: a response with the choices of its selects, or an error. *)
Inductive recvEvent := RecvResp (resp : option FetchResponse) (picks : list (option Z)) | RecvErr (e : error).

(** [picks] has one entry per event already dealt with; a shorter list means the
    receiver is still blocked in a select. *)
Fixpoint runReceiver (evs : list recvEvent) (s : Subscriber) : option (option error) * Subscriber :=
  match evs with
  | [] => (None, s)
  | RecvErr e :: _ => (Some (Some e), s)
  | RecvResp resp picks :: rest =>
      let '(stop, s') := emitAll (combine (GetEvents resp) picks) s in
      if stop then (Some None, s')
      else if (length picks <? length (GetEvents resp))%nat then (None, s')
      else runReceiver rest s'
  end.

(** ** One stream *)

Inductive firstDone := SenderFirst | ReceiverFirst.

(** What the world does during one stream: opening it, the initial send, the
    events around the two goroutines, which of them stops first, and whether the
    parent context is canceled at the end. *)
Record streamEnv := mkStreamEnv {
  env_open : option error;
  env_send : option error;
  env_sender : list senderEvent;
  env_receiver : list recvEvent;
  env_first : firstDone;
  env_ctxErr : bool;
}.

(** The outcome of [runOnce] with what it sent: the error it returned, or
    [None] while it is still running. *)
Record onceResult := mkOnce {
  once_ret : option (option error);
  once_sent : list FetchRequest;
}.

Section RunOnce.
Context {W : Type} `{CursorLoader W}.

(** The sender and the receiver touch disjoint parts of the state (flow control
    against numbering), so running one after the other is as good as any
    interleaving. *)
Definition runStream (env : streamEnv) (initial : FetchRequest) (s : Subscriber)
    : onceResult * Subscriber :=
  let '(rs, s1, reqs) := runSender (env_sender env) s in
  let '(rr, s2) := runReceiver (env_receiver env) s1 in
  match rs, rr with
  | Some es, Some er =>
      let err := match env_first env with SenderFirst => es | ReceiverFirst => er end in
      (mkOnce (Some (if env_ctxErr env then None else err)) (initial :: reqs), s2)
  | _, _ => (mkOnce None (initial :: reqs), s2)
  end.

Definition runOnce (env : streamEnv) (s : Subscriber) (w : W) : onceResult * Subscriber * W :=
  let '(r, w1) := initialFetch s w in
  match r with
  | Err err => (mkOnce (Some (Some err)) [], s, w1)
  | Ok initial =>
      match env_open env with
      | Some err => (mkOnce (Some (Some (Wrap [Lit "open subscribe stream"] err))) [], s, w1)
      | None =>
          let s1 := set_streamOpen 1 s in
          match env_send env with
          | Some err =>
              (mkOnce (Some (Some (Wrap [Lit "send initial fetch"] err))) [], set_streamOpen 0 s1, w1)
          | None =>
              let '(res, s2) := runStream env initial s1 in
              match once_ret res with
              | None => (res, s2, w1)
              | Some _ => (res, set_streamOpen 0 s2, w1)
              end
          end
      end
  end.

Context (status_Code : error -> Grpc.Code).

Definition reasonFromErr (err : option error) : string :=
  match err with
  | None => "ok"
  | Some e =>
      if errors_Is e "io.EOF" then "eof"
      else if errors_Is e "context.Canceled" then "canceled"
      else Grpc.Code_String (status_Code e)
  end.

(** One turn of [Run]: the stream, whether the context is done right after it, the
    random jitter and whether the context wins the wait. *)
Record turn := mkTurn {
  turn_env : streamEnv;
  turn_ctxErr : bool;
  turn_rnd : Z -> Z;
  turn_ctxDone : bool;
}.

(** [Run]: the flag tells whether it returned (always nil) and closed [out]; the
    delays slept are returned in order. *)
Fixpoint Run (turns : list turn) (attempt : Z) (s : Subscriber) (w : W)
    : bool * list Z * Subscriber * W :=
  match turns with
  | [] => (false, [], s, w)
  | t :: rest =>
      let '(res, s1, w1) := runOnce (turn_env t) s w in
      match once_ret res with
      | None => (false, [], s1, w1)
      | Some err =>
          if turn_ctxErr t then (true, [], s1, w1)
          else
            let s2 := match err with
                      | Some e => inc_reconnects (reasonFromErr (Some e)) s1
                      | None => s1
                      end in
            let delay := reconnectDelay (turn_rnd t) attempt in
            if turn_ctxDone t then (true, [delay], s2, w1)
            else
              let '(b, ds, s3, w3) := Run rest (wrapS64 (attempt + 1)) s2 w1 in
              (b, delay :: ds, s3, w3)
      end
  end.

End RunOnce.

End Subscriber.
