(* ===== verification/SubscriberSpec.v ===== *)
(** * What the subscriber promises

    Numbering and resumption (the events emitted over any series of streams are a
    gap-free, duplicate-free segment of the topic's log), the flow-control
    accounting of the sender, and the wake-up protocol between [Ack] and the sender
    goroutine under interleaving. *)

From S2P Require Import Prelude Backoff Event Client Committer Storage Subscriber.

Module SubscriberSpec.
Import Proto Event Backoff Subscriber.

(** ** Numbering and resumption *)

(** The part of the state the receiver owns. *)
Definition core (s : Subscriber) : string * list RawEvent * Z * GoBytes :=
  (topic s, out s, seq s, lastReplayID s).

(** The log of a topic as the server keeps it: every event has its own replay ID. *)
Definition log_ok (L : list ConsumerEvent) : Prop :=
  (forall i e, L !! i = Some e -> ce_ReplayId e <> None) /\
  (forall i j e e', L !! i = Some e -> L !! j = Some e' ->
     ce_ReplayId e = ce_ReplayId e' -> i = j).

(** Where the Pub/Sub API documents that a stream starts: after the requested replay
    ID for CUSTOM, at the beginning for EARLIEST, and at the tip, wherever it was
    when the stream opened, for LATEST. *)
Definition starts (L : list ConsumerEvent) (req : FetchRequest) (start : nat) : Prop :=
  match fr_ReplayPreset req with
  | LATEST => True
  | EARLIEST => start = 0%nat
  | CUSTOM => exists i e, L !! i = Some e /\ ce_ReplayId e = fr_ReplayId req /\ start = S i
  end.

(** The events delivered are consecutive events of the log from there on. *)
Definition serves (L : list ConsumerEvent) (req : FetchRequest) (evs : list (option ConsumerEvent)) : Prop :=
  exists start, evs `prefix_of` (Some <$> drop start L) /\ starts L req start.

Section Numbering.
Context (tp : string).

(** The emitted events are numbered from 1 and are the log's events from index [b] on. *)
Record emitted (L : list ConsumerEvent) (b : nat) (s : Subscriber) : Prop := {
  em_topic : topic s = tp;
  em_seq : seq s = wrapU64 (Z.of_nat (length (out s)));
  em_event : forall i raw, out s !! i = Some raw ->
    raw_Topic raw = tp /\ raw_Seq raw = wrapU64 (Z.of_nat i + 1) /\
    exists e, L !! (b + i)%nat = Some e /\ raw_Event raw = Some e;
  em_last : lastReplayID s =
    match last (out s) with None => None | Some raw => GetReplayId (raw_Event raw) end;
}.

Lemma emitted_core L b s s' : core s' = core s -> emitted L b s -> emitted L b s'.
Proof.
  unfold core. intros Hc [H0 H1 H2 H3]. injection Hc as Ht Ho Hs Hl.
  split; rewrite ?Ht, ?Ho, ?Hs, ?Hl; done.
Qed.

Lemma emitted_new L b batch : emitted L b (NewSubscriber tp batch).
Proof. by split. Qed.

Lemma wrapU64_succ n : wrapU64 (wrapU64 n + 1) = wrapU64 (n + 1).
Proof. unfold wrapU64. by rewrite Zplus_mod_idemp_l. Qed.

Lemma emitted_emit L b s e now :
  emitted L b s -> L !! (b + length (out s))%nat = Some e -> emitted L b (emit (Some e) now s).
Proof.
  intros [Ht Hs He Hl] HL. unfold emit. split; simpl; [done|..].
  - rewrite length_app, Hs, wrapU64_succ. simpl. f_equal. lia.
  - intros i raw Hi. apply lookup_snoc_Some in Hi as [[Hlt Hi]|[-> <-]].
    + by apply He.
    + simpl. rewrite Hs, wrapU64_succ. eauto.
  - by rewrite last_snoc.
Qed.

Lemma emitAll_emitted L b evs s stop s' :
  emitted L b s -> evs.*1 `prefix_of` (Some <$> drop (b + length (out s)) L) ->
  emitAll evs s = (stop, s') ->
  emitted L b s' /\ (stop = false -> length (out s') = length (out s) + length evs)%nat.
Proof.
  revert s. induction evs as [|[e p] evs IH]; intros s Hem [rest Hpre] H; simpl in H.
  - simplify_eq. split; [done|]. simpl. lia.
  - destruct p as [now|]; [|by simplify_eq].
    simpl in Hpre. destruct (drop (b + length (out s)) L) as [|e0 dl] eqn:Ed; [done|].
    simpl in Hpre. injection Hpre as <- Hpre.
    assert (L !! (b + length (out s))%nat = Some e0) as HL.
    { rewrite <- (Nat.add_0_r (b + _)), <- lookup_drop, Ed. done. }
    destruct (IH (emit (Some e0) now s)) as [Hem' Hlen]; try done.
    + by apply emitted_emit.
    + exists rest. simpl. rewrite length_app. simpl.
      replace (b + (length (out s) + 1))%nat with (S (b + length (out s))) by lia.
      etrans; [|exact Hpre].
      rewrite <- (Nat.add_1_l (b + _)), Nat.add_comm, <- drop_drop, Ed. done.
    + split; [done|]. intros Hst. specialize (Hlen Hst). simpl in *.
      rewrite length_app in Hlen. simpl in Hlen. lia.
Qed.

(** Everything a receiver script delivers. *)
Definition received (evs : list recvEvent) : list (option ConsumerEvent) :=
  concat (map (fun r => match r with RecvResp resp _ => GetEvents resp | RecvErr _ => [] end) evs).

Lemma fst_combine_prefix {A B} (l : list A) (k : list B) : (combine l k).*1 `prefix_of` l.
Proof.
  revert k. induction l as [|x l IH]; intros [|y k]; simpl; try apply prefix_nil.
  by apply prefix_cons.
Qed.

Lemma runReceiver_emitted L b evs s r s' :
  emitted L b s -> received evs `prefix_of` (Some <$> drop (b + length (out s)) L) ->
  runReceiver evs s = (r, s') -> emitted L b s'.
Proof.
  revert s. induction evs as [|ev evs IH]; intros s Hem Hpre H; simpl in H; [by simplify_eq|].
  destruct ev as [resp picks|e]; [|by simplify_eq].
  unfold received in Hpre. simpl in Hpre.
  destruct (emitAll (combine (GetEvents resp) picks) s) as [stop s1] eqn:E.
  assert (GetEvents resp `prefix_of` (Some <$> drop (b + length (out s)) L)) as Hp1
    by (etrans; [by eexists | exact Hpre]).
  destruct (emitAll_emitted L b (combine (GetEvents resp) picks) s stop s1 Hem)
    as [Hem1 Hlen]; [|done|].
  { etrans; [apply fst_combine_prefix | done]. }
  destruct stop; [by simplify_eq|].
  destruct (length picks <? length (GetEvents resp))%nat eqn:Ep; [by simplify_eq|].
  apply (IH s1); try done. rewrite (Hlen eq_refl), length_combine.
  apply Nat.ltb_ge in Ep. rewrite Nat.min_l by done.
  destruct Hpre as [rest Hpre]. exists rest.
  replace (b + (length (out s) + length (GetEvents resp)))%nat
    with ((b + length (out s)) + length (GetEvents resp))%nat by lia.
  rewrite <- drop_drop, fmap_drop, Hpre, <- app_assoc, drop_app_length. done.
Qed.

(** The other parts of a stream leave the receiver's state alone. *)
Lemma Ack_core n s : core (Ack n s) = core s.
Proof. unfold Ack. by destruct (n <=? 0). Qed.

Lemma runSender_core evs s : core (runSender evs s).1.2 = core s.
Proof.
  revert s. induction evs as [|ev evs IH]; intros s; [done|].
  destruct ev as [|sendErr|n]; simpl; [done| |].
  - destruct (ackWake s); simpl; [|apply IH].
    destruct (pendingAck s <=? 0); [by rewrite IH|]. destruct sendErr; [done|].
    specialize (IH (set_ack 0 false (senderTake s))).
    destruct (runSender evs _) as [[? ?] ?]. simpl in *. by rewrite IH.
  - rewrite IH. apply Ack_core.
Qed.

Section Resume.
Context {W : Type} `{CursorLoader W}.

Lemma initialFetch_resume s (w w1 : W) req rid :
  lastReplayID s = Some rid -> initialFetch s w = (Ok req, w1) ->
  fr_ReplayPreset req = CUSTOM /\ fr_ReplayId req = Some rid.
Proof. intros Hl. unfold initialFetch. rewrite Hl. intros. runM. by simplify_eq/=. Qed.

(** Where a stream starts, given what was emitted before it. *)
Lemma stream_start L b s req (w w1 : W) evs :
  log_ok L -> emitted L b s -> initialFetch s w = (Ok req, w1) -> serves L req evs ->
  exists b', emitted L b' s /\ evs `prefix_of` (Some <$> drop (b' + length (out s)) L).
Proof.
  intros [Hnn Hinj] Hem Hreq (start & Hpre & Hstart). unfold starts in Hstart.
  destruct (last (out s)) as [raw|] eqn:El.
  - exists b. split; [done|].
    rewrite last_lookup in El. destruct (em_event _ _ _ Hem _ _ El) as (_ & _ & e & HL & Hev).
    pose proof (em_last _ _ _ Hem) as Hlast. rewrite last_lookup, El, Hev in Hlast. simpl in Hlast.
    destruct (ce_ReplayId e) as [rid|] eqn:Erid; [|by destruct (Hnn _ _ HL)].
    destruct (initialFetch_resume _ _ _ _ _ Hlast Hreq) as [Hp Hr]. rewrite Hp, Hr in Hstart.
    destruct Hstart as (i & e' & Hi & Hre & ->).
    assert (i = b + pred (length (out s)))%nat as -> by (eapply Hinj; [done..|congruence]).
    assert (length (out s) <> 0)%nat by (intros Hz; by rewrite (nil_length_inv _ Hz) in El).
    by replace (b + length (out s))%nat with (S (b + pred (length (out s)))) by lia.
  - apply last_None in El. exists start. rewrite El. simpl. rewrite Nat.add_0_r.
    split; [|done]. destruct Hem as [H0 H1 H2 H3]. split; [done|done| |done].
    intros i raw Hi. by rewrite El, lookup_nil in Hi.
Qed.

Lemma runOnce_emitted L b env s (w : W) res s' w' :
  log_ok L -> emitted L b s -> runOnce env s w = (res, s', w') ->
  (forall req w1, initialFetch s w = (Ok req, w1) -> serves L req (received (env_receiver env))) ->
  exists b', emitted L b' s'.
Proof.
  intros HL Hem Ho Hsrv. unfold runOnce in Ho.
  destruct (initialFetch s w) as [[req|err] w1] eqn:Ef; [|simplify_eq; eauto].
  destruct (env_open env); [simplify_eq; eauto|].
  destruct (env_send env).
  { simplify_eq. exists b. by apply (emitted_core L b s). }
  destruct (stream_start L b s req w w1 _ HL Hem Ef (Hsrv _ _ eq_refl)) as (b' & Hem' & Hpre).
  unfold runStream in Ho.
  destruct (runSender (env_sender env) (set_streamOpen 1 s)) as [[rs s1] reqs] eqn:Es.
  assert (core s1 = core s) as Hc1
    by (pose proof (runSender_core (env_sender env) (set_streamOpen 1 s)) as Hc; by rewrite Es in Hc).
  destruct (runReceiver (env_receiver env) s1) as [rr s2] eqn:Er.
  assert (emitted L b' s2) as Hem2.
  { eapply runReceiver_emitted; [by eapply emitted_core | | exact Er].
    unfold core in Hc1. injection Hc1 as _ -> _ _. done. }
  exists b'. destruct rs as [es|], rr as [er|]; simplify_eq/=; try done;
    by apply (emitted_core L b' s2).
Qed.

Context (status_Code : error -> Grpc.Code).

(** Every stream that [Run] opens is served by the log. *)
Fixpoint served (L : list ConsumerEvent) (turns : list turn) (s : Subscriber) (w : W) : Prop :=
  match turns with
  | [] => True
  | t :: rest =>
      (forall req w1, initialFetch s w = (Ok req, w1) ->
         serves L req (received (env_receiver (turn_env t)))) /\
      let '(res, s1, w1) := runOnce (turn_env t) s w in
      match once_ret res with
      | Some (Some e) => served L rest (inc_reconnects (reasonFromErr status_Code (Some e)) s1) w1
      | _ => served L rest s1 w1
      end
  end.

Lemma Run_emitted L turns attempt b s (w : W) fin ds s' w' :
  log_ok L -> emitted L b s -> served L turns s w ->
  Run status_Code turns attempt s w = (fin, ds, s', w') -> exists b', emitted L b' s'.
Proof.
  intros HL. revert attempt b s w ds. induction turns as [|t turns IH];
    intros attempt b s w ds Hem Hsv Ho; simpl in Ho; [simplify_eq; eauto|].
  destruct Hsv as [Hs0 Hs1].
  destruct (runOnce (turn_env t) s w) as [[res s1] w1] eqn:Eo.
  destruct (runOnce_emitted L b _ _ _ _ _ _ HL Hem Eo Hs0) as [b1 Hem1].
  destruct (once_ret res) as [err|]; [|simplify_eq; eauto].
  destruct (turn_ctxErr t); [simplify_eq; eauto|].
  assert (emitted L b1 (match err with
            | Some e => inc_reconnects (reasonFromErr status_Code (Some e)) s1
            | None => s1 end)) as Hem2 by (destruct err; [by apply (emitted_core L b1 s1) | done]).
  destruct (turn_ctxDone t); [simplify_eq; eauto|].
  destruct (Run status_Code turns _ _ w1) as [[[fin' ds'] s3] w3] eqn:Er. simplify_eq.
  eapply IH; [exact Hem2 | | exact Er]. by destruct err.
Qed.

End Resume.

End Numbering.

(** ** The requests of the sender *)

(** Credits returned by the workers during a sender script. *)
Definition acked (evs : list senderEvent) : Z :=
  foldr Z.add 0 (map (fun ev => match ev with SAck n => Z.max 0 n | _ => 0 end) evs).

Definition requested (reqs : list FetchRequest) : Z :=
  foldr Z.add 0 (map fr_NumRequested reqs).

Lemma acked_nonneg evs : 0 <= acked evs.
Proof. induction evs as [|[| |n] evs IH]; unfold acked in *; simpl; lia. Qed.

Lemma Ack_pending n s :
  0 <= pendingAck s -> pendingAck s + Z.max 0 n <= maxInt32 ->
  pendingAck (Ack n s) = pendingAck s + Z.max 0 n.
Proof.
  intros Hp Hb. unfold Ack. destruct (n <=? 0) eqn:E; bools; [lia|].
  simpl. rewrite wrapS64_id; [lia|]. unfold in_S64, maxInt32 in *. lia.
Qed.

Lemma replenish_exact n : 0 <= n <= maxInt32 -> fr_NumRequested (replenish n) = n.
Proof.
  intros Hn. simpl. rewrite clampToInt32_spec. unfold maxInt32 in *.
  rewrite wrapS32_id; [lia|]. unfold in_S32. lia.
Qed.

Lemma runSender_credits evs s r s' reqs :
  0 <= pendingAck s -> pendingAck s + acked evs <= maxInt32 ->
  runSender evs s = (r, s', reqs) -> (forall e, r <> Some (Some e)) ->
  exists evs', evs' `suffix_of` evs /\ (r = None -> evs' = []) /\
    requested reqs + pendingAck s' + acked evs' = pendingAck s + acked evs /\ 0 <= pendingAck s'.
Proof.
  revert s reqs. induction evs as [|ev evs IH]; intros s reqs Hp Hb H Hr; simpl in H.
  - simplify_eq. exists []. split; [done|]. split; [done|]. unfold requested, acked. simpl. lia.
  - pose proof (acked_nonneg evs) as Hnn.
    assert (acked (ev :: evs) = match ev with SAck n => Z.max 0 n | _ => 0 end + acked evs) as Hak
      by done. rewrite Hak in *. clear Hak.
    destruct ev as [|sendErr|n].
    + simplify_eq. exists evs. split; [by exists [SCtxDone]|]. split; [done|].
      unfold requested. simpl. lia.
    + destruct (negb (ackWake s)); cbn [senderSwap senderTake set_ack pendingAck ackWake] in H.
      { destruct (IH s reqs Hp ltac:(lia) H Hr) as (evs' & Hsf & Hn & He & H0).
        exists evs'. split; [by apply suffix_cons_r|]. split; [done|]. lia. }
      destruct (pendingAck s <=? 0) eqn:Ez; bools.
      { destruct (IH (set_ack 0 false (senderTake s)) reqs ltac:(done) ltac:(simpl; lia) H Hr) as (evs' & Hsf & Hn & He & H0).
        simpl in He. exists evs'. split; [by apply suffix_cons_r|]. split; [done|]. lia. }
      destruct sendErr as [e|]; [simplify_eq; by destruct (Hr (Wrap [Lit "send replenish"] e))|].
      destruct (runSender evs _) as [[r2 s2] reqs2] eqn:E2. simplify_eq.
      destruct (IH (set_ack 0 false (senderTake s)) _ ltac:(done) ltac:(simpl; lia) E2 Hr) as (evs' & Hsf & Hn & He & H0).
      exists evs'. split; [by apply suffix_cons_r|]. split; [done|].
      unfold requested in *. cbn [map foldr]. rewrite replenish_exact by lia. simpl in He. lia.
    + pose proof (Ack_pending n s Hp ltac:(lia)) as Ha.
      destruct (IH (Ack n s) reqs ltac:(lia) ltac:(lia) H Hr) as (evs' & Hsf & Hn & He & H0).
      exists evs'. split; [by apply suffix_cons_r|]. split; [done|]. lia.
Qed.

(** ** Acknowledgement against the sender goroutine

    [Ack] is two atomic actions and so is the sender's reaction; the machine
    interleaves any number of calls to [Ack] with senders that stop (with their
    stream) and are started again. [total] and [taken] count the credits returned
    so far and those a sender picked up. *)

Inductive senderPC := Idle | Got | Sending (n : Z) | Stopped.

Record AckSys := mkAckSys {
  sub : Subscriber;
  ackers : nat;
  pc : senderPC;
  total : Z;
  taken : Z;
}.

Inductive ackStep : relation AckSys :=
| as_add s k p tot tk n : 0 < n ->
    ackStep (mkAckSys s k p tot tk) (mkAckSys (ackAdd n s) (S k) p (tot + n) tk)
| as_signal s k p tot tk :
    ackStep (mkAckSys s (S k) p tot tk) (mkAckSys (ackSignal s) k p tot tk)
| as_take s k tot tk : ackWake s = true ->
    ackStep (mkAckSys s k Idle tot tk) (mkAckSys (senderTake s) k Got tot tk)
| as_swap s k tot tk :
    ackStep (mkAckSys s k Got tot tk)
      (mkAckSys (senderSwap s).2 k
         (if (senderSwap s).1 <=? 0 then Idle else Sending (senderSwap s).1)
         tot (tk + (senderSwap s).1))
| as_sent s k n tot tk :
    ackStep (mkAckSys s k (Sending n) tot tk) (mkAckSys s k Idle tot tk)
| as_send_failed s k n tot tk :
    ackStep (mkAckSys s k (Sending n) tot tk) (mkAckSys s k Stopped tot tk)
| as_stop s k tot tk :
    ackStep (mkAckSys s k Idle tot tk) (mkAckSys s k Stopped tot tk)
| as_start s k tot tk :
    ackStep (mkAckSys s k Stopped tot tk) (mkAckSys s k Idle tot tk).

Definition ackInit (tp : string) (batch : Z) : AckSys := mkAckSys (NewSubscriber tp batch) 0 Stopped 0 0.

Definition ackInv (a : AckSys) : Prop :=
  total a < 2 ^ 63 ->
  0 <= pendingAck (sub a) /\ 0 <= taken a /\ pendingAck (sub a) + taken a = total a /\
  (0 < pendingAck (sub a) -> ackWake (sub a) = true \/ (0 < ackers a)%nat \/ pc a = Got).

Lemma ackInv_step a a' : ackInv a -> ackStep a a' -> ackInv a'.
Proof.
  unfold ackInv. intros Hinv Hstep.
  destruct Hstep as [s k p tot tk n Hn | s k p tot tk | s k tot tk Hw | s k tot tk
                    | s k n tot tk | s k n tot tk | s k tot tk | s k tot tk];
    cbn [sub ackers pc total taken] in *; intros Ht.
  - destruct Hinv as (H0 & H1 & H2 & H3); [lia|]. simpl.
    rewrite wrapS64_id by (unfold in_S64; lia). split_and!; try lia.
  - destruct Hinv as (H0 & H1 & H2 & H3); [done|]. simpl. split_and!; try done. by left.
  - destruct Hinv as (H0 & H1 & H2 & H3); [done|]. simpl. split_and!; try done. auto.
  - destruct Hinv as (H0 & H1 & H2 & H3); [done|]. simpl. split_and!; lia.
  - destruct Hinv as (H0 & H1 & H2 & H3); [done|]. split_and!; try done.
    intros Hp. destruct (H3 Hp) as [?|[?|?]]; auto. done.
  - destruct Hinv as (H0 & H1 & H2 & H3); [done|]. split_and!; try done.
    intros Hp. destruct (H3 Hp) as [?|[?|?]]; auto. done.
  - destruct Hinv as (H0 & H1 & H2 & H3); [done|]. split_and!; try done.
    intros Hp. destruct (H3 Hp) as [?|[?|?]]; auto. done.
  - destruct Hinv as (H0 & H1 & H2 & H3); [done|]. split_and!; try done.
    intros Hp. destruct (H3 Hp) as [?|[?|?]]; auto. done.
Qed.

(** ** Waits between reconnects *)

Section Waits.
Context {W : Type} `{CursorLoader W} (status_Code : error -> Grpc.Code).

Lemma Run_delays turns attempt s (w : W) fin ds s' w' k d :
  Run status_Code turns attempt s w = (fin, ds, s', w') ->
  Forall (fun t => rand_ok (turn_rnd t)) turns ->
  0 <= attempt -> attempt + Z.of_nat (length turns) < 2 ^ 63 -> ds !! k = Some d ->
  exists rnd, rand_ok rnd /\ d = reconnectDelay rnd (attempt + Z.of_nat k).
Proof.
  revert attempt s w ds k. induction turns as [|t turns IH]; intros attempt s w ds k Hrun Hf Ha Hb Hk;
    simpl in Hrun; [by simplify_eq|].
  apply Forall_cons in Hf as [Hr Hf].
  destruct (runOnce (turn_env t) s w) as [[res s1] w1].
  destruct (once_ret res) as [err|]; [|by simplify_eq].
  destruct (turn_ctxErr t); [by simplify_eq|].
  destruct (turn_ctxDone t).
  - simplify_eq. apply list_lookup_singleton_Some in Hk as [-> <-].
    exists (turn_rnd t). rewrite Z.add_0_r. done.
  - destruct (Run status_Code turns _ _ w1) as [[[fin' ds'] s3] w3] eqn:Er. simplify_eq.
    destruct k as [|k]; simplify_eq/=.
    + exists (turn_rnd t). rewrite Z.add_0_r. done.
    + rewrite wrapS64_id in Er by (unfold in_S64; lia).
      destruct (IH (attempt + 1) _ _ _ k Er Hf ltac:(lia) ltac:(lia) Hk) as (rnd & Hok & ->).
      exists rnd. split; [done|]. f_equal. lia.
Qed.

End Waits.

(** ** Properties *)

(** C12. Across any number of streams, each cut off anywhere by an error or by
    cancellation, the events a subscriber emits are consecutive events of the
    topic's log, none missing and none repeated, and their sequence numbers are 1,
    2, 3, ... in 64-bit arithmetic. *)
Theorem streams_resume_without_gap {W} `{CursorLoader W} status_Code L tp batch turns (w : W) fin ds s' w' :
  log_ok L -> served status_Code L turns (NewSubscriber tp batch) w ->
  Run status_Code turns 0 (NewSubscriber tp batch) w = (fin, ds, s', w') ->
  exists b, forall i raw, out s' !! i = Some raw ->
    raw_Topic raw = tp /\ raw_Seq raw = wrapU64 (Z.of_nat i + 1) /\
    exists e, L !! (b + i)%nat = Some e /\ raw_Event raw = Some e.
Proof.
  intros HL Hs Hrun.
  destruct (Run_emitted tp status_Code L turns 0 0 _ w fin ds s' w' HL (emitted_new tp L 0 batch) Hs Hrun)
    as [b Hb].
  exists b. apply (em_event _ _ _ _ Hb).
Qed.

Definition demoEv (b : Byte.byte) : ConsumerEvent :=
  mkConsumerEvent (Some (mkProducerEvent "id" "schema" (Some [b]))) (Some [b]).

Definition demoLog : list ConsumerEvent := [demoEv Byte.x01; demoEv Byte.x02; demoEv Byte.x03].

(** A stream that delivers the given events and ends with EOF. *)
Definition demoTurn (evs : list ConsumerEvent) : turn :=
  mkTurn (mkStreamEnv None None [SCtxDone]
            [RecvResp (Some (mkFetchResponse (Some <$> evs))) (replicate (length evs) (Some 0)); RecvErr ioEOF]
            ReceiverFirst false) false (fun _ => 0) false.

Definition demoTurns : list turn := [demoTurn [demoEv Byte.x01]; demoTurn [demoEv Byte.x02; demoEv Byte.x03]].

Definition demoCode (e : error) : Grpc.Code := Grpc.Unknown.

Lemma demoLog_ok : log_ok demoLog.
Proof.
  split.
  - intros i e Hi. do 3 (destruct i as [|i]; [by simplify_eq/=|]). done.
  - intros i j e e' Hi Hj He.
    do 3 (destruct i as [|i]; [do 3 (destruct j as [|j]; [by simplify_eq/=|]); done|]). done.
Qed.

Lemma demoTurns_served : served demoCode demoLog demoTurns (NewSubscriber "t" 10) Storage.emptyDB.
Proof.
  split; [|split; [|done]].
  - intros req w1 Hf. vm_compute in Hf. injection Hf as <- <-. exists 0%nat. split; [|done].
    exists (Some <$> [demoEv Byte.x02; demoEv Byte.x03]). reflexivity.
  - intros req w1 Hf. vm_compute in Hf. injection Hf as <- <-. exists 1%nat. split.
    + exists []. reflexivity.
    + exists 0%nat, (demoEv Byte.x01). done.
Qed.

Lemma streams_resume_without_gap_witness :
  exists b, forall i raw,
    out (Run demoCode demoTurns 0 (NewSubscriber "t" 10) Storage.emptyDB).1.2 !! i = Some raw ->
    raw_Topic raw = "t" /\ raw_Seq raw = wrapU64 (Z.of_nat i + 1) /\
    exists e, demoLog !! (b + i)%nat = Some e /\ raw_Event raw = Some e.
Proof.
  eapply (streams_resume_without_gap demoCode demoLog "t" 10 demoTurns Storage.emptyDB);
    [apply demoLog_ok | apply demoTurns_served | vm_compute; reflexivity].
Defined.

(** Where a stream has to resume: after the last event received, or failing that after
    the committed cursor; [None] when there is neither. *)
Definition resumePoint (s : Subscriber) (d : Storage.DB) : GoBytes :=
  match lastReplayID s with
  | Some rid => Some rid
  | None => Storage.replay_state d !! topic s
  end.

(** The first request of a stream: LATEST is asked for exactly when this process
    has received nothing on the topic and no cursor is committed for it; otherwise
    the stream resumes after the last event received, or failing that after the
    committed cursor. A cursor that cannot be loaded never turns into LATEST. *)
Theorem latest_only_when_never_committed s d r d' :
  initialFetch s d = (r, d') ->
  match r with
  | Err _ => lastReplayID s = None
  | Ok req =>
      fr_TopicName req = topic s /\ fr_NumRequested req = batchSize s /\
      (fr_ReplayPreset req = LATEST <->
         lastReplayID s = None /\ Storage.replay_state d !! topic s = None) /\
      (fr_ReplayPreset req <> LATEST -> fr_ReplayPreset req = CUSTOM /\ fr_ReplayId req = resumePoint s d)
  end.
Proof.
  intros Hf. unfold initialFetch in Hf. unfold resumePoint.
  destruct (lastReplayID s) as [rid|] eqn:El.
  - runM. simplify_eq/=. split_and!; try done. split; [done | by intros [? ?]].
  - rewrite M_bind_unfold in Hf.
    destruct (LoadReplay (topic s) d) as [r0 d0] eqn:E. cbn [fst snd] in Hf.
    pose proof (Storage.Get_spec _ _ _ _ E) as Hg.
    destruct r0 as [v|err]; runM; simplify_eq; [|done].
    destruct (Storage.replay_state d !! topic s); simpl; split_and!; try done.
    split; [done | by intros [? ?]].
Qed.

Lemma latest_only_when_never_committed_witness :
  fr_ReplayPreset (mkFetchRequest "t" LATEST None 10) = LATEST <->
  lastReplayID (NewSubscriber "t" 10) = None /\ Storage.replay_state Storage.emptyDB !! "t" = None.
Proof.
  apply (latest_only_when_never_committed (NewSubscriber "t" 10) Storage.emptyDB
           (Ok (mkFetchRequest "t" LATEST None 10)) Storage.emptyDB).
  by vm_compute.
Defined.

(** C18. Flow-control credits are conserved: as long as the sender has not failed and
    the credits in play fit an int32, what was requested from the server plus what
    is still pending is exactly what the workers acknowledged up to the point the
    sender stopped. *)
Theorem sender_conserves_credits evs s r s' reqs :
  0 <= pendingAck s -> pendingAck s + acked evs <= maxInt32 ->
  runSender evs s = (r, s', reqs) -> (forall e, r <> Some (Some e)) ->
  exists evs', evs' `suffix_of` evs /\ (r = None -> evs' = []) /\
    requested reqs + pendingAck s' + acked evs' = pendingAck s + acked evs.
Proof.
  intros Hp Hb H Hr. destruct (runSender_credits _ _ _ _ _ Hp Hb H Hr) as (evs' & ? & ? & ? & ?). eauto.
Qed.

Lemma sender_conserves_credits_witness :
  exists evs', evs' `suffix_of` [SAck 2; SAck 3; SWake None; SAck 1] /\ (None = None :> option (option error) -> evs' = []) /\
    requested [replenish 5] + 1 + acked evs' = 0 + 6.
Proof.
  apply (sender_conserves_credits [SAck 2; SAck 3; SWake None; SAck 1] (NewSubscriber "t" 10) None
           (Ack 1 (set_ack 0 false (NewSubscriber "t" 10))) [replenish 5]);
    [by vm_compute | by vm_compute | by vm_compute | done].
Defined.

(** C19. No wake-up is lost: whatever the interleaving of [Ack] calls with the sender,
    also across streams that stop and start, when no call is half-way through and
    no sender holds the token, either the token is in the channel or every credit
    returned so far has been picked up. *)
Theorem ack_wakeup_never_lost tp batch a :
  rtc ackStep (ackInit tp batch) a -> total a < 2 ^ 63 ->
  ackers a = 0%nat -> pc a <> Got ->
  ackWake (sub a) = true \/ (pendingAck (sub a) = 0 /\ taken a = total a).
Proof.
  intros Hr Ht Hk Hpc.
  assert (ackInv a) as Hinv.
  { apply (rtc_invariant ackStep ackInv (ackInit tp batch) a); [apply ackInv_step | | done].
    intros _. simpl. lia. }
  destruct (Hinv Ht) as (H0 & _ & H2 & H3). destruct (ackWake (sub a)); [by left|right].
  destruct (decide (0 < pendingAck (sub a))) as [Hp|]; [|lia].
  destruct (H3 Hp) as [?|[?|?]]; [done | lia | done].
Qed.

Lemma ack_wakeup_never_lost_witness :
  let a := mkAckSys (Ack 3 (NewSubscriber "t" 10)) 0 Stopped 3 0 in
  ackWake (sub a) = true \/ (pendingAck (sub a) = 0 /\ taken a = total a).
Proof.
  apply (ack_wakeup_never_lost "t" 10); [|by vm_compute | reflexivity | discriminate].
  eapply rtc_l; [by apply (as_add _ _ _ _ _ 3)|]. eapply rtc_l; [apply as_signal|]. constructor.
Defined.

(** The doubling sequence of the waits. *)
Definition waitBase (k : nat) : Z := Z.min (1 * Second * 2 ^ Z.of_nat k) (30 * Second).

(** The waits of the reconnect loop: the k-th wait since the process started is
    within a quarter of min(1s * 2^k, 30s), whether or not the streams in between
    were healthy; the attempt counter is never reset. *)
Theorem reconnect_waits {W} `{CursorLoader W} status_Code turns tp batch (w : W) fin ds s' w' k d :
  Run status_Code turns 0 (NewSubscriber tp batch) w = (fin, ds, s', w') ->
  Forall (fun t => rand_ok (turn_rnd t)) turns -> Z.of_nat (length turns) < 2 ^ 63 ->
  ds !! k = Some d ->
  3 * waitBase k <= 4 * d < 5 * waitBase k.
Proof.
  intros Hrun Hf Hl Hk.
  destruct (Run_delays status_Code turns 0 _ w fin ds s' w' k d Hrun Hf ltac:(lia) Hl Hk)
    as (rnd & Hok & ->).
  unfold waitBase. change (1 * Second) with reconnectMinDelay. change (30 * Second) with reconnectMaxDelay.
  rewrite Z.add_0_l, <- reconnectBase_spec by lia.
  destruct (reconnectBase_spread (Z.of_nat k) ltac:(lia)) as (H4 & Hp & Hb).
  pose proof (withJitter_bounds rnd _ _ Hok eq_refl Hp H4 Hb). unfold reconnectDelay. lia.
Qed.

Lemma reconnect_waits_witness :
  3 * (2 * Second) <= 4 * (3 * Second / 2) < 5 * (2 * Second).
Proof.
  apply (reconnect_waits demoCode demoTurns "t" 10 Storage.emptyDB
           (Run demoCode demoTurns 0 (NewSubscriber "t" 10) Storage.emptyDB).1.1.1
           (Run demoCode demoTurns 0 (NewSubscriber "t" 10) Storage.emptyDB).1.1.2
           (Run demoCode demoTurns 0 (NewSubscriber "t" 10) Storage.emptyDB).1.2
           (Run demoCode demoTurns 0 (NewSubscriber "t" 10) Storage.emptyDB).2
           1%nat (3 * Second / 2)).
  - by vm_compute.
  - repeat constructor; simpl; lia.
  - by vm_compute.
  - by vm_compute.
Defined.

End SubscriberSpec.
