(* ===== verification/Time.v ===== *)
(** * Timestamps

    [time.Time] as JSON: the strict RFC 3339 form with nanoseconds that [MarshalJSON]
    writes for the received_at field of the envelope and for timestamps in payloads,
    and a reader of that form. A time is its nanoseconds since 1970 UTC, with the
    offset of its zone in seconds. *)

From S2P Require Import Prelude Text.
From Stdlib Require Import Strings.Byte.

Module Time.
Import Text.

(** ** The calendar *)

(** Days from the first day of year 0 to the first day of year [y]. *)
Definition daysBefore (y : Z) : Z := 365 * y + (y + 3) / 4 - (y + 99) / 100 + (y + 399) / 400.

Definition unixDays : Z := daysBefore 1970.

Definition isLeap (y : Z) : bool := (y mod 4 =? 0) && (negb (y mod 100 =? 0) || (y mod 400 =? 0)).

(** The year of a day: the mean length of a year puts it within one. *)
Definition yearOf (d : Z) : Z :=
  let y := d * 400 / 146097 in
  if daysBefore (y + 1) <=? d then y + 1 else if daysBefore y <=? d then y else y - 1.

Definition monthLengths (leap : bool) : list Z :=
  [31; if leap then 29 else 28; 31; 30; 31; 30; 31; 31; 30; 31; 30; 31].

(** The month that day [d] of the year (from 0) falls in, and its day in it (from 1). *)
Fixpoint monthDay (lengths : list Z) (m d : Z) : Z * Z :=
  match lengths with
  | [] => (m, d + 1)
  | n :: rest => if d <? n then (m, d + 1) else monthDay rest (m + 1) (d - n)
  end.

Definition daysToMonth (leap : bool) (m : Z) : Z := foldr Z.add 0 (take (Z.to_nat (m - 1)) (monthLengths leap)).

(** ** Writing *)

(** A trailing run of zeros is dropped. *)
Fixpoint dropZeros (l : bytes) : bytes :=
  match l with
  | x30 :: rest => dropZeros rest
  | _ => l
  end.
Definition trimZeros (l : bytes) : bytes := reverse (dropZeros (reverse l)).

Definition fraction (ns : Z) : bytes :=
  match trimZeros (padded 9 ns) with
  | [] => []
  | d => x2e :: d
  end.

(** The zone: Z for UTC, else a sign, hours and minutes. *)
Definition zone (off : Z) : bytes :=
  if off =? 0 then [x5a]
  else
    let m := Z.abs (Z.quot off 60) in
    (if Z.quot off 60 <? 0 then x2d else x2b) :: padded 2 (m / 60) ++ x3a :: padded 2 (m mod 60).

Definition date (days : Z) : bytes :=
  let y := yearOf days in
  let '(m, d) := monthDay (monthLengths (isLeap y)) 1 (days - daysBefore y) in
  padded 4 y ++ x2d :: padded 2 m ++ x2d :: padded 2 d.

Definition clock (sod : Z) : bytes :=
  padded 2 (sod / 3600) ++ x3a :: padded 2 (sod / 60 mod 60) ++ x3a :: padded 2 (sod mod 60).

(** [Time.MarshalJSON], without the quotes. *)
Definition format (ns off : Z) : result bytes :=
  let sec := ns / Second + off in
  let days := sec / 86400 + unixDays in
  if (days <? 0) || (9999 <? yearOf days) then
    Err (NewErr [Lit "Time.MarshalJSON: year outside of range [0,9999]"])
  else if 24 <=? Z.abs (Z.quot off 60) / 60 then
    Err (NewErr [Lit "Time.MarshalJSON: timezone hour outside of range [0,23]"])
  else Ok (date days ++ x54 :: clock (sec mod 86400) ++ fraction (ns mod Second) ++ zone off).

(** ** Reading *)

(** [w] digits. *)
Definition num (w : nat) (l : bytes) : option (Z * bytes) :=
  let d := take w l in
  if (length d =? w)%nat && forallb isDigit d then Some (decVal d, drop w l) else None.

Definition lit (c : Byte.byte) (l : bytes) : option bytes :=
  match l with
  | b :: r => if Byte.eqb b c then Some r else None
  | [] => None
  end.

(** The fraction in nanoseconds. *)
Definition readFraction (l : bytes) : option (Z * bytes) :=
  match l with
  | b :: r =>
      if Byte.eqb b x2e then
        let '(d, r') := spanDigits r in
        if (1 <=? length d)%nat && (length d <=? 9)%nat
        then Some (decVal d * 10 ^ (9 - Z.of_nat (length d)), r') else None
      else Some (0, l)
  | [] => Some (0, l)
  end.

(** The offset in seconds. *)
Definition readZone (l : bytes) : option Z :=
  match l with
  | [] => None
  | b :: r =>
      if Byte.eqb b x5a then match r with [] => Some 0 | _ => None end
      else
        '(h, r1) ← num 2 r; r2 ← lit x3a r1; '(m, r3) ← num 2 r2;
        match r3 with
        | [] => if Byte.eqb b x2b then Some ((h * 60 + m) * 60)
                else if Byte.eqb b x2d then Some (- ((h * 60 + m) * 60)) else None
        | _ => None
        end
  end.

(** The instant a timestamp names. *)
Definition parse (l : bytes) : option Z :=
  '(y, l1) ← num 4 l; l2 ← lit x2d l1; '(mo, l3) ← num 2 l2; l4 ← lit x2d l3; '(d, l5) ← num 2 l4;
  l6 ← lit x54 l5;
  '(h, l7) ← num 2 l6; l8 ← lit x3a l7; '(mi, l9) ← num 2 l8; l10 ← lit x3a l9; '(s, l11) ← num 2 l10;
  '(f, l12) ← readFraction l11;
  off ← readZone l12;
  let days := daysBefore y + daysToMonth (isLeap y) mo + (d - 1) in
  Some (((days - unixDays) * 86400 + h * 3600 + mi * 60 + s - off) * Second + f).

(** ** Lemmas *)

Lemma yearOf_spec d : daysBefore (yearOf d) <= d < daysBefore (yearOf d + 1).
Proof.
  unfold yearOf. cbv zeta. set (y := d * 400 / 146097).
  assert (146097 * y <= d * 400 < 146097 * y + 146097) as Hy by (subst y; Z.div_mod_to_equations; lia).
  destruct (daysBefore (y + 1) <=? d) eqn:E1; [|destruct (daysBefore y <=? d) eqn:E2]; bools.
  - split; [done|]. unfold daysBefore in *. Z.div_mod_to_equations. lia.
  - lia.
  - replace (y - 1 + 1) with y by lia. split; [|done]. unfold daysBefore in *. Z.div_mod_to_equations. lia.
Qed.

Lemma year_length y : daysBefore (y + 1) - daysBefore y = foldr Z.add 0 (monthLengths (isLeap y)).
Proof.
  assert (foldr Z.add 0 (monthLengths (isLeap y)) = if isLeap y then 366 else 365) as -> by by destruct (isLeap y).
  unfold isLeap, daysBefore.
  destruct (y mod 4 =? 0) eqn:E4, (y mod 100 =? 0) eqn:E100, (y mod 400 =? 0) eqn:E400; bools; simpl;
    Z.div_mod_to_equations; lia.
Qed.

Lemma monthDay_spec ls m d m' d' :
  Forall (fun n => 0 <= n <= 31) ls -> 0 <= d < foldr Z.add 0 ls -> monthDay ls m d = (m', d') ->
  m <= m' < m + Z.of_nat (length ls) /\ 1 <= d' <= 31 /\
  d = foldr Z.add 0 (take (Z.to_nat (m' - m)) ls) + (d' - 1).
Proof.
  revert m d. induction ls as [|n ls IH]; intros m d Hf Hd Hm; simpl in *; [lia|].
  apply Forall_cons in Hf as [Hn Hf]. destruct (d <? n) eqn:E; bools.
  - simplify_eq. rewrite Z.sub_diag. simpl. lia.
  - destruct (IH (m + 1) (d - n) Hf ltac:(lia) Hm) as (H1 & H2 & H3). split; [lia|]. split; [done|].
    replace (Z.to_nat (m' - m)) with (S (Z.to_nat (m' - (m + 1)))) by lia. simpl. lia.
Qed.

Lemma monthLengths_bound leap : Forall (fun n => 0 <= n <= 31) (monthLengths leap).
Proof. destruct leap; repeat constructor; lia. Qed.

Lemma num_padded w z rest : 0 <= z < 10 ^ Z.of_nat w -> num w (padded w z ++ rest) = Some (z, rest).
Proof.
  intros Hz. unfold num. rewrite take_app_length', drop_app_length' by (by rewrite padded_length).
  rewrite padded_length, Nat.eqb_refl, (proj2 (forallb_forall _ _)); simpl.
  - by rewrite decVal_padded.
  - intros b Hb. apply list_elem_of_In in Hb. exact (proj1 (Forall_forall _ _) (padded_digits w z) b Hb).
Qed.

Lemma lit_cons c l : lit c (c :: l) = Some l.
Proof. unfold lit. by rewrite Byte.byte_dec_lb. Qed.

Lemma dropZeros_spec l : exists k, l = replicate k x30 ++ dropZeros l.
Proof.
  induction l as [|b l [k IH]]; [by exists 0%nat|]. destruct (decide (b = x30)) as [->|Hb].
  - exists (S k). simpl. by f_equal.
  - exists 0%nat. by destruct b.
Qed.

Lemma trimZeros_spec l : exists k, l = trimZeros l ++ replicate k x30.
Proof.
  destruct (dropZeros_spec (reverse l)) as [k Hk]. exists k. unfold trimZeros.
  rewrite <- (reverse_replicate k x30), <- reverse_app, <- Hk. by rewrite reverse_involutive.
Qed.

Lemma valFrom_zeros acc k : valFrom acc (replicate k x30) = acc * 10 ^ Z.of_nat k.
Proof.
  rewrite valFrom_acc, length_replicate. assert (forall a, valFrom a (replicate k x30) = a * 10 ^ Z.of_nat k) as H.
  2: { rewrite H. lia. }
  induction k as [|k IH]; intros a; [unfold valFrom; simpl; lia|].
  change (valFrom a (replicate (S k) x30)) with (valFrom (a * 10 + 0) (replicate k x30)). rewrite IH.
  rewrite Nat2Z.inj_succ, Z.pow_succ_r by lia. lia.
Qed.

Lemma spanDigits_stop l rest : Forall (fun b => isDigit b = true) l ->
  match rest with b :: _ => isDigit b = false | [] => True end -> spanDigits (l ++ rest) = (l, rest).
Proof.
  intros Hl Hr. induction Hl as [|b l Hb _ IH]; simpl.
  - destruct rest as [|b rest]; [done|]. simpl. by rewrite Hr.
  - by rewrite Hb, IH.
Qed.

Lemma readFraction_spec ns b rest : 0 <= ns < Second -> isDigit b = false -> b <> x2e ->
  readFraction (fraction ns ++ b :: rest) = Some (ns, b :: rest).
Proof.
  intros Hns Hb Hd. unfold fraction. destruct (trimZeros_spec (padded 9 ns)) as [k Hk].
  pose proof (decVal_padded 9 ns Hns) as Hv. pose proof (padded_length 9 ns) as Hl.
  pose proof (padded_digits 9 ns) as Hdg. rewrite Hk in Hv, Hl, Hdg.
  unfold decVal in Hv. rewrite valFrom_app, valFrom_zeros in Hv. rewrite length_app, length_replicate in Hl.
  apply Forall_app in Hdg as [Hdg _]. destruct (trimZeros (padded 9 ns)) as [|a l] eqn:Et.
  - unfold readFraction. cbn [app]. destruct (Byte.eqb b x2e) eqn:E; [by apply Byte.byte_dec_bl in E|].
    unfold valFrom in Hv. simpl in Hv. by subst.
  - unfold readFraction. cbn [app]. change (Byte.eqb x2e x2e) with true. cbv iota.
    change (a :: l ++ b :: rest) with ((a :: l) ++ b :: rest). rewrite spanDigits_stop by done.
    rewrite (proj2 (Nat.leb_le 1 _)), (proj2 (Nat.leb_le _ 9)) by (simpl in *; lia). simpl andb. cbv iota.
    do 2 f_equal. unfold decVal. replace (9 - Z.of_nat (length (a :: l))) with (Z.of_nat k) by lia. done.
Qed.

Lemma zone_head off : exists b l, zone off = b :: l /\ isDigit b = false /\ b <> x2e.
Proof. unfold zone. destruct (off =? 0); [by eexists _, _|]. destruct (_ <? 0); by eexists _, _. Qed.

#[local] Arguments padded : simpl never.
#[local] Arguments num : simpl never.

Lemma readZone_spec off : off mod 60 = 0 -> Z.abs (Z.quot off 60) / 60 < 24 -> readZone (zone off) = Some off.
Proof.
  intros Hm Hh. unfold zone. destruct (off =? 0) eqn:E; bools; [by subst|].
  assert (off = Z.quot off 60 * 60) as Hq.
  { rewrite Z.mul_comm. apply Z.quot_exact; [lia|]. rewrite Z.rem_mod by lia. rewrite (Z.abs_eq 60) by lia.
    apply Z.mod_divide in Hm as [k ->]; [|lia]. rewrite Z.abs_mul, (Z.abs_eq 60), Z_mod_mult by lia. lia. }
  set (m := Z.abs (Z.quot off 60)) in *.
  assert (0 <= m / 60 < 10 ^ Z.of_nat 2) as H1 by (split; [apply Z.div_pos; lia|simpl; lia]).
  assert (0 <= m mod 60 < 10 ^ Z.of_nat 2) as H2 by (pose proof (Z.mod_pos_bound m 60 ltac:(lia)); simpl; lia).
  pose proof (num_padded 2 (m mod 60) [] H2) as Hn2. rewrite app_nil_r in Hn2.
  pose proof (Z.div_mod m 60 ltac:(lia)) as Hdm.
  unfold readZone. destruct (Z.quot off 60 <? 0) eqn:Es; bools; cbn [Byte.eqb].
  - change (Byte.eqb x2d x5a) with false. cbv iota. rewrite (num_padded 2 (m / 60) _ H1). simpl. rewrite Hn2. simpl.
    f_equal. lia.
  - change (Byte.eqb x2b x5a) with false. cbv iota. rewrite (num_padded 2 (m / 60) _ H1). simpl. rewrite Hn2. simpl.
    f_equal. lia.
Qed.

(** The fields of a date in the printable range. *)
Lemma date_fields days :
  0 <= days -> yearOf days <= 9999 ->
  exists y m d, date days = padded 4 y ++ x2d :: padded 2 m ++ x2d :: padded 2 d /\
    0 <= y <= 9999 /\ 1 <= m <= 12 /\ 1 <= d <= 31 /\
    days = daysBefore y + daysToMonth (isLeap y) m + (d - 1).
Proof.
  intros Hd Hy. unfold date. pose proof (yearOf_spec days) as Hs.
  set (y := yearOf days) in *. pose proof (year_length y) as Hl.
  destruct (monthDay (monthLengths (isLeap y)) 1 (days - daysBefore y)) as [m d] eqn:Em.
  destruct (monthDay_spec _ 1 (days - daysBefore y) m d (monthLengths_bound (isLeap y)) ltac:(lia) Em) as (H1 & H2 & H3).
  exists y, m, d. split; [done|]. split; [|split; [|split; [done|]]].
  - split; [|done]. destruct (Z_lt_le_dec y 0) as [Hn|]; [|done]. exfalso.
    assert (daysBefore (y + 1) <= 0); [|lia]. destruct (Z.eq_dec y (-1)) as [->|]; [done|].
    unfold daysBefore. clear -Hn n. Z.div_mod_to_equations. lia.
  - simpl in H1. lia.
  - unfold daysToMonth. lia.
Qed.

Lemma clock_spec sod rest : 0 <= sod < 86400 ->
  exists h m s, clock sod ++ rest = padded 2 h ++ x3a :: padded 2 m ++ x3a :: padded 2 s ++ rest /\
    0 <= h < 100 /\ 0 <= m < 100 /\ 0 <= s < 100 /\ sod = h * 3600 + m * 60 + s.
Proof.
  intros Hs. exists (sod / 3600), (sod / 60 mod 60), (sod mod 60). split; [|Z.div_mod_to_equations; lia].
  unfold clock. by repeat (rewrite <- app_assoc; cbn [app]).
Qed.

(** A timestamp names the instant it was made from, when its zone is in whole minutes. *)
Lemma format_roundtrip ns off b : off mod 60 = 0 -> format ns off = Ok b -> parse b = Some ns.
Proof.
  intros Hm. unfold format. cbv zeta. set (sec := ns / Second + off).
  destruct (_ || _) eqn:E; [done|]. destruct (24 <=? _) eqn:Eh; [done|]. bools.
  assert (forall x : bytes, Ok x = Ok b -> x = b) as Hinj by congruence. intros Hb%Hinj. subst b. clear Hinj.
  destruct (date_fields (sec / 86400 + unixDays)) as (y & mo & d & -> & Hy & Hmo & Hd & Hdays); [lia..|].
  destruct (zone_head off) as (zb & zl & Hz & Hzd & Hzp).
  destruct (clock_spec (sec mod 86400) (fraction (ns mod Second) ++ zone off)) as (h & mi & s & -> & Hh & Hmi & Hs & Hsod).
  { apply Z.mod_pos_bound. lia. }
  unfold parse. repeat (rewrite <- app_assoc; cbn [app]).
  do 6 (rewrite num_padded by (simpl; lia); cbn [mbind option_bind]; rewrite ?lit_cons; cbn [mbind option_bind]).
  rewrite Hz, readFraction_spec by (done || by apply Z.mod_pos_bound). cbn [mbind option_bind].
  rewrite <- Hz, readZone_spec by (done || lia).
  cbn [mbind option_bind]. f_equal. rewrite <- Hdays. pose proof (Z.div_mod sec 86400 ltac:(lia)). pose proof (Z.div_mod ns Second ltac:(done)).
  subst sec. lia.
Qed.

Lemma format_examples :
  format (1700000000 * Second + 123000000) 0 = Ok (bytesOf "2023-11-14T22:13:20.123Z") /\
  format (951782400 * Second) (-19800) = Ok (bytesOf "2000-02-28T18:30:00-05:30") /\
  is_Ok (format (253402300800 * Second) 0) = false.
Proof. split_and!; by vm_compute. Qed.

End Time.
