(* ===== verification/Json.v ===== *)
(** * JSON

    The part of encoding/json the service uses: the encoder behind the Kafka envelope
    (src/internal/handler/kafka.go), the payload column (src/internal/storage/event_repo.go)
    and the health responses (src/internal/health/health.go), and the decoder behind the
    token response (src/internal/auth/oauth.go). A document is a tree whose numbers are
    kept as their literals; strings are bytes, replaced where they are not UTF-8. The
    decoder's limit of 10000 nested values is not modelled. *)

From S2P Require Import Prelude Text.
From Stdlib Require Import Strings.Byte.

Module Json.
Import Text.

(** ** Runes, as unicode/utf8 cuts them *)

Definition within (lo hi : N) (b : Byte.byte) : bool :=
  let n := Byte.to_N b in (lo <=? n)%N && (n <=? hi)%N.

Definition isAscii (b : Byte.byte) : bool := within 0 127 b.
Definition cont (b : Byte.byte) : bool := within 128 191 b.

(** Well-formed sequences of two, three and four bytes. *)
Definition two (a b : Byte.byte) : bool := within 194 223 a && cont b.
Definition three (a b c : Byte.byte) : bool :=
  ((within 224 224 a && within 160 191 b) || (within 225 236 a && cont b) ||
   (within 237 237 a && within 128 159 b) || (within 238 239 a && cont b)) && cont c.
Definition four (a b c d : Byte.byte) : bool :=
  ((within 240 240 a && within 144 191 b) || (within 241 243 a && cont b) ||
   (within 244 244 a && within 128 143 b)) && cont c && cont d.

(** The first rune of a non-empty string and the rest, or the byte that starts none. *)
Inductive rune :=
| Rune (r : bytes) (rest : bytes)
| Broken (rest : bytes).

Definition nextRune (a : Byte.byte) (l1 : bytes) : rune :=
  if isAscii a then Rune [a] l1
  else
    match l1 with
    | b :: l2 =>
        if two a b then Rune [a; b] l2
        else
          match l2 with
          | c :: l3 =>
              if three a b c then Rune [a; b; c] l3
              else
                match l3 with
                | d :: l4 => if four a b c d then Rune [a; b; c; d] l4 else Broken l1
                | [] => Broken l1
                end
          | [] => Broken l1
          end
    | [] => Broken l1
    end.

(** Strings that are UTF-8, rune by rune. *)
Inductive utf8 : bytes -> Prop :=
| utf8_nil : utf8 []
| utf8_one a l : isAscii a = true -> utf8 l -> utf8 (a :: l)
| utf8_two a b l : two a b = true -> utf8 l -> utf8 (a :: b :: l)
| utf8_three a b c l : three a b c = true -> utf8 l -> utf8 (a :: b :: c :: l)
| utf8_four a b c d l : four a b c d = true -> utf8 l -> utf8 (a :: b :: c :: d :: l).

Lemma utf8_ascii l : Forall (fun b => isAscii b = true) l -> utf8 l.
Proof. induction 1; by constructor. Qed.

Ltac ranges :=
  unfold four, three, two, cont, isAscii, within in *;
  repeat match goal with
  | H : (_ || _)%bool = true |- _ => apply orb_true_iff in H as [H|H]
  | H : (_ && _)%bool = true |- _ => apply andb_true_iff in H as [? ?]
  | H : (_ <=? _)%N = true |- _ => apply N.leb_le in H
  end.

Lemma within_false lo hi b : (Byte.to_N b < lo \/ hi < Byte.to_N b)%N -> within lo hi b = false.
Proof. unfold within. rewrite andb_false_iff, !N.leb_gt. tauto. Qed.

Lemma two_not_ascii a b : two a b = true -> isAscii a = false.
Proof. intros H. apply within_false. ranges; lia. Qed.
Lemma three_not a b c : three a b c = true -> isAscii a = false /\ two a b = false.
Proof.
  intros H. assert (within 224 239 a = true) as Ha.
  { ranges; unfold within; rewrite andb_true_iff, !N.leb_le; lia. }
  unfold two, isAscii. rewrite !(within_false _ _ a) by (ranges; lia). done.
Qed.
Lemma four_not a b c d : four a b c d = true -> isAscii a = false /\ two a b = false /\ three a b c = false.
Proof.
  intros H. assert (within 240 244 a = true) as Ha.
  { ranges; unfold within; rewrite andb_true_iff, !N.leb_le; lia. }
  unfold three, two, isAscii. rewrite !(within_false _ _ a) by (ranges; lia). done.
Qed.

(** ** Strings: [appendString] with HTML escaping *)

Definition hexDigit (n : N) : Byte.byte :=
  default x30 (bytesOf "0123456789abcdef" !! N.to_nat n).

(** A byte below 0x80. *)
Definition escapeAscii (b : Byte.byte) : bytes :=
  match b with
  | x22 => [x5c; x22] | x5c => [x5c; x5c]
  | x08 => [x5c; x62] | x0c => [x5c; x66] | x0a => [x5c; x6e] | x0d => [x5c; x72] | x09 => [x5c; x74]
  | x3c | x3e | x26 => [x5c; x75; x30; x30; hexDigit (Byte.to_N b / 16); hexDigit (Byte.to_N b mod 16)]
  | _ => if (Byte.to_N b <? 32)%N
         then [x5c; x75; x30; x30; hexDigit (Byte.to_N b / 16); hexDigit (Byte.to_N b mod 16)]
         else [b]
  end.

(** One rune: ASCII is escaped, U+2028 and U+2029 are, the rest is copied. *)
Definition escapeRune (r : bytes) : bytes :=
  match r with
  | [a] => escapeAscii a
  | [xe2; x80; xa8] => bytesOf "\u2028"
  | [xe2; x80; xa9] => bytesOf "\u2029"
  | _ => r
  end.

Fixpoint escapeAll (fuel : nat) (l : bytes) : bytes :=
  match fuel, l with
  | S fuel', a :: l1 =>
      match nextRune a l1 with
      | Rune r rest => escapeRune r ++ escapeAll fuel' rest
      | Broken rest => bytesOf "\ufffd" ++ escapeAll fuel' rest
      end
  | _, _ => []
  end.

Definition quote (l : bytes) : bytes := [x22] ++ escapeAll (length l) l ++ [x22].

(** ** Strings: [unquote] *)

Definition hexVal (b : Byte.byte) : option N :=
  if within 48 57 b then Some (Byte.to_N b - 48)%N
  else if within 97 102 b then Some (Byte.to_N b - 87)%N
  else if within 65 70 b then Some (Byte.to_N b - 55)%N
  else None.

(** [getu4] on the four digits. *)
Definition u4 (h1 h2 h3 h4 : Byte.byte) : option N :=
  a ← hexVal h1; b ← hexVal h2; c ← hexVal h3; d ← hexVal h4;
  Some (((a * 16 + b) * 16 + c) * 16 + d)%N.

Definition byteN (n : N) : Byte.byte := default x00 (Byte.of_N n).

(** [utf8.AppendRune]; a surrogate becomes U+FFFD. *)
Definition appendRune (r : N) : bytes :=
  if (r <? 128)%N then [byteN r]
  else if (r <? 2048)%N then [byteN (192 + r / 64); byteN (128 + r mod 64)]
  else if (55296 <=? r)%N && (r <=? 57343)%N || (1114111 <? r)%N then [xef; xbf; xbd]
  else if (r <? 65536)%N then
    [byteN (224 + r / 4096); byteN (128 + r / 64 mod 64); byteN (128 + r mod 64)]
  else [byteN (240 + r / 262144); byteN (128 + r / 4096 mod 64); byteN (128 + r / 64 mod 64);
        byteN (128 + r mod 64)].

(** The one-character escapes. *)
Definition unescape (b : Byte.byte) : option Byte.byte :=
  match b with
  | x22 => Some x22 | x5c => Some x5c | x2f => Some x2f
  | x62 => Some x08 | x66 => Some x0c | x6e => Some x0a | x72 => Some x0d | x74 => Some x09
  | _ => None
  end.

Definition isSurrogate (r : N) : bool := (55296 <=? r)%N && (r <=? 57343)%N.

(** [utf16.DecodeRune], when the two make a pair. *)
Definition pair16 (r r2 : N) : option N :=
  if (55296 <=? r)%N && (r <=? 56319)%N && (56320 <=? r2)%N && (r2 <=? 57343)%N
  then Some (65536 + (r - 55296) * 1024 + (r2 - 56320))%N else None.

(** [getu4] on a whole string. *)
Definition getu4 (l : bytes) : option (N * bytes) :=
  match l with
  | a :: b :: h1 :: h2 :: h3 :: h4 :: rest =>
      if Byte.eqb a x5c && Byte.eqb b x75 then r ← u4 h1 h2 h3 h4; Some (r, rest) else None
  | _ => None
  end.

(** What follows a backslash: the bytes it stands for and the rest. *)
Definition escape (l : bytes) : option (bytes * bytes) :=
  match l with
  | [] => None
  | b :: l2 =>
      if Byte.eqb b x75 then
        match getu4 (x5c :: l) with
        | None => None
        | Some (r, l3) =>
            if isSurrogate r then
              match getu4 l3 with
              | Some (r2, l4) =>
                  match pair16 r r2 with
                  | Some rr => Some (appendRune rr, l4)
                  | None => Some ([xef; xbf; xbd], l3)
                  end
              | None => Some ([xef; xbf; xbd], l3)
              end
            else Some (appendRune r, l3)
        end
      else c ← unescape b; Some ([c], l2)
  end.

(** One step through a string literal. *)
Definition piece (a : Byte.byte) (l1 : bytes) : option (bytes * bytes) :=
  if Byte.eqb a x5c then escape l1
  else if (Byte.to_N a <? 32)%N then None
  else match nextRune a l1 with
       | Rune r rest => Some (r, rest)
       | Broken rest => Some ([xef; xbf; xbd], rest)
       end.

(** A string literal after its opening quote: its contents and what follows the closing
    quote. *)
Fixpoint unquote (fuel : nat) (l : bytes) : option (bytes * bytes) :=
  match fuel, l with
  | S fuel', a :: l1 =>
      if Byte.eqb a x22 then Some ([], l1)
      else
        '(p, l2) ← piece a l1;
        '(s, rest) ← unquote fuel' l2;
        Some (p ++ s, rest)
  | _, _ => None
  end.

(** ** Strings: round trip *)

(** The runes a well-formed string is made of. *)
Inductive isRune : bytes -> Prop :=
| isRune_one a : isAscii a = true -> isRune [a]
| isRune_two a b : two a b = true -> isRune [a; b]
| isRune_three a b c : three a b c = true -> isRune [a; b; c]
| isRune_four a b c d : four a b c d = true -> isRune [a; b; c; d].

Lemma utf8_inv l : utf8 l -> l = [] \/ exists r rest, l = r ++ rest /\ isRune r /\ utf8 rest.
Proof.
  destruct 1 as [|a l Ha|a b l Ha|a b c l Ha|a b c d l Ha]; [by left|right..].
  - exists [a], l. repeat constructor; done.
  - exists [a; b], l. repeat constructor; done.
  - exists [a; b; c], l. repeat constructor; done.
  - exists [a; b; c; d], l. repeat constructor; done.
Qed.

Lemma nextRune_spec r l : isRune r -> exists a l1, r ++ l = a :: l1 /\ nextRune a l1 = Rune r l.
Proof.
  intros Hr. destruct Hr as [a Ha|a b Ha|a b c Ha|a b c d Ha]; eexists _, _; (split; [reflexivity|]);
    unfold nextRune; simpl.
  - by rewrite Ha.
  - by rewrite (two_not_ascii _ _ Ha), Ha.
  - destruct (three_not _ _ _ Ha) as [-> ->]. by rewrite Ha.
  - destruct (four_not _ _ _ _ Ha) as (-> & -> & ->). by rewrite Ha.
Qed.

Lemma piece_ascii a l : isAscii a = true ->
  exists b l1, escapeAscii a ++ l = b :: l1 /\ Byte.eqb b x22 = false /\ piece b l1 = Some ([a], l).
Proof. destruct a; intros Ha; try discriminate Ha; eexists _, _; (split; [reflexivity|]); by split. Qed.

(** A rune that is copied as it is. *)
Lemma piece_copied r l : isRune r -> (2 <= length r)%nat ->
  exists b l1, r ++ l = b :: l1 /\ Byte.eqb b x22 = false /\ piece b l1 = Some (r, l).
Proof.
  intros Hr Hl. destruct (nextRune_spec r l Hr) as (a & l1 & He & Hn). exists a, l1. split; [done|].
  assert (isAscii a = false) as Ha.
  { destruct Hr as [x Hx|x y Hx|x y z Hx|x y z u Hx]; simpl in *; simplify_eq; [lia|..].
    - by eapply two_not_ascii.
    - by destruct (three_not _ _ _ Hx).
    - by destruct (four_not _ _ _ _ Hx). }
  unfold piece. by destruct a; try discriminate Ha; rewrite Hn.
Qed.

Lemma piece_escapeRune r l : isRune r ->
  exists b l1, escapeRune r ++ l = b :: l1 /\ Byte.eqb b x22 = false /\ piece b l1 = Some (r, l).
Proof.
  intros Hr. destruct Hr as [a Ha|a b Ha|a b c Ha|a b c d Ha].
  - assert (escapeRune [a] = escapeAscii a) as -> by by destruct a. by apply piece_ascii.
  - assert (escapeRune [a; b] = [a; b]) as -> by (destruct a; try done; by destruct b).
    apply (piece_copied [a; b]); [by constructor|simpl; lia].
  - destruct (decide ([a; b; c] = [xe2; x80; xa8])) as [[= -> -> ->]|H1]; [by eexists _, _|].
    destruct (decide ([a; b; c] = [xe2; x80; xa9])) as [[= -> -> ->]|H2]; [by eexists _, _|].
    assert (escapeRune [a; b; c] = [a; b; c]) as ->.
    { unfold escapeRune. destruct a; try done; destruct b; try done; by destruct c. }
    apply (piece_copied [a; b; c]); [by constructor|simpl; lia].
  - assert (escapeRune [a; b; c; d] = [a; b; c; d]) as ->.
    { unfold escapeRune. destruct a; try done; destruct b; try done; by destruct c. }
    apply (piece_copied [a; b; c; d]); [by constructor|simpl; lia].
Qed.

Lemma isRune_length r : isRune r -> (1 <= length r)%nat.
Proof. destruct 1; simpl; lia. Qed.

(** What [escapeAll] makes of a well-formed string is read back. *)
Lemma unquote_escapeAll n l rest fuel :
  utf8 l -> (length l <= n)%nat -> (length l < fuel)%nat ->
  unquote fuel (escapeAll n l ++ x22 :: rest) = Some (l, rest).
Proof.
  intros Hu. revert n fuel. remember (length l) as k eqn:Hk. revert l Hk Hu.
  induction (lt_wf k) as [k _ IH]. intros l -> Hu n fuel Hn Hf.
  destruct fuel as [|fuel]; [lia|].
  destruct (utf8_inv _ Hu) as [->|(r & l' & -> & Hr & Hu')]; [by destruct n|].
  pose proof (isRune_length r Hr) as Hl. rewrite length_app in *.
  destruct n as [|n]; [lia|]. destruct (nextRune_spec r l' Hr) as (a & l1 & He & Hnr). rewrite He.
  cbn [escapeAll]. rewrite Hnr, <- app_assoc.
  destruct (piece_escapeRune r (escapeAll n l' ++ x22 :: rest) Hr) as (b & l2 & -> & Hb & Hp).
  cbn [unquote]. rewrite Hb, Hp. simpl. rewrite (IH (length l')) by (done || lia). simpl. by rewrite He.
Qed.

Lemma quote_roundtrip l rest : utf8 l ->
  exists l1, quote l ++ rest = x22 :: l1 /\ forall fuel, (length l < fuel)%nat -> unquote fuel l1 = Some (l, rest).
Proof.
  intros Hu. unfold quote. eexists. split; [simpl; reflexivity|]. intros fuel Hf.
  rewrite <- app_assoc. by apply unquote_escapeAll.
Qed.

(** ** Numbers *)

(** At least one digit. *)
Definition digits1 (l : bytes) : option (bytes * bytes) :=
  match spanDigits l with
  | ([], _) => None
  | (d, r) => Some (d, r)
  end.

Definition scanSign (l : bytes) : bytes * bytes :=
  match l with
  | a :: r => if Byte.eqb a x2d then ([a], r) else ([], l)
  | [] => ([], [])
  end.

Definition scanInt (l : bytes) : option (bytes * bytes) :=
  match l with
  | a :: r => if Byte.eqb a x30 then Some ([a], r) else digits1 l
  | [] => None
  end.

Definition scanFrac (l : bytes) : option (bytes * bytes) :=
  match l with
  | a :: r => if Byte.eqb a x2e then '(d, r') ← digits1 r; Some (a :: d, r') else Some ([], l)
  | [] => Some ([], [])
  end.

Definition scanExp (l : bytes) : option (bytes * bytes) :=
  match l with
  | a :: r =>
      if Byte.eqb a x65 || Byte.eqb a x45 then
        match r with
        | b :: r1 =>
            if Byte.eqb b x2b || Byte.eqb b x2d then '(d, r') ← digits1 r1; Some (a :: b :: d, r')
            else '(d, r') ← digits1 r; Some (a :: d, r')
        | [] => None
        end
      else Some ([], l)
  | [] => Some ([], [])
  end.

(** A number literal and what follows it. *)
Definition scanNumber (l : bytes) : option (bytes * bytes) :=
  let '(sg, l1) := scanSign l in
  '(i, l2) ← scanInt l1;
  '(f, l3) ← scanFrac l2;
  '(e, l4) ← scanExp l3;
  Some (sg ++ i ++ f ++ e, l4).

Definition validNumber (n : bytes) : Prop := scanNumber n = Some (n, []).

(** What follows a value: a separator, a closing bracket or a newline. *)
Definition ends (rest : bytes) : Prop :=
  match rest with [] => True | a :: _ => a = x2c \/ a = x5d \/ a = x7d \/ a = x0a end.

(** A scanner whose result does not depend on what comes after an end. *)
Definition stops (scan : bytes -> option (bytes * bytes)) : Prop :=
  forall l d r rest, ends rest -> scan l = Some (d, r) -> scan (l ++ rest) = Some (d, r ++ rest).

Lemma spanDigits_app l d r rest : ends rest -> spanDigits l = (d, r) -> spanDigits (l ++ rest) = (d, r ++ rest).
Proof.
  intros He. revert d r. induction l as [|b l IH]; intros d r Hl; simpl in *.
  - simplify_eq. destruct rest as [|a rest]; [done|]. simpl. by destruct He as [->|[->|[->| ->]]].
  - destruct (isDigit b); [|by simplify_eq]. destruct (spanDigits l) as [d0 r0].
    simplify_eq. by rewrite (IH d0 r eq_refl).
Qed.

Lemma digits1_stops : stops digits1.
Proof.
  intros l d r rest He. unfold digits1. destruct (spanDigits l) as [d0 r0] eqn:E.
  rewrite (spanDigits_app _ _ _ _ He E). destruct d0; [done|]. by intros [= <- <-].
Qed.

Lemma scanInt_stops : stops scanInt.
Proof.
  intros [|a l] d r rest He; [done|]. simpl. destruct (Byte.eqb a x30); [by intros [= <- <-]|].
  apply (digits1_stops (a :: l)). done.
Qed.

Lemma scanFrac_stops : stops scanFrac.
Proof.
  intros [|a l] d r rest He; simpl.
  - intros [= <- <-]. destruct rest as [|a rest]; [done|]. simpl. by destruct He as [->|[->|[->| ->]]].
  - destruct (Byte.eqb a x2e); [|by intros [= <- <-]].
    destruct (digits1 l) as [[d0 r0]|] eqn:E; [|done]. rewrite (digits1_stops _ _ _ _ He E).
    by intros [= <- <-].
Qed.

Lemma scanExp_stops : stops scanExp.
Proof.
  intros [|a l] d r rest He; simpl.
  - intros [= <- <-]. destruct rest as [|a rest]; [done|]. simpl. by destruct He as [->|[->|[->| ->]]].
  - destruct (_ || _); [|by intros [= <- <-]]. destruct l as [|b l]; [done|]. cbn [app].
    destruct (_ || _).
    + destruct (digits1 l) as [[d0 r0]|] eqn:E; [|done]. rewrite (digits1_stops _ _ _ _ He E).
      by intros [= <- <-].
    + destruct (digits1 (b :: l)) as [[d0 r0]|] eqn:E; [|done].
      pose proof (digits1_stops _ _ _ _ He E) as E'. cbn [app] in E'. rewrite E'. by intros [= <- <-].
Qed.

Lemma scanNumber_stops : stops scanNumber.
Proof.
  intros l d r rest He. unfold scanNumber. destruct (scanSign l) as [sg l1] eqn:E0.
  destruct (scanInt l1) as [[i l2]|] eqn:E1; [|done]. simpl.
  destruct (scanFrac l2) as [[f l3]|] eqn:E2; [|done]. simpl.
  destruct (scanExp l3) as [[e l4]|] eqn:E3; [|done]. simpl. intros [= <- <-].
  assert (scanSign (l ++ rest) = (sg, l1 ++ rest)) as ->.
  { destruct l as [|a l]; simpl in *; [by simplify_eq|]. destruct (Byte.eqb a x2d); by simplify_eq. }
  rewrite (scanInt_stops _ _ _ _ He E1). simpl. rewrite (scanFrac_stops _ _ _ _ He E2). simpl.
  by rewrite (scanExp_stops _ _ _ _ He E3).
Qed.

Lemma validNumber_head n : validNumber n -> exists a n', n = a :: n' /\ (a = x2d \/ isDigit a = true).
Proof.
  unfold validNumber, scanNumber. destruct n as [|a n]; [done|]. intros H. exists a, n. split; [done|].
  simpl in H. destruct (Byte.eqb a x2d) eqn:E; [left; by apply Byte.byte_dec_bl|]. right.
  simpl in H. destruct (Byte.eqb a x30) eqn:E0; [by rewrite (Byte.byte_dec_bl _ _ E0)|]. unfold digits1 in H. simpl in H.
  by destruct (isDigit a).
Qed.

(** What [strconv] prints is a number literal. *)
Lemma plainDigits_scanInt l : plainDigits l -> scanInt l = Some (l, []).
Proof.
  intros (Hne & Hd & Hz). destruct l as [|a l]; [done|]. cbn [scanInt]. destruct (Byte.eqb a x30) eqn:E.
  - apply Byte.byte_dec_bl in E as ->. by injection (Hz eq_refl) as ->.
  - unfold digits1. by rewrite (spanDigits_all _ Hd).
Qed.

Lemma decimal_validNumber z : validNumber (decimal z).
Proof.
  assert (forall n, 0 <= n -> plainDigits (digitsFrom (S (Z.to_nat (Z.log2 n))) n)) as Hp.
  { intros n Hn. by destruct (digitsFrom_spec _ _ (decimal_fuel n Hn) ltac:(lia)) as (_ & ? & _). }
  unfold validNumber, decimal, scanNumber. cbv zeta. destruct (z <? 0) eqn:E; bools.
  - change (scanSign (x2d :: ?l)) with ([x2d], l). cbv iota. rewrite (plainDigits_scanInt _ (Hp (- z) ltac:(lia))). simpl.
    by rewrite app_nil_r.
  - specialize (Hp z ltac:(lia)). assert (scanSign (digitsFrom (S (Z.to_nat (Z.log2 z))) z)
      = ([], digitsFrom (S (Z.to_nat (Z.log2 z))) z)) as ->.
    { destruct Hp as (_ & Hd & _). destruct (digitsFrom _ z) as [|b l]; [done|]. simpl.
      apply Forall_cons in Hd as [Hb _]. by destruct b. }
    rewrite (plainDigits_scanInt _ Hp). simpl. by rewrite app_nil_r.
Qed.

(** ** Documents *)

Unset Elimination Schemes.
Inductive json :=
| JNull
| JBool (b : bool)
| JNumber (lit : bytes)
| JString (s : bytes)
| JArray (l : list json)
| JObject (m : list (bytes * json)).
Set Elimination Schemes.

(** Induction with a hypothesis for every element and every member. *)
Lemma json_ind (P : json -> Prop) :
  P JNull -> (forall b, P (JBool b)) -> (forall n, P (JNumber n)) -> (forall s, P (JString s)) ->
  (forall l, Forall P l -> P (JArray l)) -> (forall m, Forall (fun kv => P kv.2) m -> P (JObject m)) ->
  forall j, P j.
Proof.
  intros Hn Hb Hl Hs Ha Ho. fix IH 1. intros [|b|n|s|l|m]; [done..| |].
  - apply Ha. induction l; constructor; [apply IH|done].
  - apply Ho. induction m as [|[k v] m IHm]; constructor; [apply IH|done].
Qed.

(** Elements with commas between them. *)
Fixpoint commas (l : list bytes) : bytes :=
  match l with
  | [] => []
  | [x] => x
  | x :: rest => x ++ [x2c] ++ commas rest
  end.

Fixpoint print (j : json) : bytes :=
  match j with
  | JNull => bytesOf "null"
  | JBool true => bytesOf "true"
  | JBool false => bytesOf "false"
  | JNumber n => n
  | JString s => quote s
  | JArray l => [x5b] ++ commas (map print l) ++ [x5d]
  | JObject m => [x7b] ++ commas (map (fun kv => quote kv.1 ++ x3a :: print kv.2) m) ++ [x7d]
  end.

(** ** The decoder *)

Definition isSpace (b : Byte.byte) : bool :=
  match b with x20 | x09 | x0d | x0a => true | _ => false end.

Fixpoint skipSpace (l : bytes) : bytes :=
  match l with
  | b :: rest => if isSpace b then skipSpace rest else l
  | [] => []
  end.

(** The rest after an exact prefix. *)
Fixpoint strip (pre l : bytes) : option bytes :=
  match pre, l with
  | [], _ => Some l
  | a :: pre', b :: l' => if Byte.eqb a b then strip pre' l' else None
  | _ :: _, [] => None
  end.

Fixpoint parseValue (fuel : nat) (l : bytes) : option (json * bytes) :=
  match fuel with
  | O => None
  | S f =>
      match skipSpace l with
      | [] => None
      | a :: l1 =>
          if Byte.eqb a x22 then '(s, r) ← unquote (S (length l1)) l1; Some (JString s, r)
          else if Byte.eqb a x7b then
            match skipSpace l1 with
            | b :: r =>
                if Byte.eqb b x7d then Some (JObject [], r)
                else '(m, r') ← parseMembers f l1; Some (JObject m, r')
            | [] => None
            end
          else if Byte.eqb a x5b then
            match skipSpace l1 with
            | b :: r =>
                if Byte.eqb b x5d then Some (JArray [], r)
                else '(vs, r') ← parseElems f l1; Some (JArray vs, r')
            | [] => None
            end
          else if Byte.eqb a x6e then r ← strip (bytesOf "ull") l1; Some (JNull, r)
          else if Byte.eqb a x74 then r ← strip (bytesOf "rue") l1; Some (JBool true, r)
          else if Byte.eqb a x66 then r ← strip (bytesOf "alse") l1; Some (JBool false, r)
          else '(n, r) ← scanNumber (a :: l1); Some (JNumber n, r)
      end
  end
(** The elements of an array up to its bracket. *)
with parseElems (fuel : nat) (l : bytes) : option (list json * bytes) :=
  match fuel with
  | O => None
  | S f =>
      '(v, r) ← parseValue f l;
      match skipSpace r with
      | b :: r1 =>
          if Byte.eqb b x2c then '(vs, r2) ← parseElems f r1; Some (v :: vs, r2)
          else if Byte.eqb b x5d then Some ([v], r1)
          else None
      | [] => None
      end
  end
(** The members of an object up to its brace. *)
with parseMembers (fuel : nat) (l : bytes) : option (list (bytes * json) * bytes) :=
  match fuel with
  | O => None
  | S f =>
      match skipSpace l with
      | a :: l1 =>
          if Byte.eqb a x22 then
            '(k, r) ← unquote (S (length l1)) l1;
            match skipSpace r with
            | c :: r1 =>
                if Byte.eqb c x3a then
                  '(v, r2) ← parseValue f r1;
                  match skipSpace r2 with
                  | b :: r3 =>
                      if Byte.eqb b x2c then '(m, r4) ← parseMembers f r3; Some ((k, v) :: m, r4)
                      else if Byte.eqb b x7d then Some ([(k, v)], r3)
                      else None
                  | [] => None
                  end
                else None
            | [] => None
            end
          else None
      | [] => None
      end
  end.

(** A whole document: nothing but space after the value. *)
Definition parse (l : bytes) : option json :=
  '(j, r) ← parseValue (S (length l)) l;
  match skipSpace r with
  | [] => Some j
  | _ => None
  end.

(** ** Documents: round trip *)

(** Strings are UTF-8 and numbers are literals. *)
Inductive wf : json -> Prop :=
| wf_null : wf JNull
| wf_bool b : wf (JBool b)
| wf_number n : validNumber n -> wf (JNumber n)
| wf_string s : utf8 s -> wf (JString s)
| wf_array l : Forall wf l -> wf (JArray l)
| wf_object m : Forall (fun kv => utf8 kv.1 /\ wf kv.2) m -> wf (JObject m).

(** Fuel that parses what [print] made. *)
Fixpoint cost (j : json) : nat :=
  match j with
  | JArray l => S (foldr (fun x n => S (cost x + n)) 0 l)%nat
  | JObject m => S (foldr (fun kv n => S (cost kv.2 + n)) 0 m)%nat
  | _ => 1%nat
  end.

Lemma escapeRune_length r : isRune r -> (length r <= length (escapeRune r))%nat.
Proof.
  intros Hr. destruct Hr as [a Ha|a b Ha|a b c Ha|a b c d Ha].
  - destruct a; simpl; lia.
  - destruct a; simpl; try lia; destruct b; simpl; lia.
  - destruct a; simpl; try lia; destruct b; simpl; try lia; destruct c; simpl; lia.
  - destruct a; simpl; try lia; destruct b; simpl; try lia; destruct c; simpl; lia.
Qed.

Lemma escapeAll_length n l : utf8 l -> (length l <= n)%nat -> (length l <= length (escapeAll n l))%nat.
Proof.
  revert l. induction n as [|n IH]; intros l Hu Hn; [lia|].
  destruct (utf8_inv _ Hu) as [->|(r & l' & -> & Hr & Hu')]; [simpl; lia|].
  pose proof (isRune_length r Hr). pose proof (escapeRune_length r Hr). rewrite length_app in *.
  destruct (nextRune_spec r l' Hr) as (a & l1 & He & Hnr). rewrite He. cbn [escapeAll]. rewrite Hnr, length_app.
  specialize (IH l' Hu' ltac:(lia)). lia.
Qed.

(** A string literal at the head of the input. *)
Lemma unquote_quote s rest : utf8 s ->
  exists l1, quote s ++ rest = x22 :: l1 /\ unquote (S (length l1)) l1 = Some (s, rest).
Proof.
  intros Hu. destruct (quote_roundtrip s rest Hu) as (l1 & He & Hq). exists l1. split; [done|]. apply Hq.
  unfold quote in He. simpl in He. injection He as <-. rewrite !length_app.
  pose proof (escapeAll_length (length s) s Hu). lia.
Qed.

Lemma quote_head s : exists l, quote s = x22 :: l.
Proof. by eexists. Qed.

Lemma print_head j : wf j -> exists a l, print j = a :: l /\ isSpace a = false /\ a <> x5d.
Proof.
  destruct 1 as [|[]|n Hn|s| |]; try (by eexists _, _; split_and!).
  destruct (validNumber_head n Hn) as (a & l & -> & Ha). exists a, l. split; [done|].
  destruct Ha as [->|Ha]; [done|]. by destruct a.
Qed.

Lemma skipSpace_head a l : isSpace a = false -> skipSpace (a :: l) = a :: l.
Proof. intros Ha. simpl. by rewrite Ha. Qed.

Lemma ends_head a l : a = x2c \/ a = x5d \/ a = x7d -> skipSpace (a :: l) = a :: l.
Proof. by intros [->|[->| ->]]. Qed.

(** What [print] made is read back, wherever it stands. *)
Definition reads (j : json) : Prop :=
  wf j -> forall rest fuel, ends rest -> (cost j <= fuel)%nat ->
  parseValue fuel (print j ++ rest) = Some (j, rest).

Lemma reads_elems l rest fuel :
  Forall reads l -> Forall wf l -> l <> [] ->
  (foldr (fun x n => S (cost x + n)) 0 l <= fuel)%nat ->
  parseElems fuel (commas (map print l) ++ x5d :: rest) = Some (l, rest).
Proof.
  revert fuel. induction l as [|x l IH]; intros fuel HR HW Hne Hf; [done|].
  apply Forall_cons in HR as [Hx Hl], HW as [Wx Wl].
  destruct fuel as [|fuel]; simpl in Hf; [lia|]. destruct l as [|y l].
  - simpl. rewrite (Hx Wx) by (simpl; auto; lia). done.
  - pose proof (IH fuel Hl Wl ltac:(done) ltac:(simpl in *; lia)) as Hi.
    change (commas (map print (x :: y :: l))) with (print x ++ x2c :: commas (map print (y :: l))).
    revert Hi. generalize (commas (map print (y :: l))). intros tl Hi. rewrite <- app_assoc.
    cbn [parseElems]. rewrite (Hx Wx) by (simpl; auto; lia). simpl. by rewrite Hi.
Qed.

Lemma reads_members m rest fuel :
  Forall (fun kv => reads kv.2) m -> Forall (fun kv => utf8 kv.1 /\ wf kv.2) m -> m <> [] ->
  (foldr (fun kv n => S (cost kv.2 + n)) 0 m <= fuel)%nat ->
  parseMembers fuel (commas (map (fun kv => quote kv.1 ++ x3a :: print kv.2) m) ++ x7d :: rest) = Some (m, rest).
Proof.
  revert fuel. induction m as [|[k x] m IH]; intros fuel HR HW Hne Hf; [done|].
  apply Forall_cons in HR as [Hx Hl], HW as [[Wk Wx] Wl].
  destruct fuel as [|fuel]; simpl in Hf, Hx, Wk, Wx; [lia|].
  set (tail := match m with [] => [] | _ => x2c :: commas (map (fun kv => quote kv.1 ++ x3a :: print kv.2) m) end).
  assert (commas (map (fun kv => quote kv.1 ++ x3a :: print kv.2) ((k, x) :: m)) ++ x7d :: rest
          = quote k ++ x3a :: print x ++ tail ++ x7d :: rest) as ->.
  { subst tail. destruct m; simpl; repeat (rewrite <- app_assoc; simpl); done. }
  destruct (unquote_quote k (x3a :: print x ++ tail ++ x7d :: rest) Wk) as (l1 & -> & Hq).
  cbn [parseMembers]. change (skipSpace (x22 :: l1)) with (x22 :: l1). change (Byte.eqb x22 x22) with true.
  cbv iota. rewrite Hq. simpl mbind. change (skipSpace (x3a :: ?l)) with (x3a :: l).
  change (Byte.eqb x3a x3a) with true. cbv iota.
  rewrite (Hx Wx) by (subst tail; destruct m; simpl; auto; lia). simpl mbind. subst tail. destruct m as [|kv m]; [done|].
  pose proof (IH fuel Hl Wl ltac:(done) ltac:(simpl in *; lia)) as Hi. revert Hi.
  generalize (commas (map (fun kv => quote kv.1 ++ x3a :: print kv.2) (kv :: m))). intros tl Hi.
  simpl. by rewrite Hi.
Qed.

Lemma reads_all j : reads j.
Proof.
  induction j as [|b|n|s|l IH|m IH] using json_ind; intros Hw rest fuel He Hf;
    (destruct fuel as [|fuel]; [simpl in Hf; lia|]); inversion Hw; subst.
  - done.
  - by destruct b.
  - destruct (validNumber_head n) as (a & n' & -> & Ha); [done|].
    pose proof (scanNumber_stops _ _ _ rest He H0) as Hs. cbn [print parseValue app] in *.
    rewrite skipSpace_head by (destruct Ha as [->|Ha]; [done|by destruct a]).
    rewrite Hs. destruct Ha as [->|Ha]; [done|]. by destruct a.
  - destruct (unquote_quote s rest) as (l1 & Hq & Hu); [done|]. cbn [print parseValue]. rewrite Hq.
    change (skipSpace (x22 :: l1)) with (x22 :: l1). change (Byte.eqb x22 x22) with true. cbv iota. by rewrite Hu.
  - cbn [print parseValue app]. change (skipSpace (x5b :: ?l)) with (x5b :: l). cbn [Byte.eqb].
    destruct l as [|x l]; [done|]. rewrite <- app_assoc. cbn [app].
    pose proof (reads_elems (x :: l) rest fuel IH H0 ltac:(done) ltac:(simpl in *; lia)) as Hr.
    apply Forall_cons in H0 as [Wx _]. destruct (print_head x Wx) as (a & t & Ha & Hsp & Hne).
    assert (exists t', commas (map print (x :: l)) = a :: t') as [t' Ht].
    { simpl. rewrite Ha. destruct (map print l); by eexists. }
    rewrite Ht in *. cbn [app] in *. rewrite skipSpace_head by done.
    destruct (Byte.eqb a x5d) eqn:E; [by apply Byte.byte_dec_bl in E|]. by rewrite Hr.
  - cbn [print parseValue app]. change (skipSpace (x7b :: ?l)) with (x7b :: l). cbn [Byte.eqb].
    destruct m as [|[k x] m]; [done|]. rewrite <- app_assoc. cbn [app].
    pose proof (reads_members ((k, x) :: m) rest fuel IH H0 ltac:(done) ltac:(simpl in *; lia)) as Hr.
    assert (exists t', commas (map (fun kv => quote kv.1 ++ x3a :: print kv.2) ((k, x) :: m)) = x22 :: t') as [t' Ht].
    { simpl. destruct (map _ m); by eexists. }
    rewrite Ht in *. cbn [app] in *. change (skipSpace (x22 :: ?l)) with (x22 :: l).
    change (Byte.eqb x22 x7d) with false. cbv iota. by rewrite Hr.
Qed.

(** The length of a document bounds its cost. *)
Lemma commas_length l : l <> [] -> S (length (commas l)) = foldr (fun x n => S (length x + n)) 0%nat l.
Proof.
  induction l as [|x l IH]; intros Hne; [done|]. destruct l as [|y l]; [simpl; lia|].
  change (commas (x :: y :: l)) with (x ++ x2c :: commas (y :: l)). rewrite length_app. simpl in *.
  specialize (IH ltac:(done)). lia.
Qed.

Lemma cost_sum {A} (f : A -> nat) (g : A -> bytes) l :
  Forall (fun x => f x <= length (g x))%nat l ->
  (S (foldr (fun x n => S (f x + n)) 0 l) <= length (commas (map g l)) + 2)%nat.
Proof.
  intros Hl. destruct l as [|x l]; [simpl; lia|].
  assert (foldr (fun x n => S (f x + n)) 0 (x :: l) <= foldr (fun y n => S (length y + n)) 0 (map g (x :: l)))%nat as Hle.
  { induction Hl as [|y l0 Hy _ IH]; simpl; [lia|]. lia. }
  rewrite <- commas_length in Hle by done. lia.
Qed.

Lemma cost_print j : wf j -> (cost j <= length (print j))%nat.
Proof.
  induction j as [|[]|n|s|l IH|m IH] using json_ind; intros Hw; inversion Hw; subst; cbn [cost print]; try (simpl; lia).
  - destruct (validNumber_head n) as (a & n' & -> & _); [done|]. simpl. lia.
  - rewrite !length_app. cbn [length]. pose proof (cost_sum cost print l) as Hc.
    assert (Forall (fun x => cost x <= length (print x))%nat l) as Hl.
    { apply Forall_forall. intros x Hx. apply (proj1 (Forall_forall _ _) IH); [done|].
      by apply (proj1 (Forall_forall _ _) H0). }
    specialize (Hc Hl). lia.
  - rewrite !length_app. cbn [length].
    pose proof (cost_sum (fun kv => cost kv.2) (fun kv : bytes * json => quote kv.1 ++ x3a :: print kv.2) m) as Hc.
    assert (Forall (fun kv : bytes * json => cost kv.2 <= length (quote kv.1 ++ x3a :: print kv.2))%nat m) as Hl.
    { apply Forall_forall. intros x Hx. rewrite length_app. simpl.
      assert (cost x.2 <= length (print x.2))%nat; [|lia].
      apply (proj1 (Forall_forall _ _) IH); [done|]. by apply (proj1 (Forall_forall _ _) H0). }
    specialize (Hc Hl). lia.
Qed.

(** A document is read back from its text. *)
Lemma parse_print j : wf j -> parse (print j) = Some j.
Proof.
  intros Hw. unfold parse. pose proof (cost_print j Hw).
  pose proof (reads_all j Hw [] (S (length (print j))) I ltac:(lia)) as Hr. rewrite app_nil_r in Hr.
  by rewrite Hr.
Qed.

End Json.
