(* ===== verification/Number.v ===== *)
(** * Numbers in JSON

    What a number literal stands for: an integer, or the binary floating-point number
    nearest to its decimal value. [strconv] writes the floats of a payload; its text is a
    parameter, of which it is only known that it is a literal and that its nearest float is
    the one written. *)

From S2P Require Import Prelude Text Time Json.
From Stdlib Require Import Strings.Byte SpecFloat.
#[local] Open Scope Z_scope.

Module Number.
Import Text Json.

(** ** Literals *)

Definition expVal (e : bytes) : Z :=
  match e with
  | [] => 0
  | _ :: x2d :: d => - decVal d
  | _ :: x2b :: d => decVal d
  | _ :: d => decVal d
  end.

(** A literal as sign, digits and power of ten. *)
Definition literal (l : bytes) : option (bool * Z * Z) :=
  let '(sg, l1) := scanSign l in
  '(i, l2) ← scanInt l1;
  '(f, l3) ← scanFrac l2;
  '(e, l4) ← scanExp l3;
  match l4 with
  | [] => Some (match sg with [] => false | _ => true end, decVal (i ++ tail f),
                expVal e - Z.of_nat (length (tail f)))
  | _ => None
  end.

Definition readInt (l : bytes) : option Z :=
  match literal l with
  | Some (s, n, x) => if x =? 0 then Some (if s then - n else n) else None
  | None => None
  end.

(** ** The nearest float *)

(** Precision and largest exponent of float32 and float64. *)
Definition prec (single : bool) : Z := if single then 24 else 53.
Definition emax (single : bool) : Z := if single then 128 else 1024.
Definition isFloat (single : bool) (f : spec_float) : Prop := valid_binary (prec single) (emax single) f = true.

(** [n / d] in units of [2 ^ e], as a fraction. *)
Definition scale (n d e : Z) : Z * Z := if 0 <=? e then (n, d * 2 ^ e) else (n * 2 ^ (- e), d).

(** Whether [2 ^ e <= n / d], and the largest such [e]. *)
Definition reaches (n d e : Z) : bool := let '(a, b) := scale n d e in b <=? a.
Definition floorLog2 (n d : Z) : Z :=
  let e := Z.log2 n - Z.log2 d in
  if reaches n d e then e else e - 1.

(** The nearest integer, the even one of two. *)
Definition roundDiv (a b : Z) : Z :=
  let q := a / b in
  match 2 * (a mod b) ?= b with
  | Lt => q
  | Gt => q + 1
  | Eq => if Z.even q then q else q + 1
  end.

(** [n / d] as a float, [None] when it is out of range. *)
Definition nearest (single s : bool) (n d : Z) : option spec_float :=
  if n =? 0 then Some (S754_zero s)
  else
    let e := Z.max (floorLog2 n d + 1 - prec single) (SpecFloat.emin (prec single) (emax single)) in
    let '(a, b) := scale n d e in
    let m := roundDiv a b in
    let '(m, e) := if m =? 2 ^ prec single then (2 ^ (prec single - 1), e + 1) else (m, e) in
    match m with
    | Z0 => Some (S754_zero s)
    | Zpos p => if e <=? emax single - prec single then Some (S754_finite s p e) else None
    | Zneg _ => None
    end.

(** [strconv.ParseFloat] on a literal. *)
Definition parseFloat (single : bool) (l : bytes) : option spec_float :=
  match literal l with
  | Some (s, n, x) => if 0 <=? x then nearest single s (n * 10 ^ x) 1 else nearest single s n (10 ^ (- x))
  | None => None
  end.

(** ** What [strconv] promises *)

Definition isFinite (f : spec_float) : bool :=
  match f with S754_zero _ | S754_finite _ _ _ => true | S754_infinity _ | S754_nan => false end.

(** The shortest decimal form of a finite number ([strconv.AppendFloat] with JSON's
    choice of exponent), for float32 and float64. *)
Class FloatText := appendFloat : bool -> spec_float -> bytes.
Class FloatTextLaws `{FloatText} := {
  appendFloat_valid b f : isFinite f = true -> validNumber (appendFloat b f);
  appendFloat_read b f : isFinite f = true -> isFloat b f -> parseFloat b (appendFloat b f) = Some f;
}.

(** ** Literals without a fraction *)

Definition sign (s : bool) : bytes := if s then [x2d] else [].

Lemma digits_plain n : 0 <= n -> exists d, plainDigits d /\ decVal d = n /\ decimal n = d.
Proof.
  intros Hn. destruct (digitsFrom_spec _ _ (decimal_fuel n Hn) ltac:(lia)) as (Hv & Hp & _).
  eexists. split; [exact Hp|]. split; [exact Hv|]. unfold decimal. by rewrite (proj2 (Z.ltb_ge _ _)) by lia.
Qed.

Lemma decimal_shape z : exists d, plainDigits d /\ decVal d = Z.abs z /\ decimal z = sign (z <? 0) ++ d.
Proof.
  destruct (digits_plain (Z.abs z) ltac:(lia)) as (d & Hp & Hv & Hd). exists d. split; [done|]. split; [done|].
  rewrite <- Hd. unfold decimal. rewrite (proj2 (Z.ltb_ge (Z.abs z) 0)) by lia.
  destruct (z <? 0) eqn:E; bools; simpl; [by rewrite Z.abs_neq by lia|by rewrite Z.abs_eq by lia].
Qed.

Lemma scanSign_sign s d l : plainDigits d -> scanSign (sign s ++ d ++ l) = (sign s, d ++ l).
Proof.
  intros (Hne & Hd & _). destruct d as [|b d]; [done|]. apply Forall_cons in Hd as [Hb _].
  destruct s; [done|]. simpl. by destruct b.
Qed.

Lemma scanInt_plain d a l : plainDigits d -> isDigit a = false -> scanInt (d ++ a :: l) = Some (d, a :: l).
Proof.
  intros (Hne & Hd & Hz) Ha. destruct d as [|b d]; [done|]. cbn [app scanInt]. destruct (Byte.eqb b x30) eqn:E.
  - apply Byte.byte_dec_bl in E as ->. by injection (Hz eq_refl) as ->.
  - unfold digits1. pose proof (Time.spanDigits_stop (b :: d) (a :: l) Hd Ha) as Hs. cbn [app] in Hs. by rewrite Hs.
Qed.

Lemma literal_plain s d : plainDigits d ->
  literal (sign s ++ d) = Some (s, decVal d, 0) /\ validNumber (sign s ++ d).
Proof.
  intros Hd. pose proof (scanSign_sign s d [] Hd) as Hs. rewrite !app_nil_r in Hs.
  unfold literal, validNumber, scanNumber. rewrite Hs, (plainDigits_scanInt _ Hd). simpl.
  rewrite app_nil_r. split; [|done]. by destruct s.
Qed.

Lemma digits1_plain d : plainDigits d -> digits1 d = Some (d, []).
Proof. intros (Hne & Hd & _). unfold digits1. rewrite (spanDigits_all _ Hd). by destruct d. Qed.

Lemma literal_exp s d k : plainDigits d -> plainDigits k ->
  literal (sign s ++ d ++ x65 :: x2d :: k) = Some (s, decVal d, - decVal k) /\
  validNumber (sign s ++ d ++ x65 :: x2d :: k).
Proof.
  intros Hd Hk. unfold literal, validNumber, scanNumber.
  rewrite (scanSign_sign s d _ Hd), (scanInt_plain d x65 _ Hd eq_refl). simpl. rewrite (digits1_plain _ Hk). simpl.
  split; [|done]. rewrite app_nil_r, Z.sub_0_r. by destruct s.
Qed.

(** What [strconv] prints for an integer is read back. *)
Lemma readInt_decimal z : readInt (decimal z) = Some z.
Proof.
  destruct (decimal_shape z) as (d & Hp & Hv & ->). unfold readInt.
  rewrite (proj1 (literal_plain _ _ Hp)). simpl. rewrite Hv. destruct (z <? 0) eqn:E; bools; f_equal; lia.
Qed.

(** ** Exact values *)

(** [n / d] is [m * 2 ^ e]. *)
Definition exactly (n d m e : Z) : Prop := (scale n d e).1 = m * (scale n d e).2.

Lemma pow2_pos k : 0 <= k -> 0 < 2 ^ k.
Proof. intros. apply Z.pow_pos_nonneg; lia. Qed.

(** Comparisons with a common power of two. *)
Lemma scale_up n d e k : 0 < d -> 0 <= k -> 0 <= e + k ->
  exists c, 0 < c /\ n * 2 ^ k = (scale n d e).1 * c /\ d * 2 ^ (e + k) = (scale n d e).2 * c.
Proof.
  intros Hd Hk Hek. unfold scale. destruct (0 <=? e) eqn:E; bools; cbn [fst snd].
  - exists (2 ^ k). split; [by apply pow2_pos|]. split; [done|]. rewrite Z.pow_add_r by lia. ring.
  - exists (2 ^ (e + k)). split; [by apply pow2_pos|]. split; [|done].
    rewrite <- Z.mul_assoc, <- Z.pow_add_r by lia. do 2 f_equal. lia.
Qed.

Lemma reaches_up n d e k : 0 < d -> 0 <= k -> 0 <= e + k -> reaches n d e = true <-> d * 2 ^ (e + k) <= n * 2 ^ k.
Proof.
  intros Hd Hk Hek. destruct (scale_up n d e k Hd Hk Hek) as (c & Hc & -> & ->).
  unfold reaches. destruct (scale n d e) as [a b]. cbn [fst snd]. rewrite Z.leb_le. nia.
Qed.

Lemma exactly_up n d m e k : 0 < d -> 0 <= k -> 0 <= e + k -> exactly n d m e -> n * 2 ^ k = m * (d * 2 ^ (e + k)).
Proof.
  intros Hd Hk Hek. unfold exactly. destruct (scale_up n d e k Hd Hk Hek) as (c & Hc & -> & ->). intros ->. ring.
Qed.

Lemma floorLog2_exact n d m e : 0 < n -> 0 < d -> 0 < m -> exactly n d m e -> floorLog2 n d = Z.log2 m + e.
Proof.
  intros Hn Hd Hm Hx. set (L := Z.log2 m + e). set (l := Z.log2 n - Z.log2 d).
  pose proof (Z.log2_nonneg n). pose proof (Z.log2_nonneg d). pose proof (Z.log2_nonneg m).
  set (k := Z.log2 n + Z.log2 d + Z.log2 m + Z.abs e + 2).
  pose proof (exactly_up n d m e k Hd ltac:(lia) ltac:(lia) Hx) as Hnk.
  pose proof (Z.log2_spec m Hm) as [Hm1 Hm2]. pose proof (Z.log2_spec n Hn) as [Hn1 Hn2].
  pose proof (Z.log2_spec d Hd) as [Hd1 Hd2].
  assert (forall j, 0 <= j + k -> reaches n d j = true <-> j <= L) as HL.
  { intros j Hj. rewrite (reaches_up n d j k) by lia. rewrite Hnk. split.
    - intros Hle. destruct (Z.le_gt_cases j L) as [|Hgt]; [done|exfalso].
      assert (2 ^ (Z.succ (Z.log2 m)) * 2 ^ (e + k) <= 2 ^ (j + k))
        by (rewrite <- Z.pow_add_r by lia; apply Z.pow_le_mono_r; lia).
      pose proof (pow2_pos (e + k) ltac:(lia)). assert (m * 2 ^ (e + k) < 2 ^ (j + k)) by nia. nia.
    - intros Hle. assert (2 ^ (j + k) <= 2 ^ Z.log2 m * 2 ^ (e + k))
        by (rewrite <- Z.pow_add_r by lia; apply Z.pow_le_mono_r; lia).
      pose proof (pow2_pos (e + k) ltac:(lia)). assert (2 ^ (j + k) <= m * 2 ^ (e + k)) by nia. nia. }
  assert (reaches n d (l - 1) = true) as Hlo.
  { apply (reaches_up n d (l - 1) k); [lia..|].
    assert (2 ^ Z.succ (Z.log2 d) * 2 ^ (l - 1 + k) = 2 ^ Z.log2 n * 2 ^ k) as Heq
      by (rewrite <- !Z.pow_add_r by lia; f_equal; lia).
    pose proof (pow2_pos (l - 1 + k) ltac:(lia)). pose proof (pow2_pos k ltac:(lia)). nia. }
  assert (reaches n d (l + 1) <> true) as Hhi.
  { rewrite (reaches_up n d (l + 1) k) by lia.
    assert (2 ^ Z.log2 d * 2 ^ (l + 1 + k) = 2 ^ Z.succ (Z.log2 n) * 2 ^ k) as Heq
      by (rewrite <- !Z.pow_add_r by lia; f_equal; lia).
    pose proof (pow2_pos (l + 1 + k) ltac:(lia)). pose proof (pow2_pos k ltac:(lia)). nia. }
  rewrite HL in Hlo by lia. rewrite HL in Hhi by lia. pose proof (HL l ltac:(lia)) as Hl.
  unfold floorLog2. fold l. destruct (reaches n d l); [lia|].
  assert (~ l <= L) by (rewrite <- Hl; done). lia.
Qed.

Lemma roundDiv_exact a b m : 0 < b -> a = m * b -> roundDiv a b = m.
Proof.
  intros Hb ->. unfold roundDiv. rewrite Z.div_mul, Z.mod_mul by lia.
  destruct (2 * 0 ?= b) eqn:E; [apply Z.compare_eq in E; lia|done|].
  rewrite Z.compare_gt_iff in E. lia.
Qed.

(** A float is the nearest to its own value. *)
Lemma nearest_exact single s n d m e :
  0 < d -> isFloat single (S754_finite s m e) -> exactly n d (Zpos m) e ->
  nearest single s n d = Some (S754_finite s m e).
Proof.
  intros Hd Hf Hx. unfold isFloat, valid_binary, bounded, canonical_mantissa, fexp in Hf.
  apply andb_true_iff in Hf as [Hc Hle]. apply Z.eqb_eq in Hc.
  assert (Zpos (digits2_pos m) = Z.log2 (Zpos m) + 1) as Hdig.
  { clear. induction m as [m IH|m IH|]; cbn [digits2_pos]; [| |done]; rewrite Pos2Z.inj_succ, IH.
    - rewrite (Pos2Z.inj_xI m), Z.log2_succ_double by lia. lia.
    - rewrite (Pos2Z.inj_xO m), Z.log2_double by lia. lia. }
  assert (0 < (scale n d e).2) as Hb.
  { unfold scale. destruct (0 <=? e) eqn:E; [|done]. bools. cbn [snd]. pose proof (pow2_pos e ltac:(lia)). nia. }
  assert (0 < n) as Hn.
  { unfold exactly in Hx. unfold scale in Hx, Hb. destruct (0 <=? e) eqn:E; bools; cbn [fst snd] in *; [nia|].
    pose proof (pow2_pos (- e) ltac:(lia)). nia. }
  unfold nearest. rewrite (proj2 (Z.eqb_neq n 0)) by lia.
  rewrite (floorLog2_exact n d (Zpos m) e) by (try done; lia).
  replace (Z.max _ _) with e by (rewrite <- Hc at 1; rewrite Hdig; f_equal; lia).
  unfold exactly in Hx. destruct (scale n d e) as [a b]. cbn [fst snd] in *.
  rewrite (roundDiv_exact a b (Zpos m)) by done.
  assert (Zpos m < 2 ^ prec single) as Hlt.
  { apply Z.log2_lt_pow2; [lia|]. rewrite Hdig in Hc. lia. }
  rewrite (proj2 (Z.eqb_neq _ _)) by lia. by rewrite Hle.
Qed.

(** ** A text that keeps the promise

    All digits of the float, with its power of two as one of ten. *)

Definition exactText (f : spec_float) : bytes :=
  match f with
  | S754_zero s => sign s ++ decimal 0
  | S754_finite s m e =>
      if 0 <=? e then sign s ++ decimal (Zpos m * 2 ^ e)
      else sign s ++ decimal (Zpos m * 5 ^ (- e)) ++ x65 :: x2d :: decimal (- e)
  | _ => []
  end.

Lemma exactText_laws f : isFinite f = true ->
  validNumber (exactText f) /\ forall single, isFloat single f -> parseFloat single (exactText f) = Some f.
Proof.
  destruct f as [s| | |s m e]; intros Hf; try done; unfold exactText, parseFloat.
  - destruct (digits_plain 0 ltac:(lia)) as (d & Hp & Hv & ->).
    destruct (literal_plain s d Hp) as [-> Hval]. by rewrite Hv.
  - destruct (0 <=? e) eqn:E; bools.
    + pose proof (pow2_pos e E). destruct (digits_plain (Zpos m * 2 ^ e) ltac:(lia)) as (d & Hp & Hv & ->).
      destruct (literal_plain s d Hp) as [-> Hval]. split; [done|]. intros single Hfl. rewrite Hv. simpl.
      apply nearest_exact; [done|done|]. unfold exactly, scale. rewrite (proj2 (Z.leb_le 0 e)) by done. cbn [fst snd]. lia.
    + assert (0 < 5 ^ (- e)) by (apply Z.pow_pos_nonneg; lia).
      destruct (digits_plain (Zpos m * 5 ^ (- e)) ltac:(lia)) as (d & Hp & Hv & ->).
      destruct (digits_plain (- e) ltac:(lia)) as (k & Hk & Hkv & ->).
      destruct (literal_exp s d k Hp Hk) as [-> Hval]. split; [done|]. intros single Hfl. rewrite Hv, Hkv.
      rewrite (proj2 (Z.leb_gt 0 _)) by lia. replace (- - - e) with (- e) by lia.
      apply nearest_exact; [apply Z.pow_pos_nonneg; lia|done|].
      unfold exactly, scale. rewrite (proj2 (Z.leb_gt 0 e)) by lia. cbn [fst snd].
      change 10 with (5 * 2). rewrite Z.pow_mul_l. ring.
Qed.

(** Decimals round to the nearest float, ties to the even one; the smallest float64 and a
    number out of range. *)
Lemma parseFloat_examples :
  parseFloat false (bytesOf "0.1") = Some (S754_finite false 7205759403792794 (-56)) /\
  parseFloat false (bytesOf "-1.5E+2") = Some (S754_finite true 5277655813324800 (-45)) /\
  parseFloat true (bytesOf "16777217") = Some (S754_finite false 8388608 1) /\
  parseFloat false (bytesOf "5e-324") = Some (S754_finite false 1 (-1074)) /\
  parseFloat false (bytesOf "1e400") = None.
Proof. by vm_compute. Qed.

End Number.
