(* ===== verification/Base64.v ===== *)
(** * Base64

    [base64.StdEncoding] as the forward handler uses it for replay IDs
    (src/internal/handler/kafka.go): the encoder of the Go standard library, a
    decoder that consumers of the envelope would run, and the round trip. *)

From Stdlib Require Import Strings.Ascii.
From S2P Require Import Prelude.

Module Base64.

(** The standard alphabet. *)
Definition alphabet : string := "ABCDEFGHIJKLMNOPQRSTUVWXYZabcdefghijklmnopqrstuvwxyz0123456789+/".

Definition encodeDigit (n : N) : ascii :=
  default "="%char (String.get (N.to_nat n) alphabet).

Definition byteN (b : Byte.byte) : N := Byte.to_N b.

(** [EncodeToString]: three bytes to four digits, with padding at the end. *)
Fixpoint encode (l : list Byte.byte) : list ascii :=
  match l with
  | [] => []
  | [a] =>
      let n := (byteN a * 16)%N in
      [encodeDigit (n / 64); encodeDigit (n mod 64); "="%char; "="%char]
  | [a; b] =>
      let n := ((byteN a * 256 + byteN b) * 4)%N in
      [encodeDigit (n / 4096); encodeDigit (n / 64 mod 64); encodeDigit (n mod 64); "="%char]
  | a :: b :: c :: rest =>
      let n := ((byteN a * 256 + byteN b) * 256 + byteN c)%N in
      encodeDigit (n / 262144) :: encodeDigit (n / 4096 mod 64) ::
      encodeDigit (n / 64 mod 64) :: encodeDigit (n mod 64) :: encode rest
  end.

Definition EncodeToString (b : GoBytes) : string := String.string_of_list_ascii (encode (default [] b)).

(** ** A decoder *)

Fixpoint indexOf (c : ascii) (s : string) (n : N) : option N :=
  match s with
  | EmptyString => None
  | String d s' => if Ascii.eqb c d then Some n else indexOf c s' (n + 1)%N
  end.

Definition decodeDigit (c : ascii) : option N := indexOf c alphabet 0.

Fixpoint decode (l : list ascii) : option (list Byte.byte) :=
  match l with
  | [] => Some []
  | c1 :: c2 :: c3 :: c4 :: rest =>
      d1 ← decodeDigit c1; d2 ← decodeDigit c2;
      if Ascii.eqb c3 "=" then
        match rest with
        | [] => a ← Byte.of_N ((d1 * 64 + d2) / 16); Some [a]
        | _ => None
        end
      else
        d3 ← decodeDigit c3;
        if Ascii.eqb c4 "=" then
          match rest with
          | [] =>
              let n := ((d1 * 64 + d2) * 64 + d3)%N in
              a ← Byte.of_N (n / 1024); b ← Byte.of_N (n / 4 mod 256); Some [a; b]
          | _ => None
          end
        else
          d4 ← decodeDigit c4;
          let n := (((d1 * 64 + d2) * 64 + d3) * 64 + d4)%N in
          a ← Byte.of_N (n / 65536); b ← Byte.of_N (n / 256 mod 256); c ← Byte.of_N (n mod 256);
          tl ← decode rest; Some (a :: b :: c :: tl)
  | _ => None
  end.

Definition DecodeString (s : string) : option (list Byte.byte) := decode (String.list_ascii_of_string s).

(** ** Round trip *)

(** Checks a predicate on every number below [n]. *)
Fixpoint checkN (n : nat) (p : N -> bool) : bool :=
  match n with O => true | S n' => p (N.of_nat n') && checkN n' p end.

Lemma checkN_spec n p k : checkN n p = true -> (k < N.of_nat n)%N -> p k = true.
Proof.
  induction n as [|n IH]; intros H Hk; [lia|]. simpl in H.
  apply andb_true_iff in H as [Hn Hr].
  destruct (decide (k = N.of_nat n)) as [->|]; [done|]. apply IH; [done | lia].
Qed.

Lemma decode_encodeDigit n : (n < 64)%N -> decodeDigit (encodeDigit n) = Some n.
Proof.
  intros Hn.
  pose proof (checkN_spec 64 (fun n => bool_decide (decodeDigit (encodeDigit n) = Some n)) n
    ltac:(by vm_compute) ltac:(lia)) as H.
  by apply bool_decide_eq_true in H.
Qed.

Lemma encodeDigit_not_pad n : (n < 64)%N -> Ascii.eqb (encodeDigit n) "=" = false.
Proof.
  intros Hn. apply negb_true_iff.
  apply (checkN_spec 64 (fun n => negb (Ascii.eqb (encodeDigit n) "="))); [by vm_compute | lia].
Qed.

Lemma byteN_bound b : (byteN b < 256)%N.
Proof. pose proof (Byte.to_N_bounded b). unfold byteN. lia. Qed.

Lemma of_byteN b k : k = byteN b -> Byte.of_N k = Some b.
Proof. intros ->. apply Byte.of_to_N. Qed.

Lemma list_ind3 {A} (P : list A -> Prop) :
  P [] -> (forall a, P [a]) -> (forall a b, P [a; b]) ->
  (forall a b c l, P l -> P (a :: b :: c :: l)) -> forall l, P l.
Proof.
  intros H0 H1 H2 H3 l. enough (P l /\ (forall x, P (x :: l)) /\ (forall x y, P (x :: y :: l))) by tauto.
  induction l as [|a l (IH0 & IH1 & IH2)]; [auto|]. split; [auto|]. split; [auto|].
  intros x y. by apply H3.
Qed.

(** Linear arithmetic with division and remainder by constants. *)
Ltac divlia := zify; Z.to_euclidean_division_equations; lia.

Ltac digits := rewrite ?decode_encodeDigit, ?encodeDigit_not_pad by divlia; cbn [mbind option_bind].

Lemma decode_encode l : decode (encode l) = Some l.
Proof.
  induction l as [|a|a b|a b c l IH] using list_ind3; [done|..]; cbn [encode decode mbind option_bind];
    pose proof (byteN_bound a).
  - digits. rewrite (of_byteN a) by divlia. done.
  - pose proof (byteN_bound b). digits.
    rewrite (of_byteN a (_ / 1024)%N), (of_byteN b (_ mod 256)%N) by divlia. done.
  - pose proof (byteN_bound b). pose proof (byteN_bound c). digits.
    set (n := ((byteN a * 256 + byteN b) * 256 + byteN c)%N).
    replace (((n / 262144 * 64 + n / 4096 mod 64) * 64 + n / 64 mod 64) * 64 + n mod 64)%N
      with n by (subst n; divlia).
    rewrite (of_byteN a (n / 65536)%N), (of_byteN b (n / 256 mod 256)%N), (of_byteN c (n mod 256)%N)
      by (subst n; divlia).
    simpl. rewrite IH. done.
Qed.

(** The replay ID in a Kafka envelope is recoverable: decoding the base64 text
    gives back the bytes, for every byte slice (nil counts as empty). *)
Theorem base64_roundtrip (rid : GoBytes) : DecodeString (EncodeToString rid) = Some (default [] rid).
Proof.
  unfold DecodeString, EncodeToString.
  rewrite String.list_ascii_of_string_of_list_ascii. apply decode_encode.
Qed.

Example encode_vectors :
  EncodeToString (Some [Byte.x66; Byte.x6f; Byte.x6f; Byte.x62]) = "Zm9vYg=="%string /\
  EncodeToString (Some [Byte.xfb; Byte.xff]) = "+/8="%string /\ EncodeToString None = ""%string.
Proof. by vm_compute. Qed.

End Base64.
