(* ===== verification/Handler.v ===== *)
(** * The handler chain

    Model of src/internal/handler: the persist and forward handlers, the chain
    that runs them in order, and the deduplicating decorator around it. Each
    dependency a handler declares is a class; [SinkLaws] states what the handlers
    rely on, and the properties of the assembled pipeline are proved against it. *)

From S2P Require Import Prelude Event Base64.

(** ** Dependencies, declared at the point of use *)

Class SeenCache (W : Type) := {
  Seen : string -> M W (result bool);
  MarkSeen : string -> M W (option error);
}.

Class EventStore (W : Type) := {
  PersistEvent : Event.DecodedEvent -> M W (result bool);
}.

Definition RecordHeader : Type := string * list Byte.byte.

Class RecordProducer (W : Type) := {
  Produce : string -> list Byte.byte -> list RecordHeader -> M W (option error);
}.

Module Handler.
Import Event.

(** A handler: nil acknowledges the event. *)
Definition Handler (W : Type) : Type := DecodedEvent -> M W (option error).

(** The wire contract published to Kafka. *)
Record Envelope := mkEnvelope {
  env_EventID : string;
  env_Topic : string;
  env_SchemaID : string;
  env_ReplayID : string;
  env_ReceivedAt : Z;
  env_Payload : payload;
}.

(** The bytes of a Go string. *)
Definition bytesOf (s : string) : list Byte.byte := String.list_byte_of_string s.

Section Handlers.
Context {W : Type}.

(** [PersistHandler.Handle] *)
Definition PersistHandle `{EventStore W} : Handler W := fun e =>
  r ← PersistEvent e;
  match r with
  | Err err => mret (Some (Wrap [Lit "persist event "; Quoted (EventID e)] err))
  | Ok inserted => mret None
  end.

(** [ForwardHandler.Handle]; [json_Marshal] is [json.Marshal] on the envelope. *)
Definition envelope (e : DecodedEvent) : Envelope :=
  mkEnvelope (EventID e) (Topic e) (SchemaID e) (Base64.EncodeToString (ReplayID e))
    (ReceivedAt e) (Payload e).

Definition headers (e : DecodedEvent) : list RecordHeader :=
  [("event_id", bytesOf (EventID e)); ("schema_id", bytesOf (SchemaID e)); ("sf_topic", bytesOf (Topic e))].

Definition ForwardHandle (json_Marshal : Envelope -> result (list Byte.byte)) `{RecordProducer W} :
    Handler W := fun e =>
  match json_Marshal (envelope e) with
  | Err err => mret (Some (Wrap [Lit "marshal envelope for "; Quoted (EventID e)] err))
  | Ok value =>
      r ← Produce (Topic e) value (headers e);
      match r with
      | Some err => mret (Some (Wrap [Lit "forward event "; Quoted (EventID e)] err))
      | None => mret None
      end
  end.

(** [LogHandler.Handle]: a log line, nothing else. *)
Definition LogHandle : Handler W := fun _ => mret None.

(** [Chain.Handle], from step [i] on. *)
Fixpoint ChainFrom (i : Z) (handlers : list (Handler W)) : Handler W := fun e =>
  match handlers with
  | [] => mret None
  | h :: rest =>
      r ← h e;
      match r with
      | Some err => mret (Some (Wrap [Lit "chain step "; Dec i] err))
      | None => ChainFrom (i + 1) rest e
      end
  end.

Definition ChainHandle (handlers : list (Handler W)) : Handler W := ChainFrom 0 handlers.

(** The part of [DedupHandler.Handle] after the lookup: the wrapped handler, then
    the mark, whose failure is only logged. *)
Definition handleThenMark `{SeenCache W} (next : Handler W) : Handler W := fun e =>
  r ← next e;
  match r with
  | Some err => mret (Some err)
  | None => _ ← MarkSeen (EventID e); mret None
  end.

(** [DedupHandler.Handle] *)
Definition DedupHandle `{SeenCache W} (next : Handler W) : Handler W := fun e =>
  r ← Seen (EventID e);
  match r with
  | Ok true => mret None
  | Ok false | Err _ => handleThenMark next e
  end.

(** The handler [app.New] assembles from the configuration. *)
Definition rootHandler (kafkaEnabled redisEnabled : bool)
    (json_Marshal : Envelope -> result (list Byte.byte))
    `{EventStore W, RecordProducer W, SeenCache W} : Handler W :=
  let handlers := if kafkaEnabled then [PersistHandle; ForwardHandle json_Marshal] else [PersistHandle] in
  let root := ChainHandle handlers in
  if redisEnabled then DedupHandle root else root.

End Handlers.

(** ** What the sinks promise

    [stored] and [published] say that the event is in the database and in Kafka,
    [marked] that the cache holds it. The first two never go away; a cache entry
    may expire, but only [MarkSeen] creates one, and a hit is one of those. *)

Class SinkLaws (W : Type) `{EventStore W, RecordProducer W, SeenCache W} := {
  stored : W -> string -> Prop;
  published : W -> string -> Prop;
  marked : W -> string -> Prop;

  persist_stored e w b w' : PersistEvent e w = (Ok b, w') -> stored w' (EventID e);
  persist_keeps e w r w' id : PersistEvent e w = (r, w') ->
    (stored w id -> stored w' id) /\ (published w' id <-> published w id) /\ (marked w' id -> marked w id);

  produce_published e v w w' : Produce (Topic e) v (headers e) w = (None, w') -> published w' (EventID e);
  produce_keeps e v w r w' id : Produce (Topic e) v (headers e) w = (r, w') ->
    (stored w' id <-> stored w id) /\ (published w id -> published w' id) /\
    (published w' id -> published w id \/ id = EventID e) /\ (marked w' id -> marked w id);

  seen_hit id w w' : Seen id w = (Ok true, w') -> marked w id;
  seen_keeps id0 w r w' id : Seen id0 w = (r, w') ->
    (stored w' id <-> stored w id) /\ (published w' id <-> published w id) /\ (marked w' id -> marked w id);

  mark_keeps id0 w r w' id : MarkSeen id0 w = (r, w') ->
    (stored w' id <-> stored w id) /\ (published w' id <-> published w id) /\
    (marked w' id -> marked w id \/ id = id0);
}.

(** ** The chain in general *)

Section ChainLemmas.
Context {W : Type}.

(** Running handlers one after the other, all of them successfully. *)
Inductive runsAll (e : DecodedEvent) : list (Handler W) -> W -> W -> Prop :=
| runsAll_nil w : runsAll e [] w w
| runsAll_cons h hs w w1 w2 : h e w = (None, w1) -> runsAll e hs w1 w2 -> runsAll e (h :: hs) w w2.

Lemma ChainFrom_spec i hs e w r w' :
  ChainFrom i hs e w = (r, w') ->
  match r with
  | None => runsAll e hs w w'
  | Some err => exists pre h post err0 w0, hs = pre ++ h :: post /\ runsAll e pre w w0 /\
      h e w0 = (Some err0, w') /\ err = Wrap [Lit "chain step "; Dec (i + Z.of_nat (length pre))] err0
  end.
Proof.
  revert i w. induction hs as [|h hs IH]; intros i w Hc; simpl in Hc.
  - runM. simplify_eq. constructor.
  - rewrite M_bind_unfold in Hc. destruct (h e w) as [[err0|] w1] eqn:Eh; cbn [fst snd] in Hc.
    + runM. simplify_eq. exists [], h, hs, err0, w. split; [done|]. split; [constructor|].
      split; [done|]. rewrite Z.add_0_r. done.
    + specialize (IH _ _ Hc). destruct r as [err|]; [|by econstructor].
      destruct IH as (pre & h0 & post & err0 & w0 & -> & Hr & Hh & ->).
      exists (h :: pre), h0, post, err0, w0. split; [done|]. split; [by econstructor|].
      split; [done|]. do 4 f_equal. simpl. lia.
Qed.

End ChainLemmas.

(** ** The assembled pipeline *)

Section Pipeline.
Context {W : Type} `{SinkLaws W}.
Context (json_Marshal : Envelope -> result (list Byte.byte)).

(** Finished: stored, and published when the Kafka sink is on. *)
Definition finished (kafka : bool) (w : W) (id : string) : Prop :=
  stored w id /\ (kafka = true -> published w id).

(** The cache only remembers finished events, and nothing is in Kafka that is not
    in the database. *)
Definition sinksOK (kafka : bool) (w : W) : Prop :=
  (forall id, marked w id -> finished kafka w id) /\ (forall id, published w id -> stored w id).

(** Effects of a handler on the three sets: they only grow, by the event at hand. *)
Record grows (kafka : bool) (id0 : string) (w w' : W) : Prop := {
  g_stored : forall id, stored w id -> stored w' id;
  g_published : forall id, published w id -> published w' id;
  g_new_pub : forall id, published w' id -> published w id \/ (id = id0 /\ stored w' id0);
  g_marked : forall id, marked w' id -> marked w id \/ (id = id0 /\ finished kafka w' id0);
}.

Lemma grows_refl k id0 w : grows k id0 w w.
Proof. split; auto. Qed.

Lemma finished_grows k id0 w w' id : grows k id0 w w' -> finished k w id -> finished k w' id.
Proof. intros [Hs Hp _ _] [Hst Hpub]. split; auto. Qed.

Lemma grows_trans k id0 w1 w2 w3 : grows k id0 w1 w2 -> grows k id0 w2 w3 -> grows k id0 w1 w3.
Proof.
  intros G1 G2. pose proof (finished_grows _ _ _ _ id0 G2) as Hf.
  destruct G1 as [S1 P1 N1 M1], G2 as [S2 P2 N2 M2]. split; auto.
  - intros id Hp. destruct (N2 id Hp) as [Hp2|[-> Hs]]; [|auto].
    destruct (N1 id Hp2) as [?|[-> Hs]]; auto.
  - intros id Hm. destruct (M2 id Hm) as [Hm2|[-> Hs]]; [|auto].
    destruct (M1 id Hm2) as [?|[-> Hs]]; auto.
Qed.

Lemma sinksOK_grows k id0 w w' : grows k id0 w w' -> sinksOK k w -> sinksOK k w'.
Proof.
  intros G [Hm Hp]. split; intros id Hid.
  - destruct (g_marked _ _ _ _ G id Hid) as [?|[-> ?]]; [|done].
    eapply finished_grows; eauto.
  - destruct (g_new_pub _ _ _ _ G id Hid) as [?|[-> ?]]; [|done].
    apply (g_stored _ _ _ _ G). auto.
Qed.

Lemma PersistHandle_grows k e w r w' :
  PersistHandle e w = (r, w') ->
  grows k (EventID e) w w' /\ (r = None -> stored w' (EventID e)).
Proof.
  unfold PersistHandle. rewrite M_bind_unfold. destruct (PersistEvent e w) as [r0 w1] eqn:E.
  cbn [fst snd]. intros Hr. assert (w1 = w') as -> by (runM; destruct r0; by simplify_eq).
  split.
  - split; intros id Hid; destruct (persist_keeps _ _ _ _ id E) as (K1 & K2 & K3); [auto|tauto|tauto|auto].
  - intros ->. destruct r0; runM; simplify_eq. by eapply persist_stored.
Qed.

Lemma ForwardHandle_grows k e w r w' :
  stored w (EventID e) -> ForwardHandle json_Marshal e w = (r, w') ->
  grows k (EventID e) w w' /\ (r = None -> published w' (EventID e)).
Proof.
  intros Hst. unfold ForwardHandle. destruct (json_Marshal (envelope e)) as [v|err].
  2: { intros. runM. simplify_eq. split; [apply grows_refl | done]. }
  rewrite M_bind_unfold. destruct (Produce (Topic e) v (headers e) w) as [r0 w1] eqn:E.
  cbn [fst snd]. intros Hr. assert (w1 = w') as -> by (runM; destruct r0; by simplify_eq).
  split.
  - split; intros id Hid; destruct (produce_keeps _ _ _ _ _ id E) as (K1 & K2 & K3 & K4);
      [tauto | auto | | auto].
    destruct (K3 Hid) as [?| ->]; [by left|]. right. split; [done|]. by apply K1.
  - intros ->. destruct r0; runM; simplify_eq. by eapply produce_published.
Qed.

(** The chain in either configuration. *)
Lemma chain_grows (kafka : bool) e w r w' :
  ChainHandle (if kafka then [PersistHandle; ForwardHandle json_Marshal] else [PersistHandle]) e w = (r, w') ->
  grows kafka (EventID e) w w' /\ (r = None -> finished kafka w' (EventID e)).
Proof.
  unfold ChainHandle. destruct kafka; cbn [ChainFrom]; rewrite M_bind_unfold;
    destruct (PersistHandle e w) as [[err|] w1] eqn:Ep; cbn [fst snd];
    destruct (PersistHandle_grows true _ _ _ _ Ep) as [G1 St1];
    destruct (PersistHandle_grows false _ _ _ _ Ep) as [G1' _]; intros Hr.
  - runM. by simplify_eq.
  - rewrite M_bind_unfold in Hr.
    destruct (ForwardHandle json_Marshal e w1) as [r2 w2] eqn:Ef. cbn [fst snd] in Hr.
    destruct (ForwardHandle_grows true _ _ _ _ (St1 eq_refl) Ef) as [G2 P2].
    assert (w2 = w') as -> by (runM; destruct r2; by simplify_eq).
    split; [by eapply grows_trans|]. intros ->. destruct r2; runM; simplify_eq.
    split; [|auto]. apply (g_stored _ _ _ _ G2). auto.
  - runM. by simplify_eq.
  - runM. simplify_eq. split; [done|]. intros _. split; [auto | done].
Qed.

Lemma seen_grows k id0 w r w' : Seen id0 w = (r, w') -> grows k id0 w w'.
Proof. intros Es. split; intros id Hid; destruct (seen_keeps _ _ _ _ id Es) as (K1 & K2 & K3); tauto. Qed.

(** Marking is harmless once the event is finished. *)
Lemma mark_grows k id0 w r w' : finished k w id0 -> MarkSeen id0 w = (r, w') -> grows k id0 w w'.
Proof.
  intros [Hs Hp] Em. split; intros id Hid; destruct (mark_keeps _ _ _ _ id Em) as (K1 & K2 & K3); try tauto.
  destruct (K3 Hid) as [?| ->]; [by left|]. right. split; [done|]. split; tauto.
Qed.

(** What follows a cache miss: the chain, then the mark. *)
Lemma afterMiss_grows (kafka : bool) e w r w' :
  handleThenMark
    (ChainHandle (if kafka then [PersistHandle; ForwardHandle json_Marshal] else [PersistHandle])) e w = (r, w') ->
  grows kafka (EventID e) w w' /\ (r = None -> finished kafka w' (EventID e)).
Proof.
  unfold handleThenMark. rewrite M_bind_unfold. destruct (ChainHandle _ e w) as [cr w2] eqn:Ec. cbn [fst snd].
  destruct (chain_grows _ _ _ _ _ Ec) as [G2 F2].
  destruct cr as [err'|]; [intros; runM; by simplify_eq|].
  rewrite M_bind_unfold. destruct (MarkSeen (EventID e) w2) as [mr w3] eqn:Em. cbn [fst snd].
  intros. runM. simplify_eq. pose proof (mark_grows _ _ _ _ _ (F2 eq_refl) Em) as G3.
  split; [by eapply grows_trans|]. intros _. eapply finished_grows; eauto.
Qed.

Lemma root_grows kafka redis e w r w' :
  sinksOK kafka w -> rootHandler kafka redis json_Marshal e w = (r, w') ->
  grows kafka (EventID e) w w' /\ (r = None -> finished kafka w' (EventID e)).
Proof.
  intros HOK. unfold rootHandler. destruct redis; [|apply chain_grows].
  unfold DedupHandle. rewrite M_bind_unfold.
  destruct (Seen (EventID e) w) as [sr w1] eqn:Es. cbn [fst snd].
  pose proof (seen_grows kafka _ _ _ _ Es) as G1.
  destruct sr as [[]|err].
  - intros. runM. simplify_eq. split; [done|]. intros _. eapply finished_grows; [done|].
    apply HOK. by eapply seen_hit.
  - intros Hr. destruct (afterMiss_grows kafka _ _ _ _ Hr). split; [by eapply grows_trans | done].
  - intros Hr. destruct (afterMiss_grows kafka _ _ _ _ Hr). split; [by eapply grows_trans | done].
Qed.

End Pipeline.

(** ** Properties *)

(** The chain runs its handlers in order and stops at the first failure: on nil
    every handler succeeded, in order, each on the state its predecessor left; on
    an error some handler failed after all those before it succeeded, none after it
    ran, and the error carries its index. *)
Theorem chain_stops_at_first_failure {W} (hs : list (Handler W)) e w r w' :
  ChainHandle hs e w = (r, w') ->
  match r with
  | None => runsAll e hs w w'
  | Some err => exists pre h post err0 w0, hs = pre ++ h :: post /\ runsAll e pre w w0 /\
      h e w0 = (Some err0, w') /\ err = Wrap [Lit "chain step "; Dec (Z.of_nat (length pre))] err0
  end.
Proof. intros Hc. exact (ChainFrom_spec 0 hs e w r w' Hc). Qed.

(** A handler that counts its calls and one that fails. *)
Definition countHandle : Handler nat := fun _ n => (None, S n).
Definition failHandle : Handler nat := fun _ n => (Some (External "boom" 0), n).
Definition someEvent : DecodedEvent := mkDecodedEvent "t" "id" "s" (Some [Byte.x01]) [] 0.

Lemma chain_stops_at_first_failure_witness :
  exists pre h post err0 w0, [countHandle; failHandle; countHandle] = pre ++ h :: post /\
    runsAll someEvent pre 0%nat w0 /\ h someEvent w0 = (Some err0, 1%nat) /\
    Wrap [Lit "chain step "; Dec 1] (External "boom" 0) =
    Wrap [Lit "chain step "; Dec (Z.of_nat (length pre))] err0.
Proof.
  apply (chain_stops_at_first_failure [countHandle; failHandle; countHandle] someEvent 0%nat
           (Some (Wrap [Lit "chain step "; Dec 1] (External "boom" 0))) 1%nat).
  reflexivity.
Defined.

(** C11. Acknowledged means finished: with the cache holding only finished events, the
    handler the application assembles, whichever of Kafka and Redis is enabled,
    returns nil only when the event is in the database and, with Kafka on, in
    Kafka; and whatever it returns, the cache still holds only finished events and
    Kafka holds nothing the database does not. *)
Theorem acknowledged_means_finished {W} `{SinkLaws W} json_Marshal kafka redis e (w w' : W) r :
  sinksOK kafka w -> rootHandler kafka redis json_Marshal e w = (r, w') ->
  sinksOK kafka w' /\ (r = None -> finished kafka w' (EventID e)) /\
  (forall id, finished kafka w id -> finished kafka w' id).
Proof.
  intros HOK Hr. destruct (root_grows json_Marshal kafka redis e w r w' HOK Hr) as [G F].
  split; [by eapply sinksOK_grows|]. split; [done|]. intros id. by apply (finished_grows _ _ _ _ id G).
Qed.

(** C20. The cache is never authoritative: unless the lookup answers "seen", the
    deduplicating handler runs the wrapped handler and returns exactly its result,
    whether the lookup said "not seen" or failed, and whether or not the mark
    could be written; it marks only after the wrapped handler returned nil. *)
Theorem dedup_transparent {W} `{SeenCache W} (next : Handler W) e w r w' :
  DedupHandle next e w = (r, w') -> (Seen (EventID e) w).1 <> Ok true ->
  r = (next e (Seen (EventID e) w).2).1 /\
  w' = match r with
       | None => (MarkSeen (EventID e) (next e (Seen (EventID e) w).2).2).2
       | Some _ => (next e (Seen (EventID e) w).2).2
       end.
Proof.
  unfold DedupHandle. rewrite M_bind_unfold. destruct (Seen (EventID e) w) as [sr w1]. cbn [fst snd].
  intros Hd Hne.
  assert (handleThenMark next e w1 = (r, w')) as Hd' by (destruct sr as [[]|]; done).
  unfold handleThenMark in Hd'. rewrite M_bind_unfold in Hd'. destruct (next e w1) as [[err|] w2]; cbn [fst snd] in *.
  - runM. by simplify_eq.
  - rewrite M_bind_unfold in Hd'. destruct (MarkSeen (EventID e) w2). runM. by simplify_eq.
Qed.

End Handler.
