(* ===== verification/HandlerSteps.v ===== *)
(** * Handlers running side by side

    The workers share one handler, so its calls to the sinks interleave. Here the
    handler that [app.New] assembles (src/internal/app/app.go, over src/internal/handler)
    is cut at every call to a sink; run without interruption it is the handler of
    Handler.v, and run side by side by any number of workers, on any events, it keeps
    the same promise. *)

From S2P Require Import Prelude Event Handler.

Module HandlerSteps.
Import Event Handler.

Section Steps.
Context {W : Type} `{SinkLaws W}.
Context (json_Marshal : Envelope -> result (list Byte.byte)) (kafka redis : bool).

(** Where a run of the handler is: before one of its calls, or done. *)
Inductive pc :=
| AtSeen
| AtPersist
| AtProduce (value : list Byte.byte)
| AtMark
| Returned (r : option error).

Definition start : pc := if redis then AtSeen else AtPersist.

(** The chain has succeeded. *)
Definition afterChain : pc := if redis then AtMark else Returned None.

(** The persist handler has succeeded: the forward handler encodes, or there is none. *)
Definition afterPersist (e : DecodedEvent) : pc :=
  if kafka then
    match json_Marshal (envelope e) with
    | Err err => Returned (Some (Wrap [Lit "chain step "; Dec 1]
                                  (Wrap [Lit "marshal envelope for "; Quoted (EventID e)] err)))
    | Ok v => AtProduce v
    end
  else afterChain.

(** One call. *)
Definition advance (e : DecodedEvent) (p : pc) : M W pc :=
  match p with
  | AtSeen =>
      r ← Seen (EventID e);
      match r with
      | Ok true => mret (Returned None)
      | Ok false | Err _ => mret AtPersist
      end
  | AtPersist =>
      r ← PersistEvent e;
      match r with
      | Err err => mret (Returned (Some (Wrap [Lit "chain step "; Dec 0]
                                          (Wrap [Lit "persist event "; Quoted (EventID e)] err))))
      | Ok _ => mret (afterPersist e)
      end
  | AtProduce v =>
      r ← Produce (Topic e) v (headers e);
      match r with
      | Some err => mret (Returned (Some (Wrap [Lit "chain step "; Dec 1]
                                           (Wrap [Lit "forward event "; Quoted (EventID e)] err))))
      | None => mret afterChain
      end
  | AtMark => _ ← MarkSeen (EventID e); mret (Returned None)
  | Returned r => mret (Returned r)
  end.

(** Calls made one after the other; four are enough. *)
Fixpoint run (n : nat) (e : DecodedEvent) (p : pc) : M W pc :=
  match n with
  | O => mret p
  | S n' => p' ← advance e p; run n' e p'
  end.

Lemma run_returned n e r w : run n e (Returned r) w = (Returned r, w).
Proof. induction n as [|n IH]; [done|]. simpl. by rewrite M_bind_unfold. Qed.

Lemma run_S n e p w : run (S n) e p w = run n e (advance e p w).1 (advance e p w).2.
Proof. simpl. by rewrite M_bind_unfold. Qed.

(** What is left once the chain has succeeded. *)
Definition marking (e : DecodedEvent) (w : W) : W := if redis then (MarkSeen (EventID e) w).2 else w.

Lemma run_afterChain n e w : run (S n) e afterChain w = (Returned None, marking e w).
Proof.
  unfold afterChain, marking. destruct redis; [|apply run_returned].
  rewrite run_S. cbn [advance]. rewrite M_bind_unfold. apply run_returned.
Qed.

Lemma run_forward n e w :
  kafka = true ->
  run (S (S n)) e (afterPersist e) w =
  match ForwardHandle json_Marshal e w with
  | (Some err, w') => (Returned (Some (Wrap [Lit "chain step "; Dec 1] err)), w')
  | (None, w') => (Returned None, marking e w')
  end.
Proof.
  intros Hk. unfold afterPersist, ForwardHandle. rewrite Hk. destruct (json_Marshal (envelope e)) as [v|err].
  - rewrite run_S. cbn [advance]. rewrite !M_bind_unfold.
    destruct (Produce (Topic e) v (headers e) w) as [[err|] w1]; cbn [fst snd].
    + apply run_returned.
    + apply run_afterChain.
  - apply run_returned.
Qed.

Lemma run_chain n e w :
  run (S (S (S n))) e AtPersist w =
  match ChainHandle (if kafka then [PersistHandle; ForwardHandle json_Marshal] else [PersistHandle]) e w with
  | (Some err, w') => (Returned (Some err), w')
  | (None, w') => (Returned None, marking e w')
  end.
Proof.
  rewrite run_S. unfold ChainHandle, PersistHandle. cbn [advance].
  destruct kafka eqn:Ek; cbn [ChainFrom]; rewrite !M_bind_unfold;
    destruct (PersistEvent e w) as [[b|err] w1]; cbn [fst snd]; try apply run_returned.
  - rewrite run_forward by done. cbn [mret M_ret fst snd]. rewrite M_bind_unfold.
    by destruct (ForwardHandle json_Marshal e w1) as [[err|] w2].
  - unfold afterPersist. rewrite Ek. apply run_afterChain.
Qed.

(** Uninterrupted, the calls make up the handler. *)
Lemma run_alone e w :
  run 4 e start w = let '(r, w') := rootHandler kafka redis json_Marshal e w in (Returned r, w').
Proof.
  unfold start, rootHandler. destruct redis eqn:Er.
  - unfold DedupHandle. rewrite run_S. cbn [advance]. rewrite !M_bind_unfold.
    assert (forall w1, run 3 e AtPersist w1 = let '(r, w') := handleThenMark (ChainHandle (if kafka then
      [PersistHandle; ForwardHandle json_Marshal] else [PersistHandle])) e w1 in (Returned r, w')) as Hm.
    { intros w1. rewrite run_chain. unfold handleThenMark, marking. rewrite M_bind_unfold, Er.
      destruct (ChainHandle _ e w1) as [[err|] w2]; cbn [fst snd]; [done|]. by rewrite M_bind_unfold. }
    destruct (Seen (EventID e) w) as [[[]|err] w1]; cbn [fst snd]; [apply run_returned|apply Hm..].
  - rewrite run_chain. unfold marking. rewrite Er. by destruct (ChainHandle _ e w) as [[err|] w2].
Qed.

(** ** Side by side *)

(** The sinks, and the runs in progress. *)
Record Sys := mkSys { sinks : W; tasks : gmap nat (DecodedEvent * pc) }.

(** A worker starts on an event, a run makes its next call, or something happens to the
    sinks that loses nothing (an entry of the cache expires, say). *)
Inductive step : relation Sys :=
| step_start w ts i e : ts !! i = None -> step (mkSys w ts) (mkSys w (<[i := (e, start)]> ts))
| step_call w ts i e p p' w' : ts !! i = Some (e, p) -> advance e p w = (p', w') ->
    step (mkSys w ts) (mkSys w' (<[i := (e, p')]> ts))
| step_leave w ts i e r : ts !! i = Some (e, Returned r) -> step (mkSys w ts) (mkSys w (delete i ts))
| step_env w ts w' :
    (forall id, (stored w id -> stored w' id) /\ (published w' id <-> published w id) /\
                (marked w' id -> marked w id)) ->
    step (mkSys w ts) (mkSys w' ts).

(** What a run knows about its event. *)
Definition knows (w : W) (e : DecodedEvent) (p : pc) : Prop :=
  match p with
  | AtSeen | AtPersist => True
  | AtProduce _ => stored w (EventID e)
  | AtMark => finished kafka w (EventID e)
  | Returned None => finished kafka w (EventID e)
  | Returned (Some _) => True
  end.

Lemma knows_grows id0 w w' e p : grows kafka id0 w w' -> knows w e p -> knows w' e p.
Proof.
  intros G. pose proof (finished_grows _ _ _ _ (EventID e) G) as Hf. pose proof (g_stored _ _ _ _ G (EventID e)).
  destruct p as [| | | |[]]; simpl; auto.
Qed.

Lemma afterChain_knows w e : finished kafka w (EventID e) -> knows w e afterChain.
Proof. unfold afterChain. by destruct redis. Qed.

Lemma afterPersist_knows w e : stored w (EventID e) -> knows w e (afterPersist e).
Proof.
  intros Hs. unfold afterPersist. destruct kafka eqn:Ek.
  - by destruct (json_Marshal (envelope e)).
  - apply afterChain_knows. split; [done|]. congruence.
Qed.

Lemma persist_grows e w r w' : PersistEvent e w = (r, w') -> grows kafka (EventID e) w w'.
Proof. intros Hp. split; intros id Hid; destruct (persist_keeps _ _ _ _ id Hp) as (? & ? & ?); tauto. Qed.

Lemma produce_grows e v w r w' : stored w (EventID e) ->
  Produce (Topic e) v (headers e) w = (r, w') -> grows kafka (EventID e) w w'.
Proof.
  intros Hs Hp. split; intros id Hid; destruct (produce_keeps _ _ _ _ _ id Hp) as (? & ? & K & ?); try tauto.
  destruct (K Hid) as [?| ->]; [by left|]. right. split; [done|]. tauto.
Qed.

Lemma advance_grows e p w p' w' :
  sinksOK kafka w -> knows w e p -> advance e p w = (p', w') ->
  grows kafka (EventID e) w w' /\ knows w' e p'.
Proof.
  intros HOK Hk. destruct p as [| |v| |r]; cbn [advance]; try rewrite M_bind_unfold; intros Ha.
  - destruct (Seen (EventID e) w) as [sr w1] eqn:Es. cbn [fst snd] in Ha.
    pose proof (seen_grows kafka _ _ _ _ Es) as G.
    destruct sr as [[]|]; runM; simplify_eq; (split; [done|]); try done.
    simpl. eapply finished_grows; [done|]. apply HOK. by eapply seen_hit.
  - destruct (PersistEvent e w) as [pr w1] eqn:Ep. cbn [fst snd] in Ha. pose proof (persist_grows _ _ _ _ Ep) as G.
    destruct pr as [b|err]; runM; simplify_eq; (split; [done|]); [|done].
    apply afterPersist_knows. by eapply persist_stored.
  - destruct (Produce (Topic e) v (headers e) w) as [pr w1] eqn:Ep. cbn [fst snd] in Ha.
    pose proof (produce_grows _ _ _ _ _ Hk Ep) as G.
    destruct pr as [err|]; runM; simplify_eq; (split; [done|]); [done|].
    apply afterChain_knows. split; [by apply (g_stored _ _ _ _ G)|]. intros _. by eapply produce_published.
  - destruct (MarkSeen (EventID e) w) as [mr w1] eqn:Em. cbn [fst snd] in Ha. runM. simplify_eq.
    pose proof (mark_grows kafka _ _ _ _ Hk Em) as G. split; [done|]. by eapply finished_grows.
  - runM. simplify_eq. split; [apply grows_refl|done].
Qed.

Record inv (s : Sys) : Prop := {
  inv_sinks : sinksOK kafka (sinks s);
  inv_tasks : forall i e p, tasks s !! i = Some (e, p) -> knows (sinks s) e p;
}.

Lemma tasks_inv_step s s' : inv s -> step s s' -> inv s'.
Proof.
  intros [HOK Ht] Hs. destruct Hs as [w ts i e Hi|w ts i e p p' w' Hi Ha|w ts i e r Hi|w ts w' He]; simpl in *.
  - split; [done|]. simpl. intros j e' p'. rewrite lookup_insert_Some. intros [[_ ?]|[_ ?]]; simplify_eq; [|eauto].
    unfold start. by destruct redis.
  - destruct (advance_grows _ _ _ _ _ HOK (Ht _ _ _ Hi) Ha) as [G Hk]. split; [by eapply sinksOK_grows|].
    simpl. intros j e' q. rewrite lookup_insert_Some. intros [[_ ?]|[_ ?]]; simplify_eq; [done|].
    eapply knows_grows; eauto.
  - split; [done|]. simpl. intros j e' p'. rewrite lookup_delete_Some. intros [_ ?]. eauto.
  - assert (forall id0, grows kafka id0 w w') as G.
    { intros id0. split; intros id Hid; destruct (He id) as (? & ? & ?); tauto. }
    split; [by eapply (sinksOK_grows _ ""%string)|]. simpl. intros j e' p' Hj.
    eapply (knows_grows ""%string); eauto.
Qed.

(** The next call of run [i], for examples. *)
Definition call (s : Sys) (i : nat) : Sys :=
  match tasks s !! i with
  | Some (e, p) => let '(p', w') := advance e p (sinks s) in mkSys w' (<[i := (e, p')]> (tasks s))
  | None => s
  end.

Lemma calls_steps s l : rtc step s (foldl call s l).
Proof.
  revert s. induction l as [|i l IH]; intros s; [constructor|]. simpl. etrans; [|apply IH].
  unfold call. destruct (tasks s !! i) as [[e p]|] eqn:Ei; [|constructor].
  destruct (advance e p (sinks s)) as [p' w'] eqn:Ea. destruct s as [w ts]. apply rtc_once. by eapply step_call.
Qed.

End Steps.

(** ** Properties *)

(** C21. Any number of workers run the handler side by side, their calls to the database,
    Kafka and the cache interleaved in any way, also on the same event: whenever a run
    has returned nil its event is in the database and, with Kafka on, in Kafka; the cache
    holds only such events, and Kafka none that the database does not. Run without
    interruption the calls are exactly the handler. *)
Theorem concurrent_handlers_finish {W} `{SinkLaws W} json_Marshal kafka redis (w : W) s :
  sinksOK kafka w -> rtc (step json_Marshal kafka redis) (mkSys w ∅) s ->
  sinksOK kafka (sinks s) /\
  (forall i e, tasks s !! i = Some (e, Returned None) -> finished kafka (sinks s) (EventID e)) /\
  (forall e w0, run json_Marshal kafka redis 4 e (start redis) w0 =
     let '(r, w') := rootHandler kafka redis json_Marshal e w0 in (Returned r, w')).
Proof.
  intros HOK Hr. assert (inv kafka (mkSys w ∅)) as Hi.
  { split; [done|]. intros i e p Hi. simpl in Hi. by rewrite lookup_empty in Hi. }
  destruct (rtc_invariant _ (inv kafka) _ _ (tasks_inv_step json_Marshal kafka redis) Hi Hr) as [HO Ht].
  split; [done|]. split; [|intros; apply run_alone]. intros i e Hie. exact (Ht _ _ _ Hie).
Qed.

End HandlerSteps.
