(* ===== verification/Sinks.v ===== *)
(** * The sinks behind the handlers

    Model of src/internal/rediscache/cache.go and src/internal/kafka/producer.go.
    The Redis and Kafka clients are third-party: they are classes, with the
    documented behaviour the service relies on as laws. The combined world of
    database, cache and producer is shown to satisfy [SinkLaws]. *)

From S2P Require Import Prelude Text Event Committer Storage Handler HandlerSteps.

(** ** Clients *)

(** go-redis: EXISTS, SET with an expiry, PING, Close. *)
Class RedisClient (R : Type) := {
  redisExists : string -> M R (result Z);
  redisSet : string -> Z -> M R (option error);
  redisPing : M R (option error);
  redisClose : M R (option error);
}.

(** A positive EXISTS means the key is held; only SET creates a key, and only the
    one it names. Keys may expire at any time. *)
Class RedisLaws (R : Type) `{RedisClient R} := {
  holds : R -> string -> Prop;
  exists_hit k w n w' : redisExists k w = (Ok n, w') -> 0 < n -> holds w k;
  exists_frame k w r w' k' : redisExists k w = (r, w') -> holds w' k' -> holds w k';
  set_frame k t w r w' k' : redisSet k t w = (r, w') -> holds w' k' -> holds w k' \/ k' = k;
}.

Record KafkaRecord := mkRecord {
  rec_Topic : string;
  rec_Key : list Byte.byte;
  rec_Value : list Byte.byte;
  rec_Headers : list RecordHeader;
}.

(** franz-go: ProduceSync, kadm's CreateTopic, Ping. *)
Class KafkaClient (K : Type) := {
  produceSync : KafkaRecord -> M K (option error);
  createTopic : Z -> Z -> string -> M K (option error);
  kafkaPing : M K (option error);
}.

(** With acks from all in-sync replicas, a nil ProduceSync means the record is in
    the log; a failed one may still have written it, and nothing else. *)
Class KafkaLaws (K : Type) `{KafkaClient K} := {
  records : K -> list KafkaRecord;
  sync_ok r w w' : produceSync r w = (None, w') -> r ∈ records w';
  sync_frame r w e w' x : produceSync r w = (e, w') ->
    (x ∈ records w -> x ∈ records w') /\ (x ∈ records w' -> x ∈ records w \/ x = r);
}.

(** ** The processed-event cache *)

Module RedisCache.

Record Cache (R : Type) := mkCache {
  client : R;
  prefix : string;
  ttl : Z;
  hits : Z;
  misses : Z;
  errors : CounterVec;
}.
Arguments mkCache {R}. Arguments client {R}. Arguments prefix {R}. Arguments ttl {R}.
Arguments hits {R}. Arguments misses {R}. Arguments errors {R}.

Section Cache.
Context {R : Type} `{RedisClient R}.

Definition key (c : Cache R) (eventID : string) : string := (prefix c +:+ eventID)%string.

Definition Seen (eventID : string) : M (Cache R) (result bool) := fun c =>
  let '(res, cl) := redisExists (key c eventID) (client c) in
  match res with
  | Err err =>
      (Err (Wrap [Lit "redis exists"] err),
       mkCache cl (prefix c) (ttl c) (hits c) (misses c) (Inc ["seen"] (errors c)))
  | Ok n =>
      if n >? 0 then (Ok true, mkCache cl (prefix c) (ttl c) (hits c + 1) (misses c) (errors c))
      else (Ok false, mkCache cl (prefix c) (ttl c) (hits c) (misses c + 1) (errors c))
  end.

Definition MarkSeen (eventID : string) : M (Cache R) (option error) := fun c =>
  let '(res, cl) := redisSet (key c eventID) (ttl c) (client c) in
  match res with
  | Some err =>
      (Some (Wrap [Lit "redis set"] err),
       mkCache cl (prefix c) (ttl c) (hits c) (misses c) (Inc ["mark"] (errors c)))
  | None => (None, mkCache cl (prefix c) (ttl c) (hits c) (misses c) (errors c))
  end.

Definition CheckRedis : M (Cache R) (option error) := fun c =>
  let '(res, cl) := redisPing (client c) in
  (match res with Some err => Some (Wrap [Lit "redis ping"] err) | None => None end,
   mkCache cl (prefix c) (ttl c) (hits c) (misses c) (errors c)).

Definition Close : M (Cache R) (option error) := fun c =>
  let '(res, cl) := redisClose (client c) in
  (match res with
   | Some err => if errors_Is err "redis.ErrClosed" then None else Some (Wrap [Lit "close redis"] err)
   | None => None
   end, mkCache cl (prefix c) (ttl c) (hits c) (misses c) (errors c)).

End Cache.

Lemma append_inj (p a b : string) : (p +:+ a = p +:+ b)%string -> a = b.
Proof. apply (inj (String.append p)). Qed.

End RedisCache.

(** ** The Kafka producer *)

Module Kafka.

Record Producer (K : Type) := mkProducer {
  client : K;
  topic : string;
  partitions : Z;
  replication : Z;
  produced : Z;
  failed : Z;
  bytes : Z;
  durations : Z;
}.
Arguments mkProducer {K}. Arguments client {K}. Arguments topic {K}. Arguments partitions {K}.
Arguments replication {K}. Arguments produced {K}. Arguments failed {K}. Arguments bytes {K}.
Arguments durations {K}.

Section Producer.
Context {K : Type} `{KafkaClient K}.

(** [Producer.Produce] *)
Definition Produce (k : string) (value : list Byte.byte) (hs : list RecordHeader)
    : M (Producer K) (option error) := fun p =>
  let '(err, cl) := produceSync (mkRecord (topic p) (Handler.bytesOf k) value hs) (client p) in
  match err with
  | Some e =>
      (Some (Wrap [Lit "produce to "; Quoted (topic p)] e),
       mkProducer cl (topic p) (partitions p) (replication p) (produced p) (failed p + 1) (bytes p)
         (durations p + 1))
  | None =>
      (None,
       mkProducer cl (topic p) (partitions p) (replication p) (produced p + 1) (failed p)
         (bytes p + Z.of_nat (length value)) (durations p + 1))
  end.

(** [errors.As] to a broker error, and its code; TOPIC_ALREADY_EXISTS is 36. *)
Fixpoint asKerr (e : error) : option Z :=
  match e with
  | External n code => if decide (n = "kerr") then Some code else None
  | Wrap _ inner => asKerr inner
  | _ => None
  end.

Definition isTopicAlreadyExists (e : error) : bool := bool_decide (asKerr e = Some 36).

(** [Producer.EnsureTopic] *)
Definition EnsureTopic : M (Producer K) (option error) := fun p =>
  let '(err, cl) := createTopic (partitions p) (replication p) (topic p) (client p) in
  let p' := mkProducer cl (topic p) (partitions p) (replication p) (produced p) (failed p) (bytes p)
              (durations p) in
  match err with
  | Some e => if isTopicAlreadyExists e then (None, p')
              else (Some (Wrap [Lit "create topic "; Quoted (topic p)] e), p')
  | None => (None, p')
  end.

(** [Producer.Check] *)
Definition CheckKafka : M (Producer K) (option error) := fun p =>
  let '(err, cl) := kafkaPing (client p) in
  (match err with Some e => Some (Wrap [Lit "kafka ping"] e) | None => None end,
   mkProducer cl (topic p) (partitions p) (replication p) (produced p) (failed p) (bytes p) (durations p)).

End Producer.

End Kafka.

(** ** Database, cache and producer together *)

Module Sinks.
Import Event.

Record World (R K : Type) := mkWorld {
  db : Storage.DB;
  cache : RedisCache.Cache R;
  producer : Kafka.Producer K;
}.
Arguments mkWorld {R K}. Arguments db {R K}. Arguments cache {R K}. Arguments producer {R K}.

Section World.
Context {R K : Type} `{RedisLaws R} `{KafkaLaws K}.
Context (json_Marshal : payload -> result (list Byte.byte)).

Definition onDB {A} (m : M Storage.DB A) : M (World R K) A := fun w =>
  let '(a, d) := m (db w) in (a, mkWorld d (cache w) (producer w)).
Definition onCache {A} (m : M (RedisCache.Cache R) A) : M (World R K) A := fun w =>
  let '(a, c) := m (cache w) in (a, mkWorld (db w) c (producer w)).
Definition onProducer {A} (m : M (Kafka.Producer K) A) : M (World R K) A := fun w =>
  let '(a, p) := m (producer w) in (a, mkWorld (db w) (cache w) p).

#[local] Instance World_EventStore : EventStore (World R K) := {
  PersistEvent e := onDB (Storage.PersistEvent json_Marshal e);
}.
#[local] Instance World_SeenCache : SeenCache (World R K) := {
  Seen id := onCache (RedisCache.Seen id);
  MarkSeen id := onCache (RedisCache.MarkSeen id);
}.
#[local] Instance World_RecordProducer : RecordProducer (World R K) := {
  Produce k v hs := onProducer (Kafka.Produce k v hs);
}.

Definition w_stored (w : World R K) (id : string) : Prop :=
  is_Some (Storage.processed_events (db w) !! id).
Definition w_published (w : World R K) (id : string) : Prop :=
  exists r, r ∈ records (Kafka.client (producer w)) /\ ("event_id", Handler.bytesOf id) ∈ rec_Headers r.
Definition w_marked (w : World R K) (id : string) : Prop :=
  holds (RedisCache.client (cache w)) (RedisCache.key (cache w) id).

(** The headers name the event, and only it. *)
Lemma headers_event_id e id :
  ("event_id", Handler.bytesOf id) ∈ Handler.headers e -> id = EventID e.
Proof.
  unfold Handler.headers. intros Hin. set_unfold in Hin.
  destruct Hin as [Hin|[Hin|[Hin|[]]]]; simplify_eq. by apply Text.bytesOf_inj.
Qed.

Lemma persist_world_stored e (w : World R K) b w' :
  PersistEvent e w = (Ok b, w') -> w_stored w' (EventID e).
Proof.
  simpl. unfold onDB. destruct (Storage.PersistEvent _ e (db w)) as [r d] eqn:E. intros. simplify_eq.
  destruct (Storage.PersistEvent_Upsert _ _ _ _ _ E) as (r0 & Hu & Hr).
  destruct (Storage.Upsert_cases _ _ _ _ _ Hu) as (_ & Hsub & Hc). unfold w_stored. simpl.
  destruct r0 as [[]|]; [| |done].
  - destruct Hc as (_ & id & rb & p & _ & _ & ->). rewrite lookup_insert_eq. eauto.
  - destruct Hc as [Hs ->]. done.
Qed.

Lemma persist_world_keeps e (w : World R K) r w' id :
  PersistEvent e w = (r, w') ->
  (w_stored w id -> w_stored w' id) /\ (w_published w' id <-> w_published w id) /\
  (w_marked w' id -> w_marked w id).
Proof.
  simpl. unfold onDB. destruct (Storage.PersistEvent _ e (db w)) as [r0 d] eqn:E. intros. simplify_eq.
  destruct (Storage.PersistEvent_Upsert _ _ _ _ _ E) as (r1 & Hu & _).
  destruct (Storage.Upsert_cases _ _ _ _ _ Hu) as (_ & Hsub & _).
  split; [|done]. unfold w_stored. simpl. intros [row Hrow]. exists row. by eapply lookup_weaken.
Qed.

Lemma produce_world e v (w : World R K) r w' :
  Produce (Topic e) v (Handler.headers e) w = (r, w') ->
  exists rec, rec_Headers rec = Handler.headers e /\ db w' = db w /\ cache w' = cache w /\
    (r = None -> rec ∈ records (Kafka.client (producer w'))) /\
    (forall x, (x ∈ records (Kafka.client (producer w)) -> x ∈ records (Kafka.client (producer w'))) /\
               (x ∈ records (Kafka.client (producer w')) ->
                x ∈ records (Kafka.client (producer w)) \/ x = rec)).
Proof.
  simpl. unfold onProducer, Kafka.Produce.
  destruct (produceSync _ (Kafka.client (producer w))) as [err cl] eqn:E.
  intros Hr.
  exists (mkRecord (Kafka.topic (producer w)) (Handler.bytesOf (Topic e)) v (Handler.headers e)).
  split; [done|]. destruct err; simplify_eq/=; split_and!; try done;
    try (intros; by eapply sync_ok); intros x; by eapply sync_frame.
Qed.

Lemma produce_world_published e v (w : World R K) w' :
  Produce (Topic e) v (Handler.headers e) w = (None, w') -> w_published w' (EventID e).
Proof.
  intros (rec & Hh & _ & _ & Hin & _)%produce_world. exists rec. split; [auto|].
  rewrite Hh. unfold Handler.headers. set_solver.
Qed.

Lemma produce_world_keeps e v (w : World R K) r w' id :
  Produce (Topic e) v (Handler.headers e) w = (r, w') ->
  (w_stored w' id <-> w_stored w id) /\ (w_published w id -> w_published w' id) /\
  (w_published w' id -> w_published w id \/ id = EventID e) /\ (w_marked w' id -> w_marked w id).
Proof.
  intros (rec & Hh & Hd & Hc & _ & Hx)%produce_world.
  unfold w_stored, w_published, w_marked. rewrite Hd, Hc. split; [done|]. split; [|split; [|done]].
  - intros (x & Hin & He). exists x. split; [by apply Hx | done].
  - intros (x & Hin & He). destruct (proj2 (Hx x) Hin) as [?| ->]; [left; eauto|].
    right. rewrite Hh in He. by apply headers_event_id.
Qed.

Lemma seen_world id0 (w : World R K) r w' :
  Seen id0 w = (r, w') ->
  db w' = db w /\ producer w' = producer w /\
  (forall id, w_marked w' id -> w_marked w id) /\ (r = Ok true -> w_marked w id0).
Proof.
  simpl. unfold onCache, RedisCache.Seen.
  destruct (redisExists _ (RedisCache.client (cache w))) as [res cl] eqn:E.
  destruct res as [n|err]; [destruct (n >? 0) eqn:En|]; intros; simplify_eq/=;
    (split; [done|]); (split; [done|]); unfold w_marked, RedisCache.key in *; simpl in *; split;
    try done; try (intros id; by eapply exists_frame).
  intros _. bools. by eapply exists_hit.
Qed.

Lemma mark_world id0 (w : World R K) r w' :
  MarkSeen id0 w = (r, w') ->
  db w' = db w /\ producer w' = producer w /\
  (forall id, w_marked w' id -> w_marked w id \/ id = id0).
Proof.
  simpl. unfold onCache, RedisCache.MarkSeen.
  destruct (redisSet _ _ (RedisCache.client (cache w))) as [res cl] eqn:E.
  destruct res as [err|]; intros; simplify_eq/=; (split; [done|]); (split; [done|]);
    unfold w_marked, RedisCache.key in *; simpl in *; intros id Hid;
    destruct (set_frame _ _ _ _ _ _ E Hid) as [?|Hk]; auto;
    right; by eapply RedisCache.append_inj.
Qed.

(** The three sinks together keep the promises the handlers rely on. *)
#[local] Program Instance World_SinkLaws : Handler.SinkLaws (World R K) := {
  stored := w_stored;
  published := w_published;
  marked := w_marked;
}.
Next Obligation. intros. by eapply persist_world_stored. Qed.
Next Obligation. intros. by eapply persist_world_keeps. Qed.
Next Obligation. intros. by eapply produce_world_published. Qed.
Next Obligation. intros. by eapply produce_world_keeps. Qed.
Next Obligation. intros * Hs. destruct (seen_world _ _ _ _ Hs) as (_ & _ & _ & Hm). auto. Qed.
Next Obligation.
  intros * Hs. destruct (seen_world _ _ _ _ Hs) as (Hd & Hp & Hm & _).
  unfold w_stored, w_published. rewrite Hd, Hp. auto.
Qed.
Next Obligation.
  intros * Hs. destruct (mark_world _ _ _ _ Hs) as (Hd & Hp & Hm).
  unfold w_stored, w_published. rewrite Hd, Hp. auto.
Qed.

End World.

(** ** In-memory clients, for the examples

    A Redis that answers from a set of keys, and fails while it is down; a Kafka
    that appends to a list, and fails while it is down. *)

Record memRedis := mkMemRedis { keys : gset string; redisUp : bool }.
Record memKafka := mkMemKafka { klog : list KafkaRecord; kafkaUp : bool }.

#[global] Instance memRedis_client : RedisClient memRedis := {
  redisExists k := fun r => (if redisUp r then Ok (if decide (k ∈ keys r) then 1 else 0)
                             else Err (External "redis" 0), r);
  redisSet k _ := fun r => if redisUp r then (None, mkMemRedis ({[k]} ∪ keys r) (redisUp r))
                           else (Some (External "redis" 0), r);
  redisPing := fun r => (if redisUp r then None else Some (External "redis" 0), r);
  redisClose := fun r => (None, r);
}.

#[global] Program Instance memRedis_laws : RedisLaws memRedis := { holds r k := k ∈ keys r }.
Next Obligation. intros. simpl in *. split_match; [done | lia]. Qed.
Next Obligation. intros. simpl in *. by simplify_eq. Qed.
Next Obligation. intros. simpl in *. split_match; set_solver. Qed.

#[global] Instance memKafka_client : KafkaClient memKafka := {
  produceSync r := fun k => if kafkaUp k then (None, mkMemKafka (klog k ++ [r]) (kafkaUp k))
                            else (Some (External "kafka" 0), k);
  createTopic _ _ _ := fun k => (if kafkaUp k then None else Some (External "kafka" 0), k);
  kafkaPing := fun k => (if kafkaUp k then None else Some (External "kafka" 0), k);
}.

#[global] Program Instance memKafka_laws : KafkaLaws memKafka := { records := klog }.
Next Obligation. intros. simpl in *. split_match; set_solver. Qed.
Next Obligation. intros. simpl in *. split_match; set_solver. Qed.

Definition memWorld : Type := World memRedis memKafka.

Definition memStart (redisUp kafkaUp : bool) : memWorld :=
  mkWorld Storage.emptyDB (RedisCache.mkCache (mkMemRedis ∅ redisUp) "seen:" 0 0 0 ∅)
    (Kafka.mkProducer (mkMemKafka [] kafkaUp) "salesforce.events" 3 1 0 0 0 0).

#[global] Instance mem_EventStore : EventStore memWorld := World_EventStore Storage.demoMarshal.
#[global] Instance mem_SeenCache : SeenCache memWorld := World_SeenCache.
#[global] Instance mem_RecordProducer : RecordProducer memWorld := World_RecordProducer.
#[global] Instance mem_SinkLaws : Handler.SinkLaws memWorld := World_SinkLaws Storage.demoMarshal.

Definition demoEnvelope (env : Handler.Envelope) : result (list Byte.byte) := Ok [Byte.x7b; Byte.x7d].

Lemma memStart_ok ru ku kafka : Handler.sinksOK kafka (memStart ru ku).
Proof.
  split; intros id Hid.
  - by destruct (not_elem_of_empty (C := gset string) _ Hid).
  - destruct Hid as (r & Hr & _). by apply not_elem_of_nil in Hr.
Qed.

Definition handledWorld : memWorld :=
  (Handler.rootHandler true true demoEnvelope Storage.demoEvent (memStart true true)).2.

(** A healthy run of the full pipeline, and what it leaves behind. *)
Lemma acknowledged_means_finished_witness :
  Handler.sinksOK true handledWorld /\ Handler.finished true handledWorld "uuid-1".
Proof.
  destruct (Handler.acknowledged_means_finished demoEnvelope true true Storage.demoEvent
              (memStart true true) handledWorld None (memStart_ok true true true)) as (H1 & H2 & _);
    [by vm_compute|].
  split; [exact H1 | exact (H2 eq_refl)].
Defined.

(** Two workers on the same event, call by call: both look it up before either stores it. *)
Definition sideBySide : HandlerSteps.Sys (W := memWorld) :=
  foldl (HandlerSteps.call demoEnvelope true true)
    (HandlerSteps.mkSys (memStart true true)
       (<[2%nat := (Storage.demoEvent, HandlerSteps.AtSeen)]> (<[1%nat := (Storage.demoEvent, HandlerSteps.AtSeen)]> ∅)))
    [1; 2; 2; 1; 1; 2; 2; 1]%nat.

Lemma concurrent_handlers_finish_witness :
  HandlerSteps.tasks sideBySide !! 1%nat = Some (Storage.demoEvent, HandlerSteps.Returned None) /\
  Handler.finished true (HandlerSteps.sinks sideBySide) "uuid-1".
Proof.
  assert (HandlerSteps.tasks sideBySide !! 1%nat = Some (Storage.demoEvent, HandlerSteps.Returned None)) as Ht
    by by vm_compute.
  split; [exact Ht|].
  refine (proj1 (proj2 (HandlerSteps.concurrent_handlers_finish demoEnvelope true true (memStart true true)
    sideBySide (memStart_ok true true true) _)) 1%nat Storage.demoEvent Ht).
  eapply rtc_l; [by apply (HandlerSteps.step_start _ _ _ _ _ 1%nat Storage.demoEvent)|].
  eapply rtc_l; [by apply (HandlerSteps.step_start _ _ _ _ _ 2%nat Storage.demoEvent)|].
  apply HandlerSteps.calls_steps.
Defined.

(** With Redis down the result is the chain's own. *)
Lemma dedup_transparent_witness :
  let next := Handler.ChainHandle [Handler.PersistHandle; Handler.ForwardHandle demoEnvelope] in
  (Handler.DedupHandle next Storage.demoEvent (memStart false false)).1 =
  (next Storage.demoEvent (memStart false false)).1.
Proof.
  intros next.
  destruct (Handler.dedup_transparent next Storage.demoEvent (memStart false false)
              (Handler.DedupHandle next Storage.demoEvent (memStart false false)).1
              (Handler.DedupHandle next Storage.demoEvent (memStart false false)).2) as [Hr _].
  - by vm_compute.
  - by vm_compute.
  - rewrite Hr at 1. by vm_compute.
Defined.

(** ** Properties *)

Inductive cacheOp := OpSeen (id : string) | OpMark (id : string).

Definition runOp {R} `{RedisClient R} (c : RedisCache.Cache R) (op : cacheOp) : RedisCache.Cache R :=
  match op with
  | OpSeen id => (RedisCache.Seen id c).2
  | OpMark id => (RedisCache.MarkSeen id c).2
  end.

Section CacheOps.
Context {R : Type} `{RedisLaws R}.

Lemma runOp_prefix (c : RedisCache.Cache R) op : RedisCache.prefix (runOp c op) = RedisCache.prefix c.
Proof.
  destruct op; simpl; unfold RedisCache.Seen, RedisCache.MarkSeen;
    [destruct (redisExists _ _) as [[n|] ?]; [destruct (n >? 0)|] | destruct (redisSet _ _ _) as [[]]]; done.
Qed.

Lemma runOp_holds (c : RedisCache.Cache R) op id :
  holds (RedisCache.client (runOp c op)) (RedisCache.key c id) ->
  holds (RedisCache.client c) (RedisCache.key c id) \/ op = OpMark id.
Proof.
  destruct op as [id0|id0]; simpl; unfold RedisCache.Seen, RedisCache.MarkSeen.
  - destruct (redisExists _ _) as [res cl] eqn:E.
    destruct res as [n|]; [destruct (n >? 0)|]; simpl; intros Hh; left; by eapply exists_frame.
  - destruct (redisSet _ _ _) as [res cl] eqn:E.
    destruct res; simpl; intros Hh; destruct (set_frame _ _ _ _ _ _ E Hh) as [?|Hk]; auto;
      right; f_equal; symmetry; by eapply RedisCache.append_inj.
Qed.

Lemma runOps_holds ops (c : RedisCache.Cache R) id :
  holds (RedisCache.client (foldl runOp c ops)) (RedisCache.key c id) ->
  holds (RedisCache.client c) (RedisCache.key c id) \/ OpMark id ∈ ops.
Proof.
  revert c. induction ops as [|op ops IH]; intros c Hh; simpl in Hh; [by left|].
  assert (RedisCache.key (runOp c op) id = RedisCache.key c id) as Hk
    by (unfold RedisCache.key; by rewrite runOp_prefix).
  rewrite <- Hk in Hh. destruct (IH _ Hh) as [Hh1|Hin]; [|right; by right].
  rewrite Hk in Hh1. destruct (runOp_holds _ _ _ Hh1) as [?| ->]; [by left | right; by left].
Qed.

Lemma runOps_prefix ops (c : RedisCache.Cache R) :
  RedisCache.prefix (foldl runOp c ops) = RedisCache.prefix c.
Proof.
  revert c. induction ops as [|op ops IH]; intros c; [done|]. simpl. by rewrite IH, runOp_prefix.
Qed.

(** A hit is never invented: along any sequence of cache operations, a lookup
    answers "seen" for an event only if that very event was marked before, or its
    key was already held at the start; the keys of different events never
    collide, and a failing Redis never answers "seen". *)
Theorem seen_only_if_marked ops (c : RedisCache.Cache R) id c' :
  RedisCache.Seen id (foldl runOp c ops) = (Ok true, c') ->
  OpMark id ∈ ops \/ holds (RedisCache.client c) (RedisCache.key c id).
Proof.
  unfold RedisCache.Seen. destruct (redisExists _ _) as [res cl] eqn:E.
  destruct res as [n|]; [|done]. destruct (n >? 0) eqn:En; [|done]. intros _. bools.
  pose proof (exists_hit _ _ _ _ E En) as Hh.
  unfold RedisCache.key in Hh. rewrite runOps_prefix in Hh.
  destruct (runOps_holds ops c id Hh); auto.
Qed.

End CacheOps.

Lemma seen_only_if_marked_witness :
  OpMark "b" ∈ [OpSeen "a"; OpMark "b"] \/
  holds (mkMemRedis ∅ true) (RedisCache.key (cache (memStart true true)) "b").
Proof.
  apply (seen_only_if_marked [OpSeen "a"; OpMark "b"] (cache (memStart true true)) "b"
           (RedisCache.Seen "b" (foldl runOp (cache (memStart true true)) [OpSeen "a"; OpMark "b"])).2).
  by vm_compute.
Defined.

End Sinks.
