(* ===== verification/Schema.v ===== *)
(** * Avro schemas

    Model of src/internal/schema: the cache of parsed schemas (cache.go) and the
    payload decoder (decoder.go). The Avro library is a parameter. Concurrent
    lookups are a step relation in which [singleflight] keeps at most one call per
    key in flight and hands its result to every caller that joined it. *)

From S2P Require Import Prelude Event.

Module Schema.
Import Event.

Section Cache.
Context {W Schema : Type}.
(** [src] fetches the raw schema, [avro_Parse] is the library's parser. *)
Context (src : string -> M W (result string)) (avro_Parse : string -> result Schema).

Record Cache := mkCache {
  parsed : gmap string Schema;
  hits : Z;
  misses : Z;
}.

Definition NewCache : Cache := mkCache ∅ 0 0.

(** The function [Get] hands to singleflight. *)
Definition fetch (id : string) (c : Cache) (w : W) : result Schema * Cache * W :=
  match parsed c !! id with
  | Some s => (Ok s, c, w)
  | None =>
      let '(raw, w') := src id w in
      match raw with
      | Err err => (Err (Wrap [Lit "fetch schema "; Quoted id] err), c, w')
      | Ok json =>
          match avro_Parse json with
          | Err err => (Err (Wrap [Lit "parse schema "; Quoted id] err), c, w')
          | Ok s => (Ok s, mkCache (<[id := s]> (parsed c)) (hits c) (misses c), w')
          end
      end
  end.

(** [Get] for a caller that runs alone. *)
Definition Get (id : string) (c : Cache) (w : W) : result Schema * Cache * W :=
  match parsed c !! id with
  | Some s => (Ok s, mkCache (parsed c) (hits c + 1) (misses c), w)
  | None => fetch id (mkCache (parsed c) (hits c) (misses c + 1)) w
  end.

End Cache.

(** ** The decoder *)

Section Decode.
Context {Schema : Type} (avro_Unmarshal : Schema -> list Byte.byte -> result payload).

(** A nil schema is [None]. *)
Definition Decode (schema : option Schema) (data : GoBytes) : result payload :=
  match schema with
  | None => Err (NewErr [Lit "nil schema"])
  | Some s =>
      if (go_len data =? 0)%nat then Err (NewErr [Lit "empty payload"])
      else match avro_Unmarshal s (default [] data) with
           | Err err => Err (Wrap [Lit "avro unmarshal"] err)
           | Ok p => Ok p
           end
  end.

End Decode.

(** ** Concurrent lookups

    Callers are numbered. A caller looks the id up and hits, or enters
    singleflight, where it starts a call for the id or joins the one in flight.
    The call checks the map again, fetches, parses and stores; its result goes to
    every caller that joined. *)

Section Concurrent.
Context {Schema : Type}.

Inductive flightState := Entered | Fetching.

Record Sys := mkSys {
  cache : @Cache Schema;
  missed : gmap nat string;
  flights : gmap string (flightState * gset nat);
  answers : gmap nat (string * result Schema);
  stores : list string;
}.

Definition initSys : Sys := mkSys NewCache ∅ ∅ ∅ [].

(** Every caller of a finished call gets its result. *)
Definition answerAll (cs : gset nat) (id : string) (r : result Schema)
    (a : gmap nat (string * result Schema)) : gmap nat (string * result Schema) :=
  set_to_map (fun c => (c, (id, r))) cs ∪ a.

Inductive step : relation Sys :=
| step_hit c ms fl an st caller id s : parsed c !! id = Some s -> an !! caller = None ->
    step (mkSys c ms fl an st)
         (mkSys (mkCache (parsed c) (hits c + 1) (misses c)) ms fl (<[caller := (id, Ok s)]> an) st)
| step_miss c ms fl an st caller id : parsed c !! id = None -> an !! caller = None ->
    step (mkSys c ms fl an st)
         (mkSys (mkCache (parsed c) (hits c) (misses c + 1)) (<[caller := id]> ms) fl an st)
| step_lead c ms fl an st caller id : ms !! caller = Some id -> fl !! id = None ->
    step (mkSys c ms fl an st)
         (mkSys c (delete caller ms) (<[id := (Entered, {[caller]})]> fl) an st)
| step_join c ms fl an st caller id fs cs : ms !! caller = Some id -> fl !! id = Some (fs, cs) ->
    step (mkSys c ms fl an st)
         (mkSys c (delete caller ms) (<[id := (fs, {[caller]} ∪ cs)]> fl) an st)
| step_recheck_hit c ms fl an st id cs s : fl !! id = Some (Entered, cs) -> parsed c !! id = Some s ->
    step (mkSys c ms fl an st) (mkSys c ms (delete id fl) (answerAll cs id (Ok s) an) st)
| step_fetch c ms fl an st id cs : fl !! id = Some (Entered, cs) -> parsed c !! id = None ->
    step (mkSys c ms fl an st) (mkSys c ms (<[id := (Fetching, cs)]> fl) an st)
| step_fail c ms fl an st id cs e : fl !! id = Some (Fetching, cs) ->
    step (mkSys c ms fl an st) (mkSys c ms (delete id fl) (answerAll cs id (Err e) an) st)
| step_store c ms fl an st id cs s : fl !! id = Some (Fetching, cs) ->
    step (mkSys c ms fl an st)
         (mkSys (mkCache (<[id := s]> (parsed c)) (hits c) (misses c)) ms (delete id fl)
                (answerAll cs id (Ok s) an) (st ++ [id])).

Record inv (s : Sys) : Prop := {
  inv_fetching : forall id cs, flights s !! id = Some (Fetching, cs) -> parsed (cache s) !! id = None;
  inv_stores : forall id, is_Some (parsed (cache s) !! id) <-> id ∈ stores s;
  inv_once : NoDup (stores s);
  inv_answers : forall caller id sch, answers s !! caller = Some (id, Ok sch) ->
    parsed (cache s) !! id = Some sch;
}.

Lemma answerAll_lookup cs id r a caller x :
  answerAll cs id r a !! caller = Some x -> x = (id, r) \/ a !! caller = Some x.
Proof.
  unfold answerAll. rewrite lookup_union_Some_raw. intros [Hl|[_ Hl]]; [left|by right].
  apply lookup_set_to_map in Hl as (y & _ & Hy); [by simplify_eq|]. intros; by simplify_eq.
Qed.

Lemma inv_init : inv initSys.
Proof.
  split; simpl; try done; [|constructor].
  intros id. rewrite lookup_empty, elem_of_nil. split; [by intros [? ?] | done].
Qed.

Lemma flight_inv_step s s' : inv s -> step s s' -> inv s'.
Proof.
  intros [If Is Io Ia] Hs.
  destruct Hs as [c ms fl an st caller id s Hp Ha | c ms fl an st caller id Hp Ha
    | c ms fl an st caller id Hm Hf | c ms fl an st caller id fs cs Hm Hf
    | c ms fl an st id cs s Hf Hp | c ms fl an st id cs Hf Hp
    | c ms fl an st id cs e Hf | c ms fl an st id cs s Hf]; simpl in *; split; simpl; try done.
  - intros caller' id' sch. rewrite lookup_insert_Some. intros [[_ ?]|[_ ?]]; simplify_eq; eauto.
  - intros id' cs'. rewrite lookup_insert_Some. intros [[_ ?]|[_ ?]]; simplify_eq; eauto.
  - intros id' cs'. rewrite lookup_insert_Some. intros [[<- ?]|[_ ?]]; simplify_eq; eauto.
  - intros id' cs'. rewrite lookup_delete_Some. intros [_ ?]. eauto.
  - intros caller' id' sch [?|?]%answerAll_lookup; simplify_eq; eauto.
  - intros id' cs'. rewrite lookup_insert_Some. intros [[<- ?]|[_ ?]]; simplify_eq; eauto.
  - intros id' cs'. rewrite lookup_delete_Some. intros [_ ?]. eauto.
  - intros caller' id' sch [?|?]%answerAll_lookup; simplify_eq; eauto.
  - intros id' cs'. rewrite lookup_delete_Some. intros [? Hf'].
    rewrite lookup_insert_ne by done. eauto.
  - intros id'. rewrite elem_of_app, list_elem_of_singleton, <- Is, lookup_insert.
    case_decide; [subst; split; [by right | eauto] | naive_solver].
  - apply NoDup_app. split; [done|]. split; [|repeat constructor; set_solver].
    intros id' Hin Hid. apply list_elem_of_singleton in Hid as ->.
    apply Is in Hin as [? ?]. rewrite (If _ _ Hf) in *. done.
  - intros caller' id' sch [?|Ha]%answerAll_lookup; simplify_eq; [by rewrite lookup_insert_eq|].
    rewrite lookup_insert_ne; [eauto|]. intros ->. apply Ia in Ha. rewrite (If _ _ Hf) in Ha. done.
Qed.

Lemma parsed_mono s s' : inv s -> rtc step s s' -> parsed (cache s) ⊆ parsed (cache s').
Proof.
  intros Hi Hr. induction Hr as [|s s1 s2 Hs _ IH]; [done|].
  etrans; [|apply IH; by eapply flight_inv_step]. destruct Hi as [If _ _ _].
  destruct Hs as [| | | | | | | c ms fl an st id cs sc Hf]; simpl in *; try done.
  apply insert_subseteq. eauto.
Qed.

(** ** Properties *)

(** C34. However lookups interleave, a schema is stored at most once per id (so a
    successful fetch is never repeated), the cached schema of an id never changes,
    and every caller that is answered gets the cached schema of the id it asked
    for. *)
Theorem schema_stored_once s s' :
  rtc step initSys s -> rtc step s s' ->
  NoDup (stores s') /\ parsed (cache s) ⊆ parsed (cache s') /\
  (forall id, id ∈ stores s' <-> is_Some (parsed (cache s') !! id)) /\
  (forall caller id sch, answers s' !! caller = Some (id, Ok sch) ->
     parsed (cache s') !! id = Some sch).
Proof.
  intros H1 H2.
  pose proof (rtc_invariant step inv _ _ flight_inv_step inv_init H1) as I1.
  pose proof (rtc_invariant step inv _ _ flight_inv_step I1 H2) as I2.
  split; [apply I2|]. split; [by apply parsed_mono|]. split; [|apply (inv_answers _ I2)].
  intros id. symmetry. apply I2.
Qed.

End Concurrent.

(** Two callers miss, share one fetch, and both get its result. *)
Definition demoSys : @Sys string :=
  mkSys (mkCache {["x" := "S"]} 0 2) (delete 2%nat (<[2%nat := "x"]> (delete 1%nat (<[1%nat := "x"]> ∅))))
    (delete "x" (<["x" := (Fetching, {[2%nat]} ∪ {[1%nat]})]>
       (<["x" := (Entered, {[2%nat]} ∪ {[1%nat]})]> (<["x" := (Entered, {[1%nat]})]> ∅))))
    (answerAll ({[2%nat]} ∪ {[1%nat]}) "x" (Ok "S") ∅) ["x"].

Lemma schema_stored_once_witness :
  answers demoSys !! 2%nat = Some ("x", Ok "S") /\ NoDup (stores demoSys).
Proof.
  split; [by vm_compute|].
  refine (proj1 (schema_stored_once demoSys demoSys _ (rtc_refl _ _))).
  eapply rtc_l; [by apply (step_miss _ _ _ _ _ 1%nat "x")|].
  eapply rtc_l; [by apply (step_lead _ _ _ _ _ 1%nat "x")|].
  eapply rtc_l; [by apply (step_miss _ _ _ _ _ 2%nat "x")|].
  eapply rtc_l; [by eapply (step_join _ _ _ _ _ 2%nat "x" Entered {[1%nat]})|].
  eapply rtc_l; [by apply (step_fetch _ _ _ _ _ "x" ({[2%nat]} ∪ {[1%nat]}))|].
  eapply rtc_l; [by apply (step_store _ _ _ _ _ "x" ({[2%nat]} ∪ {[1%nat]}) "S")|].
  constructor.
Defined.

(** Looking up alone: [Get] answers from the cache without touching the source on
    a hit; on a miss it answers the parsed schema the source gave, which is what
    the next lookup will answer; a failure of the source or of the parser is
    returned and caches nothing, so the next lookup tries again. *)
Theorem get_caches_successes {W Schema} src avro_Parse id (c c' : @Cache Schema) (w w' : W) r :
  Get src avro_Parse id c w = (r, c', w') ->
  (forall s, parsed c !! id = Some s -> r = Ok s /\ w' = w /\ parsed c' = parsed c) /\
  (parsed c !! id = None ->
     w' = (src id w).2 /\
     match r with
     | Ok s => parsed c' = <[id := s]> (parsed c) /\
               exists json, (src id w).1 = Ok json /\ avro_Parse json = Ok s
     | Err _ => parsed c' = parsed c
     end) /\
  (forall s, r = Ok s -> forall w2, Get src avro_Parse id c' w2 =
     (Ok s, mkCache (parsed c') (hits c' + 1) (misses c'), w2)).
Proof.
  unfold Get. destruct (parsed c !! id) as [s|] eqn:E.
  - intros. simplify_eq/=. split; [intros; by simplify_eq|]. split; [done|].
    intros s0 ? w2. simplify_eq. by rewrite E.
  - unfold fetch. simpl. rewrite E. destruct (src id w) as [[json|err] w1] eqn:Es.
    + destruct (avro_Parse json) as [s|err] eqn:Ej; intros; simplify_eq/=.
      * split; [done|]. split; [eauto|]. intros s0 ? w2. simplify_eq. by rewrite lookup_insert_eq.
      * split; [done|]. split; [done|]. intros s0 ?. done.
    + intros. simplify_eq/=. done.
Qed.

Lemma get_caches_successes_witness :
  let src (id : string) : M unit (result string) := fun w => (Ok "json", w) in
  let '(r, c', w') := Get src (fun j => Ok j) "x" NewCache tt in
  r = Ok "json" /\ Get src (fun j => Ok j) "x" c' tt = (Ok "json", mkCache (parsed c') (hits c' + 1) (misses c'), tt).
Proof.
  intros src. destruct (Get src (fun j => Ok j) "x" NewCache tt) as [[r c'] w'] eqn:E.
  destruct (get_caches_successes src (fun j => Ok j) "x" NewCache c' tt w' r E) as (_ & _ & H).
  assert (r = Ok "json") as -> by (vm_compute in E; congruence).
  split; [reflexivity | exact (H "json" eq_refl tt)].
Defined.

End Schema.
