(* ===== verification/Config.v ===== *)
(** * Configuration

    Model of src/internal/config/config.go: the configuration records, [Validate]
    and [Load]. [net.SplitHostPort] is written out; the environment parser and
    [url.Parse] are parameters; Url.v writes the latter out. *)

From S2P Require Import Prelude.
From Stdlib Require Import Ascii.

(** ** net.SplitHostPort *)

Module Net.

(** [strings.IndexByte] and [strings.LastIndexByte]; [None] is -1. *)
Fixpoint IndexByte (s : list ascii) (c : ascii) : option nat :=
  match s with
  | [] => None
  | x :: s' => if Ascii.eqb x c then Some O else S <$> IndexByte s' c
  end.

Fixpoint LastIndexByte (s : list ascii) (c : ascii) : option nat :=
  match s with
  | [] => None
  | x :: s' =>
      match LastIndexByte s' c with
      | Some i => Some (S i)
      | None => if Ascii.eqb x c then Some O else None
      end
  end.

Definition addrErr (addr : list ascii) (why : string) : result (list ascii * list ascii) :=
  Err (NewErr [Lit "address "; Lit (String.string_of_list_ascii addr); Lit ": "; Lit why]).

Definition missingPort : string := "missing port in address".
Definition tooManyColons : string := "too many colons in address".

(** The end of the function: no bracket left, then the port. *)
Definition finishSplit (hostport host : list ascii) (i j k : nat) : result (list ascii * list ascii) :=
  match IndexByte (drop j hostport) "["%char with
  | Some _ => addrErr hostport "unexpected '[' in address"
  | None =>
      match IndexByte (drop k hostport) "]"%char with
      | Some _ => addrErr hostport "unexpected ']' in address"
      | None => Ok (host, drop (S i) hostport)
      end
  end.

Definition splitHostPort (hostport : list ascii) : result (list ascii * list ascii) :=
  match LastIndexByte hostport ":"%char with
  | None => addrErr hostport missingPort
  | Some i =>
      if bool_decide (hostport !! 0%nat = Some "["%char) then
        match IndexByte hostport "]"%char with
        | None => addrErr hostport "missing ']' in address"
        | Some e =>
            if (S e =? length hostport)%nat then addrErr hostport missingPort
            else if (S e =? i)%nat then
              finishSplit hostport (drop 1 (take e hostport)) i 1 (S e)
            else if bool_decide (hostport !! S e = Some ":"%char) then addrErr hostport tooManyColons
            else addrErr hostport missingPort
        end
      else
        let host := take i hostport in
        match IndexByte host ":"%char with
        | Some _ => addrErr hostport tooManyColons
        | None => finishSplit hostport host i 0 0
        end
  end.

Definition SplitHostPort (s : string) : result (list ascii * list ascii) :=
  splitHostPort (String.list_ascii_of_string s).

End Net.

Module Config.

(** What the code reads of a parsed URL. *)
Record URL := mkURL {
  Scheme : string;
  Host : string;
  Path : string;
}.

Record SalesforceConfig := mkSalesforce {
  ClientID : string;
  ClientSecret : string;
  LoginURL : string;
}.

Record PubSubConfig := mkPubSub {
  Endpoint : string;
  Topics : list string;
}.

Record DatabaseConfig := mkDatabase {
  URL_ : string;
  MaxConns : Z;
}.

Record RedisConfig := mkRedis {
  Redis_Enabled : bool;
  Redis_Addr : string;
  Redis_Password : string;
  Redis_DB : Z;
  KeyPrefix : string;
  TTL : Z;
  Redis_Timeout : Z;
}.

Record KafkaConfig := mkKafka {
  Kafka_Enabled : bool;
  Brokers : list string;
  Kafka_Topic : string;
  Kafka_ClientID : string;
  ProduceTimeout : Z;
  CreateTopic : bool;
  TopicPartitions : Z;
  TopicReplicationFactor : Z;
}.

Record SinkConfig := mkSink { WebhookURL : string }.

Record HTTPConfig := mkHTTP { HTTP_Addr : string }.

Record WorkerConfig := mkWorker {
  Count : Z;
  FlowBatchSize : Z;
}.

Record Config := mkConfig {
  Salesforce : SalesforceConfig;
  PubSub : PubSubConfig;
  Database : DatabaseConfig;
  Redis : RedisConfig;
  Kafka : KafkaConfig;
  Sink : SinkConfig;
  HTTP : HTTPConfig;
  Worker : WorkerConfig;
  LogLevel : string;
}.

(** ** Validate *)

Section Validate.
Context (url_Parse : string -> result URL).

(** [err != nil || u.Scheme == "" || u.Host == ""] *)
Definition notAbsolute (s : string) : bool :=
  match url_Parse s with
  | Err _ => true
  | Ok u => bool_decide (Scheme u = ""%string) || bool_decide (Host u = ""%string)
  end.

(** One guarded append. *)
Definition when (b : bool) (e : error) : list error := if b then [e] else [].

Definition splitErr (msg : list frag) (addr : string) : list error :=
  match Net.SplitHostPort addr with
  | Err e => [Wrap msg e]
  | Ok _ => []
  end.

Fixpoint emptyTopics (i : Z) (ts : list string) : list error :=
  match ts with
  | [] => []
  | t :: ts' =>
      when (bool_decide (t = ""%string)) (NewErr [Lit "SF_TOPICS["; Dec i; Lit "] is empty"])
      ++ emptyTopics (i + 1) ts'
  end.

Fixpoint badBrokers (i : Z) (bs : list string) : list error :=
  match bs with
  | [] => []
  | b :: bs' => splitErr [Lit "KAFKA_BROKERS["; Dec i; Lit "] must be host:port"] b ++ badBrokers (i + 1) bs'
  end.

Definition redisErrs (r : RedisConfig) : list error :=
  if Redis_Enabled r then
    (if bool_decide (Redis_Addr r = ""%string)
     then [NewErr [Lit "REDIS_ADDR must be set when REDIS_ENABLED is true"]]
     else splitErr [Lit "REDIS_ADDR must be host:port"] (Redis_Addr r))
    ++ when (TTL r <=? 0) (NewErr [Lit "REDIS_TTL must be > 0, got "; Dur (TTL r)])
    ++ when (Redis_Timeout r <=? 0) (NewErr [Lit "REDIS_TIMEOUT must be > 0, got "; Dur (Redis_Timeout r)])
  else [].

Definition kafkaErrs (k : KafkaConfig) : list error :=
  if Kafka_Enabled k then
    when (bool_decide (Brokers k = [])) (NewErr [Lit "KAFKA_BROKERS must be set when KAFKA_ENABLED is true"])
    ++ badBrokers 0 (Brokers k)
    ++ when (bool_decide (Kafka_Topic k = ""%string))
         (NewErr [Lit "KAFKA_TOPIC must not be empty when KAFKA_ENABLED is true"])
    ++ when (ProduceTimeout k <=? 0)
         (NewErr [Lit "KAFKA_PRODUCE_TIMEOUT must be > 0, got "; Dur (ProduceTimeout k)])
    ++ (if CreateTopic k then
          when (TopicPartitions k <? 1)
            (NewErr [Lit "KAFKA_TOPIC_PARTITIONS must be >= 1, got "; Dec (TopicPartitions k)])
          ++ when (TopicReplicationFactor k <? 1)
            (NewErr [Lit "KAFKA_TOPIC_REPLICATION_FACTOR must be >= 1, got "; Dec (TopicReplicationFactor k)])
        else [])
  else [].

(** The errors, in the order they are appended. *)
Definition validateErrs (c : Config) : list error :=
  when (Count (Worker c) <? 1) (NewErr [Lit "WORKER_COUNT must be >= 1, got "; Dec (Count (Worker c))])
  ++ when (FlowBatchSize (Worker c) <? 1)
       (NewErr [Lit "FLOW_BATCH_SIZE must be >= 1, got "; Dec (FlowBatchSize (Worker c))])
  ++ when ((MaxConns (Database c) <? 1) || (MaxConns (Database c) >? 1000))
       (NewErr [Lit "DATABASE_MAX_CONNS must be in 1..1000, got "; Dec (MaxConns (Database c))])
  ++ when (bool_decide (Topics (PubSub c) = [])) (NewErr [Lit "SF_TOPICS must contain at least one topic"])
  ++ emptyTopics 0 (Topics (PubSub c))
  ++ splitErr [Lit "PUBSUB_ENDPOINT must be host:port"] (Endpoint (PubSub c))
  ++ when (notAbsolute (LoginURL (Salesforce c)))
       (NewErr [Lit "SF_LOGIN_URL is not a valid absolute URL: "; Quoted (LoginURL (Salesforce c))])
  ++ redisErrs (Redis c)
  ++ kafkaErrs (Kafka c)
  ++ (if bool_decide (WebhookURL (Sink c) = ""%string) then []
      else when (notAbsolute (WebhookURL (Sink c)))
        (NewErr [Lit "SINK_WEBHOOK_URL is not a valid absolute URL: "; Quoted (WebhookURL (Sink c))])).

(** [errors.Join] is nil when there is nothing to join. *)
Definition errors_Join (es : list error) : option error :=
  match es with [] => None | _ => Some (Join es) end.

Definition Validate (c : Config) : option error := errors_Join (validateErrs c).

(** [Load]; [parsed] is what [env.Parse] made of the environment. *)
Definition Load (parsed : result Config) : result Config :=
  match parsed with
  | Err err => Err (Wrap [Lit "parse env"] err)
  | Ok cfg =>
      match Validate cfg with
      | Some err => Err (Wrap [Lit "validate config"] err)
      | None => Ok cfg
      end
  end.

(** ** What a valid configuration is *)

Definition isHostPort (s : string) : Prop := is_Ok (Net.SplitHostPort s) = true.

Definition isAbsolute (s : string) : Prop :=
  exists u, url_Parse s = Ok u /\ Scheme u <> ""%string /\ Host u <> ""%string.

Record redisValid (r : RedisConfig) : Prop := {
  rv_addr : Redis_Addr r <> ""%string /\ isHostPort (Redis_Addr r);
  rv_ttl : 0 < TTL r;
  rv_timeout : 0 < Redis_Timeout r;
}.

Record kafkaValid (k : KafkaConfig) : Prop := {
  kv_brokers : Brokers k <> [] /\ Forall isHostPort (Brokers k);
  kv_topic : Kafka_Topic k <> ""%string;
  kv_timeout : 0 < ProduceTimeout k;
  kv_create : CreateTopic k = true -> 1 <= TopicPartitions k /\ 1 <= TopicReplicationFactor k;
}.

Record valid (c : Config) : Prop := {
  v_count : 1 <= Count (Worker c);
  v_batch : 1 <= FlowBatchSize (Worker c);
  v_conns : 1 <= MaxConns (Database c) <= 1000;
  v_topics : Topics (PubSub c) <> [] /\ Forall (fun t => t <> ""%string) (Topics (PubSub c));
  v_endpoint : isHostPort (Endpoint (PubSub c));
  v_login : isAbsolute (LoginURL (Salesforce c));
  v_redis : Redis_Enabled (Redis c) = true -> redisValid (Redis c);
  v_kafka : Kafka_Enabled (Kafka c) = true -> kafkaValid (Kafka c);
  v_webhook : WebhookURL (Sink c) <> ""%string -> isAbsolute (WebhookURL (Sink c));
}.

(** ** Lemmas: when each group of checks is silent *)

Lemma when_nil b e : when b e = [] <-> b = false.
Proof. by destruct b. Qed.

Lemma splitErr_nil msg s : splitErr msg s = [] <-> isHostPort s.
Proof. unfold splitErr, isHostPort. by destruct (Net.SplitHostPort s). Qed.

Lemma notAbsolute_false s : notAbsolute s = false <-> isAbsolute s.
Proof.
  unfold notAbsolute, isAbsolute. destruct (url_Parse s) as [u|e]; [|naive_solver].
  rewrite orb_false_iff, !bool_decide_eq_false. naive_solver.
Qed.

Lemma emptyTopics_nil i ts : emptyTopics i ts = [] <-> Forall (fun t => t <> ""%string) ts.
Proof.
  revert i. induction ts as [|t ts IH]; intros i; simpl; [split; constructor|].
  rewrite app_nil, when_nil, IH, Forall_cons, bool_decide_eq_false. done.
Qed.

Lemma badBrokers_nil i bs : badBrokers i bs = [] <-> Forall isHostPort bs.
Proof.
  revert i. induction bs as [|b bs IH]; intros i; simpl; [split; constructor|].
  rewrite app_nil, splitErr_nil, IH, Forall_cons. done.
Qed.

Lemma redisErrs_nil r : redisErrs r = [] <-> (Redis_Enabled r = true -> redisValid r).
Proof.
  unfold redisErrs. destruct (Redis_Enabled r); [|naive_solver].
  rewrite !app_nil, !when_nil, !Z.leb_gt.
  case_bool_decide as Ha; rewrite ?splitErr_nil; split.
  - by intros [? _].
  - intros Hv. by destruct (Hv eq_refl) as [[? _] _ _].
  - intros (? & ? & ?) _. by split.
  - intros Hv. by destruct (Hv eq_refl) as [[_ ?] ? ?].
Qed.

Lemma kafkaErrs_nil k : kafkaErrs k = [] <-> (Kafka_Enabled k = true -> kafkaValid k).
Proof.
  unfold kafkaErrs. destruct (Kafka_Enabled k); [|naive_solver].
  rewrite !app_nil, !when_nil, !bool_decide_eq_false, Z.leb_gt, badBrokers_nil.
  split.
  - intros (Hb & Hh & Ht & Hp & Hc) _. split; [done|done|done|]. intros Hct. rewrite Hct in Hc.
    rewrite app_nil, !when_nil, !Z.ltb_ge in Hc. done.
  - intros Hv. destruct (Hv eq_refl) as [[? ?] ? ? Hc]. do 4 (split; [done|]).
    destruct (CreateTopic k); [|done]. rewrite app_nil, !when_nil, !Z.ltb_ge. auto.
Qed.

Lemma validateErrs_nil c : validateErrs c = [] <-> valid c.
Proof.
  unfold validateErrs.
  rewrite !app_nil, !when_nil, emptyTopics_nil, splitErr_nil, notAbsolute_false, redisErrs_nil, kafkaErrs_nil.
  rewrite orb_false_iff, bool_decide_eq_false, Z.gtb_ltb, !Z.ltb_ge.
  assert ((if bool_decide (WebhookURL (Sink c) = ""%string) then []
      else when (notAbsolute (WebhookURL (Sink c)))
        (NewErr [Lit "SINK_WEBHOOK_URL is not a valid absolute URL: "; Quoted (WebhookURL (Sink c))])) = [] <->
      (WebhookURL (Sink c) <> ""%string -> isAbsolute (WebhookURL (Sink c)))) as Hw.
  { case_bool_decide; [naive_solver|]. rewrite when_nil, notAbsolute_false. naive_solver. }
  rewrite Hw. split.
  - intros (? & ? & [? ?] & ? & ? & ? & ? & ? & ? & ?). by split.
  - intros [? ? [? ?] [? ?] ? ? ? ? ?]. tauto.
Qed.

(** ** Properties *)

Lemma Load_cases parsed cfg : Load parsed = Ok cfg <-> parsed = Ok cfg /\ validateErrs cfg = [].
Proof.
  unfold Load, Validate. destruct parsed as [c|e]; [|split; [done | by intros [? _]]].
  destruct (validateErrs c) as [|e es] eqn:E; simpl; (split; [intros ?|intros [? Hv]]); simplify_eq; done || congruence.
Qed.

(** C37. [Load] returns a configuration exactly when the environment parses and
    every documented constraint holds: it never lets an invalid one through, and
    never refuses a valid one. *)
Theorem load_iff_valid parsed cfg :
  Load parsed = Ok cfg <-> parsed = Ok cfg /\ valid cfg.
Proof. by rewrite Load_cases, validateErrs_nil. Qed.

End Validate.

(** An example configuration, with every sink enabled. *)
Definition demoParse (s : string) : result URL := Ok (mkURL "https" "login.salesforce.com" "").

Definition demoConfig (ts : list string) : Config :=
  mkConfig (mkSalesforce "id" "secret" "https://login.salesforce.com")
    (mkPubSub "api.pubsub.salesforce.com:7443" ts)
    (mkDatabase "postgres://localhost/db" 20)
    (mkRedis true "redis:6379" "" 0 "pubsub:seen:" (24 * Hour) (500 * Millisecond))
    (mkKafka true ["kafka-1:9092"; "[::1]:9092"] "salesforce.events" "pubsub-event-processor"
       (30 * Second) true 3 1)
    (mkSink "") (mkHTTP ":8080") (mkWorker 8 100) "info".

(** Examples of the address syntax. *)
Example split_ok : Net.SplitHostPort "kafka:9092" =
  Ok (String.list_ascii_of_string "kafka", String.list_ascii_of_string "9092").
Proof. reflexivity. Qed.
Example split_ipv6 : Net.SplitHostPort "[::1]:80" =
  Ok (String.list_ascii_of_string "::1", String.list_ascii_of_string "80").
Proof. reflexivity. Qed.
Example split_colons : is_Ok (Net.SplitHostPort "::1:80") = false.
Proof. reflexivity. Qed.
Example split_no_port : is_Ok (Net.SplitHostPort "kafka") = false.
Proof. reflexivity. Qed.

End Config.
