(* ===== verification/Auth.v ===== *)
(** * Salesforce credentials

    Model of src/internal/auth/oauth.go (the cached OAuth token) and of
    src/internal/pubsub/credentials.go (the metadata sent with every RPC). The HTTP
    client, the JSON decoder and [url.Parse] are parameters (Url.v and Exchange.v write
    the last two out); the string functions used are written out. Times and durations are nanoseconds. *)

From S2P Require Import Prelude Config.
From Stdlib Require Import Ascii.

Module Auth.

(** ** Strings, as lists of characters *)

Definition slash : ascii := "/"%char.

(** [strings.TrimLeft] and [strings.TrimRight] with the cutset "/". *)
Fixpoint trimLeft (s : list ascii) : list ascii :=
  match s with
  | c :: s' => if Ascii.eqb c slash then trimLeft s' else s
  | [] => []
  end.

Definition trimRight (s : list ascii) : list ascii := reverse (trimLeft (reverse s)).
Definition trim (s : list ascii) : list ascii := trimRight (trimLeft s).

(** [strings.Split] on "/". *)
Fixpoint split (s : list ascii) : list (list ascii) :=
  match s with
  | [] => [[]]
  | c :: s' =>
      if Ascii.eqb c slash then [] :: split s'
      else match split s' with
           | part :: parts => (c :: part) :: parts
           | [] => [[c]]
           end
  end.

Definition chars (s : string) : list ascii := String.list_ascii_of_string s.
Definition str (l : list ascii) : string := String.string_of_list_ascii l.

(** ** Provider *)

Record Credentials := mkCredentials {
  AccessToken : string;
  InstanceURL : string;
  TenantID : string;
}.

Definition defaultRefreshAhead : Z := 60 * Second.
Definition defaultTTL_ : Z := Hour.
Definition tokenEndpointPath : string := "/services/oauth2/token".

Record Provider := mkProvider {
  cfg : Config.SalesforceConfig;
  refreshAhead : Z;
  defaultTTL : Z;
  cached : option Credentials;
  expiresAt : Z;
  refreshTotal : CounterVec;
}.

Definition New (c : Config.SalesforceConfig) : Provider :=
  mkProvider c defaultRefreshAhead defaultTTL_ None 0 ∅.

Record tokenResponse := mkTokenResponse {
  tr_AccessToken : string;
  tr_InstanceURL : string;
  tr_ID : string;
  tr_TokenType : string;
  tr_IssuedAt : string;
  tr_ExpiresIn : Z;
}.

(** How the HTTP exchange of [fetchToken] ended. *)
Inductive exchange :=
| BuildFailed (e : error)
| PostFailed (e : error)
| ReadFailed (e : error)
| Responded (code : Z) (body : list Byte.byte).

(** [time.Until] saturates at the ends of the duration range. *)
Definition Until (t now : Z) : Z := Z.max (- 2 ^ 63) (Z.min (t - now) (2 ^ 63 - 1)).

(** [tenantIDFromIdentityURL] *)
Definition tenantIDFromIdentityURL (url_Parse : string -> result Config.URL) (s : string) : result string :=
  if bool_decide (s = ""%string) then Err (NewErr [Lit "identity URL is empty"])
  else
    match url_Parse s with
    | Err err => Err err
    | Ok u =>
        let bad := Err (NewErr [Lit "unexpected identity path: "; Quoted (Config.Path u)]) in
        match split (trim (chars (Config.Path u))) with
        | p0 :: p1 :: _ =>
            if bool_decide (p0 = chars "id") then
              if bool_decide (p1 = []) then Err (NewErr [Lit "empty org id segment"]) else Ok (str p1)
            else bad
        | _ => bad
        end
    end.

(** ** The tenant ID *)

Section Tenant.
Context (url_Parse : string -> result Config.URL).

Lemma trimLeft_no_slash c s : c <> slash -> trimLeft (c :: s) = c :: s.
Proof. intros Hc. simpl. by rewrite (proj2 (Ascii.eqb_neq c slash)). Qed.

Lemma split_app s rest : slash ∉ s -> split (s ++ slash :: rest) = s :: split rest.
Proof.
  induction s as [|c s IH]; intros Hs; [done|]. simpl. apply not_elem_of_cons in Hs as [Hc Hs].
  rewrite (proj2 (Ascii.eqb_neq c slash)), IH by done. done.
Qed.

(** Parts of a split hold no separator. *)
Lemma split_parts s : Forall (fun p => slash ∉ p) (split s).
Proof.
  induction s as [|c s IH]; simpl; [repeat constructor; set_solver|].
  destruct (Ascii.eqb c slash) eqn:E; [constructor; [set_solver|done]|].
  apply Ascii.eqb_neq in E. destruct (split s) as [|part parts]; [repeat constructor; set_solver|].
  apply Forall_cons in IH as [Hp Hps]. constructor; [set_solver|done].
Qed.

Lemma trimLeft_rev_snoc s c : c <> slash -> trimRight (s ++ [c]) = s ++ [c].
Proof.
  intros Hc. unfold trimRight. rewrite reverse_app. change (reverse [c] ++ reverse s) with (c :: reverse s).
  rewrite trimLeft_no_slash by done. by rewrite reverse_cons, reverse_involutive.
Qed.

Lemma str_empty l : str l = ""%string -> l = [].
Proof. by destruct l. Qed.

Lemma tenantID_sound s id :
  tenantIDFromIdentityURL url_Parse s = Ok id -> id <> ""%string /\ slash ∉ chars id.
Proof.
  unfold tenantIDFromIdentityURL. case_bool_decide; [done|]. destruct (url_Parse s) as [u|]; [|done].
  pose proof (split_parts (trim (chars (Config.Path u)))) as Hp.
  destruct (split _) as [|p0 [|p1 ps]]; try done. do 2 (case_bool_decide; try done).
  intros Hid. injection Hid as <-. split; [intros Hs; by apply str_empty in Hs|].
  unfold chars, str. rewrite String.list_ascii_of_string_of_list_ascii.
  apply Forall_cons in Hp as [_ Hp]. by apply Forall_cons in Hp as [? _].
Qed.

(** The tenant ID of a Salesforce identity URL: from a path
    "/id/ORG/USER" exactly ORG is extracted; and whatever the URL, an extracted ID is
    non-empty and holds no slash. *)
Theorem tenantID_of_identity_path s u org user :
  s <> ""%string -> url_Parse s = Ok u ->
  org <> [] -> slash ∉ org -> user <> [] -> slash ∉ user ->
  chars (Config.Path u) = [slash] ++ chars "id" ++ [slash] ++ org ++ [slash] ++ user ->
  tenantIDFromIdentityURL url_Parse s = Ok (str org) /\
  forall s' id, tenantIDFromIdentityURL url_Parse s' = Ok id -> id <> ""%string /\ slash ∉ chars id.
Proof.
  intros Hs Hu Ho Hso Hus Hsu Hp. split; [|apply tenantID_sound]. unfold tenantIDFromIdentityURL.
  rewrite bool_decide_eq_false_2, Hu, Hp by done.
  destruct (exists_last Hus) as (us & c & ->).
  assert (c <> slash) as Hc by (intros ->; apply Hsu; set_solver).
  assert (trim ([slash] ++ chars "id" ++ [slash] ++ org ++ [slash] ++ us ++ [c])
          = chars "id" ++ slash :: org ++ slash :: (us ++ [c])) as ->.
  { unfold trim. cbn [app]. change (trimLeft (slash :: ?l)) with (trimLeft l).
    change (chars "id" ++ ?l) with ("i"%char :: "d"%char :: l). rewrite trimLeft_no_slash by done.
    rewrite !app_comm_cons, !app_assoc. by apply trimLeft_rev_snoc. }
  rewrite split_app by (vm_compute; set_solver). rewrite split_app by done.
  rewrite bool_decide_eq_true_2, bool_decide_eq_false_2 by done. done.
Qed.

End Tenant.

(** ** The token *)

Section Token.
Context {W : Type}.
(** [post endpoint form] builds the request, performs it and reads the body; [now] is
    the clock. *)
Context (post : string -> list (string * string) -> M W exchange).
Context (json_Unmarshal : list Byte.byte -> result tokenResponse).
Context (url_Parse : string -> result Config.URL).
Context (now : M W Z).

Definition endpoint (p : Provider) : string :=
  (str (trimRight (chars (Config.LoginURL (cfg p)))) +:+ tokenEndpointPath)%string.

Definition form (p : Provider) : list (string * string) :=
  [("grant_type", "client_credentials"); ("client_id", Config.ClientID (cfg p));
   ("client_secret", Config.ClientSecret (cfg p))].

(** What [fetchToken] makes of a decoded response. *)
Definition fromResponse (p : Provider) (tr : tokenResponse) : result (Credentials * Z) :=
  if bool_decide (tr_AccessToken tr = ""%string) then Err (NewErr [Lit "empty access_token in token response"])
  else if bool_decide (tr_InstanceURL tr = ""%string) then Err (NewErr [Lit "empty instance_url in token response"])
  else
    match tenantIDFromIdentityURL url_Parse (tr_ID tr) with
    | Err err => Err (Wrap [Lit "parse identity URL"] err)
    | Ok tenantID =>
        let ttl := if tr_ExpiresIn tr >? 0 then wrapS64 (tr_ExpiresIn tr * Second) else defaultTTL p in
        Ok (mkCredentials (tr_AccessToken tr) (tr_InstanceURL tr) tenantID, ttl)
    end.

Definition fetchToken (p : Provider) : M W (result (Credentials * Z)) :=
  r ← post (endpoint p) (form p);
  match r with
  | BuildFailed err => mret (Err (Wrap [Lit "build request"] err))
  | PostFailed err => mret (Err (Wrap [Lit "post"] err))
  | ReadFailed err => mret (Err (Wrap [Lit "read body"] err))
  | Responded code body =>
      if negb (code =? 200)
      then mret (Err (NewErr [Lit "token endpoint returned "; Dec code; Lit ": ";
                              Lit (String.string_of_list_byte body)]))
      else
        match json_Unmarshal body with
        | Err err => mret (Err (Wrap [Lit "decode response"] err))
        | Ok tr => mret (fromResponse p tr)
        end
  end.

Definition incRefresh (l : string) (p : Provider) : Provider :=
  mkProvider (cfg p) (refreshAhead p) (defaultTTL p) (cached p) (expiresAt p) (Inc [l] (refreshTotal p)).

(** The critical section of [refresh], at time [t]. *)
Definition store (creds : Credentials) (ttl t : Z) (p : Provider) : Provider :=
  mkProvider (cfg p) (refreshAhead p) (defaultTTL p) (Some creds) (t + ttl) (refreshTotal p).

Definition refresh (p : Provider) (w : W) : result Credentials * Provider * W :=
  match fetchToken p w with
  | (Err err, w1) => (Err (Wrap [Lit "refresh token"] err), incRefresh "error" p, w1)
  | (Ok (creds, ttl), w1) =>
      let '(t, w2) := now w1 in
      (Ok creds, incRefresh "success" (store creds ttl t p), w2)
  end.

(** The first critical section of [Token], at time [t]: the cached credentials, if fresh. *)
Definition fresh (p : Provider) (t : Z) : option Credentials :=
  match cached p with
  | Some c => if Until (expiresAt p) t >? refreshAhead p then Some c else None
  | None => None
  end.

(** [Token] of a caller that runs alone; concurrent callers are in AuthShared.v. *)
Definition Token (p : Provider) (w : W) : result Credentials * Provider * W :=
  let '(t, w1) := now w in
  match fresh p t with
  | Some c => (Ok c, p, w1)
  | None => refresh p w1
  end.

(** The gauge [auth_token_expiry_seconds], in nanoseconds. *)
Definition expiryGauge (p : Provider) (t : Z) : Z :=
  match cached p with
  | None => 0
  | Some _ => Z.max 0 (Until (expiresAt p) t)
  end.

(** ** Per-RPC credentials *)

Definition mdAccessToken : string := "accesstoken".
Definition mdInstanceURL : string := "instanceurl".
Definition mdTenantID : string := "tenantid".

Definition GetRequestMetadata (p : Provider) (w : W) : result (list (string * string)) * Provider * W :=
  match Token p w with
  | (Err err, p', w') => (Err (Wrap [Lit "get token"] err), p', w')
  | (Ok c, p', w') =>
      (Ok [(mdAccessToken, AccessToken c); (mdInstanceURL, InstanceURL c); (mdTenantID, TenantID c)], p', w')
  end.

(** ** Lemmas *)

Definition wellFormed (c : Credentials) : Prop :=
  AccessToken c <> ""%string /\ InstanceURL c <> ""%string /\ TenantID c <> ""%string.

Lemma fetchToken_wellFormed p w c ttl w' : fetchToken p w = (Ok (c, ttl), w') -> wellFormed c.
Proof.
  unfold fetchToken. rewrite M_bind_unfold. destruct (post _ _ w) as [[e|e|e|code body] w1]; cbn [fst snd];
    [intros; runM; done..|].
  destruct (negb (code =? 200)); [intros; runM; done|].
  destruct (json_Unmarshal body) as [tr|e]; [|intros; runM; done]. intros Hr. runM. injection Hr as Hr _.
  unfold fromResponse in Hr. do 2 (case_bool_decide; [done|]).
  destruct (tenantIDFromIdentityURL url_Parse (tr_ID tr)) as [id|] eqn:E; [|done]. simplify_eq.
  split; [done|]. split; [done|]. by destruct (tenantID_sound _ _ _ E).
Qed.

(** The cache never holds malformed credentials. *)
Definition provider_ok (p : Provider) : Prop := forall c, cached p = Some c -> wellFormed c.

Lemma refresh_ok p w r p' w' :
  provider_ok p -> refresh p w = (r, p', w') ->
  provider_ok p' /\ (forall c, r = Ok c -> wellFormed c) /\
  (forall e, r = Err e -> cached p' = cached p /\ expiresAt p' = expiresAt p).
Proof.
  intros Hp. unfold refresh. destruct (fetchToken p w) as [[[c ttl]|e] w1] eqn:E.
  - pose proof (fetchToken_wellFormed _ _ _ _ _ E) as Hc. destruct (now w1) as [t w2]. intros. simplify_eq.
    split; [intros x Hx; by simplify_eq/=|]. split; [intros x Hx; by simplify_eq | done].
  - intros. simplify_eq. split; [done|]. split; [done|]. done.
Qed.

Lemma fresh_cached p t c : fresh p t = Some c -> cached p = Some c /\ refreshAhead p < Until (expiresAt p) t.
Proof. unfold fresh. destruct (cached p); [|done]. destruct (_ >? _) eqn:E; [|done]. intros. bools. by simplify_eq. Qed.

Lemma Token_ok p w r p' w' :
  provider_ok p -> Token p w = (r, p', w') -> provider_ok p' /\ (forall c, r = Ok c -> wellFormed c).
Proof.
  intros Hp. unfold Token. destruct (now w) as [t w1].
  destruct (fresh p t) as [c|] eqn:Ec; intros Ht.
  - simplify_eq. split; [done|]. intros c0 Hc0. simplify_eq. apply fresh_cached in Ec as [Ec _]. by apply Hp.
  - by destruct (refresh_ok _ _ _ _ _ Hp Ht) as (? & ? & _).
Qed.

(** A series of calls. *)
Inductive calls : Provider -> W -> list (result Credentials) -> Provider -> W -> Prop :=
| calls_nil p w : calls p w [] p w
| calls_cons p w r p1 w1 rs p2 w2 : Token p w = (r, p1, w1) -> calls p1 w1 rs p2 w2 -> calls p w (r :: rs) p2 w2.

(** ** Properties *)

(** Over any series of calls, whatever the token endpoint answers, every set of
    credentials handed out has a non-empty access token, instance URL and tenant ID:
    a malformed response is an error and never enters the cache. *)
Theorem credentials_always_complete c w rs p' w' creds :
  calls (New c) w rs p' w' -> Ok creds ∈ rs -> wellFormed creds.
Proof.
  assert (provider_ok (New c)) as Hp by done. generalize dependent (New c). intros p Hp Hc Hin.
  induction Hc as [|p w r p1 w1 rs p2 w2 Ht Hc IH]; [by apply elem_of_nil in Hin|].
  destruct (Token_ok _ _ _ _ _ Hp Ht) as [Hp1 Hr].
  apply elem_of_cons in Hin as [<-|Hin]; [by apply Hr | by apply IH].
Qed.

(** After a successful refresh the token is reused without a call to the endpoint
    until [refreshAhead] before it expires, and never after that: a cached token that
    [Token] returns has more than [refreshAhead] left. The lifetime is the response's
    [expires_in] seconds exactly, as long as it fits a duration. *)
Theorem token_reused_until_stale p w creds p1 w1 tr w2 t t' w3 :
  fetchToken p w = (Ok (creds, wrapS64 (tr_ExpiresIn tr * Second)), w2) ->
  0 < tr_ExpiresIn tr <= 9223372036 -> now w2 = (t, w1) -> refresh p w = (Ok creds, p1, w1) ->
  now w3 = (t', w3) -> t <= t' ->
  expiresAt p1 = t + tr_ExpiresIn tr * Second /\
  (t' + refreshAhead p < expiresAt p1 -> Token p1 w3 = (Ok creds, p1, w3)) /\
  (expiresAt p1 <= t' + refreshAhead p -> - 2 ^ 63 <= refreshAhead p -> Token p1 w3 = refresh p1 w3).
Proof.
  intros Hf He Hn Hr Hn3 Htt. unfold refresh in Hr. rewrite Hf, Hn in Hr. simplify_eq. simpl.
  assert (wrapS64 (tr_ExpiresIn tr * Second) = tr_ExpiresIn tr * Second) as Hw.
  { apply wrapS64_id. unfold in_S64, Second, Millisecond. lia. }
  rewrite Hw. split; [done|].
  unfold Token, fresh. rewrite Hn3. simpl. unfold Until. split.
  - intros Hlt. rewrite (proj2 (Z.gtb_gt _ _)); [done|]. unfold Second, Millisecond in *. lia.
  - intros Hge Hra. destruct (_ >? _) eqn:E; [|done]. bools. unfold Second, Millisecond in *. lia.
Qed.


End Token.

(** ** Examples: the world is the clock *)

Module Demo.

Definition post (url : string) (form : list (string * string)) : M Z exchange := fun w => (Responded 200 [], w).
Definition response : tokenResponse :=
  mkTokenResponse "tok" "https://org.my.salesforce.com" "https://login.salesforce.com/id/00Dx/005y" "Bearer" "0" 7200.
Definition unmarshal (b : list Byte.byte) : result tokenResponse := Ok response.
Definition parse (s : string) : result Config.URL := Ok (Config.mkURL "https" "login.salesforce.com" "/id/00Dx/005y").
Definition now : M Z Z := fun w => (w, w).
Definition provider : Provider := New (Config.mkSalesforce "id" "secret" "https://login.salesforce.com/").
Definition creds : Credentials := mkCredentials "tok" "https://org.my.salesforce.com" "00Dx".
Definition refreshed : Provider := (refresh post unmarshal parse now provider 5).1.2.

End Demo.

Lemma credentials_always_complete_witness : wellFormed Demo.creds.
Proof.
  apply (credentials_always_complete Demo.post Demo.unmarshal Demo.parse Demo.now
    (Config.mkSalesforce "id" "secret" "https://login.salesforce.com/") 5 [Ok Demo.creds] Demo.refreshed 5).
  - eapply calls_cons; [by vm_compute | constructor].
  - constructor.
Defined.

Lemma token_reused_until_stale_witness :
  Token Demo.post Demo.unmarshal Demo.parse Demo.now Demo.refreshed 100 = (Ok Demo.creds, Demo.refreshed, 100).
Proof.
  apply (token_reused_until_stale Demo.post Demo.unmarshal Demo.parse Demo.now Demo.provider 5 Demo.creds
    Demo.refreshed 5 Demo.response 5 5 100 100); try (by vm_compute).
Defined.

Lemma tenantID_of_identity_path_witness :
  tenantIDFromIdentityURL Demo.parse "https://login.salesforce.com/id/00Dx/005y" = Ok (str (chars "00Dx")).
Proof.
  apply (tenantID_of_identity_path Demo.parse "https://login.salesforce.com/id/00Dx/005y"
    (Config.mkURL "https" "login.salesforce.com" "/id/00Dx/005y") (chars "00Dx") (chars "005y"));
    try done; vm_compute; set_solver.
Defined.

End Auth.
