(* ===== verification/AuthShared.v ===== *)
(** * Concurrent callers of the token provider

    [Token] of src/internal/auth/oauth.go under concurrency. A caller checks the cache
    under the mutex; one that finds it stale enters [singleflight], where it starts a
    refresh or joins the one in flight; the refresh runs with the context of the caller
    that started it, stores what it fetched under the mutex, and its result goes to
    every caller that joined. Unlike the schema cache, the refresh does not look at the
    cache again before it calls the token endpoint. *)

From S2P Require Import Prelude Config Auth.

Module AuthShared.
Import Auth.

Section Machine.
Context {W : Type}.
(** [post c] performs the request under the context of caller [c]. *)
Context (post : nat -> string -> list (string * string) -> M W exchange).
Context (json_Unmarshal : list Byte.byte -> result tokenResponse).
Context (url_Parse : string -> result Config.URL).

(** How far the call in flight is: waiting for the endpoint, with its answer, or
    finished and about to be handed out. *)
Inductive phase :=
| Running
| Got (r : result (Credentials * Z))
| Finished (r : result Credentials).

Record Flight := mkFlight { leader : nat; waiters : gset nat; fl_phase : phase }.

(** Where an answer came from: the cache, or the flight with that number. *)
Inductive origin := FromCache | FromFlight (k : nat).

Record Sys := mkSys {
  prov : Provider;
  clock : Z;
  world : W;
  stale : gset nat;
  flight : option Flight;
  answers : gmap nat (result Credentials * origin);
  outcomes : list (result Credentials);
  fetches : nat;
}.

Definition initSys (c : Config.SalesforceConfig) (t : Z) (w : W) : Sys :=
  mkSys (New c) t w ∅ None ∅ [] 0.

(** Every caller of a finished flight gets its result. *)
Definition answerAll (cs : gset nat) (x : result Credentials * origin)
    (a : gmap nat (result Credentials * origin)) : gmap nat (result Credentials * origin) :=
  set_to_map (fun c => (c, x)) cs ∪ a.

Inductive step : relation Sys :=
| step_tick p t w st fl an oc n t' : t <= t' ->
    step (mkSys p t w st fl an oc n) (mkSys p t' w st fl an oc n)
| step_hit p t w st fl an oc n c creds : an !! c = None -> fresh p t = Some creds ->
    step (mkSys p t w st fl an oc n) (mkSys p t w st fl (<[c := (Ok creds, FromCache)]> an) oc n)
| step_stale p t w st fl an oc n c : an !! c = None -> fresh p t = None ->
    step (mkSys p t w st fl an oc n) (mkSys p t w ({[c]} ∪ st) fl an oc n)
| step_lead p t w st an oc n c : c ∈ st ->
    step (mkSys p t w st None an oc n)
         (mkSys p t w (st ∖ {[c]}) (Some (mkFlight c {[c]} Running)) an oc n)
| step_join p t w st an oc n c l ws ph : c ∈ st ->
    step (mkSys p t w st (Some (mkFlight l ws ph)) an oc n)
         (mkSys p t w (st ∖ {[c]}) (Some (mkFlight l ({[c]} ∪ ws) ph)) an oc n)
| step_fetch p t w st an oc n l ws r w' : fetchToken (post l) json_Unmarshal url_Parse p w = (r, w') ->
    step (mkSys p t w st (Some (mkFlight l ws Running)) an oc n)
         (mkSys p t w' st (Some (mkFlight l ws (Got r))) an oc (S n))
| step_fail p t w st an oc n l ws e :
    step (mkSys p t w st (Some (mkFlight l ws (Got (Err e)))) an oc n)
         (mkSys (incRefresh "error" p) t w st
            (Some (mkFlight l ws (Finished (Err (Wrap [Lit "refresh token"] e))))) an oc n)
| step_store p t w st an oc n l ws creds ttl :
    step (mkSys p t w st (Some (mkFlight l ws (Got (Ok (creds, ttl))))) an oc n)
         (mkSys (incRefresh "success" (store creds ttl t p)) t w st
            (Some (mkFlight l ws (Finished (Ok creds)))) an oc n)
| step_deliver p t w st an oc n l ws r :
    step (mkSys p t w st (Some (mkFlight l ws (Finished r))) an oc n)
         (mkSys p t w st None (answerAll ws (r, FromFlight (length oc)) an) (oc ++ [r]) n).

(** ** Invariant *)

(** What the phase of the flight guarantees. *)
Definition phase_ok (p : Provider) (ph : phase) : Prop :=
  match ph with
  | Running => True
  | Got (Ok (c, _)) => wellFormed c
  | Got (Err _) => True
  | Finished (Ok c) => wellFormed c /\ cached p = Some c
  | Finished (Err _) => True
  end.

(** Requests made by the flight so far, and refreshes it has counted. *)
Definition made (fl : option Flight) : nat :=
  match fl with Some (mkFlight _ _ (Got _ | Finished _)) => 1 | _ => 0 end.
Definition counted (fl : option Flight) : nat :=
  match fl with Some (mkFlight _ _ (Finished _)) => 1 | _ => 0 end.

Record inv (s : Sys) : Prop := {
  inv_prov : provider_ok (prov s);
  inv_flight : forall f, flight s = Some f -> phase_ok (prov s) (fl_phase f);
  inv_answers : forall c r k, answers s !! c = Some (r, FromFlight k) -> outcomes s !! k = Some r;
  inv_fetches : fetches s = (length (outcomes s) + made (flight s))%nat;
  inv_counts : count ["success"] (refreshTotal (prov s)) + count ["error"] (refreshTotal (prov s))
               = Z.of_nat (length (outcomes s) + counted (flight s));
}.

Lemma shareAll_lookup cs x a c y : answerAll cs x a !! c = Some y -> y = x \/ a !! c = Some y.
Proof.
  unfold answerAll. rewrite lookup_union_Some_raw. intros [Hl|[_ Hl]]; [left|by right].
  apply lookup_set_to_map in Hl as (z & _ & Hz); [by simplify_eq|]. intros; by simplify_eq.
Qed.

Lemma token_inv_init c t w : inv (initSys c t w).
Proof. split; done. Qed.

Lemma token_inv_step s s' : inv s -> step s s' -> inv s'.
Proof.
  intros [Ip If Ia Ifc Ic] Hs. destruct Hs; simpl in *.
  - by split.
  - split; simpl; try done. intros c' r k. rewrite lookup_insert_Some. intros [[_ ?]|[_ ?]]; [done|]. eauto.
  - by split.
  - split; simpl; try done. intros f Hf. by simplify_eq.
  - split; simpl; try done; [|destruct ph; done..]. intros f Hf. simplify_eq/=. by apply (If (mkFlight l ws ph)).
  - split; simpl; try done; [|lia]. intros f Hf. simplify_eq/=. destruct r as [[c ttl]|]; [|done].
    by eapply fetchToken_wellFormed.
  - split; simpl; try done.
    + intros f Hf. by simplify_eq.
    + rewrite !count_Inc. repeat case_decide; simplify_eq. lia.
  - pose proof (If _ eq_refl) as Hw. simpl in Hw. split; simpl; try done.
    + intros c Hc. by simplify_eq/=.
    + intros f Hf. by simplify_eq.
    + rewrite !count_Inc. repeat case_decide; simplify_eq. lia.
  - split; simpl; try done.
    + intros c r' k [?|Hl]%shareAll_lookup; simplify_eq.
      * by rewrite lookup_app_r, Nat.sub_diag.
      * apply lookup_app_l_Some. eauto.
    + rewrite length_app. simpl. lia.
    + rewrite length_app. simpl. lia.
Qed.

(** A caller that runs alone takes the steps of [Token]. *)
Lemma lone_caller p t w an oc n c r p' w' :
  an !! c = None -> Token (post c) json_Unmarshal url_Parse (fun w => (t, w)) p w = (r, p', w') ->
  exists s', rtc step (mkSys p t w ∅ None an oc n) s' /\ prov s' = p' /\ world s' = w' /\
    flight s' = None /\ exists o, answers s' !! c = Some (r, o).
Proof.
  intros Hc. unfold Token. destruct (fresh p t) as [creds|] eqn:Ef.
  { intros. simplify_eq. eexists. split; [apply rtc_once; by eapply step_hit|]. simpl. split_and!; try done.
    exists FromCache. apply lookup_insert_eq. }
  unfold refresh. destruct (fetchToken (post c) json_Unmarshal url_Parse p w) as [fr w1] eqn:Et. intros Hr.
  assert (forall ph : phase, answerAll ({[c]} : gset nat) (r, FromFlight (length oc)) an !! c
          = Some (r, FromFlight (length oc))) as Ha.
  { intros _. unfold answerAll. apply lookup_union_Some_l, lookup_set_to_map; [intros; by simplify_eq|].
    exists c. split; [set_solver|done]. }
  destruct fr as [[creds ttl]|err]; simplify_eq; eexists;
    (split; [eapply rtc_l; [by eapply (step_stale _ _ _ _ _ _ _ _ c)|]; eapply rtc_l; [apply (step_lead _ _ _ _ _ _ _ c); set_solver|];
      eapply rtc_l; [by eapply step_fetch|]; eapply rtc_l; [constructor|]; eapply rtc_l; [constructor|]; constructor
    |]); simpl; split_and!; try done; eexists; apply (Ha Running).
Qed.

End Machine.

(** ** Properties *)

(** C25. Callers of [Token] that run concurrently, however they interleave: a refresh
    makes exactly one request to the endpoint and hands one result to all the callers
    that share it; every set of credentials handed out is complete and is, at the
    moment it is handed out, what the cache holds; those taken from the cache have more
    than [refreshAhead] left; and every finished refresh is counted once. *)
Theorem refresh_shared {W} post unmarshal parse c t0 (w0 : W) s s' :
  rtc (step post unmarshal parse) (initSys c t0 w0) s -> step post unmarshal parse s s' ->
  (length (outcomes s') <= fetches s' <= S (length (outcomes s')))%nat /\
  (flight s' = None -> fetches s' = length (outcomes s')) /\
  (forall a b r1 r2 k, answers s' !! a = Some (r1, FromFlight k) -> answers s' !! b = Some (r2, FromFlight k) -> r1 = r2) /\
  (forall a creds o, answers s !! a = None -> answers s' !! a = Some (Ok creds, o) ->
     wellFormed creds /\ cached (prov s') = Some creds /\
     (o = FromCache -> refreshAhead (prov s') < Until (expiresAt (prov s')) (clock s'))) /\
  (flight s' = None -> count ["success"] (refreshTotal (prov s')) + count ["error"] (refreshTotal (prov s'))
                       = Z.of_nat (fetches s')).
Proof.
  intros Hr Hs.
  pose proof (rtc_invariant _ inv _ _ (token_inv_step post unmarshal parse) (token_inv_init c t0 w0) Hr) as Hi.
  pose proof (token_inv_step post unmarshal parse _ _ Hi Hs) as [_ _ Ia If Ic].
  split; [rewrite If; destruct (flight s') as [[? ? []]|]; simpl; lia|].
  split; [intros Hf; rewrite If, Hf; simpl; lia|].
  split; [intros a b r1 r2 k H1%Ia H2%Ia; congruence|].
  split; [|intros Hf; rewrite Ic, If, Hf; simpl; lia].
  clear Ia If Ic. destruct Hi as [Ip Ifl _ _ _]. intros a creds o Hn Ha.
  destruct Hs; simpl in *; try congruence.
  - apply lookup_insert_Some in Ha as [[_ ?]|[_ ?]]; simplify_eq.
    destruct (fresh_cached _ _ _ H0) as [Hc Hu]. split; [by apply Ip|]. done.
  - apply shareAll_lookup in Ha as [?|?]; simplify_eq. by destruct (Ifl _ eq_refl).
Qed.

(** ** Examples: the world is unit, and the context of caller 1 is canceled *)

Definition demoPost (c : nat) (url : string) (form : list (string * string)) : M unit exchange :=
  fun w => (if decide (c = 1%nat) then PostFailed ctxCanceled else Responded 200 [], w).

Abbreviation demoStep := (step demoPost Demo.unmarshal Demo.parse).
Definition demoCfg : Config.SalesforceConfig := cfg Demo.provider.

(** Callers [a] and [b] find no token; [a] starts the refresh and [b] joins it, which
    brings the flight to its end with the result [r]. *)
Definition demoBefore (a b : nat) (r : result Credentials) (p : Provider) : Sys :=
  mkSys p 5 tt ((({[b]} ∪ ({[a]} ∪ ∅)) ∖ {[a]}) ∖ {[b]}) (Some (mkFlight a ({[b]} ∪ {[a]}) (Finished r))) ∅ [] 1.

Lemma demo_reach a b fr w' :
  fetchToken (demoPost a) Demo.unmarshal Demo.parse (New demoCfg) tt = (fr, w') -> a <> b ->
  rtc demoStep (initSys demoCfg 5 tt)
    (match fr with
     | Ok (creds, ttl) => demoBefore a b (Ok creds) (incRefresh "success" (store creds ttl 5 (New demoCfg)))
     | Err e => demoBefore a b (Err (Wrap [Lit "refresh token"] e)) (incRefresh "error" (New demoCfg))
     end).
Proof.
  intros Hf Hab. destruct w'.
  eapply rtc_l; [by apply (step_stale _ _ _ _ _ _ _ _ _ _ _ a)|].
  eapply rtc_l; [by apply (step_stale _ _ _ _ _ _ _ _ _ _ _ b)|].
  eapply rtc_l; [apply (step_lead _ _ _ _ _ _ _ _ _ _ a); set_solver|].
  eapply rtc_l; [apply (step_join _ _ _ _ _ _ _ _ _ _ b); set_solver|].
  eapply rtc_l; [by eapply step_fetch|].
  destruct fr as [[creds ttl]|e]; apply rtc_once; constructor.
Qed.

(** Callers 2 and 3 share one request. *)
Lemma refresh_shared_witness :
  let s := demoBefore 2 3 (Ok Demo.creds)
             (incRefresh "success" (store Demo.creds (7200 * Second) 5 (New demoCfg))) in
  let s' := mkSys (prov s) 5 tt (stale s) None
              (answerAll (waiters (mkFlight 2 ({[3%nat]} ∪ {[2%nat]}) Running)) (Ok Demo.creds, FromFlight 0) ∅)
              [Ok Demo.creds] 1 in
  answers s' !! 3%nat = Some (Ok Demo.creds, FromFlight 0) /\ cached (prov s') = Some Demo.creds.
Proof.
  intros s s'. assert (answers s' !! 3%nat = Some (Ok Demo.creds, FromFlight 0)) as H3 by by vm_compute.
  split; [exact H3|].
  refine (proj1 (proj2 (proj1 (proj2 (proj2 (proj2
    (refresh_shared demoPost Demo.unmarshal Demo.parse demoCfg 5 tt s s' _ _)))) 3%nat Demo.creds _ _ H3))).
  - apply (demo_reach 2 3 (Ok (Demo.creds, 7200 * Second)) tt); [by vm_compute|done].
  - apply step_deliver.
  - done.
Defined.

(** The refresh runs under the context of the caller that started it: when that context
    is canceled, a caller that joined fails with it, though its own is alive. *)
Lemma canceled_leader_fails_joiner :
  exists s r, rtc demoStep (initSys demoCfg 5 tt) s /\ answers s !! 2%nat = Some (Err r, FromFlight 0) /\
    errors_Is r "context.Canceled" = true.
Proof.
  eexists _, _. split.
  - eapply rtc_r; [eapply (demo_reach 1 2); [by vm_compute|done]|]. simpl. apply step_deliver.
  - split; by vm_compute.
Qed.

End AuthShared.
