(* ===== verification/Url.v ===== *)
(** * URLs and forms

    [url.Parse], [url.Values.Encode] and their inverse, as far as the service uses them:
    src/internal/config/config.go reads the scheme and the host of a URL,
    src/internal/auth/oauth.go its path, and posts a form. Written out for the Go
    release of src/go.mod, except hosts that hold a bracket or several colons, which are
    a parameter. *)

From S2P Require Import Prelude Config Auth.
From stdpp Require Import sorting.
From Stdlib Require Import Ascii.

Module Url.
Export Auth.

Abbreviation text := (list ascii).

(** ** Characters *)

Definition code (c : ascii) : nat := nat_of_ascii c.
Definition between (lo hi c : ascii) : bool := (code lo <=? code c)%nat && (code c <=? code hi)%nat.
Definition isAlpha (c : ascii) : bool := between "a" "z" c || between "A" "Z" c.
Definition isDigit (c : ascii) : bool := between "0" "9" c.
Definition oneOf (l : string) (c : ascii) : bool := bool_decide (c ∈ chars l).

(** RFC 3986 unreserved characters: no mode escapes them. *)
Definition unreserved (c : ascii) : bool := isAlpha c || isDigit c || oneOf "-_.~" c.

(** [stringContainsCTLByte] *)
Definition isCTL (c : ascii) : bool := (code c <? 32)%nat || (code c =? 127)%nat.

(** Not escaped in a host; the quote, 34, is the last. *)
Definition hostChar (c : ascii) : bool :=
  unreserved c || oneOf "!$&'()*+,;=:[]<>" c || (code c =? 34)%nat.

Definition unhex (c : ascii) : option nat :=
  if isDigit c then Some (code c - 48)%nat
  else if between "a" "f" c then Some (code c - 87)%nat
  else if between "A" "F" c then Some (code c - 55)%nat
  else None.

Definition toLower (c : ascii) : ascii := if between "A" "Z" c then ascii_of_nat (code c + 32) else c.

(** ** Cutting *)

(** [strings.Cut]: the text before and after the first [c]. *)
Fixpoint cut (c : ascii) (s : text) : text * text :=
  match s with
  | [] => ([], [])
  | x :: s' => if Ascii.eqb x c then ([], s') else let '(a, b) := cut c s' in (x :: a, b)
  end.

(** The same, with the separator kept in front of the rest. *)
Fixpoint cutBefore (c : ascii) (s : text) : text * text :=
  match s with
  | [] => ([], [])
  | x :: s' => if Ascii.eqb x c then ([], s) else let '(a, b) := cutBefore c s' in (x :: a, b)
  end.

(** ** unescape: [host] is the mode [encodeHost], the other modes differ only for "+" in a query *)

Definition escapeError (s : text) : error := NewErr [Lit "invalid URL escape "; Quoted (str (take 3 s))].
Definition hostError (c : ascii) : error := NewErr [Lit "invalid character "; Quoted (str [c]); Lit " in host name"].

Definition consOk (c : ascii) (r : result text) : result text :=
  match r with Ok l => Ok (c :: l) | Err e => Err e end.

Fixpoint unescape (host : bool) (s : text) : result text :=
  match s with
  | [] => Ok []
  | c :: s' =>
      if Ascii.eqb c "%"%char then
        match s' with
        | h :: l :: s'' =>
            match unhex h, unhex l with
            | Some a, Some b =>
                if host && (a <? 8)%nat && negb (bool_decide ([h; l] = chars "25"))
                then Err (escapeError s)
                else consOk (ascii_of_nat (16 * a + b)) (unescape host s'')
            | _, _ => Err (escapeError s)
            end
        | _ => Err (escapeError s)
        end
      else if host && (code c <? 128)%nat && negb (hostChar c) then Err (hostError c)
      else consOk c (unescape host s')
  end.

(** ** getScheme *)

Inductive schemeScan := NoScheme | MissingScheme | Scheme (scheme rest : text).

Fixpoint scanScheme (first : bool) (s : text) : schemeScan :=
  match s with
  | [] => NoScheme
  | c :: s' =>
      let more := match scanScheme false s' with
                  | Scheme a b => Scheme (c :: a) b
                  | other => other
                  end in
      if isAlpha c then more
      else if isDigit c || oneOf "+-." c then if first then NoScheme else more
      else if Ascii.eqb c ":"%char then if first then MissingScheme else Scheme [] s'
      else NoScheme
  end.

Definition getScheme (s : text) : result (text * text) :=
  match scanScheme true s with
  | NoScheme => Ok ([], s)
  | MissingScheme => Err (NewErr [Lit "missing protocol scheme"])
  | Scheme a b => Ok (a, b)
  end.

(** ** The authority *)

Definition validOptionalPort (s : text) : bool :=
  match s with
  | [] => true
  | c :: s' => Ascii.eqb c ":"%char && forallb isDigit s'
  end.

Definition validUserinfo (s : text) : bool :=
  forallb (fun c => isAlpha c || isDigit c || oneOf "-._:~!$&'()*+,;=%@" c) s.

Section Parse.
(** [otherHost scheme host]: a host with a bracket or with several colons. *)
Context (otherHost : text -> text -> result text).

Definition parseHost (scheme host : text) : result text :=
  match Net.IndexByte host "["%char with
  | Some _ => otherHost scheme host
  | None =>
      match Net.IndexByte host ":"%char with
      | None => unescape true host
      | Some i =>
          if bool_decide (Net.LastIndexByte host ":"%char = Some i) then
            if validOptionalPort (drop i host) then unescape true host
            else Err (NewErr [Lit "invalid port "; Quoted (str (drop i host)); Lit " after host"])
          else otherHost scheme host
      end
  end.

(** [parseAuthority]; the service does not read the user. *)
Definition parseAuthority (scheme authority : text) : result text :=
  match Net.LastIndexByte authority "@"%char with
  | None => parseHost scheme authority
  | Some i =>
      match parseHost scheme (drop (S i) authority) with
      | Err e => Err e
      | Ok host =>
          let userinfo := take i authority in
          if validUserinfo userinfo then
            let '(user, password) := cut ":" userinfo in
            match unescape false user with
            | Err e => Err e
            | Ok _ =>
                match unescape false password with
                | Err e => Err e
                | Ok _ => Ok host
                end
            end
          else Err (NewErr [Lit "net/url: invalid userinfo"])
      end
  end.

Definition hasPrefix (p s : text) : bool := bool_decide (take (length p) s = p).

(** From the authority on: "//" introduces one after a scheme, and without a scheme
    unless a third slash follows. *)
Definition parseRest (scheme rest : text) : result Config.URL :=
  let finish host path :=
    match unescape false path with
    | Err e => Err e
    | Ok p => Ok (Config.mkURL (str scheme) (str host) (str p))
    end in
  if (negb (bool_decide (scheme = [])) || negb (hasPrefix (chars "///") rest)) && hasPrefix (chars "//") rest then
    let '(authority, path) := cutBefore slash (drop 2 rest) in
    match parseAuthority scheme authority with
    | Err e => Err e
    | Ok host => finish host path
    end
  else finish [] rest.

Definition parse (raw : text) : result Config.URL :=
  if existsb isCTL raw then Err (NewErr [Lit "net/url: invalid control character in URL"])
  else if bool_decide (raw = chars "*") then Ok (Config.mkURL "" "" "*")
  else
    match getScheme raw with
    | Err e => Err e
    | Ok (scheme0, rest0) =>
        let scheme := toLower <$> scheme0 in
        let rest := (cut "?" rest0).1 in
        if hasPrefix [slash] rest then parseRest scheme rest
        else if negb (bool_decide (scheme = [])) then Ok (Config.mkURL (str scheme) "" "")
        else if existsb (Ascii.eqb ":"%char) (cut slash rest).1
        then Err (NewErr [Lit "first path segment in URL cannot contain colon"])
        else parseRest scheme rest
    end.

(** [url.Parse] *)
Definition Parse (raw : string) : result Config.URL :=
  let '(u, frag) := cut "#" (chars raw) in
  match parse u with
  | Err e => Err (Wrap [Lit "parse "; Quoted (str u)] e)
  | Ok url =>
      match unescape false frag with
      | Err e => Err (Wrap [Lit "parse "; Quoted raw] e)
      | Ok _ => Ok url
      end
  end.

End Parse.

(** ** url.Values.Encode *)

Definition upperHex (n : nat) : ascii := ascii_of_nat (if (n <? 10)%nat then 48 + n else 55 + n).

(** [url.QueryEscape] *)
Definition escapeByte (c : ascii) : text :=
  if unreserved c then [c]
  else if Ascii.eqb c " "%char then ["+"%char]
  else ["%"%char; upperHex (code c / 16); upperHex (code c mod 16)].

Definition QueryEscape (s : string) : text := chars s ≫= escapeByte.

(** Keys are written in order; each has one value here. *)
Definition pairLe (x y : string * string) : Prop := String.leb x.1 y.1 = true.
#[global] Instance pairLe_dec x y : Decision (pairLe x y).
Proof. unfold pairLe. apply _. Defined.

Fixpoint joinAmp (l : list text) : text :=
  match l with
  | [] => []
  | [x] => x
  | x :: l' => x ++ "&"%char :: joinAmp l'
  end.

Definition Encode (form : list (string * string)) : text :=
  joinAmp ((fun '(k, v) => QueryEscape k ++ "="%char :: QueryEscape v) <$> merge_sort pairLe form).

(** ** Reading a form back, as the token endpoint does *)

Definition queryUnescape (s : text) : result string :=
  match unescape false ((fun c => if Ascii.eqb c "+"%char then " "%char else c) <$> s) with
  | Ok l => Ok (str l)
  | Err e => Err e
  end.

Fixpoint splitAmp (s : text) : list text :=
  match s with
  | [] => [[]]
  | c :: s' =>
      if Ascii.eqb c "&"%char then [] :: splitAmp s'
      else match splitAmp s' with
           | part :: parts => (c :: part) :: parts
           | [] => [[c]]
           end
  end.

Definition readPair (s : text) : result (string * string) :=
  let '(k, v) := cut "=" s in
  match queryUnescape k, queryUnescape v with
  | Ok k, Ok v => Ok (k, v)
  | Err e, _ | _, Err e => Err e
  end.

Definition parseForm (s : text) : list (result (string * string)) := readPair <$> splitAmp s.

(** ** Cutting at a separator that is not in the text *)

Lemma cut_app c a b : c ∉ a -> cut c (a ++ c :: b) = (a, b).
Proof.
  induction a as [|x a IH]; intros Ha; simpl; [by rewrite Ascii.eqb_refl|].
  apply not_elem_of_cons in Ha as [Hx Ha]. rewrite (proj2 (Ascii.eqb_neq x c)) by done. by rewrite IH.
Qed.

Lemma cut_none c a : c ∉ a -> cut c a = (a, []).
Proof.
  induction a as [|x a IH]; intros Ha; simpl; [done|].
  apply not_elem_of_cons in Ha as [Hx Ha]. rewrite (proj2 (Ascii.eqb_neq x c)) by done. by rewrite IH.
Qed.

Lemma cutBefore_app c a b : c ∉ a -> cutBefore c (a ++ c :: b) = (a, c :: b).
Proof.
  induction a as [|x a IH]; intros Ha; simpl; [by rewrite Ascii.eqb_refl|].
  apply not_elem_of_cons in Ha as [Hx Ha]. rewrite (proj2 (Ascii.eqb_neq x c)) by done. by rewrite IH.
Qed.

Lemma cut_prefix c s : (cut c s).1 `prefix_of` s.
Proof.
  induction s as [|x s IH]; simpl; [done|]. destruct (Ascii.eqb x c); [apply prefix_nil|].
  destruct (cut c s). by apply prefix_cons.
Qed.

Lemma IndexByte_none c s : c ∉ s -> Net.IndexByte s c = None.
Proof.
  induction s as [|x s IH]; intros Hs; simpl; [done|]. apply not_elem_of_cons in Hs as [Hx Hs].
  by rewrite (proj2 (Ascii.eqb_neq x c)), IH.
Qed.

Lemma IndexByte_app c a b : c ∉ a -> Net.IndexByte (a ++ c :: b) c = Some (length a).
Proof.
  induction a as [|x a IH]; intros Ha; simpl; [by rewrite Ascii.eqb_refl|].
  apply not_elem_of_cons in Ha as [Hx Ha]. by rewrite (proj2 (Ascii.eqb_neq x c)), IH.
Qed.

Lemma LastIndexByte_none c s : c ∉ s -> Net.LastIndexByte s c = None.
Proof.
  induction s as [|x s IH]; intros Hs; simpl; [done|]. apply not_elem_of_cons in Hs as [Hx Hs].
  by rewrite IH, (proj2 (Ascii.eqb_neq x c)).
Qed.

Lemma LastIndexByte_app c a b : c ∉ b -> Net.LastIndexByte (a ++ c :: b) c = Some (length a).
Proof.
  induction a as [|x a IH]; intros Hb; simpl; [by rewrite LastIndexByte_none, Ascii.eqb_refl|]. by rewrite IH.
Qed.

(** ** Plain text: what a host, an identifier or a path is made of in practice *)

(** A fact about every character, checked on the 256 of them. *)
Definition allChars : list ascii := ascii_of_nat <$> seq 0 256.

Lemma char_check (f : ascii -> bool) : forallb f allChars = true -> forall c, f c = true.
Proof.
  intros Hf c. rewrite forallb_forall in Hf. apply Hf. rewrite <- list_elem_of_In.
  apply list_elem_of_fmap. exists (nat_of_ascii c). split; [by rewrite ascii_nat_embedding|].
  apply elem_of_seq. pose proof (nat_ascii_bounded c). lia.
Qed.

Definition plain (c : ascii) : bool := unreserved c.
Definition pathChar (c : ascii) : bool := plain c || Ascii.eqb c slash.

(** From a check on every character to what it says of one. *)
Ltac by_char c f := generalize (char_check f ltac:(by vm_compute) c); cbv beta; intros ?H;
  repeat match goal with
  | H : implb ?p _ = true, Hp : ?p = true |- _ => rewrite Hp in H; cbn [implb] in H
  | H : (_ && _)%bool = true |- _ => apply andb_true_iff in H as [? ?]
  | H : negb _ = true |- _ => apply negb_true_iff in H
  | H : oneOf _ _ = false |- _ => apply bool_decide_eq_false in H
  end.

Lemma pathChar_spec c : pathChar c = true ->
  isCTL c = false /\ c <> "#"%char /\ c <> "?"%char /\ c <> "%"%char.
Proof.
  intros Hc. by_char c (fun c => implb (pathChar c) (negb (isCTL c) && negb (oneOf "#?%" c))).
  split; [done|]. set_solver.
Qed.

Lemma plain_pathChar c : plain c = true -> pathChar c = true.
Proof. unfold pathChar. by intros ->. Qed.

(** A host name with an optional port. *)
Record hostText (name port : text) : Prop := {
  ht_name : name <> [] /\ Forall (fun c => plain c = true) name;
  ht_port : port = [] \/ exists ds, port = ":"%char :: ds /\ Forall (fun c => isDigit c = true) ds;
}.

(** A scheme, written in lower case. *)
Definition schemeText (s : text) : Prop := s <> [] /\ Forall (fun c => between "a" "z" c = true) s.

Lemma not_in_Forall (P : ascii -> bool) c s :
  P c = false -> Forall (fun c => P c = true) s -> c ∉ s.
Proof. intros Hc Hs Hin. rewrite Forall_forall in Hs. by rewrite Hs in Hc. Qed.

Lemma all_true (P : ascii -> bool) s : Forall (fun c => P c = true) s -> forallb P s = true.
Proof. induction 1 as [|c s Hc _ IH]; [done|]. simpl. by rewrite Hc. Qed.

Lemma unescape_id host s :
  Forall (fun c => c <> "%"%char /\ (host = true -> hostChar c = true)) s -> unescape host s = Ok s.
Proof.
  induction 1 as [|c s [Hc Hh] _ IH]; [done|]. simpl. rewrite (proj2 (Ascii.eqb_neq c "%")) by done.
  destruct host; simpl; rewrite ?Hh by done; rewrite ?andb_false_r; rewrite IH; done.
Qed.

Definition hostish (c : ascii) : bool := plain c || Ascii.eqb c ":"%char.

Lemma hostText_chars name port : hostText name port -> Forall (fun c => hostish c = true) (name ++ port).
Proof.
  intros [[_ Hn] Hp]. apply Forall_app. split.
  - eapply Forall_impl; [exact Hn|]. intros c Hc. cbv beta in Hc. unfold hostish. by rewrite Hc.
  - destruct Hp as [->|(ds & -> & Hd)]; [constructor|]. constructor; [done|].
    eapply Forall_impl; [exact Hd|]. intros c Hc. cbv beta in Hc.
    by_char c (fun c => implb (isDigit c) (hostish c)). done.
Qed.

(** What the parser tests of the characters of a host and of a path. *)
Lemma hostish_spec c : hostish c = true -> c <> "%"%char /\ hostChar c = true.
Proof.
  intros Hc. by_char c (fun c => implb (hostish c) (negb (oneOf "%" c) && hostChar c)). split; [set_solver|done].
Qed.

(** No control character and no separator of the text before the path. *)
Definition quiet (c : ascii) : bool := negb (isCTL c) && negb (oneOf "#?" c).

Lemma hostish_quiet c : hostish c = true -> quiet c = true.
Proof. intros Hc. by_char c (fun c => implb (hostish c) (quiet c)). done. Qed.
Lemma pathChar_quiet c : pathChar c = true -> quiet c = true.
Proof. intros Hc. by_char c (fun c => implb (pathChar c) (quiet c)). done. Qed.
Lemma lower_quiet c : between "a" "z" c = true -> quiet c = true /\ isAlpha c = true /\ toLower c = c.
Proof.
  intros Hc. by_char c (fun c => implb (between "a" "z" c) (quiet c && isAlpha c && Ascii.eqb (toLower c) c)).
  split_and!; try done. by apply Ascii.eqb_eq.
Qed.

(** ** The pieces of the parser on such text *)

Lemma parseHost_text other scheme name port :
  hostText name port -> parseHost other scheme (name ++ port) = Ok (name ++ port).
Proof.
  intros Hh. pose proof (hostText_chars _ _ Hh) as Hc. unfold parseHost.
  rewrite IndexByte_none by (by eapply (not_in_Forall hostish)).
  assert (unescape true (name ++ port) = Ok (name ++ port)) as Hu.
  { apply unescape_id. eapply Forall_impl; [exact Hc|]. intros c H. destruct (hostish_spec _ H). done. }
  destruct Hh as [[_ Hn] Hp]. pose proof (not_in_Forall plain ":" name eq_refl Hn) as Hcol.
  destruct Hp as [->|(ds & -> & Hd)]; [by rewrite app_nil_r in *; rewrite (IndexByte_none _ _ Hcol)|].
  rewrite IndexByte_app, LastIndexByte_app by (done || by eapply (not_in_Forall isDigit)).
  rewrite bool_decide_eq_true_2, drop_app_length by done. simpl.
  by rewrite (all_true _ _ Hd).
Qed.

Lemma scanScheme_text first sch rest :
  Forall (fun c => between "a" "z" c = true) sch -> (first = true -> sch <> []) ->
  scanScheme first (sch ++ ":"%char :: rest) = Scheme sch rest.
Proof.
  intros Hs. revert first. induction Hs as [|c sch Hc _ IH]; intros first Hf; cbn [app scanScheme].
  - destruct first; [by destruct Hf|done].
  - destruct (lower_quiet _ Hc) as (_ & -> & _). by rewrite IH.
Qed.

Lemma toLower_text sch : Forall (fun c => between "a" "z" c = true) sch -> toLower <$> sch = sch.
Proof. induction 1 as [|c sch Hc _ IH]; csimpl; [done|]. destruct (lower_quiet _ Hc) as (_ & _ & ->). by rewrite IH. Qed.

Lemma quiet_CTL s : Forall (fun c => quiet c = true) s -> existsb isCTL s = false.
Proof.
  induction 1 as [|c s Hc _ IH]; [done|]. simpl. apply andb_true_iff in Hc as [Hc%negb_true_iff _]. by rewrite Hc.
Qed.

(** The characters of a whole URL. *)
Lemma url_quiet sch name port path :
  schemeText sch -> hostText name port -> Forall (fun c => pathChar c = true) path ->
  Forall (fun c => quiet c = true) (sch ++ chars "://" ++ (name ++ port) ++ path).
Proof.
  intros [_ Hs] Hh%hostText_chars Hp. apply Forall_app; split; [|apply Forall_app; split; [|apply Forall_app; split]].
  - eapply Forall_impl; [exact Hs|]. intros c Hc. by destruct (lower_quiet _ Hc).
  - repeat constructor.
  - eapply Forall_impl; [exact Hh|]. apply hostish_quiet.
  - eapply Forall_impl; [exact Hp|]. apply pathChar_quiet.
Qed.

Lemma chars_str l : chars (str l) = l.
Proof. apply String.list_ascii_of_string_of_list_ascii. Qed.
Lemma str_chars s : str (chars s) = s.
Proof. apply String.string_of_list_ascii_of_string. Qed.

Definition pathText (path : text) : Prop :=
  Forall (fun c => pathChar c = true) path /\ (path = [] \/ exists p, path = slash :: p).

Lemma cutBefore_text name port path : hostText name port -> pathText path ->
  cutBefore slash ((name ++ port) ++ path) = (name ++ port, path).
Proof.
  intros Hh%hostText_chars [_ [->|[p ->]]].
  2: apply cutBefore_app; by eapply (not_in_Forall hostish).
  rewrite app_nil_r. induction Hh as [|c s Hc _ IH]; [done|]. simpl. rewrite IH.
  destruct (Ascii.eqb_spec c slash); [subst; done|done].
Qed.

(** [url.Parse] on SCHEME://HOST[:PORT]PATH. *)
Lemma Parse_text other sch name port path :
  schemeText sch -> hostText name port -> pathText path ->
  Parse other (str (sch ++ chars "://" ++ (name ++ port) ++ path)) = Ok (Config.mkURL (str sch) (str (name ++ port)) (str path)).
Proof.
  intros Hs Hh Hp. pose proof (url_quiet _ _ _ _ Hs Hh (proj1 Hp)) as Hq.
  unfold Parse. rewrite chars_str, cut_none by (by eapply (not_in_Forall quiet)).
  unfold parse. rewrite (quiet_CTL _ Hq). destruct Hs as [Hne Hs].
  rewrite bool_decide_eq_false_2 by (destruct sch as [|? [|]]; simpl; congruence).
  unfold getScheme. change (chars "://" ++ ?r) with (":"%char :: chars "//" ++ r).
  rewrite scanScheme_text by done. cbv beta iota zeta. rewrite (toLower_text _ Hs).
  assert (cut "?" (chars "//" ++ (name ++ port) ++ path) = (chars "//" ++ (name ++ port) ++ path, [])) as ->.
  { apply cut_none. eapply (not_in_Forall quiet); [done|]. apply Forall_app in Hq as [_ Hq]. by apply Forall_cons in Hq as [_ Hq]. }
  cbn [fst]. change (hasPrefix [slash] _) with true. unfold parseRest. rewrite bool_decide_eq_false_2 by done.
  change (hasPrefix (chars "//") _) with true. cbn [negb orb andb].
  replace (drop 2 (chars "//" ++ (name ++ port) ++ path)) with ((name ++ port) ++ path) by done.
  rewrite (cutBefore_text _ _ _ Hh Hp).
  unfold parseAuthority. rewrite LastIndexByte_none by (eapply (not_in_Forall hostish); [done|by apply hostText_chars]).
  rewrite (parseHost_text _ _ _ _ Hh). rewrite unescape_id; [done|].
  eapply Forall_impl; [exact (proj1 Hp)|]. intros c Hc. by destruct (pathChar_spec _ Hc) as (_ & _ & _ & ?).
Qed.

(** ** Forms *)

Lemma unescape_escapeByte c s r : queryUnescape s = Ok r ->
  queryUnescape (escapeByte c ++ s) = Ok (String c r).
Proof.
  unfold queryUnescape. intros Hs. destruct (unescape false _) as [l|] eqn:E in Hs; [|done]. simplify_eq.
  rewrite fmap_app. remember ((fun c => if Ascii.eqb c "+" then " "%char else c) <$> s) as t eqn:Ht. clear Ht.
  assert (unescape false (((fun c => if Ascii.eqb c "+" then " "%char else c) <$> escapeByte c) ++ t)
          = consOk c (unescape false t)) as ->; [|by rewrite E].
  by destruct c as [[] [] [] [] [] [] [] []].
Qed.

Lemma QueryEscape_roundtrip s : queryUnescape (QueryEscape s) = Ok s.
Proof. induction s as [|c s IH]; [done|]. unfold QueryEscape. csimpl. by apply unescape_escapeByte. Qed.

Lemma QueryEscape_chars s c : c ∈ QueryEscape s -> c <> "&"%char /\ c <> "="%char.
Proof.
  unfold QueryEscape. intros (b & Hc & _)%list_elem_of_bind.
  assert (forallb (fun c => negb (oneOf "&=" c)) (escapeByte b) = true) as Hb.
  { apply (char_check (fun b => forallb (fun c => negb (oneOf "&=" c)) (escapeByte b)) ltac:(by vm_compute)). }
  rewrite forallb_forall in Hb. apply list_elem_of_In, Hb in Hc. apply negb_true_iff, bool_decide_eq_false in Hc. set_solver.
Qed.

Lemma splitAmp_app a b : "&"%char ∉ a -> splitAmp (a ++ "&"%char :: b) = a :: splitAmp b.
Proof.
  induction a as [|x a IH]; intros Ha; [done|]. apply not_elem_of_cons in Ha as [Hx Ha]. cbn [app splitAmp].
  rewrite (proj2 (Ascii.eqb_neq x "&")) by done. by rewrite IH.
Qed.

Lemma splitAmp_none a : "&"%char ∉ a -> splitAmp a = [a].
Proof.
  induction a as [|x a IH]; intros Ha; [done|]. apply not_elem_of_cons in Ha as [Hx Ha]. cbn [splitAmp].
  rewrite (proj2 (Ascii.eqb_neq x "&")) by done. by rewrite IH.
Qed.

Lemma splitAmp_join l : l <> [] -> Forall (fun a => "&"%char ∉ a) l -> splitAmp (joinAmp l) = l.
Proof.
  intros Hl Hs. induction Hs as [|x l Hx _ IH]; [done|]. destruct l as [|y l]; [by apply splitAmp_none|].
  change (joinAmp (x :: y :: l)) with (x ++ "&"%char :: joinAmp (y :: l)). by rewrite splitAmp_app, IH.
Qed.

(** What is encoded reads back, in the order of the keys. *)
Lemma Encode_roundtrip form : form <> [] -> parseForm (Encode form) = Ok <$> merge_sort pairLe form.
Proof.
  intros Hf. unfold parseForm, Encode. rewrite splitAmp_join.
  - rewrite <- list_fmap_compose. apply list_fmap_ext. intros _ [k v] _. simpl. unfold readPair.
    rewrite cut_app by (intros Hin; by destruct (QueryEscape_chars _ _ Hin)). by rewrite !QueryEscape_roundtrip.
  - intros H%fmap_nil_inv. apply Hf. apply Permutation_nil_r. rewrite <- H. symmetry. apply merge_sort_Permutation.
  - apply Forall_fmap, Forall_forall. intros [k v] _. simpl. intros [Hin|Hin]%elem_of_app.
    + by destruct (QueryEscape_chars _ _ Hin).
    + apply elem_of_cons in Hin as [?|Hin]; [done|]. by destruct (QueryEscape_chars _ _ Hin).
Qed.

(** ** The endpoint *)

Lemma trimLeft_slashes k s : trimLeft (replicate k slash ++ s) = trimLeft s.
Proof. induction k; [done|]. simpl. done. Qed.

Lemma trimRight_slashes s k : trimRight (s ++ replicate k slash) = trimRight s.
Proof. unfold trimRight. by rewrite reverse_app, reverse_replicate, trimLeft_slashes. Qed.

Lemma host_last name port : hostText name port -> exists s c, name ++ port = s ++ [c] /\ c <> slash.
Proof.
  intros Hh. pose proof (hostText_chars _ _ Hh) as Hc. destruct Hh as [[Hn _] _].
  destruct (@exists_last _ (name ++ port)) as (s & c & E); [by intros [? ?]%app_nil|]. exists s, c. split; [done|].
  rewrite E in Hc. apply Forall_app in Hc as [_ Hc]. apply Forall_cons in Hc as [Hc _]. intros ->. by vm_compute in Hc.
Qed.

Lemma str_app a b : str (a ++ b) = (str a +:+ str b)%string.
Proof. induction a as [|c a IH]; [done|]. simpl. by rewrite IH. Qed.

Lemma endpoint_text p sch name port k : schemeText sch -> hostText name port ->
  Config.LoginURL (cfg p) = str (sch ++ chars "://" ++ (name ++ port) ++ replicate k slash) ->
  endpoint p = str (sch ++ chars "://" ++ (name ++ port) ++ chars tokenEndpointPath).
Proof.
  intros Hs Hh Hl. unfold endpoint. rewrite Hl, chars_str. rewrite !app_assoc, trimRight_slashes.
  destruct (host_last _ _ Hh) as (s & c & E & Hc). rewrite <- !app_assoc. rewrite E.
  rewrite !app_assoc, trimLeft_rev_snoc by done. rewrite (str_app _ (chars tokenEndpointPath)), str_chars.
  f_equal. f_equal. by rewrite <- !app_assoc, E.
Qed.

Lemma endpoint_path : pathText (chars tokenEndpointPath).
Proof. split; [apply (bool_decide_unpack _); by vm_compute|by right; eexists]. Qed.

Lemma identity_path org user :
  Forall (fun c => plain c = true) org -> Forall (fun c => plain c = true) user ->
  pathText (slash :: chars "id" ++ slash :: org ++ slash :: user).
Proof.
  intros Ho Hu. split; [|by right; eexists].
  repeat first [apply Forall_cons; split; [by vm_compute|] | apply Forall_app; split];
    try (eapply Forall_impl; [eassumption|apply plain_pathChar]).
Qed.

(** What [fetchToken] sends and what it reads of the identity URL. With a login URL
    SCHEME://HOST, the request goes to that scheme and host; its body, read as a form,
    holds the client ID and the secret unchanged; from SCHEME://HOST/id/ORG/USER exactly
    ORG is taken as the tenant. *)
Lemma token_request_text other p sch name port k org user :
  schemeText sch -> hostText name port ->
  Config.LoginURL (cfg p) = str (sch ++ chars "://" ++ (name ++ port) ++ replicate k slash) ->
  org <> [] -> Forall (fun c => plain c = true) org -> user <> [] -> Forall (fun c => plain c = true) user ->
  Parse other (endpoint p) = Ok (Config.mkURL (str sch) (str (name ++ port)) tokenEndpointPath) /\
  parseForm (Encode (form p)) =
    [Ok ("client_id", Config.ClientID (cfg p)); Ok ("client_secret", Config.ClientSecret (cfg p));
     Ok ("grant_type", "client_credentials")]%string /\
  tenantIDFromIdentityURL (Parse other)
    (str (sch ++ chars "://" ++ (name ++ port) ++ slash :: chars "id" ++ slash :: org ++ slash :: user)) = Ok (str org).
Proof.
  intros Hs Hh Hl Ho1 Ho2 Hu1 Hu2. split; [|split].
  - rewrite (endpoint_text _ _ _ _ _ Hs Hh Hl), (Parse_text _ _ _ _ _ Hs Hh endpoint_path). by rewrite str_chars.
  - by rewrite Encode_roundtrip.
  - eapply tenantID_of_identity_path; [| by apply Parse_text, identity_path | done | | done | |].
    + destruct sch as [|c sch]; [by destruct Hs|done].
    + by eapply (not_in_Forall plain).
    + by eapply (not_in_Forall plain).
    + cbn [Config.Path]. by rewrite chars_str.
Qed.

(** ** Examples: hosts with a bracket or several colons are refused *)

Definition noOther (scheme host : text) : result text := Err (NewErr [Lit "invalid host"]).

Abbreviation demoParse := (Parse noOther).

Lemma Parse_examples :
  demoParse "HTTPS://user:pw@login.example.com:8443/a%20b/c?x=1#top"
    = Ok (Config.mkURL "https" "login.example.com:8443" "/a b/c") /\
  demoParse "login.example.com/id/1/2" = Ok (Config.mkURL "" "" "login.example.com/id/1/2") /\
  demoParse "mailto:ops" = Ok (Config.mkURL "mailto" "" "") /\
  demoParse "//host/p" = Ok (Config.mkURL "" "host" "/p") /\
  demoParse "///p" = Ok (Config.mkURL "" "" "///p") /\
  demoParse "" = Ok (Config.mkURL "" "" "") /\
  forallb (fun s => negb (is_Ok (demoParse s)))
    [":x"; "localhost:80/x:y:%zz#%"; "1host:80"; "http://a b/"; "http://h:port/"; "http://h%41/"; "http://u%@h/"; "http://h/#%g"]%string
    = true.
Proof. split_and!; vm_compute; reflexivity. Qed.

End Url.
