(* ===== verification/Exchange.v ===== *)
(** * The token exchange as text

    [json.Unmarshal] of the token endpoint's answer into [tokenResponse]
    (src/internal/auth/oauth.go), on top of Json.v, and with Url.v the whole exchange of
    [fetchToken] from the configured URL to the credentials. *)

From S2P Require Import Prelude Text Json Config Auth Url.
From Stdlib Require Import Strings.Byte Ascii.
#[local] Open Scope Z_scope.

Module Exchange.
Import Text Json Auth.

(** ** The fields of the struct *)

Inductive field := FAccessToken | FInstanceURL | FID | FTokenType | FIssuedAt | FExpiresIn.

#[global] Instance field_eq_dec : EqDecision field.
Proof. solve_decision. Defined.

(** The tags of the struct. *)
Definition tags : list (string * field) :=
  [("access_token", FAccessToken); ("instance_url", FInstanceURL); ("id", FID);
   ("token_type", FTokenType); ("issued_at", FIssuedAt); ("expires_in", FExpiresIn)]%string.

(** Names that have no exact match are compared without case; the Kelvin sign and the
    long s are the two other runes that fold to a letter. *)
Definition upper (b : Byte.byte) : Byte.byte := if within 97 122 b then byteN (Byte.to_N b - 32) else b.

Fixpoint foldName (l : bytes) : bytes :=
  match l with
  | xe2 :: x84 :: xaa :: r => x4b :: foldName r
  | xc5 :: xbf :: r => x53 :: foldName r
  | b :: r => upper b :: foldName r
  | [] => []
  end.

Definition findField (key : bytes) : option field :=
  let by_name (eq : string -> bool) := snd <$> head (filter (fun x => eq x.1 = true) tags) in
  match by_name (fun t => bool_decide (bytesOf t = key)) with
  | Some f => Some f
  | None => by_name (fun t => bool_decide (foldName (bytesOf t) = foldName key))
  end.

(** [strconv.ParseInt] on a number literal, for the field of type int. *)
Definition parseInt (lit : bytes) : option Z :=
  let digits := match lit with x2d :: r => r | _ => lit end in
  if negb (bool_decide (digits = [])) && forallb isDigit digits && bool_decide (- 2 ^ 63 <= parseDecimal lit < 2 ^ 63)
  then Some (parseDecimal lit) else None.

(** What a value does to a field: null leaves it, a value of another type is an error. *)
Definition assign (f : field) (v : json) : option (tokenResponse -> tokenResponse) :=
  match v with
  | JNull => Some id
  | JString s =>
      let s := stringOf s in
      match f with
      | FAccessToken => Some (fun t => mkTokenResponse s (tr_InstanceURL t) (tr_ID t) (tr_TokenType t) (tr_IssuedAt t) (tr_ExpiresIn t))
      | FInstanceURL => Some (fun t => mkTokenResponse (tr_AccessToken t) s (tr_ID t) (tr_TokenType t) (tr_IssuedAt t) (tr_ExpiresIn t))
      | FID => Some (fun t => mkTokenResponse (tr_AccessToken t) (tr_InstanceURL t) s (tr_TokenType t) (tr_IssuedAt t) (tr_ExpiresIn t))
      | FTokenType => Some (fun t => mkTokenResponse (tr_AccessToken t) (tr_InstanceURL t) (tr_ID t) s (tr_IssuedAt t) (tr_ExpiresIn t))
      | FIssuedAt => Some (fun t => mkTokenResponse (tr_AccessToken t) (tr_InstanceURL t) (tr_ID t) (tr_TokenType t) s (tr_ExpiresIn t))
      | FExpiresIn => None
      end
  | JNumber lit =>
      match f, parseInt lit with
      | FExpiresIn, Some n => Some (fun t => mkTokenResponse (tr_AccessToken t) (tr_InstanceURL t) (tr_ID t) (tr_TokenType t) (tr_IssuedAt t) n)
      | _, _ => None
      end
  | _ => None
  end.

(** One member: unknown keys are skipped, a type error is remembered and decoding goes on. *)
Definition decodeMember (s : tokenResponse * bool) (kv : bytes * json) : tokenResponse * bool :=
  match findField kv.1 with
  | None => s
  | Some f =>
      match assign f kv.2 with
      | Some g => (g s.1, s.2)
      | None => (s.1, true)
      end
  end.

Definition zeroResponse : tokenResponse := mkTokenResponse "" "" "" "" "" 0.

Definition syntaxError : error := External "json.SyntaxError" 0.
Definition typeError : error := External "json.UnmarshalTypeError" 0.

(** [json.Unmarshal(body, &tr)] *)
Definition Unmarshal (body : bytes) : result tokenResponse :=
  match parse body with
  | None => Err syntaxError
  | Some JNull => Ok zeroResponse
  | Some (JObject ms) =>
      let '(tr, bad) := foldl decodeMember (zeroResponse, false) ms in
      if (bad : bool) then Err typeError else Ok tr
  | Some _ => Err typeError
  end.

(** ** Members of different fields can be decoded in any order *)

Lemma assign_comm f f' v v' g g' t : f <> f' -> assign f v = Some g -> assign f' v' = Some g' -> g (g' t) = g' (g t).
Proof.
  intros Hf. destruct v, v'; simpl; try done; destruct f, f'; try done;
    repeat (destruct (parseInt _); try done); intros; by simplify_eq.
Qed.

Lemma decodeMember_comm s kv kv' :
  (forall f, findField kv.1 = Some f -> findField kv'.1 <> Some f) ->
  decodeMember (decodeMember s kv) kv' = decodeMember (decodeMember s kv') kv.
Proof.
  intros Hd. unfold decodeMember. destruct (findField kv.1) as [f|], (findField kv'.1) as [f'|]; try done.
  destruct (assign f kv.2) as [g|] eqn:E, (assign f' kv'.2) as [g'|] eqn:E'; try done. simpl. f_equal.
  symmetry. eapply assign_comm; [|done..]. intros ->. by apply (Hd f').
Qed.

(** The fields named in a list of members, and members without a field. *)
Definition fieldsOf (ms : list (bytes * json)) : list field := omap (fun kv => findField kv.1) ms.

Lemma foldl_decode_perm ms ms' : ms ≡ₚ ms' -> NoDup (fieldsOf ms) ->
  forall s, foldl decodeMember s ms = foldl decodeMember s ms'.
Proof.
  induction 1 as [|x l l' Hp IH|x y l|l1 l2 l3 Hp1 IH1 Hp2 IH2]; intros Hn s; [done| | |].
  - simpl. apply IH. unfold fieldsOf in *. csimpl in Hn. destruct (findField x.1); [by apply NoDup_cons in Hn as [_ ?]|done].
  - simpl. rewrite (decodeMember_comm s y x); [done|]. intros f Hy Hx. unfold fieldsOf in Hn. csimpl in Hn.
    rewrite Hx, Hy in Hn. apply NoDup_cons in Hn as [Hn _]. apply Hn. constructor.
  - rewrite IH1 by done. apply IH2. unfold fieldsOf in *. by rewrite <- Hp1.
Qed.

(** ** The answer of the endpoint *)

Definition member (k v : string) : bytes * json := (bytesOf k, JString (bytesOf v)).

(** The members the service reads; [expires_in] is optional. *)
Definition answer (access instance identity tokenType issuedAt : string) (expires : option Z) : list (bytes * json) :=
  [member "access_token" access; member "instance_url" instance; member "id" identity;
   member "token_type" tokenType; member "issued_at" issuedAt]
  ++ match expires with Some n => [(bytesOf "expires_in", JNumber (decimal n))] | None => [] end.

Definition unknown (kv : bytes * json) : Prop := findField kv.1 = None.

Lemma parseInt_decimal n : in_S64 n -> parseInt (decimal n) = Some n.
Proof.
  intros Hn. unfold parseInt. rewrite decimal_roundtrip. rewrite (bool_decide_eq_true_2 (- 2 ^ 63 <= n < 2 ^ 63)) by done.
  assert (forall z, 0 <= z -> let d := digitsFrom (S (Z.to_nat (Z.log2 z))) z in
    d <> [] /\ forallb isDigit d = true /\ match d with x2d :: r => r | _ => d end = d) as Hd.
  { intros z Hz d. destruct (digitsFrom_spec _ _ (decimal_fuel z Hz) ltac:(lia)) as (_ & (Hne & Ha & _) & _). fold d in Hne, Ha.
    split; [done|]. split; [|destruct d as [|b d]; [done|]; apply Forall_cons in Ha as [Hb _]; by destruct b].
    clear Hne. induction Ha as [|b l Hb _ IH]; [done|]. simpl. by rewrite Hb. }
  unfold decimal. cbv zeta. destruct (n <? 0) eqn:E; bools.
  - destruct (Hd (- n) ltac:(lia)) as (Hne & -> & _). by rewrite bool_decide_eq_false_2.
  - destruct (Hd n ltac:(lia)) as (Hne & Ha & ->). rewrite Ha. by rewrite bool_decide_eq_false_2.
Qed.

Lemma decode_unknown extras s : Forall unknown extras -> foldl decodeMember s extras = s.
Proof. induction 1 as [|kv l Hk _ IH]; [done|]. simpl. unfold decodeMember at 2. by rewrite Hk. Qed.

Lemma fieldsOf_unknown l extras : Forall unknown extras -> fieldsOf (l ++ extras) = fieldsOf l.
Proof.
  intros He. unfold fieldsOf. rewrite omap_app.
  assert (omap (fun kv => findField kv.1) extras = []) as ->; [|by rewrite app_nil_r].
  induction He as [|kv extras Hk _ IH]; csimpl; [done|]. by rewrite Hk, IH.
Qed.

(** The answer is decoded to its fields, in any order and whatever else it holds. *)
Lemma Unmarshal_answer ms access instance identity tokenType issuedAt expires extras :
  ms ≡ₚ answer access instance identity tokenType issuedAt expires ++ extras -> Forall unknown extras ->
  (forall n, expires = Some n -> in_S64 n) -> wf (JObject ms) ->
  Unmarshal (print (JObject ms))
    = Ok (mkTokenResponse access instance identity tokenType issuedAt (default 0 expires)).
Proof.
  intros Hp He Hn Hw. unfold Unmarshal. rewrite parse_print by done.
  rewrite <- (foldl_decode_perm _ _ (Permutation_sym Hp)).
  2: { rewrite fieldsOf_unknown by done. destruct expires; apply (bool_decide_unpack _); by vm_compute. }
  rewrite foldl_app, (decode_unknown _ _ He).
  assert (forall f (key : string) v s, findField (bytesOf key) = Some f -> decodeMember s (bytesOf key, v) =
    match assign f v with Some g => (g s.1, s.2) | None => (s.1, true) end) as Hs.
  { intros f key v s Hk. unfold decodeMember. cbn [fst snd]. by rewrite Hk. }
  unfold answer, member. cbn [foldl app].
  rewrite (Hs FAccessToken "access_token"), (Hs FInstanceURL "instance_url"), (Hs FID "id"),
    (Hs FTokenType "token_type"), (Hs FIssuedAt "issued_at") by (by vm_compute).
  cbn [assign fst snd]. rewrite !stringOf_bytesOf. destruct expires as [n|]; [|done].
  cbn [foldl]. rewrite (Hs FExpiresIn) by (by vm_compute). cbn [assign]. by rewrite (parseInt_decimal n (Hn n eq_refl)).
Qed.

(** ** Properties *)

(** C30. The token exchange as text, from the configuration to the credentials. With a
    login URL SCHEME://HOST, with or without a port and with any number of slashes after
    it, the request goes to that scheme and host with the path of the token endpoint, and
    its body, read as a form, holds the client ID and the secret unchanged whatever
    characters they are made of. When the endpoint answers 200 with a JSON object that
    holds an access token, an instance URL and an identity URL SCHEME://HOST/id/ORG/USER,
    in any order and among any other members, the credentials are exactly these two
    values and ORG, and they live for [expires_in] seconds, or for the default. *)
Theorem token_exchange_text {W} other post p sch name port k org user access instance tokenType issuedAt expires extras ms (w w' : W) :
  Url.schemeText sch -> Url.hostText name port ->
  Config.LoginURL (cfg p) = str (sch ++ chars "://" ++ (name ++ port) ++ replicate k slash) ->
  org <> [] -> Forall (fun c => Url.plain c = true) org -> user <> [] -> Forall (fun c => Url.plain c = true) user ->
  let identity := str (sch ++ chars "://" ++ (name ++ port) ++ slash :: chars "id" ++ slash :: org ++ slash :: user) in
  access <> ""%string -> instance <> ""%string -> (forall n, expires = Some n -> in_S64 n) ->
  ms ≡ₚ answer access instance identity tokenType issuedAt expires ++ extras -> Forall unknown extras -> wf (JObject ms) ->
  post (endpoint p) (form p) w = (Responded 200 (print (JObject ms)), w') ->
  Url.Parse other (endpoint p) = Ok (Config.mkURL (str sch) (str (name ++ port)) tokenEndpointPath) /\
  Url.parseForm (Url.Encode (form p)) =
    [Ok ("client_id", Config.ClientID (cfg p)); Ok ("client_secret", Config.ClientSecret (cfg p));
     Ok ("grant_type", "client_credentials")]%string /\
  fetchToken post Unmarshal (Url.Parse other) p w =
    (Ok (mkCredentials access instance (str org),
         if 0 <? default 0 expires then wrapS64 (default 0 expires * Second) else defaultTTL p), w').
Proof.
  intros Hs Hh Hl Ho1 Ho2 Hu1 Hu2 identity Ha Hi Hn Hm He Hw Hp.
  destruct (Url.token_request_text other p sch name port k org user Hs Hh Hl Ho1 Ho2 Hu1 Hu2) as (H1 & H2 & H3).
  split; [done|]. split; [done|]. unfold fetchToken. rewrite M_bind_unfold, Hp. cbn [fst snd].
  change (negb (200 =? 200)) with false. cbv iota. rewrite (Unmarshal_answer _ _ _ _ _ _ _ _ Hm He Hn Hw).
  unfold fromResponse. cbn [tr_AccessToken tr_InstanceURL tr_ID tr_ExpiresIn].
  rewrite !bool_decide_eq_false_2 by done. unfold identity. rewrite H3. by rewrite Z.gtb_ltb.
Qed.

(** ** An example *)

Definition demoProvider : Provider :=
  New (Config.mkSalesforce "3MVG.id" "s&cr=t +%" "https://acme.my.salesforce.com:443//").

(** Salesforce's own order, with a signature the service does not read. *)
Definition demoAnswer : list (bytes * json) :=
  [member "access_token" "00D!tok"; member "signature" "c2ln"; member "instance_url" "https://acme.my.salesforce.com";
   member "id" "https://acme.my.salesforce.com:443/id/00Dx/005y"; member "token_type" "Bearer"; member "issued_at" "17"].

Definition demoPost (url : string) (form : list (string * string)) : M unit exchange :=
  fun w => (Responded 200 (print (JObject demoAnswer)), w).

Ltac by_check := apply (bool_decide_unpack _); by vm_compute.

Lemma token_exchange_text_witness :
  fetchToken demoPost Unmarshal Url.demoParse demoProvider tt
    = (Ok (mkCredentials "00D!tok" "https://acme.my.salesforce.com" "00Dx", Hour), tt).
Proof.
  apply (token_exchange_text Url.noOther demoPost demoProvider (chars "https") (chars "acme.my.salesforce.com") (chars ":443") 2
    (chars "00Dx") (chars "005y") "00D!tok" "https://acme.my.salesforce.com" "Bearer" "17" None [member "signature" "c2ln"] demoAnswer tt tt);
    try done; try by_check.
  - split; [split; [done|]; by_check|]. right. eexists. split; [reflexivity|]. by_check.
  - change (demoAnswer ≡ₚ take 1 demoAnswer ++ drop 2 demoAnswer ++ [member "signature" "c2ln"]). simpl.
    apply perm_skip. change (member "signature" "c2ln" :: ?l) with ([member "signature" "c2ln"] ++ l).
    apply Permutation_app_comm.
  - constructor. repeat (apply Forall_cons; split; [split; cbn [fst snd member]; [|constructor]|]); try done;
      apply utf8_ascii; by_check.
Defined.

End Exchange.
