(* ===== verification/Health.v ===== *)
(** * Readiness and the admin server

    Model of src/internal/health, of the checkers of src/internal/app/app.go and of the
    lifecycle in src/internal/httpserver/server.go. A response is its status code and its
    body as data; Admin.v has the bytes and the routes. *)

From S2P Require Import Prelude Auth Sinks.

Module Health.

Section Checkers.
Context {W : Type}.

(** [health.Checker]: nil means ready. *)
Definition Checker : Type := M W (option error).

Record readyBody := mkReadyBody {
  body_Status : string;
  body_Checks : gmap string (option error);
}.

Definition StatusOK : Z := 200.
Definition StatusServiceUnavailable : Z := 503.

(** [Healthz] *)
Definition Healthz : Z * gmap string string := (StatusOK, {["status" := "ok"]}).

(** The loop of [Readiness]; [None] in the results is "ok", an error is its text. The
    checkers are listed in the order in which the map was ranged over. *)
Fixpoint runChecks (checkers : list (string * Checker)) (allOK : bool) (results : gmap string (option error))
    : M W (bool * gmap string (option error)) :=
  match checkers with
  | [] => mret (allOK, results)
  | (name, c) :: rest =>
      r ← c;
      match r with
      | Some err => runChecks rest false (<[name := Some err]> results)
      | None => runChecks rest allOK (<[name := None]> results)
      end
  end.

Definition Readiness (checkers : list (string * Checker)) : M W (Z * readyBody) :=
  x ← runChecks checkers true ∅;
  let '(allOK, results) := x in
  if (allOK : bool) then mret (StatusOK, mkReadyBody "ready" results)
  else mret (StatusServiceUnavailable, mkReadyBody "not ready" results).

(** The database checker of the application, on the ping's answer. *)
Definition dbChecker (ping : M W (option error)) : Checker :=
  r ← ping;
  match r with
  | Some err => mret (Some (Wrap [Lit "database ping"] err))
  | None => mret None
  end.

End Checkers.

(** [authCheck.Check] *)
Definition authCheck {W} (token : Auth.Provider -> W -> result Auth.Credentials * Auth.Provider * W)
    : @Checker (Auth.Provider * W) := fun '(p, w) =>
  match token p w with
  | (Err err, p', w') => (Some (Wrap [Lit "salesforce token"] err), (p', w'))
  | (Ok _, p', w') => (None, (p', w'))
  end.

(** ** The admin server

    [listenErr] is the listener's error, [serveErr] what [srv.Serve] returned,
    [shutdownErr] what [srv.Shutdown] returned; the select takes the context or the
    error channel, which is closed (and so yields nil) after a regular close. *)
Inductive servePick := PickCtxDone | PickErrCh.

Definition errCh (serveErr : option error) : option error :=
  match serveErr with
  | Some err => if errors_Is err "http.ErrServerClosed" then None else Some err
  | None => None
  end.

Definition serve (pick : servePick) (serveErr shutdownErr : option error) : option error :=
  match pick with
  | PickCtxDone =>
      match shutdownErr with
      | Some err => Some (Wrap [Lit "shutdown"] err)
      | None => None
      end
  | PickErrCh => errCh serveErr
  end.

Definition Run (addr : string) (listenErr : option error) (pick : servePick)
    (serveErr shutdownErr : option error) : option error :=
  match listenErr with
  | Some err => Some (Wrap [Lit "listen "; Lit addr] err)
  | None => serve pick serveErr shutdownErr
  end.

(** ** Lemmas *)

Section Spec.
Context {W : Type}.

(** The checkers run one after the other, each in the world its predecessor left. *)
Inductive ran : list (string * Checker) -> W -> list (string * option error) -> W -> Prop :=
| ran_nil w : ran [] w [] w
| ran_cons name c cs w r w1 rs w2 : c w = (r, w1) -> ran cs w1 rs w2 ->
    ran ((name, c) :: cs) w ((name, r) :: rs) w2.

Lemma runChecks_spec cs ok results w :
  exists rs w', ran cs w rs w' /\ rs.*1 = cs.*1 /\
    runChecks cs ok results w =
      ((ok && forallb (fun x => bool_decide (x.2 = None)) rs,
        foldl (fun m x => <[x.1 := x.2]> m) results rs), w').
Proof.
  revert ok results w. induction cs as [|[name c] cs IH]; intros ok results w; simpl.
  { exists [], w. split; [constructor|]. split; [done|]. by rewrite andb_true_r. }
  rewrite M_bind_unfold. destruct (c w) as [r w1] eqn:Ec. cbn [fst snd].
  destruct r as [err|].
  - destruct (IH false (<[name := Some err]> results) w1) as (rs & w' & Hr & Hn & He).
    exists ((name, Some err) :: rs), w'. split; [by econstructor|]. split; [simpl; by f_equal|].
    rewrite He. simpl. by rewrite andb_false_r.
  - destruct (IH ok (<[name := None]> results) w1) as (rs & w' & Hr & Hn & He).
    exists ((name, None) :: rs), w'. split; [by econstructor|]. split; [simpl; by f_equal|].
    by rewrite He.
Qed.

Lemma foldl_insert_lookup (rs : list (string * option error)) (m : gmap string (option error)) name r :
  NoDup rs.*1 -> (name, r) ∈ rs -> foldl (fun m x => <[x.1 := x.2]> m) m rs !! name = Some r.
Proof.
  induction rs as [|[n x] rs IH] using rev_ind; intros Hnd Hin; [by apply elem_of_nil in Hin|].
  rewrite foldl_app. simpl. rewrite fmap_app in Hnd. apply NoDup_app in Hnd as (Hnd & Hdis & _).
  apply elem_of_app in Hin as [Hin|Hin].
  - rewrite lookup_insert_ne; [by apply IH|]. intros ->. apply (Hdis name).
    + by apply (list_elem_of_fmap_2 fst) in Hin.
    + simpl. constructor.
  - apply list_elem_of_singleton in Hin. simplify_eq. apply lookup_insert_eq.
Qed.

(** ** Properties *)

(** The readiness probe runs every checker exactly once, also after one has failed,
    answers 200 "ready" when all of them pass and 503 "not ready" otherwise, and its
    body reports the outcome of each checker under its name. *)
Theorem readiness_reports_all cs w :
  NoDup cs.*1 ->
  exists rs w' code body, ran cs w rs w' /\ rs.*1 = cs.*1 /\ Readiness cs w = ((code, body), w') /\
    (forall name r, (name, r) ∈ rs -> body_Checks body !! name = Some r) /\
    (code = StatusOK /\ body_Status body = "ready"%string /\ Forall (fun x => x.2 = None) rs \/
     code = StatusServiceUnavailable /\ body_Status body = "not ready"%string /\
       Exists (fun x => x.2 <> None) rs).
Proof.
  intros Hnd. destruct (runChecks_spec cs true ∅ w) as (rs & w' & Hr & Hn & He).
  unfold Readiness. rewrite M_bind_unfold, He. cbn [fst snd andb].
  exists rs, w'. destruct (forallb _ rs) eqn:Ef; eexists _, _; (split; [done|]); (split; [done|]);
    (split; [reflexivity|]); simpl; (split; [intros name r Hin; apply foldl_insert_lookup; [by rewrite Hn|done]|]).
  - left. split; [done|]. split; [done|]. apply Forall_forall. intros x Hx.
    rewrite forallb_forall in Ef. specialize (Ef x ltac:(by apply list_elem_of_In)). by bools.
  - right. split; [done|]. split; [done|]. apply not_Forall_Exists; [solve_decision|].
    intros Hall. rewrite <- not_true_iff_false in Ef. apply Ef, forallb_forall. intros x Hx.
    apply list_elem_of_In in Hx. apply bool_decide_eq_true. by apply (proj1 (Forall_forall _ _) Hall).
Qed.

End Spec.

Definition demoCheckers : list (string * @Checker nat) :=
  [("auth", fun w => (Some (External "auth" 1), S w)); ("database", fun w => (None, S w))]%string.

Lemma readiness_reports_all_witness :
  exists rs w' code body, ran demoCheckers 0%nat rs w' /\ rs.*1 = demoCheckers.*1 /\
    Readiness demoCheckers 0%nat = ((code, body), w') /\
    (forall name r, (name, r) ∈ rs -> body_Checks body !! name = Some r) /\
    (code = StatusOK /\ body_Status body = "ready"%string /\ Forall (fun x => x.2 = None) rs \/
     code = StatusServiceUnavailable /\ body_Status body = "not ready"%string /\
       Exists (fun x => x.2 <> None) rs).
Proof. apply (readiness_reports_all demoCheckers 0%nat). vm_compute. repeat constructor; set_solver. Defined.

End Health.
