(* ===== verification/Migrations.v ===== *)
(** * The schema migrations

    Model of src/internal/storage/migrate.go and of the files that src/migrations/migrations.go
    embeds. The migrator itself is a library: a class of its calls, with the behaviour it
    documents as laws. *)

From S2P Require Import Prelude.

(** An open migrator; [W] is the database with it. *)
Class Migrator (W : Type) := {
  iofs_New : list string -> option error;
  NewWithSourceInstance : list string -> string -> M W (option error);
  Up : M W (option error);
  Version : M W (result (Z * bool));
  migrator_Close : M W (option error * option error);
}.

Module Migrations.

(** The files of src/migrations that the pattern [*.sql] embeds. *)
Definition FS : list string := ["000001_init.down.sql"; "000001_init.up.sql"].

Definition ErrNoChange : error := Sentinel "migrate.ErrNoChange".
Definition ErrNilVersion : error := Sentinel "migrate.ErrNilVersion".

(** What [Migrate] logs. *)
Inductive logLine :=
| MigrationsApplied (version : option (Z * bool))
| VersionUnreadable (e : error)
| CloseFailed (source database : option error).

Section Migrate.
Context {W : Type} `{Migrator W}.

(** The line about the version that was reached. *)
Definition versionLine (r : result (Z * bool)) : logLine :=
  match r with
  | Ok v => MigrationsApplied (Some v)
  | Err e => if errors_Is e "migrate.ErrNilVersion" then MigrationsApplied None else VersionUnreadable e
  end.

(** The body between opening and closing. *)
Definition apply : M W (option error * list logLine) :=
  r ← Up;
  match r with
  | Some err =>
      if errors_Is err "migrate.ErrNoChange" then v ← Version; mret (None, [versionLine v])
      else mret (Some (Wrap [Lit "apply migrations"] err), [])
  | None => v ← Version; mret (None, [versionLine v])
  end.

(** The deferred function. *)
Definition close : M W (list logLine) :=
  r ← migrator_Close;
  mret (match r with (None, None) => [] | (srcErr, dbErr) => [CloseFailed srcErr dbErr] end).

(** [Migrate] *)
Definition Migrate (dsn : string) : M W (option error * list logLine) :=
  match iofs_New FS with
  | Some err => mret (Some (Wrap [Lit "init embedded migration source"] err), [])
  | None =>
      r ← NewWithSourceInstance FS dsn;
      match r with
      | Some err => mret (Some (Wrap [Lit "init migrate"] err), [])
      | None => a ← apply; c ← close; mret (a.1, a.2 ++ c)
      end
  end.

End Migrate.

(** ** What the library documents

    The database records a version and whether a migration failed half-way; [Up] applies
    everything up to the last version of the source, and says so when there is nothing to
    apply; the other calls leave the record alone. *)
Class MigratorLaws (W : Type) `{Migrator W} := {
  recorded : W -> option (Z * bool);
  latest : list string -> Z;
  opened_for : W -> list string -> Prop;
  new_recorded fs dsn w r w' : NewWithSourceInstance fs dsn w = (r, w') ->
    recorded w' = recorded w /\ (r = None -> opened_for w' fs);
  up_done w w' fs : opened_for w fs -> Up w = (None, w') -> recorded w' = Some (latest fs, false);
  up_nothing w e w' fs : opened_for w fs -> Up w = (Some e, w') -> errors_Is e "migrate.ErrNoChange" = true ->
    recorded w = Some (latest fs, false) /\ recorded w' = recorded w;
  up_again w fs : opened_for w fs -> recorded w = Some (latest fs, false) -> (Up w).1 = Some ErrNoChange;
  version_recorded w r w' : Version w = (r, w') -> recorded w' = recorded w /\
    (forall v, r = Ok v -> recorded w = Some v) /\
    (forall e, r = Err e -> errors_Is e "migrate.ErrNilVersion" = true -> recorded w = None);
  close_recorded w r w' : migrator_Close w = (r, w') -> recorded w' = recorded w;
}.

Section Laws.
Context {W : Type} `{MigratorLaws W}.

Lemma close_keeps w l w' : close w = (l, w') -> recorded w' = recorded w.
Proof.
  unfold close. rewrite M_bind_unfold. destruct (migrator_Close w) as [r w1] eqn:E. intros. runM. simplify_eq.
  by eapply close_recorded.
Qed.

Lemma versionLine_recorded w r w' : Version w = (r, w') ->
  recorded w' = recorded w /\ (forall v, versionLine r = MigrationsApplied v -> v = recorded w).
Proof.
  intros Hv. destruct (version_recorded _ _ _ Hv) as (Hr & Hok & Hnil). split; [done|].
  unfold versionLine. destruct r as [v|e]; [intros v' [= <-]; symmetry; by apply Hok|].
  destruct (errors_Is e _) eqn:E; [|done]. intros v' [= <-]. symmetry. by eapply Hnil.
Qed.

Lemma apply_latest w fs l w' : opened_for w fs -> apply w = ((None, l), w') ->
  recorded w' = Some (latest fs, false) /\ exists line, l = [line] /\
    forall v, line = MigrationsApplied v -> v = Some (latest fs, false).
Proof.
  intros Ho. unfold apply. rewrite M_bind_unfold. destruct (Up w) as [[e|] w1] eqn:Eu; cbn [fst snd].
  - destruct (errors_Is e _) eqn:Ee; [|done]. destruct (up_nothing _ _ _ _ Ho Eu Ee) as [Hl Hr].
    rewrite M_bind_unfold. destruct (Version w1) as [r w2] eqn:Ev. cbn [fst snd]. intros. runM. simplify_eq.
    destruct (versionLine_recorded _ _ _ Ev) as [Hr' Hv]. split; [by rewrite Hr', Hr|].
    eexists. split; [done|]. intros v Hline. rewrite (Hv _ Hline). by rewrite Hr.
  - pose proof (up_done _ _ _ Ho Eu) as Hr.
    rewrite M_bind_unfold. destruct (Version w1) as [r w2] eqn:Ev. cbn [fst snd]. intros. runM. simplify_eq.
    destruct (versionLine_recorded _ _ _ Ev) as [Hr' Hv]. split; [by rewrite Hr'|].
    eexists. split; [done|]. intros v Hline. by rewrite (Hv _ Hline).
Qed.

(** When [Migrate] returns nil the database is at the last version of the embedded files,
    not half-way through one, whether anything had to be applied or not; and the version
    it logs, when it logs one, is that. *)
Theorem migrate_latest dsn w l w' : Migrate dsn w = ((None, l), w') ->
  recorded w' = Some (latest FS, false) /\
  forall v, MigrationsApplied v ∈ l -> v = Some (latest FS, false).
Proof.
  unfold Migrate. destruct (iofs_New FS); [done|]. rewrite M_bind_unfold.
  destruct (NewWithSourceInstance FS dsn w) as [[e|] w1] eqn:En; cbn [fst snd]; [done|].
  destruct (new_recorded _ _ _ _ _ En) as [_ Ho]. specialize (Ho eq_refl). rewrite M_bind_unfold.
  destruct (apply w1) as [[r l1] w2] eqn:Ea. cbn [fst snd]. rewrite M_bind_unfold.
  destruct (close w2) as [c w3] eqn:Ec. cbn [fst snd]. intros Hm. runM. simplify_eq.
  destruct (apply_latest _ _ _ _ Ho Ea) as (Hr & line & -> & Hline). rewrite (close_keeps _ _ _ Ec). split; [done|].
  intros v [Hin|Hin]%elem_of_app; [apply list_elem_of_singleton in Hin; by apply Hline|].
  exfalso. unfold close in Ec. rewrite M_bind_unfold in Ec. destruct (migrator_Close w2) as [[[] []] ?]; runM;
    simplify_eq; set_solver.
Qed.

Lemma apply_again w fs : opened_for w fs -> recorded w = Some (latest fs, false) -> (apply w).1.1 = None.
Proof.
  intros Ho Hr. pose proof (up_again w fs Ho Hr) as Hu. unfold apply. rewrite M_bind_unfold.
  destruct (Up w) as [u w1]. cbn [fst snd] in *. subst u. simpl. rewrite M_bind_unfold. by destruct (Version w1).
Qed.

(** Starting again on an up-to-date database succeeds and applies nothing, if the migrator
    can be opened. *)
Lemma migrate_again dsn w : recorded w = Some (latest FS, false) -> iofs_New FS = None ->
  (NewWithSourceInstance FS dsn w).1 = None ->
  (Migrate dsn w).1.1 = None /\ recorded (Migrate dsn w).2 = recorded w.
Proof.
  intros Hr Hi Hn. destruct (Migrate dsn w) as [[r l] w'] eqn:Em. assert (r = None) as ->.
  { revert Em. unfold Migrate. rewrite Hi, M_bind_unfold.
    destruct (NewWithSourceInstance FS dsn w) as [e w1] eqn:En. cbn [fst snd] in *. subst e.
    destruct (new_recorded _ _ _ _ _ En) as [Hr1 Ho]. specialize (Ho eq_refl).
    pose proof (apply_again w1 FS Ho ltac:(congruence)) as Ha. rewrite M_bind_unfold.
    destruct (apply w1) as [[r1 l1] w2]. cbn [fst snd] in *. subst r1. rewrite M_bind_unfold.
    destruct (close w2) as [c w3]. cbn [fst snd]. intros. runM. by simplify_eq. }
  split; [done|]. simpl. rewrite Hr. exact (proj1 (migrate_latest _ _ _ _ Em)).
Qed.

End Laws.

(** ** An example: a database in memory, reached when it is up *)

Record memDB := mkMemDB { reachable : bool; mem_version : option (Z * bool); mem_source : list string }.

#[global] Instance mem_Migrator : Migrator memDB := {
  iofs_New _ := None;
  NewWithSourceInstance fs _ d :=
    if reachable d then (None, mkMemDB true (mem_version d) fs) else (Some (External "dial" 1), d);
  Up d :=
    if bool_decide (mem_version d = Some (Z.of_nat (length (mem_source d)), false)) then (Some ErrNoChange, d)
    else (None, mkMemDB (reachable d) (Some (Z.of_nat (length (mem_source d)), false)) (mem_source d));
  Version d := (match mem_version d with Some v => Ok v | None => Err ErrNilVersion end, d);
  migrator_Close d := ((None, None), d);
}.

#[global] Program Instance mem_MigratorLaws : MigratorLaws memDB := {
  recorded := mem_version;
  latest fs := Z.of_nat (length fs);
  opened_for d fs := mem_source d = fs;
}.
Next Obligation. intros fs dsn [[] v s] r w' Hn; simpl in Hn; by simplify_eq. Qed.
Next Obligation. intros d d' fs <- Hu. simpl in Hu. case_bool_decide; by simplify_eq. Qed.
Next Obligation. intros d e d' fs <- Hu _. simpl in Hu. case_bool_decide; by simplify_eq. Qed.
Next Obligation. intros d fs <- Hr. simpl. by rewrite bool_decide_eq_true_2. Qed.
Next Obligation.
  intros d r d' Hv. simpl in Hv. simplify_eq. split; [done|]. destruct (mem_version d'); split; intros; by simplify_eq.
Qed.
Next Obligation. intros d r d' Hc. simpl in Hc. by simplify_eq. Qed.

(** The first start applies the files, the second finds nothing to do. *)
Example migrate_twice :
  let d := mkMemDB true None [] in
  Migrate "dsn" d = ((None, [MigrationsApplied (Some (2, false))]), mkMemDB true (Some (2, false)) FS) /\
  Migrate "dsn" (Migrate "dsn" d).2 = Migrate "dsn" d.
Proof. by vm_compute. Qed.

End Migrations.
