(* ===== verification/Pool.v ===== *)
(** * The worker pool

    Model of src/internal/worker/pool.go. An event is taken through two retried
    stages (its schema, then the handler) and acknowledged at the end. The retry
    loop has no bound in the code, so it takes fuel here; the properties say what
    every outcome means, and that it succeeds as soon as the stage does. A worker
    is also given attempt by attempt, so that several of them can be interleaved. *)

From S2P Require Import Prelude Backoff Event Schema Handler.

(** The context and the clock of a worker. [sleep d] is the select between
    [ctx.Done] ([false]) and [time.After(d)] ([true]). *)
Class Clock (W : Type) := {
  ctx_Err : M W (option error);
  sleep : Z -> M W bool;
  time_Now : M W Z;
}.

(** What the context documents: a done context has an error, and stays done. *)
Class ClockLaws (W : Type) `{Clock W} := {
  canceled : W -> Prop;
  ctx_Err_canceled w e w' : ctx_Err w = (Some e, w') -> canceled w';
  sleep_canceled d w w' : sleep d w = (false, w') -> canceled w';
}.

Module Pool.
Import Proto Event Backoff.

Record poolMetrics := mkPoolMetrics {
  processed : Z;
  failed : CounterVec;
  duration : list Z;
}.

Definition newPoolMetrics : poolMetrics := mkPoolMetrics 0 ∅ [].

(** What a worker acts on: the metrics, the schema cache, the rest of the world,
    and the sleeps and acknowledgements made so far. *)
Inductive effect := Slept (stage : string) (d : Z) | Acked (raw : RawEvent).

Section Pool.
Context {W Schema : Type} `{Clock W}.

Record State := mkState {
  metrics : poolMetrics;
  cache : @Schema.Cache Schema;
  world : W;
  effects : list effect;
}.

Definition incFailed (stage : string) : M State unit :=
  modify (fun s => mkState
    (mkPoolMetrics (processed (metrics s)) (Inc [stage] (failed (metrics s))) (duration (metrics s)))
    (cache s) (world s) (effects s)).

Definition incProcessed (d : Z) : M State unit :=
  modify (fun s => mkState
    (mkPoolMetrics (processed (metrics s) + 1) (failed (metrics s)) (duration (metrics s) ++ [d]))
    (cache s) (world s) (effects s)).

Definition note (x : effect) : M State unit :=
  modify (fun s => mkState (metrics s) (cache s) (world s) (effects s ++ [x])).

(** An operation of the world. *)
Definition onWorld {A} (m : M W A) : M State A := fun s =>
  let '(a, w') := m (world s) in (a, mkState (metrics s) (cache s) w' (effects s)).

(** ** retry *)

(** The body of the loop: succeeded, gave up, or slept and goes round again. *)
Inductive attemptResult (A : Type) := Succeeded (a : A) | GaveUp | Again.
Arguments Succeeded {A} _.
Arguments GaveUp {A}.
Arguments Again {A}.

Definition retryOnce {A} (stage : string) (delay : Z) (fn : M State (result A))
    : M State (attemptResult A) :=
  r ← fn;
  match r with
  | Ok a => mret (Succeeded a)
  | Err err =>
      e ← onWorld ctx_Err;
      match e with
      | Some _ => mret GaveUp
      | None =>
          _ ← incFailed stage;
          _ ← note (Slept stage delay);
          fired ← onWorld (sleep delay);
          if (fired : bool) then mret Again else mret GaveUp
      end
  end.

(** The loop: [Some a] is true with the value [fn] stored, [None] is false; the
    outer [None] is out of fuel. *)
Fixpoint retryFrom {A} (fuel : nat) (stage : string) (delay : Z) (fn : M State (result A))
    : M State (option (option A)) :=
  match fuel with
  | O => mret None
  | S fuel' =>
      r ← retryOnce stage delay fn;
      match r with
      | Succeeded a => mret (Some (Some a))
      | GaveUp => mret (Some None)
      | Again => retryFrom fuel' stage (nextRetryDelay delay) fn
      end
  end.

Definition retry {A} (fuel : nat) (stage : string) (fn : M State (result A)) :=
  retryFrom fuel stage retryMinDelay fn.

(** ** process *)

Context (src : string -> M W (result string)) (avro_Parse : string -> result Schema)
  (avro_Unmarshal : Schema -> list Byte.byte -> result payload)
  (handler : Handler.Handler W) (ack : RawEvent -> M W unit).

Definition schemaIDOf (raw : RawEvent) : string := GetSchemaId (GetEvent (raw_Event raw)).

(** The closure of the first retry: [p.cache.Get]. *)
Definition getSchema (schemaID : string) : M State (result Schema) := fun s =>
  let '(r, c', w') := Schema.Get src avro_Parse schemaID (cache s) (world s) in
  (r, mkState (metrics s) c' w' (effects s)).

(** The closure of the second: [p.handler.Handle]. *)
Definition handle (decoded : DecodedEvent) : M State (result unit) :=
  r ← onWorld (handler decoded);
  match r with Some err => mret (Err err) | None => mret (Ok tt) end.

Definition ackEvent (raw : RawEvent) : M State unit :=
  _ ← note (Acked raw); onWorld (ack raw).

Definition decodedOf (raw : RawEvent) (p : payload) : DecodedEvent :=
  mkDecodedEvent (raw_Topic raw) (GetId (GetEvent (raw_Event raw))) (schemaIDOf raw)
    (GetReplayId (raw_Event raw)) p (raw_ReceivedAt raw).

(** Between the two stages: a payload that does not decode is skipped. *)
Definition decodeOrSkip (raw : RawEvent) (sch : Schema) : M State (option DecodedEvent) :=
  match Schema.Decode avro_Unmarshal (Some sch) (GetPayload (GetEvent (raw_Event raw))) with
  | Err _ => _ ← incFailed "decode"; _ ← ackEvent raw; mret None
  | Ok p => mret (Some (decodedOf raw p))
  end.

(** After the handler succeeded. *)
Definition finishEvent (raw : RawEvent) (start : Z) : M State unit :=
  now ← onWorld time_Now;
  _ ← incProcessed (wrapS64 (now - start));
  ackEvent raw.

Definition process (fuel : nat) (raw : RawEvent) : M State (option unit) :=
  start ← onWorld time_Now;
  fetched ← retry fuel "schema" (getSchema (schemaIDOf raw));
  match fetched with
  | None => mret None
  | Some None => mret (Some tt)
  | Some (Some sch) =>
      d ← decodeOrSkip raw sch;
      match d with
      | None => mret (Some tt)
      | Some decoded =>
          handled ← retry fuel "handler" (handle decoded);
          match handled with
          | None => mret None
          | Some None => mret (Some tt)
          | Some (Some _) => _ ← finishEvent raw start; mret (Some tt)
          end
      end
  end.

(** ** worker

    What the select of the loop picks, one value per turn. *)
Inductive pick := PickDone | PickClosed | PickEvent (raw : RawEvent).

(** [true] when the loop returned. *)
Fixpoint worker (fuel : nat) (picks : list pick) : M State (option bool) :=
  match picks with
  | [] => mret (Some false)
  | PickDone :: _ | PickClosed :: _ => mret (Some true)
  | PickEvent raw :: rest =>
      r ← process fuel raw;
      match r with
      | None => mret None
      | Some _ => worker fuel rest
      end
  end.

(** ** The same worker, attempt by attempt *)

Inductive phase :=
| Idle
| Fetching (raw : RawEvent) (start : Z) (delay : Z)
| Handling (raw : RawEvent) (decoded : DecodedEvent) (start : Z) (delay : Z)
| Exited.

(** Taking an event from the channel. *)
Definition begin_ (raw : RawEvent) : M State phase :=
  start ← onWorld time_Now; mret (Fetching raw start retryMinDelay).

Definition stepWorker (p : phase) : M State phase :=
  match p with
  | Idle | Exited => mret p
  | Fetching raw start delay =>
      r ← retryOnce "schema" delay (getSchema (schemaIDOf raw));
      match r with
      | GaveUp => mret Idle
      | Again => mret (Fetching raw start (nextRetryDelay delay))
      | Succeeded sch =>
          d ← decodeOrSkip raw sch;
          match d with
          | None => mret Idle
          | Some decoded => mret (Handling raw decoded start retryMinDelay)
          end
      end
  | Handling raw decoded start delay =>
      r ← retryOnce "handler" delay (handle decoded);
      match r with
      | GaveUp => mret Idle
      | Again => mret (Handling raw decoded start (nextRetryDelay delay))
      | Succeeded _ => _ ← finishEvent raw start; mret Idle
      end
  end.

Definition wstep (x y : phase * State) : Prop := stepWorker x.1 x.2 = y.

(** ** Several workers on one channel

    [sent] is everything put on the channel so far and [abandoned] the events
    given up, with the world in which that happened. *)

Record PSys := mkPSys {
  st : State;
  ws : list phase;
  chan : list RawEvent;
  closed : bool;
  sent : list RawEvent;
  abandoned : list (RawEvent * W);
}.

(** [Run] starts [n] workers. *)
Definition Run (n : nat) (s : State) : PSys := mkPSys s (replicate n Idle) [] false [] [].

Definition rawOf (p : phase) : option RawEvent :=
  match p with
  | Fetching raw _ _ | Handling raw _ _ _ => Some raw
  | Idle | Exited => None
  end.

Definition ackedOf (s : State) : list RawEvent :=
  omap (fun x => match x with Acked raw => Some raw | Slept _ _ => None end) (effects s).

Context `{!ClockLaws W}.

(** What the workers do: take an event, make an attempt, leave the loop. *)
Inductive pstep : relation PSys :=
| p_take s ws c raw q cl snt ab i s' p : ws !! i = Some Idle -> c = raw :: q ->
    begin_ raw s = (p, s') ->
    pstep (mkPSys s ws c cl snt ab) (mkPSys s' (<[i := p]> ws) q cl snt ab)
| p_attempt s ws c cl snt ab i p p' s' raw : ws !! i = Some p -> rawOf p = Some raw ->
    stepWorker p s = (p', s') ->
    pstep (mkPSys s ws c cl snt ab)
      (mkPSys s' (<[i := p']> ws) c cl snt
         (if bool_decide (rawOf p' = None) && bool_decide (ackedOf s' = ackedOf s)
          then ab ++ [(raw, world s')] else ab))
| p_exit_closed s ws snt ab i : ws !! i = Some Idle ->
    pstep (mkPSys s ws [] true snt ab) (mkPSys s (<[i := Exited]> ws) [] true snt ab)
| p_exit_canceled s ws c cl snt ab i : ws !! i = Some Idle -> canceled (world s) ->
    pstep (mkPSys s ws c cl snt ab) (mkPSys s (<[i := Exited]> ws) c cl snt ab).

(** What happens around them: an event is sent, the channel is closed, the other
    components change the world. *)
Inductive penv : relation PSys :=
| p_send s ws c snt ab raw :
    penv (mkPSys s ws c false snt ab) (mkPSys s ws (c ++ [raw]) false (snt ++ [raw]) ab)
| p_close s ws c snt ab :
    penv (mkPSys s ws c false snt ab) (mkPSys s ws c true snt ab)
| p_world s ws c cl snt ab w :
    penv (mkPSys s ws c cl snt ab)
      (mkPSys (mkState (metrics s) (cache s) w (effects s)) ws c cl snt ab).

(** ** Lemmas on retry *)

(** [fn] leaves the metrics and the effects alone. *)
Definition quiet {A} (fn : M State A) : Prop :=
  forall s, metrics (fn s).2 = metrics s /\ effects (fn s).2 = effects s.

Lemma onWorld_quiet {A} (m : M W A) : quiet (onWorld m).
Proof. intros s. unfold onWorld. by destruct (m (world s)). Qed.

Lemma getSchema_quiet id : quiet (getSchema id).
Proof. intros s. unfold getSchema. by destruct (Schema.Get _ _ _ _ _) as [[? ?] ?]. Qed.

Lemma handle_quiet d : quiet (handle d).
Proof.
  intros s. unfold handle. rewrite M_bind_unfold. pose proof (onWorld_quiet (handler d) s) as Hq.
  by destruct (onWorld (handler d) s) as [[err|] s1].
Qed.

(** [k] attempts that went round again, the first of them the [i]-th. *)
Inductive failures {A} (stage : string) (fn : M State (result A)) : nat -> nat -> State -> State -> Prop :=
| failures_nil i s : failures stage fn i 0 s s
| failures_cons i k s s1 s2 : retryOnce stage (retryDelayAt i) fn s = (Again, s1) ->
    failures stage fn (S i) k s1 s2 -> failures stage fn i (S k) s s2.

Lemma retryFrom_spec {A} fuel stage i (fn : M State (result A)) s r s' :
  retryFrom fuel stage (retryDelayAt i) fn s = (Some r, s') <->
  exists k s1, (k < fuel)%nat /\ failures stage fn i k s s1 /\
    retryOnce stage (retryDelayAt (i + k)) fn s1 =
      (match r with Some a => Succeeded a | None => GaveUp end, s').
Proof.
  revert i s. induction fuel as [|fuel IH]; intros i s; simpl.
  { split; [intros Hr; runM; simplify_eq|]. intros (k & _ & Hk & _). lia. }
  rewrite M_bind_unfold. destruct (retryOnce stage (retryDelayAt i) fn s) as [x s1] eqn:E. cbn [fst snd].
  assert (forall k s2, failures stage fn i k s s2 -> x <> Again -> k = 0%nat /\ s2 = s) as Hstop
    by (intros k s2 Hf Hx; destruct Hf; [done | congruence]).
  destruct x as [a| |].
  - split.
    + intros Hr. runM. simplify_eq. exists 0%nat, s. rewrite Nat.add_0_r. split; [lia|]. split; [constructor|done].
    + intros (k & s2 & Hk & Hf & Hl). apply Hstop in Hf as [-> ->]; [|done].
      rewrite Nat.add_0_r, E in Hl. destruct r; by simplify_eq.
  - split.
    + intros Hr. runM. simplify_eq. exists 0%nat, s. rewrite Nat.add_0_r. split; [lia|]. split; [constructor|done].
    + intros (k & s2 & Hk & Hf & Hl). apply Hstop in Hf as [-> ->]; [|done].
      rewrite Nat.add_0_r, E in Hl. destruct r; by simplify_eq.
  - specialize (IH (S i) s1). change (nextRetryDelay (retryDelayAt i)) with (retryDelayAt (S i)). rewrite IH.
    split; intros (k & s2 & Hk & Hf & Hl).
    + exists (S k), s2. split; [lia|]. split; [by econstructor|]. by rewrite Nat.add_succ_r.
    + inversion Hf as [|? k' ? s3 ? E' Hf']; subst.
      { rewrite Nat.add_0_r, E in Hl. by destruct r. }
      assert (s3 = s1) as -> by congruence.
      exists k', s2. split; [lia|]. split; [done|]. by rewrite Nat.add_succ_r in Hl.
Qed.

(** The effects and counts of one attempt. *)
Lemma retryOnce_effects {A} stage d (fn : M State (result A)) s r s' :
  quiet fn -> retryOnce stage d fn s = (r, s') ->
  match r with
  | Succeeded a => fn s = (Ok a, s')
  | GaveUp => ackedOf s' = ackedOf s
  | Again => effects s' = effects s ++ [Slept stage d] /\
      failed (metrics s') = Inc [stage] (failed (metrics s)) /\
      processed (metrics s') = processed (metrics s)
  end.
Proof.
  intros Hq Hr. unfold retryOnce in Hr. rewrite M_bind_unfold in Hr.
  destruct (Hq s) as [Hm He]. destruct (fn s) as [[a|err] s1] eqn:Ef; cbn [fst snd] in *.
  { runM. by simplify_eq. }
  rewrite M_bind_unfold in Hr. destruct (onWorld_quiet ctx_Err s1) as [Hm1 He1].
  destruct (onWorld ctx_Err s1) as [[e|] s2]; cbn [fst snd] in *.
  { runM. simplify_eq. unfold ackedOf. by rewrite He1, He. }
  rewrite !M_bind_unfold in Hr. cbn [incFailed note modify fst snd] in Hr.
  match type of Hr with context [onWorld (sleep d) ?x] =>
    destruct (onWorld_quiet (sleep d) x) as [Hm2 He2]; destruct (onWorld (sleep d) x) as [fired s3] end.
  cbn [fst snd] in *. cbn [metrics effects failed processed] in *.
  destruct fired; runM; simplify_eq.
  - by rewrite He2, He1, He, Hm2, Hm1, Hm.
  - unfold ackedOf. rewrite He2, He1, He, omap_app. simpl. by rewrite app_nil_r.
Qed.

Lemma failures_effects {A} stage (fn : M State (result A)) i k s s' :
  quiet fn -> failures stage fn i k s s' ->
  effects s' = effects s ++ ((fun j => Slept stage (retryDelayAt j)) <$> seq i k) /\
  count [stage] (failed (metrics s')) = count [stage] (failed (metrics s)) + Z.of_nat k /\
  processed (metrics s') = processed (metrics s).
Proof.
  intros Hq Hf. induction Hf as [i s|i k s s1 s2 E Hf (IH1 & IH2 & IH3)].
  { simpl. rewrite app_nil_r. split; [done|]. split; [lia | done]. }
  destruct (retryOnce_effects _ _ _ _ _ _ Hq E) as (He & Hm & Hp).
  rewrite IH1, IH2, IH3, He, Hm, Hp, <- app_assoc, count_Inc_eq. split; [done|]. split; [lia | done].
Qed.

Lemma retryOnce_gaveUp {A} stage d (fn : M State (result A)) s s' :
  retryOnce stage d fn s = (GaveUp, s') -> canceled (world s').
Proof.
  unfold retryOnce. rewrite M_bind_unfold. destruct (fn s) as [[a|err] s1]; cbn [fst snd]; [done|].
  rewrite M_bind_unfold. unfold onWorld. destruct (ctx_Err (world s1)) as [[e|] w1] eqn:Ec; cbn [fst snd].
  { intros Hr. runM. injection Hr as <-. apply (ctx_Err_canceled _ _ _ Ec). }
  rewrite !M_bind_unfold. cbn [incFailed note modify fst snd world].
  destruct (sleep d w1) as [[] w2] eqn:Es; cbn [fst snd]; intros Hr; runM; [done|].
  injection Hr as <-. apply (sleep_canceled _ _ _ Es).
Qed.

(** ** Lemmas on the phases of a worker *)

Lemma ackEvent_acked raw s : ackedOf (ackEvent raw s).2 = ackedOf s ++ [raw].
Proof.
  unfold ackEvent. rewrite M_bind_unfold. cbn [note modify fst snd].
  match goal with |- context [onWorld (ack raw) ?x] => destruct (onWorld_quiet (ack raw) x) as [_ He] end.
  unfold ackedOf. rewrite He. simpl. by rewrite omap_app.
Qed.

Lemma finishEvent_acked raw start s : ackedOf (finishEvent raw start s).2 = ackedOf s ++ [raw].
Proof.
  unfold finishEvent. rewrite !M_bind_unfold, ackEvent_acked.
  destruct (onWorld_quiet time_Now s) as [_ He]. unfold ackedOf. simpl. by rewrite He.
Qed.

(** The handler of a [Handling] phase works on what its event decodes to. *)
Definition phase_ok (p : phase) : Prop :=
  match p with
  | Handling raw decoded _ _ => exists sch pl,
      Schema.Decode avro_Unmarshal (Some sch) (GetPayload (GetEvent (raw_Event raw))) = Ok pl /\
      decoded = decodedOf raw pl
  | _ => True
  end.

(** Why an event was acknowledged, given the state the acknowledgement left: it
    does not decode, or the handler succeeded on it and the acknowledgement
    followed at once. *)
Definition acknowledged (raw : RawEvent) (s' : State) : Prop :=
  (exists sch e s1, Schema.Decode avro_Unmarshal (Some sch) (GetPayload (GetEvent (raw_Event raw))) = Err e /\
     decodeOrSkip raw sch s1 = (None, s')) \/
  (exists sch pl start s1 s2,
     Schema.Decode avro_Unmarshal (Some sch) (GetPayload (GetEvent (raw_Event raw))) = Ok pl /\
     handle (decodedOf raw pl) s1 = (Ok tt, s2) /\ finishEvent raw start s2 = (tt, s')).

Lemma stepWorker_cases p s p' s' raw :
  rawOf p = Some raw -> phase_ok p -> stepWorker p s = (p', s') ->
  phase_ok p' /\
  ((rawOf p' = Some raw /\ ackedOf s' = ackedOf s) \/
   (p' = Idle /\ ackedOf s' = ackedOf s ++ [raw] /\ acknowledged raw s') \/
   (p' = Idle /\ ackedOf s' = ackedOf s /\ canceled (world s'))).
Proof.
  intros Hraw Hok Hs. destruct p as [|raw0 start d|raw0 dec start d|]; simplify_eq/=;
    rewrite M_bind_unfold in Hs.
  - destruct (retryOnce "schema" d (getSchema (schemaIDOf raw)) s) as [r s1] eqn:Er; cbn [fst snd] in Hs.
    pose proof (retryOnce_effects _ _ _ _ _ _ (getSchema_quiet _) Er) as He.
    destruct r as [sch| |].
    + destruct (getSchema_quiet (schemaIDOf raw) s) as [_ Hq]. rewrite He in Hq. simpl in Hq.
      assert (ackedOf s1 = ackedOf s) as Ha by (unfold ackedOf; by rewrite Hq).
      rewrite M_bind_unfold in Hs. unfold decodeOrSkip in Hs.
      destruct (Schema.Decode avro_Unmarshal (Some sch) _) as [pl|e] eqn:Ed.
      * cbn [mret M_ret fst snd] in Hs. runM. simplify_eq/=. eauto 10.
      * rewrite !M_bind_unfold in Hs. cbn [mret M_ret fst snd] in Hs. runM. simplify_eq.
        split; [done|]. right. left. split; [done|]. split; [by rewrite ackEvent_acked, <- Ha|].
        left. exists sch, e, s1. split; [done|]. unfold decodeOrSkip. rewrite Ed, !M_bind_unfold. done.
    + runM. simplify_eq. split; [done|]. right. right. split; [done|]. split; [done|].
      by eapply retryOnce_gaveUp.
    + runM. simplify_eq/=. split; [done|]. left. split; [done|].
      destruct He as (He & _). unfold ackedOf. rewrite He, omap_app. simpl. by rewrite app_nil_r.
  - destruct (retryOnce "handler" d (handle dec) s) as [r s1] eqn:Er; cbn [fst snd] in Hs.
    pose proof (retryOnce_effects _ _ _ _ _ _ (handle_quiet _) Er) as He.
    destruct r as [[]| |].
    + destruct (handle_quiet dec s) as [_ Hq]. rewrite He in Hq. simpl in Hq.
      rewrite M_bind_unfold in Hs. runM. simplify_eq. split; [done|]. right. left. split; [done|].
      rewrite finishEvent_acked. unfold ackedOf at 1. rewrite Hq. split; [done|].
      right. destruct Hok as (sch & pl & Hd & ->). exists sch, pl, start, s, s1.
      split; [done|]. split; [done|]. by destruct (finishEvent raw start s1) as [[] ?].
    + runM. simplify_eq. split; [done|]. right. right. split; [done|]. split; [done|].
      by eapply retryOnce_gaveUp.
    + runM. simplify_eq/=. split; [done|]. left. split; [done|].
      destruct He as (He & _). unfold ackedOf. rewrite He, omap_app. simpl. by rewrite app_nil_r.
Qed.

(** ** What a step does to the world

    [I] is any condition on the world that the calls a worker makes keep, and [Q]
    what the handler's success gives. Then an attempt keeps [I], or it ends with an
    acknowledgement made in a world where [I] holds and the event either has [Q] or
    does not decode against a schema that the source provides for it. *)

Definition provides (id : string) (sch : Schema) : Prop :=
  exists w json w', src id w = (Ok json, w') /\ avro_Parse json = Ok sch.

Definition cache_ok (c : @Schema.Cache Schema) : Prop :=
  forall id sch, Schema.parsed c !! id = Some sch -> provides id sch.

Definition undecodable (e : option ConsumerEvent) : Prop :=
  exists sch err, provides (GetSchemaId (GetEvent e)) sch /\
    Schema.Decode avro_Unmarshal (Some sch) (GetPayload (GetEvent e)) = Err err.

Section Frame.
Context (I : W -> Prop) (Q : RawEvent -> W -> Prop).
Context (I_src : forall id w, I w -> I (src id w).2).
Context (I_ctx : forall w, I w -> I (ctx_Err w).2).
Context (I_sleep : forall d w, I w -> I (sleep d w).2).
Context (I_now : forall w, I w -> I (time_Now w).2).
Context (Q_now : forall raw w, I w -> Q raw w -> Q raw (time_Now w).2).
Context (I_handler : forall raw pl w r w', I w -> handler (decodedOf raw pl) w = (r, w') ->
  I w' /\ (r = None -> Q raw w')).

Lemma onWorld_I {A} (m : M W A) s :
  (I (world s) -> I (m (world s)).2) -> I (world s) -> I (world (onWorld m s).2).
Proof. unfold onWorld. destruct (m (world s)). auto. Qed.

Lemma onWorld_cache {A} (m : M W A) s : cache (onWorld m s).2 = cache s.
Proof. unfold onWorld. by destruct (m (world s)). Qed.

Lemma getSchema_frame id s r s' :
  I (world s) -> cache_ok (cache s) -> getSchema id s = (r, s') ->
  I (world s') /\ cache_ok (cache s') /\ (forall sch, r = Ok sch -> provides id sch).
Proof.
  intros HI Hc. unfold getSchema, Schema.Get, Schema.fetch. cbn [Schema.parsed].
  destruct (Schema.parsed (cache s) !! id) as [sch|] eqn:E.
  { intros Hr. simplify_eq/=. split; [done|]. split; [done|]. intros ? [= ->]. by apply Hc. }
  pose proof (I_src id _ HI) as Hi. destruct (src id (world s)) as [[json|err] w'] eqn:Es; simpl in Hi.
  2: { intros Hr. simplify_eq/=. done. }
  destruct (avro_Parse json) as [sch|err] eqn:Ep; intros Hr; simplify_eq/=; [|done].
  assert (provides id sch) as Hprov by (do 3 eexists; done).
  split; [done|]. split; [|by intros ? [= ->]].
  intros id' sch'. simpl. rewrite lookup_insert_Some. intros [[<- <-]|[_ ?]]; [done|by apply Hc].
Qed.

Lemma retryOnce_frame {A} stage d (fn : M State (result A)) s r s' :
  (forall r1 s1, fn s = (r1, s1) -> I (world s1) /\ cache_ok (cache s1)) ->
  retryOnce stage d fn s = (r, s') -> I (world s') /\ cache_ok (cache s').
Proof.
  intros Hfn. unfold retryOnce. rewrite M_bind_unfold.
  destruct (fn s) as [[a|err] s1]; cbn [fst snd]; destruct (Hfn _ _ eq_refl) as [HI Hc].
  { intros Hr. runM. by simplify_eq. }
  rewrite M_bind_unfold.
  pose proof (onWorld_I ctx_Err s1 (I_ctx _) HI) as HI2. pose proof (onWorld_cache ctx_Err s1) as Hc2.
  destruct (onWorld ctx_Err s1) as [[e|] s2]; cbn [fst snd] in *.
  { intros Hr. runM. simplify_eq. by rewrite Hc2. }
  rewrite !M_bind_unfold. cbn [incFailed note modify fst snd].
  match goal with |- context [onWorld (sleep d) ?x] =>
    pose proof (onWorld_I (sleep d) x (I_sleep _ _) HI2) as HI3;
    pose proof (onWorld_cache (sleep d) x) as Hc3;
    destruct (onWorld (sleep d) x) as [fired s3] end.
  cbn [fst snd cache] in *. destruct fired; intros Hr; runM; simplify_eq; by rewrite Hc3, Hc2.
Qed.

Lemma ackEvent_world raw s : exists s', ackEvent raw s = (tt, s') /\
  ack raw (world s) = (tt, world s') /\ cache s' = cache s.
Proof.
  unfold ackEvent. rewrite M_bind_unfold. cbn [note modify fst snd]. unfold onWorld. cbn [world].
  destruct (ack raw (world s)) as [[] w'] eqn:E. eexists. split; [done|]. done.
Qed.

Lemma finishEvent_world raw start s : exists s', finishEvent raw start s = (tt, s') /\
  ack raw (time_Now (world s)).2 = (tt, world s') /\ cache s' = cache s.
Proof.
  unfold finishEvent. rewrite !M_bind_unfold. cbn [incProcessed modify fst snd].
  match goal with |- context [ackEvent raw ?x] =>
    destruct (ackEvent_world raw x) as (s' & -> & Hack & Hc) end.
  exists s'. split; [done|]. unfold onWorld in *. by destruct (time_Now (world s)).
Qed.

(** What an attempt may do: leave the invariant and the acknowledgements alone, or
    acknowledge the event in a world in which it is settled. *)
Definition attempt_ok (raw : RawEvent) (s s' : State) : Prop :=
  cache_ok (cache s') /\
  ((I (world s') /\ ackedOf s' = ackedOf s) \/
   (exists w1, I w1 /\ (Q raw w1 \/ undecodable (raw_Event raw)) /\ ack raw w1 = (tt, world s') /\
      ackedOf s' = ackedOf s ++ [raw])).

Lemma fetching_frame raw start d s p' s' :
  I (world s) -> cache_ok (cache s) -> stepWorker (Fetching raw start d) s = (p', s') -> attempt_ok raw s s'.
Proof.
  intros HI Hc Hs. unfold attempt_ok. cbn [stepWorker] in Hs. rewrite M_bind_unfold in Hs.
  destruct (retryOnce "schema" d (getSchema (schemaIDOf raw)) s) as [r s1] eqn:Er; cbn [fst snd] in Hs.
  destruct (retryOnce_frame _ _ _ _ _ _ (fun r1 s1 E => let H := getSchema_frame _ _ _ _ HI Hc E in
    conj (proj1 H) (proj1 (proj2 H))) Er) as [HI1 Hc1].
  pose proof (retryOnce_effects _ _ _ _ _ _ (getSchema_quiet _) Er) as He.
  destruct r as [sch| |]; [|runM; simplify_eq; by eauto|].
  - destruct (getSchema_frame _ _ _ _ HI Hc He) as (_ & _ & Hprov).
    destruct (getSchema_quiet (schemaIDOf raw) s) as [_ Hq]. rewrite He in Hq. simpl in Hq.
    assert (ackedOf s1 = ackedOf s) as Ha by (unfold ackedOf; by rewrite Hq).
    rewrite M_bind_unfold in Hs. unfold decodeOrSkip in Hs.
    destruct (Schema.Decode avro_Unmarshal (Some sch) _) as [pl|e] eqn:Ed.
    + cbn [mret M_ret fst snd] in Hs. runM. simplify_eq/=. auto.
    + rewrite !M_bind_unfold in Hs. cbn [incFailed modify fst snd] in Hs.
      match type of Hs with context [ackEvent raw ?x] =>
        destruct (ackEvent_world raw x) as (s2 & Ea & Hack & Hc2);
        pose proof (ackEvent_acked raw x) as Ha2 end.
      rewrite Ea in Hs, Ha2. cbn [fst snd mret M_ret] in Hs. runM. simplify_eq.
      rewrite Hc2. split; [done|]. right. eexists. split; [exact HI1|]. split; [|split; [exact Hack|]].
      * right. exists sch, e. split; [by apply Hprov | done].
      * rewrite Ha2, <- Ha. done.
  - runM. simplify_eq/=. split; [done|]. left. split; [done|].
    destruct He as (He & _). unfold ackedOf. rewrite He, omap_app. simpl. by rewrite app_nil_r.
Qed.

Lemma handling_frame raw dec start d s p' s' :
  phase_ok (Handling raw dec start d) -> I (world s) -> cache_ok (cache s) ->
  stepWorker (Handling raw dec start d) s = (p', s') -> attempt_ok raw s s'.
Proof.
  intros Hok HI Hc Hs. unfold attempt_ok. cbn [stepWorker] in Hs. rewrite M_bind_unfold in Hs.
  assert (forall r1 s1, handle dec s = (r1, s1) ->
    I (world s1) /\ cache_ok (cache s1) /\ (r1 = Ok tt -> Q raw (world s1))) as Hh.
  { destruct Hok as (sch & pl & _ & ->). intros r1 s1 E. unfold handle in E. rewrite M_bind_unfold in E.
    unfold onWorld in E. destruct (handler _ (world s)) as [r w1] eqn:Eh.
    destruct (I_handler _ _ _ _ _ HI Eh) as [HI1 HQ].
    destruct r; cbn [fst snd] in E; runM; simplify_eq/=; (split; [done|]; split; [done|]); [done|auto]. }
  destruct (retryOnce "handler" d (handle dec) s) as [r s1] eqn:Er; cbn [fst snd] in Hs.
  destruct (retryOnce_frame _ _ _ _ _ _ (fun r1 s1 E => let H := Hh _ _ E in
    conj (proj1 H) (proj1 (proj2 H))) Er) as [HI1 Hc1].
  pose proof (retryOnce_effects _ _ _ _ _ _ (handle_quiet _) Er) as He.
  destruct r as [[]| |]; [|runM; simplify_eq; by eauto|].
  - destruct (Hh _ _ He) as (_ & _ & HQ). specialize (HQ eq_refl).
    destruct (handle_quiet dec s) as [_ Hq]. rewrite He in Hq. simpl in Hq.
    pose proof (finishEvent_acked raw start s1) as Ha2. rewrite M_bind_unfold in Hs.
    destruct (finishEvent_world raw start s1) as (s2 & Ef & Hack & Hc2). rewrite Ef in Hs, Ha2.
    cbn [fst snd] in *. runM. simplify_eq. rewrite Hc2. split; [done|]. right.
    exists (time_Now (world s1)).2. split; [by apply I_now|]. split; [left; by apply Q_now|].
    split; [done|]. rewrite Ha2. unfold ackedOf. by rewrite Hq.
  - runM. simplify_eq/=. split; [done|]. left. split; [done|].
    destruct He as (He & _). unfold ackedOf. rewrite He, omap_app. simpl. by rewrite app_nil_r.
Qed.

Lemma stepWorker_frame p s p' s' raw :
  rawOf p = Some raw -> phase_ok p -> I (world s) -> cache_ok (cache s) -> stepWorker p s = (p', s') ->
  attempt_ok raw s s'.
Proof.
  intros Hraw Hok HI Hc Hs. destruct p as [|raw0 start d|raw0 dec start d|]; simplify_eq/=.
  - by eapply fetching_frame.
  - by eapply handling_frame.
Qed.

End Frame.

(** Attempts that go round again leave a worker in the same stage. *)
Lemma fetching_again raw start i k s s' :
  failures "schema" (getSchema (schemaIDOf raw)) i k s s' ->
  rtc wstep (Fetching raw start (retryDelayAt i), s) (Fetching raw start (retryDelayAt (i + k)), s').
Proof.
  intros Hf. induction Hf as [i s|i k s s1 s2 E Hf IH]; [rewrite Nat.add_0_r; constructor|].
  rewrite Nat.add_succ_r. eapply rtc_l; [|exact IH].
  unfold wstep. simpl. rewrite M_bind_unfold, E. done.
Qed.

Lemma handling_again raw dec start i k s s' :
  failures "handler" (handle dec) i k s s' ->
  rtc wstep (Handling raw dec start (retryDelayAt i), s) (Handling raw dec start (retryDelayAt (i + k)), s').
Proof.
  intros Hf. induction Hf as [i s|i k s s1 s2 E Hf IH]; [rewrite Nat.add_0_r; constructor|].
  rewrite Nat.add_succ_r. eapply rtc_l; [|exact IH].
  unfold wstep. simpl. rewrite M_bind_unfold, E. done.
Qed.

(** The handler stage of [process], as steps of a worker. *)
Lemma handling_steps fuel raw dec start s r s' :
  retry fuel "handler" (handle dec) s = (Some r, s') ->
  rtc wstep (Handling raw dec start retryMinDelay, s)
    (Idle, match r with Some _ => (finishEvent raw start s').2 | None => s' end).
Proof.
  intros Hr. apply (retryFrom_spec _ _ 0) in Hr as (k & s1 & _ & Hf & Hl).
  etrans; [apply (handling_again _ _ _ 0 _ _ _ Hf)|]. apply rtc_once.
  unfold wstep, stepWorker. cbn [fst snd]. rewrite M_bind_unfold, Hl.
  destruct r as [[]|]; [|done]. cbn [fst snd]. by rewrite M_bind_unfold.
Qed.

Lemma process_steps fuel raw s s' :
  process fuel raw s = (Some tt, s') ->
  exists p s0, begin_ raw s = (p, s0) /\ rtc wstep (p, s0) (Idle, s').
Proof.
  unfold process, begin_. rewrite !M_bind_unfold. destruct (onWorld time_Now s) as [start s0]. cbn [fst snd].
  intros Hr. eexists _, _. split; [done|].
  destruct (retry fuel "schema" _ s0) as [r s1] eqn:E. cbn [fst snd] in Hr.
  destruct r as [r|]; [|runM; done].
  apply (retryFrom_spec _ _ 0) in E as (k & s2 & _ & Hf & Hl).
  etrans; [apply (fetching_again _ _ 0 _ _ _ Hf)|]. clear Hf.
  destruct r as [sch|].
  - rewrite M_bind_unfold in Hr.
    destruct (decodeOrSkip raw sch s1) as [d s3] eqn:Ed. cbn [fst snd] in Hr.
    apply rtc_l with (match d with Some dec => Handling raw dec start retryMinDelay | None => Idle end, s3).
    { unfold wstep, stepWorker. cbn [fst snd]. rewrite M_bind_unfold, Hl. cbn [fst snd]. rewrite M_bind_unfold, Ed.
      by destruct d. }
    destruct d as [dec|]; [|runM; simplify_eq; constructor].
    rewrite M_bind_unfold in Hr.
    destruct (retry fuel "handler" (handle dec) s3) as [[r|] s4] eqn:Eh; cbn [fst snd] in Hr; [|runM; done].
    pose proof (handling_steps fuel raw dec start s3 r s4 Eh) as Hs.
    destruct r; [rewrite M_bind_unfold in Hr|]; runM; by simplify_eq.
  - runM. simplify_eq. apply rtc_once. unfold wstep, stepWorker. cbn [fst snd]. by rewrite M_bind_unfold, Hl.
Qed.

(** What a worker owes to the event it took. *)
Definition owes (raw : RawEvent) (acks : list RawEvent) (x : phase * State) : Prop :=
  phase_ok x.1 /\
  ((rawOf x.1 = Some raw /\ ackedOf x.2 = acks) \/
   (x.1 = Idle /\ ackedOf x.2 = acks ++ [raw] /\ acknowledged raw x.2) \/
   (x.1 = Idle /\ ackedOf x.2 = acks /\ canceled (world x.2))).

Lemma owes_step raw acks x y : owes raw acks x -> wstep x y -> owes raw acks y.
Proof.
  intros [Hok Hx] Hs. destruct x as [p s], y as [p' s']. unfold wstep in Hs. simpl in *.
  destruct Hx as [[Hr Ha]|Hidle].
  - destruct (stepWorker_cases _ _ _ _ _ Hr Hok Hs) as [Hok' Hc]. rewrite Ha in Hc. by split.
  - assert (p = Idle) as -> by (by destruct Hidle as [[? _]|[? _]]).
    simpl in Hs. runM. simplify_eq. by split; [|right].
Qed.

Lemma begin_owes raw s p s' : begin_ raw s = (p, s') -> owes raw (ackedOf s) (p, s').
Proof.
  unfold begin_. rewrite M_bind_unfold. destruct (onWorld_quiet time_Now s) as [_ He].
  destruct (onWorld time_Now s) as [start s1]. simpl in *. intros Hr. runM. simplify_eq.
  split; [done|]. left. split; [done|]. unfold ackedOf. simpl. by rewrite He.
Qed.

(** ** Lemmas on several workers *)

Definition inflight (ws : list phase) : list RawEvent := omap rawOf ws.

Lemma inflight_insert (ws : list phase) i p p' :
  ws !! i = Some p ->
  inflight (<[i := p']> ws) ++ option_list (rawOf p) ≡ₚ inflight ws ++ option_list (rawOf p').
Proof.
  intros Hi. apply list_elem_of_split_length in Hi as (l1 & l2 & -> & ->).
  rewrite insert_app_r_alt, Nat.sub_diag by lia. simpl. unfold inflight.
  rewrite !omap_app. simpl.
  destruct (rawOf p), (rawOf p'); simpl; rewrite ?app_nil_r; solve_Permutation.
Qed.

Lemma inflight_exited (ws : list phase) : Forall (fun p => p = Exited) ws -> inflight ws = [].
Proof. intros Hws. induction Hws as [|p ws -> _ IH]; [done|exact IH]. Qed.

Definition pall (s s' : PSys) : Prop := pstep s s' \/ penv s s'.

Record pinv (s : PSys) : Prop := {
  pi_sent : sent s ≡ₚ chan s ++ inflight (ws s) ++ ackedOf (st s) ++ (abandoned s).*1;
  pi_canceled : Forall (fun x => canceled x.2) (abandoned s);
  pi_phases : Forall phase_ok (ws s);
}.

Lemma pinv_Run n s : ackedOf s = [] -> pinv (Run n s).
Proof.
  intros Ha. split; simpl; [|constructor|by apply Forall_replicate].
  rewrite Ha. induction n; simpl; done.
Qed.

Lemma pinv_step s s' : pinv s -> pall s s' -> pinv s'.
Proof.
  intros [Hs Hc Hp] [Hst|Hst];
    [destruct Hst as [s ws c raw q cl snt ab i s' p Hi -> Hb | s ws c cl snt ab i p p' s' raw Hi Hr Hst
      | s ws snt ab i Hi | s ws c cl snt ab i Hi _]
    |destruct Hst as [s ws c snt ab raw | s ws c snt ab | s ws c cl snt ab w]];
    simpl in *.
  - destruct (begin_owes _ _ _ _ Hb) as [Hok Ho].
    destruct Ho as [[Hr Ha]|Ho]; simpl in *.
    2: { unfold begin_ in Hb. rewrite M_bind_unfold in Hb. runM. simplify_eq. naive_solver. }
    split; simpl; [|done|by apply Forall_insert].
    rewrite Hs, Ha. pose proof (inflight_insert _ _ _ p Hi) as Hin. rewrite Hr in Hin. simpl in Hin.
    rewrite app_nil_r in Hin. rewrite Hin. solve_Permutation.
  - destruct (stepWorker_cases _ _ _ _ _ Hr (Forall_lookup_1 _ _ _ _ Hp Hi) Hst) as [Hok Ho].
    pose proof (inflight_insert _ _ _ p' Hi) as Hin. rewrite Hr in Hin. simpl in Hin.
    destruct Ho as [[Hr' Ha]|[(-> & Ha & _)|(-> & Ha & Hcan)]].
    + rewrite (bool_decide_eq_false_2 (rawOf p' = None)) by congruence. simpl.
      split; simpl; [|done|by apply Forall_insert].
      rewrite Hr' in Hin. simpl in Hin. apply (inj (.++ [raw])) in Hin. by rewrite Hs, Ha, Hin.
    + rewrite (bool_decide_eq_false_2 (ackedOf s' = ackedOf s)).
      2: { rewrite Ha. intros Heq. apply (f_equal length) in Heq. rewrite length_app in Heq. simpl in Heq. lia. }
      rewrite andb_false_r. split; simpl; [|done|by apply Forall_insert].
      simpl in Hin. rewrite app_nil_r in Hin. rewrite Hs, Ha, <- Hin. solve_Permutation.
    + rewrite !bool_decide_eq_true_2 by done. simpl.
      split; simpl; [|apply Forall_app; by repeat constructor|by apply Forall_insert].
      simpl in Hin. rewrite app_nil_r in Hin. rewrite Hs, Ha, <- Hin, fmap_app. simpl. solve_Permutation.
  - pose proof (inflight_insert _ _ _ Exited Hi) as Hin. simpl in Hin. rewrite !app_nil_r in Hin.
    split; simpl; [by rewrite Hin|done|by apply Forall_insert].
  - pose proof (inflight_insert _ _ _ Exited Hi) as Hin. simpl in Hin. rewrite !app_nil_r in Hin.
    split; simpl; [by rewrite Hin|done|by apply Forall_insert].
  - split; simpl; [|done|done]. rewrite Hs. solve_Permutation.
  - by split.
  - by split.
Qed.

(** When nothing is canceled, a worker leaves only a closed and drained channel. *)
Definition drained (s : PSys) : Prop := Exited ∈ ws s -> chan s = [] /\ closed s = true.

Lemma drained_step s s' :
  (forall w, ~ canceled w) -> pinv s -> drained s -> pall s s' -> drained s'.
Proof.
  intros Hnc Hpi Hd Hst.
  assert (forall (ws : list phase) i p, Exited ∈ <[i := p]> ws -> p <> Exited -> Exited ∈ ws) as Hins.
  { intros l i p Hin Hp. apply list_elem_of_lookup in Hin as [j Hj].
    apply list_lookup_insert_Some in Hj as [(_ & -> & _)|[_ Hj]]; [done|]. by eapply list_elem_of_lookup_2. }
  destruct Hst as [Hst|Hst];
    [destruct Hst as [s ws c raw q cl snt ab i s' p Hi -> Hb | s ws c cl snt ab i p p' s' raw Hi Hr Hst
      | s ws snt ab i Hi | s ws c cl snt ab i Hi Hcan]
    |destruct Hst as [s ws c snt ab raw | s ws c snt ab | s ws c cl snt ab w]];
    intros Hex; simpl in *; try done.
  - destruct Hd as [Hd _]; [|done]. apply (Hins _ _ _ Hex).
    unfold begin_ in Hb. rewrite M_bind_unfold in Hb. runM. by simplify_eq.
  - apply Hd, (Hins _ _ _ Hex). intros ->.
    destruct (stepWorker_cases _ _ _ _ _ Hr (Forall_lookup_1 _ _ _ _ (pi_phases _ Hpi) Hi) Hst)
      as [_ [[? _]|[[? _]|[? _]]]]; done.
  - by destruct (Hnc _ Hcan).
  - by destruct (Hd Hex).
  - by destruct (Hd Hex).
  - by apply Hd.
Qed.

Lemma retryOnce_ok {A} stage d (fn : M State (result A)) s a s' :
  fn s = (Ok a, s') -> retryOnce stage d fn s = (Succeeded a, s').
Proof. intros Hf. unfold retryOnce. by rewrite M_bind_unfold, Hf. Qed.

Lemma retry_ok {A} fuel stage (fn : M State (result A)) k s s1 a s2 :
  failures stage fn 0 k s s1 -> fn s1 = (Ok a, s2) -> (k < fuel)%nat ->
  retry fuel stage fn s = (Some (Some a), s2).
Proof.
  intros Hf Ha Hk. apply (retryFrom_spec _ _ 0). exists k, s1. split; [done|]. split; [done|].
  by apply retryOnce_ok.
Qed.

(** The sleeps of [k] failed attempts. *)
Definition backoffs (stage : string) (k : nat) : list effect :=
  (fun j : nat => Slept stage (Z.min (retryMinDelay * 2 ^ Z.of_nat j) retryMaxDelay)) <$> seq 0 k.

Lemma backoffs_spec stage k : ((fun j => Slept stage (retryDelayAt j)) <$> seq 0 k) = backoffs stage k.
Proof. apply list_fmap_ext. intros ? ? _. by rewrite retryDelayAt_spec. Qed.

(** A schedule, executed: each command is one step of the machine. *)
Inductive cmd := CSend (raw : RawEvent) | CClose | CTake (i : nat) | CAttempt (i : nat) | CExit (i : nat).

Definition exec1 (c : cmd) (x : PSys) : option PSys :=
  match c with
  | CSend raw =>
      if closed x then None
      else Some (mkPSys (st x) (ws x) (chan x ++ [raw]) false (sent x ++ [raw]) (abandoned x))
  | CClose => if closed x then None else Some (mkPSys (st x) (ws x) (chan x) true (sent x) (abandoned x))
  | CTake i =>
      match ws x !! i, chan x with
      | Some Idle, raw :: q =>
          let '(p, s') := begin_ raw (st x) in
          Some (mkPSys s' (<[i := p]> (ws x)) q (closed x) (sent x) (abandoned x))
      | _, _ => None
      end
  | CAttempt i =>
      match ws x !! i with
      | Some p =>
          match rawOf p with
          | Some raw =>
              let '(p', s') := stepWorker p (st x) in
              Some (mkPSys s' (<[i := p']> (ws x)) (chan x) (closed x) (sent x)
                (if bool_decide (rawOf p' = None) && bool_decide (ackedOf s' = ackedOf (st x))
                 then abandoned x ++ [(raw, world s')] else abandoned x))
          | None => None
          end
      | None => None
      end
  | CExit i =>
      match ws x !! i, chan x, closed x with
      | Some Idle, [], true => Some (mkPSys (st x) (<[i := Exited]> (ws x)) [] true (sent x) (abandoned x))
      | _, _, _ => None
      end
  end.

Fixpoint exec (cs : list cmd) (x : PSys) : option PSys :=
  match cs with
  | [] => Some x
  | c :: cs' => match exec1 c x with Some y => exec cs' y | None => None end
  end.

(** The commands of the workers are steps of theirs. *)
Definition isWorkerCmd (c : cmd) : bool :=
  match c with CTake _ | CAttempt _ | CExit _ => true | CSend _ | CClose => false end.

Lemma exec1_worker c x y : isWorkerCmd c = true -> exec1 c x = Some y -> pstep x y.
Proof.
  destruct x as [s ws c0 cl snt ab]. intros Hw He. destruct c as [raw| |i|i|i]; cbn in He; [done|done|..].
  - split_match. by econstructor.
  - destruct (ws !! i) as [p|] eqn:Ei; [|done]. destruct (rawOf p) as [raw|] eqn:Er; [|done].
    destruct (stepWorker p s) as [p' s'] eqn:Es. simplify_eq. by econstructor.
  - split_match. by constructor.
Qed.

Lemma exec1_step c x y : exec1 c x = Some y -> pall x y.
Proof.
  intros He. destruct (isWorkerCmd c) eqn:Ec; [left; by eapply exec1_worker|right].
  destruct x as [s ws c0 cl snt ab], c; try done; cbn in He; split_match; constructor.
Qed.

Lemma exec_steps cs x y : exec cs x = Some y -> rtc pall x y.
Proof.
  revert x. induction cs as [|c cs IH]; intros x He; cbn in He; [simplify_eq; constructor|].
  destruct (exec1 c x) as [z|] eqn:E; [|done]. eapply rtc_l; [by eapply exec1_step | by apply IH].
Qed.

(** ** Properties *)

(** Retrying ends with the first success: when a stage fails [k] times while
    the context lives and then succeeds, the loop returns that success, having
    slept 100ms, 200ms, 400ms and so on up to ten seconds between attempts and
    having counted each failure once under the stage's label. *)
Theorem retry_until_success {A} fuel stage (fn : M State (result A)) k s s1 a s2 :
  quiet fn -> failures stage fn 0 k s s1 -> fn s1 = (Ok a, s2) -> (k < fuel)%nat ->
  retry fuel stage fn s = (Some (Some a), s2) /\
  effects s2 = effects s ++ backoffs stage k /\
  count [stage] (failed (metrics s2)) = count [stage] (failed (metrics s)) + Z.of_nat k.
Proof.
  intros Hq Hf Ha Hk. split; [by eapply retry_ok|].
  destruct (failures_effects _ _ _ _ _ _ Hq Hf) as (He & Hc & _).
  destruct (Hq s1) as [Hm1 He1]. rewrite Ha in Hm1, He1. simpl in *.
  by rewrite He1, He, backoffs_spec, Hm1, Hc.
Qed.

(** C17. An event whose schema fetch fails [k1] times and then succeeds, and whose
    handler fails [k2] times and then succeeds, is processed: the worker sleeps
    exactly the two back-off sequences, acknowledges the event once, at the end,
    counts it once as processed, and returns. *)
Theorem process_completes fuel raw start s s0 k1 s1 sch s2 pl k2 s3 s4 :
  onWorld time_Now s = (start, s0) ->
  failures "schema" (getSchema (schemaIDOf raw)) 0 k1 s0 s1 ->
  getSchema (schemaIDOf raw) s1 = (Ok sch, s2) ->
  Schema.Decode avro_Unmarshal (Some sch) (GetPayload (GetEvent (raw_Event raw))) = Ok pl ->
  failures "handler" (handle (decodedOf raw pl)) 0 k2 s2 s3 ->
  handle (decodedOf raw pl) s3 = (Ok tt, s4) ->
  (k1 < fuel)%nat -> (k2 < fuel)%nat ->
  exists s', process fuel raw s = (Some tt, s') /\
    effects s' = effects s ++ backoffs "schema" k1 ++ backoffs "handler" k2 ++ [Acked raw] /\
    processed (metrics s') = processed (metrics s) + 1.
Proof.
  intros Hn Hf1 Hg Hd Hf2 Hh Hk1 Hk2. exists (finishEvent raw start s4).2.
  destruct (onWorld_quiet time_Now s) as [Hm0 He0]. rewrite Hn in Hm0, He0.
  destruct (failures_effects _ _ _ _ _ _ (getSchema_quiet _) Hf1) as (He1 & _ & Hp1).
  destruct (getSchema_quiet (schemaIDOf raw) s1) as [Hm2 He2]. rewrite Hg in Hm2, He2.
  destruct (failures_effects _ _ _ _ _ _ (handle_quiet _) Hf2) as (He3 & _ & Hp3).
  destruct (handle_quiet (decodedOf raw pl) s3) as [Hm4 He4]. rewrite Hh in Hm4, He4. cbn [fst snd] in *.
  split.
  - unfold process. rewrite M_bind_unfold, Hn. cbn [fst snd].
    rewrite M_bind_unfold, (retry_ok _ _ _ _ _ _ _ _ Hf1 Hg Hk1). cbn [fst snd].
    rewrite M_bind_unfold. unfold decodeOrSkip. rewrite Hd. cbn [mret M_ret fst snd].
    rewrite M_bind_unfold, (retry_ok _ _ _ _ _ _ _ _ Hf2 Hh Hk2). cbn [fst snd].
    by rewrite M_bind_unfold.
  - unfold finishEvent, ackEvent. rewrite !M_bind_unfold.
    destruct (onWorld_quiet time_Now s4) as [Hm5 He5].
    match goal with |- context [onWorld (ack raw) ?x] => destruct (onWorld_quiet (ack raw) x) as [-> ->] end.
    simpl. rewrite Hm5, He5, He4, Hm4, He3, Hp3, He2, Hm2, He1, Hp1, He0, Hm0, !backoffs_spec.
    by rewrite <- !app_assoc.
Qed.

(** C10. When [process] returns, the event was acknowledged exactly once, for a
    reason (its payload does not decode, or the handler returned nil on what it
    decodes to and the acknowledgement followed at once), or it was not
    acknowledged at all and the context was canceled. *)
Theorem process_acks_once fuel raw s s' :
  process fuel raw s = (Some tt, s') ->
  (ackedOf s' = ackedOf s ++ [raw] /\ acknowledged raw s') \/
  (ackedOf s' = ackedOf s /\ canceled (world s')).
Proof.
  intros Hp. destruct (process_steps _ _ _ _ Hp) as (p & s0 & Hb & Hr).
  destruct (rtc_invariant wstep (owes raw (ackedOf s)) _ _ (owes_step raw (ackedOf s))
              (begin_owes _ _ _ _ Hb) Hr) as [_ Ho].
  simpl in Ho. naive_solver.
Qed.

(** However [n] workers interleave their attempts with each other, with the
    senders and with the other components, every event sent on the channel is in
    exactly one place: still queued, held by one worker, acknowledged (once), or
    abandoned in a world whose context is done. *)
Theorem pool_accounts n s0 s :
  ackedOf s0 = [] -> rtc pall (Run n s0) s ->
  sent s ≡ₚ chan s ++ inflight (ws s) ++ ackedOf (st s) ++ (abandoned s).*1 /\
  Forall (fun x => canceled x.2) (abandoned s).
Proof.
  intros Ha Hr. destruct (rtc_invariant pall pinv _ _ pinv_step (pinv_Run n s0 Ha) Hr). done.
Qed.

(** C16. Without cancellation, when every worker of a non-empty pool has returned,
    the channel was closed and every event sent on it was acknowledged exactly
    once. *)
Theorem pool_drains n s0 s :
  (forall w, ~ canceled w) -> (0 < n)%nat -> ackedOf s0 = [] -> rtc pall (Run n s0) s ->
  Forall (fun p => p = Exited) (ws s) ->
  closed s = true /\ sent s ≡ₚ ackedOf (st s).
Proof.
  intros Hnc Hn Ha Hr Hall.
  assert (length (ws s) = n /\ pinv s /\ drained s) as (Hlen & Hpi & Hd).
  { apply (rtc_invariant pall (fun s => length (ws s) = n /\ pinv s /\ drained s) (Run n s0)); [| |done].
    - intros a b (Hl & Hp & Hdr) Hab. split; [|split; [by eapply pinv_step|by eapply drained_step]].
      rewrite <- Hl. destruct Hab as [Hab|Hab]; destruct Hab; simpl; by rewrite ?length_insert.
    - split; [apply length_replicate|]. split; [by apply pinv_Run|].
      intros Hin. by apply elem_of_replicate in Hin as [? _]. }
  destruct (ws s) as [|p ps] eqn:Ews; [simpl in Hlen; lia|].
  apply Forall_cons in Hall as [-> Hps].
  destruct Hd as [Hc Hcl]; [rewrite Ews; constructor|]. split; [done|].
  rewrite (pi_sent _ Hpi), Hc, Ews. cbn [app].
  destruct (abandoned s) as [|x l] eqn:Eab; simpl.
  - by rewrite inflight_exited, app_nil_r.
  - pose proof (pi_canceled _ Hpi) as Hca. rewrite Eab in Hca. apply Forall_cons in Hca as [Hx _].
    by destruct (Hnc _ Hx).
Qed.

End Pool.

(** ** A small world: the handler fails as often as the world says *)

Module Demo.

#[global] Instance nat_Clock : Clock nat := {
  ctx_Err := fun w => (None, w);
  sleep := fun _ w => (true, w);
  time_Now := fun w => (0, w);
}.

#[global] Instance nat_ClockLaws : ClockLaws nat := {
  canceled := fun _ => False;
  ctx_Err_canceled := fun w e w' H => ltac:(discriminate H);
  sleep_canceled := fun d w w' H => ltac:(discriminate H);
}.

Definition src (id : string) : M nat (result string) := fun w => (Ok "{}", w).
Definition parse (json : string) : result string := Ok json.
Definition unmarshal (sch : string) (b : list Byte.byte) : result payload := Ok [].
Definition handler : Handler.Handler nat := fun _ w =>
  match w with O => (None, O) | S w' => (Some (External "db" 1), w') end.
Definition ackFn (raw : RawEvent) : M nat unit := fun w => (tt, w).

Definition event1 : RawEvent :=
  mkRawEvent "a" 1
    (Some (mkConsumerEvent (Some (mkProducerEvent "e1" "s1" (Some [Byte.x00]))) (Some [Byte.x01]))) 0.

Definition start (n : nat) : @State nat string := mkState newPoolMetrics Schema.NewCache n [].
Definition proc := process src parse unmarshal handler ackFn.

End Demo.

Lemma retry_until_success_witness :
  effects (retry 3 "handler" (handle Demo.handler (decodedOf Demo.event1 [])) (Demo.start 2)).2 =
  [Slept "handler" (100 * Millisecond); Slept "handler" (200 * Millisecond)].
Proof.
  edestruct (retry_until_success 3 "handler" (handle Demo.handler (decodedOf Demo.event1 [])) 2 (Demo.start 2))
    as (Hr & He & _); [apply handle_quiet| | |lia|].
  - eapply failures_cons; [apply pair_eta; by vm_compute|].
    eapply failures_cons; [apply pair_eta; by vm_compute|]. constructor.
  - apply pair_eta. by vm_compute.
  - rewrite Hr. cbn [snd]. rewrite He. by vm_compute.
Defined.

Lemma process_completes_witness :
  exists s', Demo.proc 3 Demo.event1 (Demo.start 1) = (Some tt, s') /\
    effects s' = [] ++ [] ++ [Slept "handler" (100 * Millisecond)] ++ [Acked Demo.event1] /\
    processed (metrics s') = 0 + 1.
Proof.
  apply (process_completes Demo.src Demo.parse Demo.unmarshal Demo.handler Demo.ackFn
    3 Demo.event1 0 (Demo.start 1) (Demo.start 1) 0 (Demo.start 1) "{}"
    (getSchema Demo.src Demo.parse "s1" (Demo.start 1)).2 [] 1
    (retryOnce "handler" (retryDelayAt 0) (handle Demo.handler (decodedOf Demo.event1 []))
       (getSchema Demo.src Demo.parse "s1" (Demo.start 1)).2).2
    (handle Demo.handler (decodedOf Demo.event1 [])
       (retryOnce "handler" (retryDelayAt 0) (handle Demo.handler (decodedOf Demo.event1 []))
       (getSchema Demo.src Demo.parse "s1" (Demo.start 1)).2).2).2);
    [by vm_compute|constructor|by vm_compute|by vm_compute| |by vm_compute|lia|lia].
  eapply failures_cons; [apply pair_eta; by vm_compute|constructor].
Defined.

Lemma process_acks_once_witness :
  ackedOf (Demo.proc 3 Demo.event1 (Demo.start 2)).2 = [Demo.event1].
Proof.
  destruct (process_acks_once Demo.src Demo.parse Demo.unmarshal Demo.handler Demo.ackFn
    3 Demo.event1 (Demo.start 2) (Demo.proc 3 Demo.event1 (Demo.start 2)).2)
    as [[Ha _]|[_ []]]; [apply pair_eta; by vm_compute|]. exact Ha.
Defined.

(** Two workers, one of them idle throughout; one failed attempt. *)
Module DemoRun.
Import Demo.

Definition cmds : list cmd :=
  [CSend event1; CTake 0; CAttempt 0; CAttempt 0; CClose; CExit 1; CAttempt 0; CExit 0].
Definition fin : option (@PSys nat string) := exec src parse unmarshal handler ackFn cmds (Run 2 (start 1)).
Definition final : @PSys nat string := default (Run 2 (start 1)) fin.

Lemma final_reached : rtc (pall src parse unmarshal handler ackFn) (Run 2 (start 1)) final.
Proof.
  apply exec_steps with cmds. change (fin = Some final). unfold final.
  assert (is_Some fin) as [x Hx] by (vm_compute; eauto). by rewrite Hx.
Qed.

End DemoRun.

Lemma pool_accounts_witness :
  sent DemoRun.final ≡ₚ chan DemoRun.final ++ inflight (ws DemoRun.final) ++
    ackedOf (st DemoRun.final) ++ (abandoned DemoRun.final).*1 /\
  Forall (fun x => canceled x.2) (abandoned DemoRun.final).
Proof.
  apply (pool_accounts Demo.src Demo.parse Demo.unmarshal Demo.handler Demo.ackFn 2 (Demo.start 1));
    [by vm_compute | apply DemoRun.final_reached].
Defined.

Lemma pool_drains_witness : [Demo.event1] ≡ₚ ackedOf (st DemoRun.final).
Proof.
  assert (sent DemoRun.final = [Demo.event1]) as <- by (by vm_compute).
  apply (pool_drains Demo.src Demo.parse Demo.unmarshal Demo.handler Demo.ackFn 2 (Demo.start 1));
    [by intros w [] | lia | by vm_compute | apply DemoRun.final_reached | vm_compute; by repeat constructor].
Defined.

End Pool.
