(* ===== verification/App.v ===== *)
(** * The application

    Model of src/internal/app/app.go and src/cmd/processor/main.go: construction
    and release of the subsystems, the completion callback, the fan-in goroutines,
    the final flush, topic discovery and the outcome of the process. The running
    system, with its goroutines interleaved, is in Pipeline.v. *)

From S2P Require Import Prelude Event Client Config Committer Subscriber.

Module App.
Import Proto Event.

(** ** Construction and release

    A resource that the application owns, and what happened to it. The connection of the
    migrator is opened and closed inside [storage.Migrate] (Migrations.v) before any of
    these, and is not among them. *)

Inductive resource := GrpcClient | DBPool | KafkaProducer | RedisClient.
Inductive action := Opened (r : resource) | Closed (r : resource).

(** What the constructors outside the repository answer. *)
Record newEnv := mkNewEnv {
  dialErr : option error;
  poolErr : option error;
  kafkaErr : option error;
  ensureErr : option error;
}.

(** The parts of [App] that depend on the configuration; a nil pointer is [false]. *)
Record App := mkApp {
  app_cfg : Config.Config;
  app_subs : list Subscriber.Subscriber;
  app_cursor : Committer.Committer;
  app_producer : bool;
  app_redis : bool;
  app_checkers : list string;
  app_workers : Z;
}.

Definition newSubs (cfg : Config.Config) : list Subscriber.Subscriber :=
  (fun t => Subscriber.NewSubscriber t (Config.FlowBatchSize (Config.Worker cfg))) <$> Config.Topics (Config.PubSub cfg).

(** [New], after the Kafka block. *)
Definition newTail (cfg : Config.Config) (acts : list action) : result App * list action :=
  let kafka := Config.Kafka_Enabled (Config.Kafka cfg) in
  let redis := Config.Redis_Enabled (Config.Redis cfg) in
  let checkers := ["auth"; "database"] ++ (if kafka then ["kafka"] else [])
                  ++ (if redis then ["redis"] else []) in
  (Ok (mkApp cfg (newSubs cfg) Committer.NewCommitter kafka redis checkers
         (Config.Count (Config.Worker cfg))),
   acts ++ (if redis then [Opened RedisClient] else [])).

Definition New (cfg : Config.Config) (env : newEnv) : result App * list action :=
  match dialErr env with
  | Some err => (Err (Wrap [Lit "pubsub dial"] err), [])
  | None =>
      match poolErr env with
      | Some err => (Err (Wrap [Lit "database pool"] err), [Opened GrpcClient; Closed GrpcClient])
      | None =>
          let acts := [Opened GrpcClient; Opened DBPool] in
          if Config.Kafka_Enabled (Config.Kafka cfg) then
            match kafkaErr env with
            | Some err =>
                (Err (Wrap [Lit "kafka producer"] err), acts ++ [Closed DBPool; Closed GrpcClient])
            | None =>
                let acts := acts ++ [Opened KafkaProducer] in
                if Config.CreateTopic (Config.Kafka cfg) then
                  match ensureErr env with
                  | Some err =>
                      (Err (Wrap [Lit "ensure kafka topic"] err),
                       acts ++ [Closed KafkaProducer; Closed DBPool; Closed GrpcClient])
                  | None => newTail cfg acts
                  end
                else newTail cfg acts
            end
          else newTail cfg acts
      end
  end.

(** [Close]; a failure to close the cache is only logged, the client's is returned. *)
Definition Close (a : App) (clientErr : option error) : option error * list action :=
  (clientErr,
   (if app_redis a then [Closed RedisClient] else [])
   ++ (if app_producer a then [Closed KafkaProducer] else [])
   ++ [Closed DBPool] ++ [Closed GrpcClient]).

(** ** Run *)

(** The end of [Run], on what [g.Wait] returned. *)
Definition runResult (waitErr : option error) : option error :=
  match waitErr with
  | Some err => if errors_Is err "context.Canceled" then None else Some err
  | None => None
  end.

(** [ack]: the cursor first, then one credit to the first subscriber of the topic. *)
Fixpoint ackSubs (topic : string) (subs : list Subscriber.Subscriber) : list Subscriber.Subscriber :=
  match subs with
  | [] => []
  | s :: rest =>
      if bool_decide (Subscriber.topic s = topic) then Subscriber.Ack 1 s :: rest
      else s :: ackSubs topic rest
  end.

Definition ack (e : RawEvent) (c : Committer.Committer) (subs : list Subscriber.Subscriber)
    : Committer.Committer * list Subscriber.Subscriber :=
  (Committer.Done c (raw_Topic e) (raw_Seq e) (GetReplayId (raw_Event e)), ackSubs (raw_Topic e) subs).

(** [flushReplay]: the workers have stopped, so that nothing is reported meanwhile; the
    error is only logged. *)
Definition flushReplay {W} `{CursorStore W} (order : list string) (c : Committer.Committer) (w : W)
    : Committer.Committer * W :=
  let '(_, c', w') := Committer.Flush ((fun t => (t, [])) <$> order) c w in (c', w').

(** [fanIn]: the events taken from [Out], each with what its select picked ([true]
    forwards it). The result is what was forwarded and whether the loop returned. *)
Fixpoint fanIn (evs : list (RawEvent * bool)) : list RawEvent * bool :=
  match evs with
  | [] => ([], false)
  | (e, true) :: rest => let '(fwd, b) := fanIn rest in (e :: fwd, b)
  | (_, false) :: _ => ([], true)
  end.

(** [discoverTopics]: the lines it logs. *)
Inductive discovery :=
| GetTopicFailed (topic : string) (e : error)
| TopicDiscovered (info : TopicInfo)
| GetSchemaFailed (schemaID : string) (e : error)
| SchemaFetched (info : SchemaInfo).

Section Discover.
Context (getTopic : string -> result TopicInfo) (getSchema : string -> result SchemaInfo).

Fixpoint discoverTopics (topics : list string) : list discovery :=
  match topics with
  | [] => []
  | topic :: rest =>
      (match getTopic topic with
       | Err err => [GetTopicFailed topic err]
       | Ok info =>
           TopicDiscovered info ::
           match getSchema (TopicInfo_GetSchemaId (Some info)) with
           | Err err => [GetSchemaFailed (TopicInfo_GetSchemaId (Some info)) err]
           | Ok sch => [SchemaFetched sch]
           end
       end) ++ discoverTopics rest
  end.

End Discover.

(** ** main.run

    [load], [loggerErr], [migrateErr] and [waitErr] are the outcomes of loading the
    configuration, building the logger, migrating and running; the deferred [Close]
    runs on every path after [New] succeeded. *)
Definition run (load : result Config.Config) (loggerErr migrateErr : option error) (env : newEnv)
    (waitErr closeErr : option error) : option error * list action :=
  match load with
  | Err err => (Some err, [])
  | Ok cfg =>
      match loggerErr with
      | Some err => (Some err, [])
      | None =>
          match migrateErr with
          | Some err => (Some err, [])
          | None =>
              match New cfg env with
              | (Err err, acts) => (Some err, acts)
              | (Ok a, acts) =>
                  let closing := (Close a closeErr).2 in
                  match runResult waitErr with
                  | Some err =>
                      if errors_Is err "context.Canceled" then (None, acts ++ closing)
                      else (Some err, acts ++ closing)
                  | None => (None, acts ++ closing)
                  end
              end
          end
      end
  end.

(** [main]: the exit code. *)
Definition main_ (r : option error) : Z := match r with Some _ => 1 | None => 0 end.

(** ** Properties *)

(** What [New] opened, in order, on success. *)
Definition opens (cfg : Config.Config) : list resource :=
  [GrpcClient; DBPool]
  ++ (if Config.Kafka_Enabled (Config.Kafka cfg) then [KafkaProducer] else [])
  ++ (if Config.Redis_Enabled (Config.Redis cfg) then [RedisClient] else []).

Lemma newTail_spec cfg acts :
  newTail cfg acts =
    (Ok (mkApp cfg (newSubs cfg) Committer.NewCommitter (Config.Kafka_Enabled (Config.Kafka cfg))
           (Config.Redis_Enabled (Config.Redis cfg))
           (["auth"; "database"] ++ (if Config.Kafka_Enabled (Config.Kafka cfg) then ["kafka"] else [])
             ++ (if Config.Redis_Enabled (Config.Redis cfg) then ["redis"] else []))
           (Config.Count (Config.Worker cfg))),
     acts ++ (if Config.Redis_Enabled (Config.Redis cfg) then [Opened RedisClient] else [])).
Proof. done. Qed.

(** The resources of a start, whatever fails: all released in reverse on an error,
    all held on success, and then released in reverse by [Close]. *)
Lemma New_resources cfg env r acts closeErr :
  New cfg env = (r, acts) ->
  match r with
  | Err _ => exists rs, acts = (Opened <$> rs) ++ (Closed <$> reverse rs)
  | Ok a => acts = Opened <$> opens cfg /\ (Close a closeErr).2 = Closed <$> reverse (opens cfg)
  end.
Proof.
  unfold New, opens. intros HN.
  destruct (dialErr env); [simplify_eq; by exists []|].
  destruct (poolErr env); [simplify_eq; by exists [GrpcClient]|].
  destruct (Config.Kafka_Enabled (Config.Kafka cfg)) eqn:Ek.
  - destruct (kafkaErr env); [simplify_eq; by exists [GrpcClient; DBPool]|].
    destruct (Config.CreateTopic (Config.Kafka cfg)); [destruct (ensureErr env)|].
    + simplify_eq. by exists [GrpcClient; DBPool; KafkaProducer].
    + rewrite newTail_spec, Ek in HN. simplify_eq/=. by destruct (Config.Redis_Enabled (Config.Redis cfg)).
    + rewrite newTail_spec, Ek in HN. simplify_eq/=. by destruct (Config.Redis_Enabled (Config.Redis cfg)).
  - rewrite newTail_spec, Ek in HN. simplify_eq/=. by destruct (Config.Redis_Enabled (Config.Redis cfg)).
Qed.

(** C38. Whatever fails, the process leaves nothing open: when it returns, every
    client and pool it opened was closed, exactly once and in the reverse order.
    It returns nil exactly when it started and its group ended without an error
    other than cancellation. *)
Theorem run_releases_everything load loggerErr migrateErr env waitErr closeErr r acts :
  run load loggerErr migrateErr env waitErr closeErr = (r, acts) ->
  (exists rs, acts = (Opened <$> rs) ++ (Closed <$> reverse rs)) /\
  (r = None <-> loggerErr = None /\ migrateErr = None /\ runResult waitErr = None /\
     exists cfg a, load = Ok cfg /\ (New cfg env).1 = Ok a).
Proof.
  unfold run. intros Hr.
  destruct load as [cfg|err]; [|simplify_eq; split; [by exists []|naive_solver]].
  destruct loggerErr; [simplify_eq; split; [by exists []|naive_solver]|].
  destruct migrateErr; [simplify_eq; split; [by exists []|naive_solver]|].
  destruct (New cfg env) as [x acts0] eqn:EN. pose proof (New_resources _ _ _ _ closeErr EN) as Hres.
  destruct x as [a|err].
  2: { injection Hr as <- <-. split; [exact Hres|]. split; [done|].
       intros (_ & _ & _ & c & a & Hc & HN). injection Hc as <-. by rewrite EN in HN. }
  destruct Hres as [-> Hcl]. rewrite Hcl in Hr.
  assert ((exists rs, (Opened <$> opens cfg) ++ (Closed <$> reverse (opens cfg)) = (Opened <$> rs) ++ (Closed <$> reverse rs))) as Hex by eauto.
  destruct (runResult waitErr) as [err|] eqn:Er.
  - assert (errors_Is err "context.Canceled" = false) as Hc.
    { unfold runResult in Er. destruct waitErr as [e|]; [|done].
      destruct (errors_Is e _) eqn:Ei; by simplify_eq. }
    rewrite Hc in Hr. simplify_eq. split; [done|]. split; [done|]. by intros (_ & _ & ? & _).
  - simplify_eq. split; [done|]. split; [|done]. intros _. do 3 (split; [done|]).
    exists cfg, a. by rewrite EN.
Qed.

Lemma run_releases_everything_witness :
  exists rs, [Opened GrpcClient; Opened DBPool; Opened KafkaProducer;
              Closed KafkaProducer; Closed DBPool; Closed GrpcClient] =
    (Opened <$> rs) ++ (Closed <$> reverse rs).
Proof.
  apply (run_releases_everything (Ok (Config.demoConfig ["/event/A__e"])) None None
           (mkNewEnv None None None (Some (External "kafka" 7))) None None
           (Some (Wrap [Lit "ensure kafka topic"] (External "kafka" 7)))).
  by vm_compute.
Defined.

End App.
