(* ===== verification/Pipeline.v ===== *)
(** * The running service

    The goroutines of app.go as one interleaved machine: the subscribers' streams,
    fan-in, the workers, the completion callback, the periodic and the final flush,
    serialised by their lock, and crashes, after which only the database, the cache and
    Kafka are left. The machine is built from the operations of the other files. This
    file has its state, the steps of everything around the workers, the invariant, and
    that these steps and the attempts of the workers preserve it; Service.v adds the
    workers' steps and has the properties. *)

From S2P Require Import Prelude Event Schema Handler Config.
From S2P Require Import Committer CommitterSpec Subscriber SubscriberSpec Pool App.

(** What the components ask of the sinks taken together: the cursors and the events
    do not disturb each other, and a load answers the stored cursor. *)
Class PipelineLaws (S : Type) `{Handler.SinkLaws S} `{CursorStoreLaws S} `{CursorLoader S} := {
  persist_cursors e w : cursors (PersistEvent e w).2 = cursors w;
  produce_cursors k v h w : cursors (Produce k v h w).2 = cursors w;
  seen_cursors id w : cursors (Seen id w).2 = cursors w;
  mark_cursors id w : cursors (MarkSeen id w).2 = cursors w;
  save_sinks t rid w id :
    let w' := (SaveReplay t rid w).2 in
    (Handler.stored w' id <-> Handler.stored w id) /\ (Handler.published w' id <-> Handler.published w id) /\
    (Handler.marked w' id -> Handler.marked w id);
  load_sinks t w id :
    let w' := (LoadReplay t w).2 in
    (Handler.stored w' id <-> Handler.stored w id) /\ (Handler.published w' id <-> Handler.published w id) /\
    (Handler.marked w' id -> Handler.marked w id);
  load_cursors t w : cursors (LoadReplay t w).2 = cursors w;
  load_value t w v w' : LoadReplay t w = (Ok v, w') -> v = default None (cursors w !! t);
}.

Module Pipeline.
Import Proto Event Pool.

(** The cases of a step around the workers. *)
Ltac env_cases Hst :=
  destruct Hst as
    [? ? [p n tk ss fl b | p s' tk ss fl b Hse Hcu | p tk ss fl b j]
    |? ? [p tk ss fl b j sb req s' start Hj Hf Hs | p tk ss fl b j sb e s' Hj Hf
    | p tk ss fl b j sb pos e now Hj Hs HL
    | p tk ss fl b j sb k raw Hj Hk Hi Hcl | p tk ss fl b j k Hk Hcan | p tk ss fl b Hcl Hcan
    | p tk ss b | p tk ss b pending t rid s' Hp Hs
    | p tk ss b pending t rid e s' Hp Hs | p tk ss b]].

Section Pipeline.
Context {D N Schema : Type} `{PipelineLaws D} `{ClockLaws N}.
(** The sources of the worker pool, and the configuration. *)
Context (src : string -> M N (result string)) (avro_Parse : string -> result Schema)
  (avro_Unmarshal : Schema -> list Byte.byte -> result payload)
  (json_Marshal : Handler.Envelope -> result (list Byte.byte)) (cfg : Config.Config).
(** The server's log of each topic. *)
Context (L : string -> list ConsumerEvent).

Definition kafka : bool := Config.Kafka_Enabled (Config.Kafka cfg).
Definition redis : bool := Config.Redis_Enabled (Config.Redis cfg).

(** ** State *)

(** What the goroutines share: the network and clock, the sinks, the committer and
    the subscribers. *)
Record Services := mkServices {
  net : N;
  sinks : D;
  cursor : Committer.Committer;
  subs : list Subscriber.Subscriber;
}.

Definition onNet {A} (m : M N A) : M Services A := fun w =>
  let '(a, n) := m (net w) in (a, mkServices n (sinks w) (cursor w) (subs w)).
Definition onSinks {A} (m : M D A) : M Services A := fun w =>
  let '(a, s) := m (sinks w) in (a, mkServices (net w) s (cursor w) (subs w)).

#[local] Instance Services_Clock : Clock Services := {
  ctx_Err := onNet ctx_Err;
  sleep d := onNet (sleep d);
  time_Now := onNet time_Now;
}.

#[local] Program Instance Services_ClockLaws : ClockLaws Services := {
  canceled w := canceled (net w);
}.
Next Obligation.
  intros w e w'. simpl. unfold onNet. destruct (ctx_Err (net w)) as [r n] eqn:E. intros. simplify_eq/=.
  by eapply ctx_Err_canceled.
Qed.
Next Obligation.
  intros d w w'. simpl. unfold onNet. destruct (sleep d (net w)) as [r n] eqn:E. intros. simplify_eq/=.
  by eapply sleep_canceled.
Qed.

Definition source (id : string) : M Services (result string) := onNet (src id).
Definition rootW : Handler.Handler Services := fun e => onSinks (Handler.rootHandler kafka redis json_Marshal e).
Definition ackW (e : RawEvent) : M Services unit := fun w =>
  let '(c, ss) := App.ack e (cursor w) (subs w) in (tt, mkServices (net w) (sinks w) c ss).

(** The whole system. [taken] counts the events fan-in took from each subscriber,
    [streams] holds the position of each open stream in its topic's log, [flushing] the
    cursors that the flush that holds the lock has yet to save. [base] records, per topic,
    where the first stream without a stored cursor started. *)
Record Sys := mkSys {
  pool : @PSys Services Schema;
  taken : list nat;
  streams : list (option nat);
  flushing : option (gmap string GoBytes);
  base : gmap string nat;
}.

Definition worldOf (p : @PSys Services Schema) : Services := world (st p).

Definition setWorld (w : Services) (p : @PSys Services Schema) : @PSys Services Schema :=
  mkPSys (mkState (metrics (st p)) (cache (st p)) w (effects (st p)))
    (ws p) (chan p) (closed p) (sent p) (abandoned p).

Definition setSinks (s : D) (p : @PSys Services Schema) : @PSys Services Schema :=
  setWorld (mkServices (net (worldOf p)) s (cursor (worldOf p)) (subs (worldOf p))) p.

Definition setCursor (s : D) (c : Committer.Committer) (p : @PSys Services Schema) : @PSys Services Schema :=
  setWorld (mkServices (net (worldOf p)) s c (subs (worldOf p))) p.

Definition setSub (j : nat) (sb : Subscriber.Subscriber) (p : @PSys Services Schema) : @PSys Services Schema :=
  setWorld (mkServices (net (worldOf p)) (sinks (worldOf p)) (cursor (worldOf p)) (<[j := sb]> (subs (worldOf p)))) p.

(** A fresh process on what is left of the previous one. *)
Definition boot (s : D) (n : N) (b : gmap string nat) : Sys :=
  mkSys (Run (Z.to_nat (Config.Count (Config.Worker cfg)))
           (mkState newPoolMetrics Schema.NewCache
              (mkServices n s Committer.NewCommitter (App.newSubs cfg)) []))
    (replicate (length (App.newSubs cfg)) 0%nat) (replicate (length (App.newSubs cfg)) None) None b.

(** ** Steps *)

(** What happens to the process. *)
Inductive outside : relation Sys :=
(* time passes, the context is canceled *)
| st_net p n tk ss fl b :
    outside (mkSys p tk ss fl b)
      (mkSys (setWorld (mkServices n (sinks (worldOf p)) (cursor (worldOf p)) (subs (worldOf p))) p) tk ss fl b)
(* cache entries expire *)
| st_expire p s' tk ss fl b :
    (forall id, (Handler.stored s' id <-> Handler.stored (sinks (worldOf p)) id) /\
       (Handler.published s' id <-> Handler.published (sinks (worldOf p)) id) /\
       (Handler.marked s' id -> Handler.marked (sinks (worldOf p)) id)) ->
    cursors s' = cursors (sinks (worldOf p)) ->
    outside (mkSys p tk ss fl b) (mkSys (setSinks s' p) tk ss fl b)
(* a stream ends *)
| st_end p tk ss fl b j : outside (mkSys p tk ss fl b) (mkSys p tk (<[j := None]> ss) fl b).

(** What the process does around its workers. *)
Inductive inside : relation Sys :=
(* a stream opens, or the load of its cursor fails *)
| st_open p tk ss fl b j sb req s' start : subs (worldOf p) !! j = Some sb ->
    Subscriber.initialFetch sb (sinks (worldOf p)) = (Ok req, s') ->
    SubscriberSpec.starts (L (Subscriber.topic sb)) req start ->
    inside (mkSys p tk ss fl b)
      (mkSys (setSinks s' p) tk (<[j := Some start]> ss) fl
         (match fr_ReplayPreset req with LATEST => <[Subscriber.topic sb := start]> b | _ => b end))
| st_open_fail p tk ss fl b j sb e s' : subs (worldOf p) !! j = Some sb ->
    Subscriber.initialFetch sb (sinks (worldOf p)) = (Err e, s') ->
    inside (mkSys p tk ss fl b) (mkSys (setSinks s' p) tk ss fl b)
(* the stream delivers its next event *)
| st_emit p tk ss fl b j sb pos e now : subs (worldOf p) !! j = Some sb -> ss !! j = Some (Some pos) ->
    L (Subscriber.topic sb) !! pos = Some e ->
    inside (mkSys p tk ss fl b)
      (mkSys (setSub j (Subscriber.emit (Some e) now sb) p) tk (<[j := Some (S pos)]> ss) fl b)
(* fan-in forwards an event, or drops it because the context is done *)
| st_fanin p tk ss fl b j sb k raw : subs (worldOf p) !! j = Some sb -> tk !! j = Some k ->
    Subscriber.out sb !! k = Some raw -> closed p = false ->
    inside (mkSys p tk ss fl b)
      (mkSys (mkPSys (st p) (ws p) (chan p ++ [raw]) false (sent p ++ [raw]) (abandoned p))
         (<[j := S k]> tk) ss fl b)
| st_drop p tk ss fl b j k : tk !! j = Some k -> canceled (worldOf p) ->
    inside (mkSys p tk ss fl b) (mkSys p (<[j := S k]> tk) ss fl b)
(* the context is done and every fan-in has returned *)
| st_close p tk ss fl b : closed p = false -> canceled (worldOf p) ->
    inside (mkSys p tk ss fl b)
      (mkSys (mkPSys (st p) (ws p) (chan p) true (sent p) (abandoned p)) tk ss fl b)
(* a flush takes the lock and its snapshot, saves one cursor at a time, and ends *)
| st_snapshot p tk ss b :
    inside (mkSys p tk ss None b)
      (mkSys (setCursor (sinks (worldOf p)) (Committer.snapshot (cursor (worldOf p))).2 p) tk ss
         (Some (Committer.snapshot (cursor (worldOf p))).1) b)
| st_save p tk ss b pending t rid s' : pending !! t = Some rid ->
    SaveReplay t rid (sinks (worldOf p)) = (None, s') ->
    inside (mkSys p tk ss (Some pending) b)
      (mkSys (setCursor s' (Committer.incCommits "ok" (cursor (worldOf p))) p) tk ss (Some (delete t pending)) b)
| st_save_err p tk ss b pending t rid e s' : pending !! t = Some rid ->
    SaveReplay t rid (sinks (worldOf p)) = (Some e, s') ->
    inside (mkSys p tk ss (Some pending) b)
      (mkSys (setCursor s' (Committer.markDirty (Committer.incCommits "error" (cursor (worldOf p))) t) p) tk ss
         (Some (delete t pending)) b)
| st_flush_end p tk ss b : inside (mkSys p tk ss (Some ∅) b) (mkSys p tk ss None b).

(** Everything around the workers. *)
Inductive estep : relation Sys :=
| st_outside x y : outside x y -> estep x y
| st_inside x y : inside x y -> estep x y.

(** ** What has been settled *)

Definition undec : option ConsumerEvent -> Prop := undecodable source avro_Parse avro_Unmarshal.

(** An event is settled when the sinks have it, or when it does not decode against
    the schema the source provides for it. *)
Definition settledEvent (s : D) (e : option ConsumerEvent) : Prop :=
  Handler.finished kafka s (GetId (GetEvent e)) \/ undec e.

Definition settled (s : D) (t : string) (i : nat) : Prop :=
  exists e, L t !! i = Some e /\ settledEvent s (Some e).

(** Position [b] of topic [t] is the base, or everything from the base up to it is
    settled. *)
Definition origin (s : D) (bs : gmap string nat) (t : string) (b : nat) : Prop :=
  exists b0, bs !! t = Some b0 /\ (b0 <= b)%nat /\ forall i, (b0 <= i < b)%nat -> settled s t i.

(** The stored cursor of a topic covers only settled events. *)
Definition covered (s : D) (bs : gmap string nat) (t : string) (rid : GoBytes) : Prop :=
  exists b0 k e, bs !! t = Some b0 /\ (b0 <= k)%nat /\ L t !! k = Some e /\ ce_ReplayId e = rid /\
    forall i, (b0 <= i <= k)%nat -> settled s t i.

(** ** The invariant *)

Definition keyOf (raw : RawEvent) : string * Z := (raw_Topic raw, raw_Seq raw).

Definition callOf (raw : RawEvent) : Committer.call := (keyOf raw, GetReplayId (raw_Event raw)).

Definition histOf (acks : list RawEvent) : gmap (string * Z) GoBytes := CommitterSpec.history (callOf <$> acks).

(** The part of the invariant that does not look inside the pool: [snt] and [acks]
    are what was sent to the workers and what they acknowledged. *)
Record inv0 (snt acks : list RawEvent) (w : Services) (tk : list nat) (ss : list (option nat))
    (fl : option (gmap string GoBytes)) (bs : gmap string nat) : Prop := {
  i_topics : Subscriber.topic <$> subs w = Config.Topics (Config.PubSub cfg);
  i_sent : forall raw, raw ∈ snt -> exists j sb k i, subs w !! j = Some sb /\ tk !! j = Some k /\
    (i < k)%nat /\ Subscriber.out sb !! i = Some raw;
  i_nodup : NoDup (keyOf <$> snt);
  i_sub : forall j sb, subs w !! j = Some sb -> exists b,
    SubscriberSpec.emitted (Subscriber.topic sb) (L (Subscriber.topic sb)) b sb /\
    (forall pos, ss !! j = Some (Some pos) -> pos = (b + length (Subscriber.out sb))%nat) /\
    (Subscriber.out sb <> [] \/ (exists pos, ss !! j = Some (Some pos)) ->
     origin (sinks w) bs (Subscriber.topic sb) b);
  i_sinks : Handler.sinksOK kafka (sinks w);
  i_acked_sent : acks ⊆ snt;
  i_acked : forall raw, raw ∈ acks -> settledEvent (sinks w) (raw_Event raw);
  i_hist : CommitterSpec.hist_ok (histOf acks);
  i_repr : CommitterSpec.committer_repr (histOf acks) (cursor w);
  i_pending : forall pending t rid, fl = Some pending -> pending !! t = Some rid -> exists p,
    CommitterSpec.at_position (histOf acks) t rid p /\ p <= CommitterSpec.markOf (cursor w) t;
  i_cursor : forall t rid, cursors (sinks w) !! t = Some rid -> covered (sinks w) bs t rid;
}.

Definition inv (x : Sys) : Prop :=
  pinv avro_Unmarshal (pool x) /\ cache_ok source avro_Parse (cache (st (pool x))) /\
  inv0 (sent (pool x)) (ackedOf (st (pool x))) (worldOf (pool x)) (taken x) (streams x) (flushing x) (base x).

(** *** Progress of the sinks *)

(** Nothing that was stored or published goes away. *)
Definition le (s s' : D) : Prop :=
  (forall id, Handler.stored s id -> Handler.stored s' id) /\
  (forall id, Handler.published s id -> Handler.published s' id).

Lemma le_refl s : le s s.
Proof. done. Qed.

Lemma le_trans s1 s2 s3 : le s1 s2 -> le s2 s3 -> le s1 s3.
Proof. unfold le. naive_solver. Qed.

Lemma settledEvent_le s s' e : le s s' -> settledEvent s e -> settledEvent s' e.
Proof.
  intros [Hs Hp] [[Hst Hpb]|Hu]; [left|by right]. split; [by apply Hs|]. intros Hk. by apply Hp, Hpb.
Qed.

Lemma settled_le s s' t i : le s s' -> settled s t i -> settled s' t i.
Proof. intros Hle (e & HL & He). exists e. split; [done|]. by eapply settledEvent_le. Qed.

Lemma origin_le s s' bs t b : le s s' -> origin s bs t b -> origin s' bs t b.
Proof.
  intros Hle (b0 & Hb & Hlt & Hall). exists b0. split; [done|]. split; [done|].
  intros i Hi. eapply settled_le; eauto.
Qed.

Lemma covered_le s s' bs t rid : le s s' -> covered s bs t rid -> covered s' bs t rid.
Proof.
  intros Hle (b0 & k & e & Hb & Hk & HL & Hr & Hall). exists b0, k, e. do 4 (split; [done|]).
  intros i Hi. eapply settled_le; eauto.
Qed.

(** A change that keeps the events and only forgets marks. *)
Definition sameEvents (s s' : D) : Prop :=
  forall id, (Handler.stored s' id <-> Handler.stored s id) /\
    (Handler.published s' id <-> Handler.published s id) /\ (Handler.marked s' id -> Handler.marked s id).

Lemma sameEvents_le s s' : sameEvents s s' -> le s s'.
Proof. intros Hs. split; intros id; destruct (Hs id) as (? & ? & _); tauto. Qed.

Lemma sameEvents_sinksOK s s' : sameEvents s s' -> Handler.sinksOK kafka s -> Handler.sinksOK kafka s'.
Proof.
  intros Hs [Hm Hp]. split.
  - intros id Hid. destruct (Hs id) as (K1 & K2 & K3). destruct (Hm id (K3 Hid)) as [? ?].
    split; [tauto|]. intros. apply K2. auto.
  - intros id Hid. destruct (Hs id) as (K1 & K2 & _). apply K1, Hp. tauto.
Qed.

(** *** Changes of the network and of the sinks that leave the cursors alone *)

Lemma inv0_frame snt acks w w' tk ss fl bs :
  inv0 snt acks w tk ss fl bs -> cursor w' = cursor w -> subs w' = subs w ->
  le (sinks w) (sinks w') -> Handler.sinksOK kafka (sinks w') -> cursors (sinks w') = cursors (sinks w) ->
  inv0 snt acks w' tk ss fl bs.
Proof.
  intros [] Hc Hs Hle Hok Hcur. split; rewrite ?Hc, ?Hs, ?Hcur; try done.
  - intros j sb Hj. destruct (i_sub0 j sb Hj) as (b & Hem & Hpos & Hor). exists b.
    split; [done|]. split; [done|]. intros Hx. eapply origin_le; eauto.
  - intros raw Hr. eapply settledEvent_le; eauto.
  - intros t rid Ht. eapply covered_le; eauto.
Qed.

(** *** Facts under the hypotheses on the logs and the configuration *)

Section Reachable.
Context (Hlog : forall t, SubscriberSpec.log_ok (L t)).
Context (Hlen : forall t, Z.of_nat (length (L t)) < 2 ^ 64 - 2).
Context (Htopics : NoDup (Config.Topics (Config.PubSub cfg))).

(** An event of a subscriber's output is an event of the log, numbered from 1. *)
Lemma out_facts t b sb i raw :
  SubscriberSpec.emitted t (L t) b sb -> Subscriber.out sb !! i = Some raw ->
  raw_Topic raw = t /\ raw_Seq raw = Z.of_nat i + 1 /\ Committer.seq_ok (raw_Seq raw) /\
  exists e, L t !! (b + i)%nat = Some e /\ raw_Event raw = Some e.
Proof.
  intros Hem Hi. destruct (SubscriberSpec.em_event _ _ _ _ Hem _ _ Hi) as (Ht & Hs & e & HL & He).
  pose proof (lookup_lt_Some _ _ _ HL). specialize (Hlen t).
  rewrite wrapU64_id in Hs by (unfold in_U64; lia). rewrite Hs.
  split; [done|]. split; [done|]. split; [unfold Committer.seq_ok; lia|]. eauto.
Qed.

(** Everything that was sent came from the subscriber of its topic. *)
Lemma sent_facts snt acks w tk ss fl bs raw :
  inv0 snt acks w tk ss fl bs -> raw ∈ snt ->
  exists j sb k i b e, subs w !! j = Some sb /\ tk !! j = Some k /\ (i < k)%nat /\
    Subscriber.topic sb = raw_Topic raw /\ Subscriber.out sb !! i = Some raw /\
    SubscriberSpec.emitted (raw_Topic raw) (L (raw_Topic raw)) b sb /\
    origin (sinks w) bs (raw_Topic raw) b /\
    raw_Seq raw = Z.of_nat i + 1 /\ Committer.seq_ok (raw_Seq raw) /\
    L (raw_Topic raw) !! (b + i)%nat = Some e /\ raw_Event raw = Some e.
Proof.
  intros [] Hr. destruct (i_sent0 _ Hr) as (j & sb & k & i & Hj & Hk & Hik & Hi).
  destruct (i_sub0 _ _ Hj) as (b & Hem & _ & Hor).
  destruct (out_facts _ _ _ _ _ Hem Hi) as (Ht & Hs & Hok & e & HL & He).
  exists j, sb, k, i, b, e. rewrite Ht. do 6 (split; [done|]). split; [|done].
  apply Hor. left. intros Hnil. by rewrite Hnil in Hi.
Qed.

(** Topics name subscribers. *)
Lemma sub_unique (w : Services) j j' sb sb' :
  Subscriber.topic <$> subs w = Config.Topics (Config.PubSub cfg) ->
  subs w !! j = Some sb -> subs w !! j' = Some sb' -> Subscriber.topic sb = Subscriber.topic sb' -> j = j'.
Proof.
  intros Ht Hj Hj' Heq. eapply (NoDup_lookup _ _ _ (Subscriber.topic sb) Htopics);
    rewrite <- Ht, list_lookup_fmap; [by rewrite Hj|rewrite Hj'; simpl; by f_equal].
Qed.

(** *** Acknowledgement *)

Lemma ackSubs_core t l : Forall2 (fun a b => SubscriberSpec.core b = SubscriberSpec.core a) l (App.ackSubs t l).
Proof.
  induction l as [|sb l IH]; simpl; [constructor|]. case_bool_decide.
  - constructor; [apply SubscriberSpec.Ack_core|]. by apply Forall_Forall2_diag, Forall_true.
  - by constructor.
Qed.

(** Flow control does not show in the invariant. *)
Lemma inv0_core snt acks w tk ss fl bs l :
  Forall2 (fun a b => SubscriberSpec.core b = SubscriberSpec.core a) (subs w) l ->
  inv0 snt acks w tk ss fl bs -> inv0 snt acks (mkServices (net w) (sinks w) (cursor w) l) tk ss fl bs.
Proof.
  intros Hl []. split; simpl; try done.
  - rewrite <- i_topics0. clear -Hl. induction Hl as [|a b la lb Hab _ IH]; [done|].
    rewrite !fmap_cons, IH. f_equal. unfold SubscriberSpec.core in Hab. congruence.
  - intros raw Hr. destruct (i_sent0 _ Hr) as (j & sb & k & i & Hj & Hk & Hik & Hi).
    destruct (Forall2_lookup_l _ _ _ _ _ Hl Hj) as (sb' & Hj' & Hc).
    exists j, sb', k, i. do 3 (split; [done|]). unfold SubscriberSpec.core in Hc. injection Hc as _ -> _ _. done.
  - intros j sb' Hj'. destruct (Forall2_lookup_r _ _ _ _ _ Hl Hj') as (sb & Hj & Hc).
    destruct (i_sub0 _ _ Hj) as (b & Hem & Hpos & Hor). exists b.
    pose proof Hc as Hc0. unfold SubscriberSpec.core in Hc0. injection Hc0 as -> -> _ _.
    split; [by eapply SubscriberSpec.emitted_core|]. done.
Qed.

Lemma callOf_keys acks : (callOf <$> acks).*1 = keyOf <$> acks.
Proof. rewrite <- list_fmap_compose. done. Qed.

Lemma histOf_snoc acks raw :
  keyOf raw ∉ keyOf <$> acks -> histOf (acks ++ [raw]) = <[keyOf raw := GetReplayId (raw_Event raw)]> (histOf acks).
Proof.
  intros Hn. unfold histOf. rewrite fmap_app. simpl. unfold callOf at 2, keyOf at 1.
  rewrite CommitterSpec.history_snoc; [done|]. by rewrite callOf_keys.
Qed.

Lemma histOf_None acks raw : keyOf raw ∉ keyOf <$> acks -> histOf acks !! keyOf raw = None.
Proof.
  intros Hn. unfold histOf, CommitterSpec.history. apply not_elem_of_list_to_map_1.
  by rewrite callOf_keys.
Qed.

Lemma inv0_ack snt acks w w' tk ss fl bs raw :
  inv0 snt acks w tk ss fl bs -> raw ∈ snt -> keyOf raw ∉ keyOf <$> acks ->
  settledEvent (sinks w) (raw_Event raw) -> ackW raw w = (tt, w') ->
  inv0 snt (acks ++ [raw]) w' tk ss fl bs.
Proof.
  intros Hinv Hr Hk Hset Ha. destruct (sent_facts _ _ _ _ _ _ _ _ Hinv Hr)
    as (_ & _ & _ & _ & _ & _ & _ & _ & _ & _ & _ & _ & _ & _ & Hok & _).
  pose proof (histOf_None _ _ Hk) as Hn. unfold keyOf in Hn.
  unfold ackW in Ha. injection Ha as <-.
  apply (inv0_core _ _ (mkServices (net w) (sinks w) _ (subs w))); [apply ackSubs_core|].
  destruct Hinv. split; simpl; rewrite ?histOf_snoc by done; try done.
  - intros x [Hx|Hx]%elem_of_app; [by apply i_acked_sent0|]. by apply list_elem_of_singleton in Hx as ->.
  - intros x [Hx|Hx]%elem_of_app; [by apply i_acked0|]. by apply list_elem_of_singleton in Hx as ->.
  - by apply CommitterSpec.hist_ok_insert.
  - by apply CommitterSpec.Done_repr.
  - intros pending t rid Hi Hp. destruct (i_pending0 _ _ _ Hi Hp) as (q & Hat & Hle). exists q.
    split; [by apply CommitterSpec.at_position_insert|]. etrans; [done|].
    by eapply CommitterSpec.markOf_Done.
Qed.

(** Acknowledging moves no mark back, and of the subscribers it only changes their flow
    control. *)
Lemma ack_frame snt acks w w' tk ss fl bs raw t :
  inv0 snt acks w tk ss fl bs -> raw ∈ snt -> keyOf raw ∉ keyOf <$> acks -> ackW raw w = (tt, w') ->
  CommitterSpec.markOf (cursor w) t <= CommitterSpec.markOf (cursor w') t /\
  Forall2 (fun a b => SubscriberSpec.core b = SubscriberSpec.core a) (subs w) (subs w').
Proof.
  intros Hinv Hr Hk Ha. destruct (sent_facts _ _ _ _ _ _ _ _ Hinv Hr)
    as (_ & _ & _ & _ & _ & _ & _ & _ & _ & _ & _ & _ & _ & _ & Hok & _).
  pose proof (histOf_None _ _ Hk) as Hn. unfold keyOf in Hn.
  unfold ackW in Ha. injection Ha as <-. split; [|apply ackSubs_core].
  by eapply CommitterSpec.markOf_Done; [apply Hinv|apply Hinv|..].
Qed.

(** *** The workers *)

(** What the workers do to the shared state: nothing is lost, the cursors stay, no mark
    moves back and a topic that is clean afterwards did not move, and of the subscribers
    only the flow control changes. *)
Record workerFrame (w w' : Services) : Prop := {
  wf_sinks : le (sinks w) (sinks w');
  wf_cursors : cursors (sinks w') = cursors (sinks w);
  wf_marks : forall t, CommitterSpec.markOf (cursor w) t <= CommitterSpec.markOf (cursor w') t;
  wf_subs : Forall2 (fun a b => SubscriberSpec.core b = SubscriberSpec.core a) (subs w) (subs w');
  wf_clean : CommitterSpec.unmoved (cursor w) (cursor w');
}.

Lemma workerFrame_same (w w' : Services) :
  le (sinks w) (sinks w') -> cursors (sinks w') = cursors (sinks w) -> cursor w' = cursor w -> subs w' = subs w ->
  workerFrame w w'.
Proof.
  intros ? ? Hc Hs. split; rewrite ?Hc, ?Hs; try done; [by apply Forall_Forall2_diag, Forall_true|].
  apply CommitterSpec.unmoved_refl.
Qed.

(** What an attempt may do to the shared state before it acknowledges. *)
Definition attemptI (w0 w : Services) : Prop :=
  cursor w = cursor w0 /\ subs w = subs w0 /\ le (sinks w0) (sinks w) /\
  Handler.sinksOK kafka (sinks w) /\ cursors (sinks w) = cursors (sinks w0).

Definition attemptQ (raw : RawEvent) (w : Services) : Prop :=
  Handler.finished kafka (sinks w) (GetId (GetEvent (raw_Event raw))).

Lemma onNet_I {A} (m : M N A) w0 w : attemptI w0 w -> attemptI w0 (onNet m w).2.
Proof. unfold onNet. by destruct (m (net w)). Qed.

Lemma onNet_Q {A} (m : M N A) raw w : attemptQ raw w -> attemptQ raw (onNet m w).2.
Proof. unfold onNet. by destruct (m (net w)). Qed.

(** A handler that keeps to this, and that returns nil for [raw] only once it is settled. *)
Definition handlerOK (w0 : Services) (raw : RawEvent) (h : Handler.Handler Services) : Prop :=
  forall raw' pl w r w', attemptI w0 w -> h (decodedOf raw' pl) w = (r, w') ->
    attemptI w0 w' /\ (r = None -> raw' = raw -> attemptQ raw w').

Lemma attempt_frame h ph s ph' s' raw :
  handlerOK (world s) raw h ->
  rawOf ph = Some raw -> phase_ok avro_Unmarshal ph -> attemptI (world s) (world s) ->
  cache_ok source avro_Parse (cache s) ->
  stepWorker source avro_Parse avro_Unmarshal h ackW ph s = (ph', s') ->
  cache_ok source avro_Parse (cache s') /\
  ((attemptI (world s) (world s') /\ ackedOf s' = ackedOf s) \/
   (exists w1, attemptI (world s) w1 /\ (attemptQ raw w1 \/ undec (raw_Event raw)) /\
      ackW raw w1 = (tt, world s') /\ ackedOf s' = ackedOf s ++ [raw])).
Proof.
  intros Hh Hr Hok HI Hca Hs.
  destruct (stepWorker_frame source avro_Parse avro_Unmarshal h ackW (attemptI (world s))
    (fun raw' w => raw' = raw -> attemptQ raw w)) with (p := ph) (s := s) (p' := ph') (s' := s') (raw := raw)
    as [Hca' Hc]; try done; try (intros; by apply onNet_I).
  - intros raw' w _ HQ Heq. apply onNet_Q. auto.
  - split; [done|]. destruct Hc as [?|(w1 & ? & HQ & ?)]; [by left|right]. exists w1.
    split; [done|]. split; [|done]. destruct HQ as [HQ|?]; [left; by apply HQ|by right].
Qed.

(** The pool after worker [i] made an attempt at [raw]. *)
Definition attempted (i : nat) (raw : RawEvent) (ph' : phase) (s' : State) (p : @PSys Services Schema)
    : @PSys Services Schema :=
  mkPSys s' (<[i := ph']> (ws p)) (chan p) (closed p) (sent p)
    (if bool_decide (rawOf ph' = None) && bool_decide (ackedOf s' = ackedOf (st p))
     then abandoned p ++ [(raw, world s')] else abandoned p).

Lemma inv_attempt h p tk ss fl bs i ph ph' s' raw :
  inv (mkSys p tk ss fl bs) -> handlerOK (worldOf p) raw h ->
  ws p !! i = Some ph -> rawOf ph = Some raw ->
  stepWorker source avro_Parse avro_Unmarshal h ackW ph (st p) = (ph', s') ->
  inv (mkSys (attempted i raw ph' s' p) tk ss fl bs) /\ workerFrame (worldOf p) (world s').
Proof.
  intros (Hpi & Hca & Hinv) Hh Hi Hr Hst. simpl in *.
  assert (pinv avro_Unmarshal (attempted i raw ph' s' p)) as Hpi'.
  { apply (pinv_step source avro_Parse avro_Unmarshal h ackW p); [done|]. left. destruct p. by eapply p_attempt. }
  assert (attemptI (worldOf p) (worldOf p)) as HI0
    by (do 2 (split; [done|]); split; [apply le_refl|]; split; [apply (i_sinks _ _ _ _ _ _ _ Hinv)|done]).
  assert (forall w', attemptI (worldOf p) w' -> inv0 (sent p) (ackedOf (st p)) w' tk ss fl bs) as Hframe
    by (intros w' (? & ? & ? & ? & ?); by eapply inv0_frame).
  destruct (attempt_frame h ph (st p) ph' s' raw Hh Hr) as [Hca' Hc]; try done.
  { by eapply Forall_lookup_1; [apply (pi_phases _ _ Hpi)|]. }
  destruct Hc as [[HI Ha]|(w1 & HI & HQ & Hack & Ha)].
  - split; [|by destruct HI as (? & ? & ? & _ & ?); apply workerFrame_same]. split; [done|]. split; [done|].
    unfold worldOf. simpl. rewrite Ha. by apply Hframe.
  - assert (raw ∈ inflight (ws p)) as Hin
      by (apply list_elem_of_omap; exists ph; split; [by eapply list_elem_of_lookup_2|done]).
    pose proof (pi_sent _ _ Hpi) as Hperm.
    assert (raw ∈ sent p) as Hsnt by (rewrite Hperm, !elem_of_app; auto).
    assert (keyOf raw ∉ keyOf <$> ackedOf (st p)) as Hfresh.
    { pose proof (i_nodup _ _ _ _ _ _ _ Hinv) as Hnd. rewrite Hperm, !fmap_app in Hnd.
      apply NoDup_app in Hnd as (_ & _ & Hnd). apply NoDup_app in Hnd as (_ & Hdisj & _).
      intros Hbad. apply (Hdisj (keyOf raw)); [by apply list_elem_of_fmap_2|].
      apply elem_of_app. by left. }
    split.
    + split; [done|]. split; [done|]. unfold worldOf. simpl. rewrite Ha.
      eapply inv0_ack; [by apply Hframe|done|done|by destruct HQ; [left|right]|done].
    + pose proof (fun t => ack_frame _ _ _ _ _ _ _ _ _ t (Hframe _ HI) Hsnt Hfresh Hack) as Hf.
      destruct HI as (Hcw & Hsw & ? & _ & ?). rewrite Hcw, Hsw in Hf. destruct (Hf "") as [_ ?].
      assert (cursor (world s') = Committer.Done (cursor (worldOf p)) (raw_Topic raw) (raw_Seq raw)
        (GetReplayId (raw_Event raw)) /\ sinks (world s') = sinks w1) as [Hcu Hsk].
      { unfold ackW in Hack. injection Hack as <-. simpl. by rewrite Hcw. }
      split; [by rewrite Hsk|by rewrite Hsk|intros t; apply Hf|done|].
      rewrite Hcu. apply CommitterSpec.Done_unmoved.
Qed.

(** The rest of what a worker does leaves everything but the pool alone, up to the
    clock. *)
Lemma inv_take p p' tk ss fl bs n :
  inv (mkSys p tk ss fl bs) -> pinv avro_Unmarshal p' -> cache (st p') = cache (st p) ->
  ackedOf (st p') = ackedOf (st p) -> sent p' = sent p ->
  worldOf p' = mkServices n (sinks (worldOf p)) (cursor (worldOf p)) (subs (worldOf p)) ->
  inv (mkSys p' tk ss fl bs).
Proof.
  intros (_ & Hca & Hinv) Hpi Hc Ha Hs Hw. split; [done|]. simpl in *. rewrite Hc. split; [done|].
  rewrite Ha, Hs, Hw. eapply inv0_frame; [done|done|done|apply le_refl|apply (i_sinks _ _ _ _ _ _ _ Hinv)|done].
Qed.

(** *** Streams *)

Lemma fetch_frame sb s r s' :
  Subscriber.initialFetch sb s = (r, s') -> sameEvents s s' /\ cursors s' = cursors s.
Proof.
  unfold Subscriber.initialFetch. destruct (Subscriber.lastReplayID sb).
  { intros Hr. runM. simplify_eq. split; [|done]. intros id. tauto. }
  rewrite M_bind_unfold. intros Hr.
  assert (s' = (LoadReplay (Subscriber.topic sb) s).2) as ->
    by (destruct (LoadReplay _ s) as [[v|e] s1]; simpl in *; runM; by simplify_eq).
  split; [|apply load_cursors]. intros id. apply load_sinks.
Qed.

(** Where a stream starts: after the last event received; else after the stored
    cursor; else anywhere, and then no cursor is stored. *)
Lemma fetch_cases sb s req s' t start b :
  Subscriber.topic sb = t -> SubscriberSpec.emitted t (L t) b sb ->
  (forall rid, cursors s !! t = Some rid -> exists k e, L t !! k = Some e /\ ce_ReplayId e = rid) ->
  Subscriber.initialFetch sb s = (Ok req, s') -> SubscriberSpec.starts (L t) req start ->
  (Subscriber.out sb <> [] /\ fr_ReplayPreset req = CUSTOM /\ start = (b + length (Subscriber.out sb))%nat) \/
  (Subscriber.out sb = [] /\ fr_ReplayPreset req = CUSTOM /\
     exists k e rid, cursors s !! t = Some rid /\ L t !! k = Some e /\ ce_ReplayId e = rid /\ start = S k) \/
  (Subscriber.out sb = [] /\ fr_ReplayPreset req = LATEST /\ cursors s !! t = None).
Proof.
  intros Ht Hem Hcur Hf Hst. destruct (Hlog t) as [Hnn Hinj].
  pose proof (SubscriberSpec.em_last _ _ _ _ Hem) as Hl. unfold Subscriber.initialFetch in Hf.
  destruct (last (Subscriber.out sb)) as [raw|] eqn:El.
  - left. rewrite last_lookup in El.
    destruct (out_facts _ _ _ _ _ Hem El) as (_ & _ & _ & e & HL & He). rewrite He in Hl. simpl in Hl.
    destruct (ce_ReplayId e) as [rid|] eqn:Er; [|by destruct (Hnn _ _ HL)].
    rewrite Hl in Hf. runM. simplify_eq/=. destruct Hst as (i & e' & Hi & Hre & ->). simpl in Hre.
    assert (i = b + pred (length (Subscriber.out sb)))%nat as -> by (eapply Hinj; [done..|congruence]).
    assert (length (Subscriber.out sb) <> 0)%nat by (intros Hz; by rewrite (nil_length_inv _ Hz) in El).
    split; [by intros Hn; rewrite Hn in El|]. split; [done|]. lia.
  - apply last_None in El. right. rewrite Hl in Hf. rewrite M_bind_unfold in Hf.
    destruct (LoadReplay (Subscriber.topic sb) s) as [[v|err] s1] eqn:Elr; cbn [fst snd] in Hf; runM; [|done].
    pose proof (load_value _ _ _ _ Elr) as Hv. rewrite Ht in Hv. simplify_eq/=.
    destruct (cursors s !! Subscriber.topic sb) as [[rid|]|] eqn:Ec; simpl in *.
    + left. split; [done|]. split; [done|]. destruct Hst as (i & e & Hi & Hre & ->). eauto 10.
    + destruct (Hcur _ eq_refl) as (k & e & HL & He). by destruct (Hnn _ _ HL).
    + by right.
Qed.

Lemma origin_base_ne s bs t t' start b : t <> t' -> origin s (<[t := start]> bs) t' b <-> origin s bs t' b.
Proof. intros Hne. unfold origin. by rewrite lookup_insert_ne. Qed.

Lemma covered_base_ne s bs t t' start rid : t <> t' -> covered s bs t' rid -> covered s (<[t := start]> bs) t' rid.
Proof. intros Hne. unfold covered. by rewrite lookup_insert_ne. Qed.

Lemma emitted_empty t b b' sb :
  Subscriber.out sb = [] -> SubscriberSpec.emitted t (L t) b sb -> SubscriberSpec.emitted t (L t) b' sb.
Proof. intros Ho []. split; try done. intros i raw Hi. by rewrite Ho in Hi. Qed.

(** Replacing the position of one stream. *)
Lemma streams_insert (ss : list (option nat)) j j' x pos :
  <[j := x]> ss !! j' = Some (Some pos) -> (j = j' /\ x = Some pos) \/ (j <> j' /\ ss !! j' = Some (Some pos)).
Proof.
  intros Hl. apply list_lookup_insert_Some in Hl as [(-> & <- & _)|[? ?]]; auto.
Qed.

(** Where the stream that a subscriber opens starts, and that everything from the topic's
    base up to there is settled. *)
Lemma open_origin snt acks w tk ss fl bs j sb req s' start :
  inv0 snt acks w tk ss fl bs -> subs w !! j = Some sb ->
  Subscriber.initialFetch sb (sinks w) = (Ok req, s') ->
  SubscriberSpec.starts (L (Subscriber.topic sb)) req start ->
  (fr_ReplayPreset req = LATEST -> cursors (sinks w) !! Subscriber.topic sb = None) /\
  exists b, SubscriberSpec.emitted (Subscriber.topic sb) (L (Subscriber.topic sb)) b sb /\
    start = (b + length (Subscriber.out sb))%nat /\
    origin (sinks w) (match fr_ReplayPreset req with LATEST => <[Subscriber.topic sb := start]> bs | _ => bs end)
      (Subscriber.topic sb) b.
Proof.
  intros Hinv Hj Hf Hst. destruct (i_sub _ _ _ _ _ _ _ Hinv _ _ Hj) as (b & Hem & Hpos & Hor).
  assert (forall rid, cursors (sinks w) !! Subscriber.topic sb = Some rid ->
    exists k e, L (Subscriber.topic sb) !! k = Some e /\ ce_ReplayId e = rid) as Hcur0.
  { intros rid Hc. destruct (i_cursor _ _ _ _ _ _ _ Hinv _ _ Hc) as (_ & k & e & _ & _ & ? & ? & _). eauto. }
  pose proof (fetch_cases sb (sinks w) req s' _ start b eq_refl Hem Hcur0 Hf Hst) as Hcases.
  split; [by destruct Hcases as [(_ & -> & _)|[(_ & -> & _)|(_ & _ & Hc)]]|].
  destruct Hcases as [(Ho & -> & Hs)|[(Ho & -> & k & e & rid & Hc & HL & He & ->)|(Ho & -> & Hc)]].
  - exists b. split; [done|]. split; [done|]. apply Hor. by left.
  - exists (S k). split; [by eapply emitted_empty|]. rewrite Ho. simpl. split; [lia|].
    destruct (i_cursor _ _ _ _ _ _ _ Hinv _ _ Hc) as (b0 & k' & e' & Hb0 & Hk & HL' & He' & Hall).
    assert (k' = k) as -> by (eapply (proj2 (Hlog (Subscriber.topic sb))); [done..|congruence]).
    exists b0. split; [done|]. split; [lia|]. intros i Hi. apply Hall. lia.
  - exists start. split; [by eapply emitted_empty|]. rewrite Ho. simpl. split; [lia|].
    exists start. rewrite lookup_insert_eq. split; [done|]. split; [lia|]. intros i Hi. lia.
Qed.

Lemma inv0_open snt acks w tk ss fl bs j sb req s' start :
  inv0 snt acks w tk ss fl bs -> subs w !! j = Some sb ->
  Subscriber.initialFetch sb (sinks w) = (Ok req, s') ->
  SubscriberSpec.starts (L (Subscriber.topic sb)) req start ->
  inv0 snt acks (mkServices (net w) s' (cursor w) (subs w)) tk (<[j := Some start]> ss) fl
    (match fr_ReplayPreset req with LATEST => <[Subscriber.topic sb := start]> bs | _ => bs end).
Proof.
  intros Hinv Hj Hf Hst. destruct (fetch_frame _ _ _ _ Hf) as [Hse Hcu].
  pose proof (i_topics _ _ _ _ _ _ _ Hinv) as Htp.
  destruct (open_origin _ _ _ _ _ _ _ _ _ _ _ _ Hinv Hj Hf Hst) as [HLat Hb].
  pose proof (sameEvents_le _ _ Hse) as Hle.
  destruct Hinv. split; simpl; try done.
  - intros j' sb' Hj'. destruct (decide (j = j')) as [<-|Hne].
    + simplify_eq. destruct Hb as (b' & Hem' & Hs & Hor'). exists b'. split; [done|]. split.
      * intros pos Hp. destruct (streams_insert _ _ _ _ _ Hp) as [[_ Hx]|[? _]]; [|done]. by injection Hx as <-.
      * intros _. by eapply origin_le.
    + destruct (i_sub0 _ _ Hj') as (b' & Hem' & Hpos' & Hor'). exists b'. split; [done|]. split.
      * intros pos Hp. destruct (streams_insert _ _ _ _ _ Hp) as [[? _]|[_ ?]]; [done|auto].
      * intros Hx. eapply origin_le; [done|].
        assert (origin (sinks w) bs (Subscriber.topic sb') b') as Ho'.
        { apply Hor'. destruct Hx as [?|[pos Hp]]; [by left|right].
          destruct (streams_insert _ _ _ _ _ Hp) as [[? _]|[_ ?]]; [done|eauto]. }
        destruct (fr_ReplayPreset req); try done. apply origin_base_ne; [|done].
        intros Heq. apply Hne. by eapply sub_unique.
  - by eapply sameEvents_sinksOK.
  - intros raw Hr. eapply settledEvent_le; eauto.
  - intros t rid. rewrite Hcu. intros Hc. eapply covered_le; [done|].
    destruct (fr_ReplayPreset req); auto. apply covered_base_ne; [|auto].
    intros <-. rewrite HLat in Hc; done.
Qed.

Lemma inv0_emit snt acks w tk ss fl bs j sb pos e now :
  inv0 snt acks w tk ss fl bs -> subs w !! j = Some sb -> ss !! j = Some (Some pos) ->
  L (Subscriber.topic sb) !! pos = Some e ->
  inv0 snt acks (mkServices (net w) (sinks w) (cursor w) (<[j := Subscriber.emit (Some e) now sb]> (subs w)))
    tk (<[j := Some (S pos)]> ss) fl bs.
Proof.
  intros [] Hj Hp HL. pose proof (lookup_lt_Some _ _ _ Hj) as Hjl. split; simpl; try done.
  - rewrite list_fmap_insert, <- i_topics0. simpl. apply list_insert_id.
    rewrite list_lookup_fmap, Hj. done.
  - intros raw Hr. destruct (i_sent0 _ Hr) as (j' & sb' & k & i & Hj' & Hk & Hik & Hi).
    destruct (decide (j = j')) as [<-|Hne].
    + simplify_eq. exists j, (Subscriber.emit (Some e) now sb), k, i.
      rewrite list_lookup_insert_eq by done. split; [done|]. split; [done|]. split; [done|].
      simpl. rewrite lookup_app_l; [done|]. by eapply lookup_lt_Some.
    + exists j', sb', k, i. by rewrite list_lookup_insert_ne.
  - intros j' sb' Hj'. destruct (decide (j = j')) as [<-|Hne].
    + rewrite list_lookup_insert_eq in Hj' by done. simplify_eq.
      destruct (i_sub0 _ _ Hj) as (b & Hem & Hpos & Hor). exists b.
      specialize (Hpos _ Hp). subst pos. split; [|split].
      * simpl. by apply SubscriberSpec.emitted_emit.
      * intros pos' Hp'. destruct (streams_insert _ _ _ _ _ Hp') as [[_ Hx]|[? _]]; [|done].
        injection Hx as <-. simpl. rewrite length_app. simpl. lia.
      * intros _. simpl. apply Hor. eauto.
    + rewrite list_lookup_insert_ne in Hj' by done.
      destruct (i_sub0 _ _ Hj') as (b & Hem & Hpos & Hor). exists b. split; [done|]. split.
      * intros pos' Hp'. destruct (streams_insert _ _ _ _ _ Hp') as [[? _]|[_ ?]]; [done|auto].
      * intros Hx. apply Hor. destruct Hx as [?|[pos' Hp']]; [by left|right].
        destruct (streams_insert _ _ _ _ _ Hp') as [[? _]|[_ ?]]; [done|eauto].
Qed.

Lemma inv0_end snt acks w tk ss fl bs j :
  inv0 snt acks w tk ss fl bs -> inv0 snt acks w tk (<[j := None]> ss) fl bs.
Proof.
  intros []. split; try done. intros j' sb' Hj'.
  destruct (i_sub0 _ _ Hj') as (b & Hem & Hpos & Hor). exists b. split; [done|]. split.
  - intros pos' Hp'. destruct (streams_insert _ _ _ _ _ Hp') as [[_ ?]|[_ ?]]; [done|auto].
  - intros Hx. apply Hor. destruct Hx as [?|[pos' Hp']]; [by left|right].
    destruct (streams_insert _ _ _ _ _ Hp') as [[_ ?]|[_ ?]]; [done|eauto].
Qed.

(** *** Fan-in *)

Lemma taken_insert snt acks w tk ss fl bs j k :
  inv0 snt acks w tk ss fl bs -> tk !! j = Some k -> inv0 snt acks w (<[j := S k]> tk) ss fl bs.
Proof.
  intros [] Hk. split; try done. intros raw Hr.
  destruct (i_sent0 _ Hr) as (j' & sb & k' & i & Hj & Hk' & Hik & Hi).
  destruct (decide (j = j')) as [<-|Hne].
  - simplify_eq. exists j, sb, (S k), i. rewrite list_lookup_insert_eq by (by eapply lookup_lt_Some).
    do 2 (split; [done|]). split; [lia|done].
  - exists j', sb, k', i. by rewrite list_lookup_insert_ne.
Qed.

Lemma inv0_fanin snt acks w tk ss fl bs j sb k raw :
  inv0 snt acks w tk ss fl bs -> subs w !! j = Some sb -> tk !! j = Some k ->
  Subscriber.out sb !! k = Some raw -> inv0 (snt ++ [raw]) acks w (<[j := S k]> tk) ss fl bs.
Proof.
  intros Hinv Hj Hk Hi.
  assert (keyOf raw ∉ keyOf <$> snt) as Hfresh.
  { intros (raw' & Heq & Hr')%list_elem_of_fmap.
    destruct (sent_facts _ _ _ _ _ _ _ _ Hinv Hr')
      as (j' & sb' & k' & i & b & e & Hj' & Hk' & Hik & Ht & Hi' & Hem & _ & Hs & _).
    destruct (i_sub _ _ _ _ _ _ _ Hinv _ _ Hj) as (b2 & Hem2 & _).
    destruct (out_facts _ _ _ _ _ Hem2 Hi) as (Ht2 & Hs2 & _). unfold keyOf in Heq.
    assert (j = j') as <- by (eapply sub_unique; [apply (i_topics _ _ _ _ _ _ _ Hinv)|done|done|congruence]).
    simplify_eq. lia. }
  pose proof (taken_insert _ _ _ _ _ _ _ _ _ Hinv Hk) as []. split; try done.
  - intros x [Hx|Hx]%elem_of_app; [by apply i_sent0|]. apply list_elem_of_singleton in Hx as ->.
    exists j, sb, (S k), k. rewrite list_lookup_insert_eq by (by eapply lookup_lt_Some). auto with lia.
  - rewrite fmap_app. apply NoDup_app. split; [done|]. split; [|repeat constructor; set_solver].
    intros x Hx Hx'. simpl in Hx'. by apply list_elem_of_singleton in Hx' as ->.
  - intros x Hx. apply elem_of_app. left. by apply i_acked_sent0.
Qed.

(** *** Flushes *)

Lemma inv0_snapshot snt acks w tk ss bs :
  inv0 snt acks w tk ss None bs ->
  inv0 snt acks (mkServices (net w) (sinks w) (Committer.snapshot (cursor w)).2 (subs w)) tk ss
    (Some (Committer.snapshot (cursor w)).1) bs.
Proof.
  intros []. split; try done.
  - by apply CommitterSpec.committer_repr_snapshot.
  - intros pending t rid Hi Hp. cbn [cursor]. rewrite CommitterSpec.markOf_snapshot. simplify_eq.
    destruct (CommitterSpec.snapshot_lookup _ _ _ Hp) as (tc & Htc & Hd & <-).
    eexists. split; [|done]. apply CommitterSpec.mark_position; [done|done|].
    specialize (i_repr0 t). rewrite Htc in i_repr0. by apply (Committer.repr_dirty _ _ i_repr0).
Qed.

Lemma inv0_flush_end snt acks w tk ss fl bs : inv0 snt acks w tk ss fl bs -> inv0 snt acks w tk ss None bs.
Proof. intros []. by split. Qed.

Lemma histOf_Some acks t p rid :
  histOf acks !! (t, p) = Some rid ->
  exists raw, raw ∈ acks /\ raw_Topic raw = t /\ raw_Seq raw = p /\ GetReplayId (raw_Event raw) = rid.
Proof.
  intros Hh. unfold histOf, CommitterSpec.history in Hh. apply elem_of_list_to_map_2 in Hh.
  apply list_elem_of_fmap in Hh as (raw & Heq & Hr). unfold callOf, keyOf in Heq. simplify_eq. eauto.
Qed.

Lemma histOf_not_None acks raw : raw ∈ acks -> histOf acks !! keyOf raw <> None.
Proof.
  intros Hr Hn. unfold histOf, CommitterSpec.history in Hn. apply not_elem_of_list_to_map_2 in Hn.
  rewrite callOf_keys in Hn. apply Hn. by apply list_elem_of_fmap_2.
Qed.

(** The workers are given an event once. *)
Lemma sent_unique snt acks w tk ss fl bs raw raw' :
  inv0 snt acks w tk ss fl bs -> raw ∈ snt -> raw' ∈ snt -> keyOf raw = keyOf raw' -> raw = raw'.
Proof.
  intros Hinv Hr Hr' Hk. apply list_elem_of_lookup in Hr as [i Hi]. apply list_elem_of_lookup in Hr' as [i' Hi'].
  assert (i = i') as <-; [|by simplify_eq].
  eapply (NoDup_lookup _ _ _ (keyOf raw) (i_nodup _ _ _ _ _ _ _ Hinv)); rewrite list_lookup_fmap; [by rewrite Hi|].
  rewrite Hi'. simpl. by f_equal.
Qed.

(** A cursor that a flush holds covers settled events only. *)
Lemma pending_covered snt acks w tk ss fl bs t rid p :
  inv0 snt acks w tk ss fl bs -> CommitterSpec.at_position (histOf acks) t rid p ->
  p <= CommitterSpec.markOf (cursor w) t -> covered (sinks w) bs t rid.
Proof.
  intros Hinv [Hp Hat] Hm. destruct (histOf_Some _ _ _ _ Hat) as (raw & Hr & Ht & Hs & Hrid).
  pose proof (i_acked_sent _ _ _ _ _ _ _ Hinv) as Hsub.
  destruct (sent_facts _ _ _ _ _ _ _ _ Hinv (Hsub _ Hr))
    as (j & sb & k & i & b & e & Hj & Hk & Hik & Hts & Hi & Hem & Hor & Hseq & Hok & HL & He).
  rewrite Ht in *. destruct Hor as (b0 & Hb0 & Hle & Hall). exists b0, (b + i)%nat, e.
  split; [done|]. split; [lia|]. split; [done|]. split; [by rewrite He in Hrid|].
  intros idx Hidx. destruct (decide (idx < b)%nat) as [Hlt|Hge]; [apply Hall; lia|].
  destruct (CommitterSpec.mark_covers (histOf acks) (cursor w) t (Z.of_nat (idx - b) + 1)) as [rid' Hr'];
    [apply Hinv|lia|].
  destruct (histOf_Some _ _ _ _ Hr') as (raw' & Hin & Ht' & Hs' & _).
  destruct (sent_facts _ _ _ _ _ _ _ _ Hinv (Hsub _ Hin))
    as (j' & sb' & k' & i' & b' & e' & Hj' & _ & _ & Hts' & Hi' & _).
  assert (j = j') as <- by (eapply sub_unique; [apply Hinv|done|done|congruence]).
  simplify_eq. destruct (out_facts _ _ _ _ _ Hem Hi') as (_ & Hs2 & _ & e2 & HL2 & He2).
  assert (i' = idx - b)%nat as -> by lia. replace idx with (b + (idx - b))%nat by lia.
  exists e2. split; [done|]. rewrite <- He2. by apply (i_acked _ _ _ _ _ _ _ Hinv).
Qed.

Lemma save_sameEvents t rid s r s' : SaveReplay t rid s = (r, s') -> sameEvents s s'.
Proof. intros Hs id. pose proof (save_sinks t rid s id) as Hx. rewrite Hs in Hx. exact Hx. Qed.

(** A save, whatever it reports. *)
Lemma inv0_save snt acks w tk ss bs pending t rid r s' c' :
  inv0 snt acks w tk ss (Some pending) bs -> pending !! t = Some rid ->
  SaveReplay t rid (sinks w) = (r, s') ->
  CommitterSpec.committer_repr (histOf acks) c' ->
  (forall t', CommitterSpec.markOf c' t' = CommitterSpec.markOf (cursor w) t') ->
  inv0 snt acks (mkServices (net w) s' c' (subs w)) tk ss (Some (delete t pending)) bs.
Proof.
  intros Hinv Hp Hs Hc' Hm'. destruct (i_pending _ _ _ _ _ _ _ Hinv _ _ _ eq_refl Hp) as (p & Hat & Hle).
  pose proof (pending_covered _ _ _ _ _ _ _ _ _ _ Hinv Hat Hle) as Hcov.
  pose proof (save_sameEvents _ _ _ _ _ Hs) as Hse. pose proof (sameEvents_le _ _ Hse) as Hl.
  assert (cursors s' = cursors (sinks w) \/ cursors s' = <[t := rid]> (cursors (sinks w))) as Hcu.
  { destruct r; [by eapply save_err|right; by apply save_ok]. }
  destruct Hinv. split; simpl; try done.
  - intros j sb Hj. destruct (i_sub0 _ _ Hj) as (b & Hem & Hpos & Hor). exists b. split; [done|].
    split; [done|]. intros Hx. eapply origin_le; eauto.
  - by eapply sameEvents_sinksOK.
  - intros raw Hr. eapply settledEvent_le; eauto.
  - intros pending' t' rid' Hi' Hp'. rewrite Hm'. simplify_eq.
    apply lookup_delete_Some in Hp' as [_ Hp']. by eapply i_pending0.
  - intros t' rid' Hc. eapply covered_le; [done|]. destruct Hcu as [Hcu|Hcu]; rewrite Hcu in Hc; [by apply i_cursor0|].
    apply lookup_insert_Some in Hc as [[<- <-]|[_ ?]]; [done|by apply i_cursor0].
Qed.

(** *** Start *)

Lemma inv_boot s n bs :
  Handler.sinksOK kafka s -> (forall t rid, cursors s !! t = Some rid -> covered s bs t rid) ->
  inv (boot s n bs).
Proof.
  intros Hok Hcov. split; [by apply pinv_Run|]. split; [by intros id sch|].
  unfold boot, worldOf. simpl. split; simpl; try done.
  - unfold App.newSubs. rewrite <- list_fmap_compose. apply list_fmap_id.
  - intros raw Hr. by apply elem_of_nil in Hr.
  - constructor.
  - intros j sb Hj. exists 0%nat. unfold App.newSubs in Hj. rewrite list_lookup_fmap in Hj.
    destruct (Config.Topics (Config.PubSub cfg) !! j) as [t|]; [|done]. simpl in Hj. simplify_eq. simpl.
    split; [by apply SubscriberSpec.emitted_new|]. split.
    + intros pos Hp. by apply lookup_replicate in Hp as [? _].
    + intros [?|[pos Hp]]; [done|]. by apply lookup_replicate in Hp as [? _].
  - intros raw Hr. by apply elem_of_nil in Hr.
  - apply CommitterSpec.hist_ok_empty.
  - apply CommitterSpec.committer_repr_new.
Qed.

(** *** Every step *)

Lemma inv_env x y : inv x -> estep x y -> inv y.
Proof.
  intros Hinv Hst. env_cases Hst; destruct Hinv as (Hpi & Hca & Hinv); simpl in *;
    pose proof (i_sinks _ _ _ _ _ _ _ Hinv) as Hok.
  - split; [by destruct Hpi|]. split; [done|]. eapply inv0_frame; [exact Hinv|done|done|apply le_refl|exact Hok|done].
  - split; [by destruct Hpi|]. split; [done|].
    eapply inv0_frame; [done|done|done|by apply sameEvents_le|by eapply sameEvents_sinksOK|done].
  - split; [done|]. split; [done|]. by eapply inv0_end.
  - split; [by destruct Hpi|]. split; [done|]. by eapply inv0_open.
  - split; [by destruct Hpi|]. split; [done|]. destruct (fetch_frame _ _ _ _ Hf) as [Hse Hcu].
    eapply inv0_frame; [done|done|done|by apply sameEvents_le|by eapply sameEvents_sinksOK|done].
  - split; [by destruct Hpi|]. split; [done|]. by eapply inv0_emit.
  - split; [|split; [done|by eapply inv0_fanin]].
    eapply (pinv_step source avro_Parse avro_Unmarshal rootW ackW); [exact Hpi|].
    right. destruct p. simpl in *. subst. constructor.
  - split; [done|]. split; [done|]. by eapply taken_insert.
  - split; [by destruct Hpi|]. done.
  - split; [by destruct Hpi|]. split; [done|]. by eapply inv0_snapshot.
  - split; [by destruct Hpi|]. split; [done|].
    eapply inv0_save; try done. apply (i_repr _ _ _ _ _ _ _ Hinv).
  - split; [by destruct Hpi|]. split; [done|].
    destruct (i_pending _ _ _ _ _ _ _ Hinv _ _ _ eq_refl Hp) as (q & [Hq _] & Hle).
    eapply inv0_save; try done; [|intros t'; by rewrite CommitterSpec.markOf_markDirty].
    apply CommitterSpec.committer_repr_markDirty; [apply (i_repr _ _ _ _ _ _ _ Hinv)|].
    change (0 < CommitterSpec.markOf (cursor (worldOf p)) t). lia.
  - split; [by destruct Hpi|]. split; [done|]. by eapply inv0_flush_end.
Qed.

Lemma inv_restart x n : inv x -> inv (boot (sinks (worldOf (pool x))) n (base x)).
Proof.
  intros (_ & _ & Hinv). apply inv_boot; [apply (i_sinks _ _ _ _ _ _ _ Hinv)|apply (i_cursor _ _ _ _ _ _ _ Hinv)].
Qed.

Definition sinksOf (x : Sys) : D := sinks (worldOf (pool x)).

(** Around the workers nothing that is settled is lost, no cursor disappears, and the base
    of a topic with a cursor is fixed. *)
Lemma env_frame x y :
  inv x -> estep x y ->
  ws (pool y) = ws (pool x) /\ le (sinksOf x) (sinksOf y) /\
  forall t, is_Some (cursors (sinksOf x) !! t) ->
    is_Some (cursors (sinksOf y) !! t) /\ base y !! t = base x !! t.
Proof.
  intros Hinv Hst. unfold sinksOf. env_cases Hst; simpl; (split; [done|]);
    try (by split; [apply le_refl|]).
  - split; [by apply sameEvents_le|]. by rewrite Hcu.
  - destruct (fetch_frame _ _ _ _ Hf) as [Hse Hcu]. split; [by apply sameEvents_le|]. rewrite Hcu. intros t Hc.
    split; [done|]. destruct Hinv as (_ & _ & Hinv). destruct (open_origin _ _ _ _ _ _ _ _ _ _ _ _ Hinv Hj Hf Hs) as [Hn _].
    destruct (fr_ReplayPreset req); try done. rewrite lookup_insert_ne; [done|].
    intros <-. simpl in Hn. rewrite Hn in Hc by done. by destruct Hc.
  - destruct (fetch_frame _ _ _ _ Hf) as [Hse Hcu]. split; [by apply sameEvents_le|]. by rewrite Hcu.
  - split; [apply sameEvents_le; by eapply save_sameEvents|]. rewrite (save_ok _ _ _ _ Hs). intros t' Hc.
    split; [|done]. rewrite lookup_insert. case_decide; eauto.
  - split; [apply sameEvents_le; by eapply save_sameEvents|].
    destruct (save_err _ _ _ _ _ Hs) as [->| ->]; [done|]. intros t' Hc. split; [|done].
    rewrite lookup_insert. case_decide; eauto.
Qed.

End Reachable.

End Pipeline.
End Pipeline.
