(* ===== verification/Service.v ===== *)
(** * The service, call by call

    The machine of Pipeline.v with its workers. A worker takes an event, fetches its
    schema, and then runs the handler, whose calls to the sinks are steps of their own
    (HandlerSteps.v): between any two of them other workers call the sinks, streams
    deliver, flushes save cursors, and the process can die. The properties hold over any
    number of processes. *)

From S2P Require Import Prelude Event Schema Handler HandlerSteps Config.
From S2P Require Import Committer CommitterSpec Subscriber SubscriberSpec Pool App Pipeline.

Module Service.
Import Proto Event Pool Pipeline.

(** The cases of a step: around the workers, the moves of a worker, and a restart. *)
Ltac step_cases Hst L :=
  destruct Hst as
    [? ? [x y cs He%(st_inside L) | x p' cs Hid | x cs i raw start d ph' s' Hw Hs | x cs i raw dec start d Hw Hn
         | x cs i raw dec start d c c' s' Hw Hc Hadv | x cs i raw dec start d r ph' s' Hw Hc Hs]
    | x y cs He%(st_outside L) | x cs n].

Section Service.
Context {D N Schema : Type} `{PipelineLaws D} `{ClockLaws N}.
Context (src : string -> M N (result string)) (avro_Parse : string -> result Schema)
  (avro_Unmarshal : Schema -> list Byte.byte -> result payload)
  (json_Marshal : Handler.Envelope -> result (list Byte.byte)) (cfg : Config.Config).
Context (L : string -> list ConsumerEvent).

#[local] Existing Instance Services_Clock.
#[local] Existing Instance Services_ClockLaws.
#[local] Abbreviation PSys := (@Pool.PSys (@Services D N) Schema).
#[local] Abbreviation Sys := (@Pipeline.Sys D N Schema).
#[local] Abbreviation rootW := (rootW json_Marshal cfg).
#[local] Abbreviation source := (source src).
#[local] Abbreviation inv := (Pipeline.inv src avro_Parse avro_Unmarshal cfg L).
#[local] Abbreviation settled := (Pipeline.settled src avro_Parse avro_Unmarshal cfg L).
#[local] Abbreviation advance := (HandlerSteps.advance json_Marshal (kafka cfg) (redis cfg)).
#[local] Abbreviation attempt h := (stepWorker source avro_Parse avro_Unmarshal h ackW).

(** ** Steps *)

(** A process: its pipeline, and how far each worker that is in the handler got. *)
Record Process := mkProcess { sys : Sys; calls : gmap nat HandlerSteps.pc }.

Definition withPool (p : PSys) (x : Sys) : Sys := mkSys p (taken x) (streams x) (flushing x) (base x).

(** What an idle worker does: take an event, or leave the loop. *)
Inductive idleStep : relation PSys :=
| w_take p i raw q ph s' : ws p !! i = Some Idle -> chan p = raw :: q -> begin_ raw (st p) = (ph, s') ->
    idleStep p (mkPSys s' (<[i := ph]> (ws p)) q (closed p) (sent p) (abandoned p))
| w_exit p i : ws p !! i = Some Idle -> (chan p = [] /\ closed p = true) \/ canceled (world (st p)) ->
    idleStep p (mkPSys (st p) (<[i := Exited]> (ws p)) (chan p) (closed p) (sent p) (abandoned p)).

(** What a living process does. *)
Inductive move : relation Process :=
| s_inside x y cs : inside L x y -> move (mkProcess x cs) (mkProcess y cs)
| s_idle x p' cs : idleStep (pool x) p' -> move (mkProcess x cs) (mkProcess (withPool p' x) cs)
(* an attempt to fetch the schema and to decode *)
| s_fetch x cs i raw start d ph' s' : ws (pool x) !! i = Some (Fetching raw start d) ->
    attempt rootW (Fetching raw start d) (st (pool x)) = (ph', s') ->
    move (mkProcess x cs) (mkProcess (withPool (attempted i raw ph' s' (pool x)) x) cs)
(* an attempt of the handler: it is entered, makes its calls, and returns *)
| s_enter x cs i raw dec start d : ws (pool x) !! i = Some (Handling raw dec start d) -> cs !! i = None ->
    move (mkProcess x cs) (mkProcess x (<[i := HandlerSteps.start (redis cfg)]> cs))
| s_call x cs i raw dec start d c c' s' : ws (pool x) !! i = Some (Handling raw dec start d) ->
    cs !! i = Some c -> advance dec c (sinksOf x) = (c', s') ->
    move (mkProcess x cs) (mkProcess (withPool (setSinks s' (pool x)) x) (<[i := c']> cs))
| s_return x cs i raw dec start d r ph' s' : ws (pool x) !! i = Some (Handling raw dec start d) ->
    cs !! i = Some (HandlerSteps.Returned r) ->
    attempt (fun _ => mret r) (Handling raw dec start d) (st (pool x)) = (ph', s') ->
    move (mkProcess x cs) (mkProcess (withPool (attempted i raw ph' s' (pool x)) x) (delete i cs)).

(** All that can happen: a move, something from outside, or the end of the process, which
    is started again on what it left behind. *)
Inductive step : relation Process :=
| s_move x y : move x y -> step x y
| s_outside x y cs : outside x y -> step (mkProcess x cs) (mkProcess y cs)
| s_restart x cs n : step (mkProcess x cs) (mkProcess (boot cfg (sinksOf x) n (base x)) ∅).

(** A move of a process whose context is not canceled. *)
Definition onward (x y : Process) : Prop := move x y /\ ~ canceled (worldOf (pool (sys y))).

Definition first (s : D) (n : N) : Process := mkProcess (boot cfg s n ∅) ∅.

(** ** Uninterrupted, the calls are an attempt of the pool *)

Lemma attempt_const raw dec start d s r w1 :
  rootW dec (world s) = (r, w1) ->
  attempt rootW (Handling raw dec start d) s =
  attempt (fun _ => mret r) (Handling raw dec start d) (mkState (metrics s) (cache s) w1 (effects s)).
Proof.
  intros Hr. cbn [stepWorker]. rewrite !M_bind_unfold.
  assert (retryOnce "handler" d (handle rootW dec) s =
    retryOnce "handler" d (handle (fun _ => mret r) dec) (mkState (metrics s) (cache s) w1 (effects s))) as ->; [|done].
  unfold retryOnce. rewrite !M_bind_unfold.
  assert (handle rootW dec s = handle (fun _ => mret r) dec (mkState (metrics s) (cache s) w1 (effects s))) as ->; [|done].
  unfold handle. rewrite !M_bind_unfold. unfold onWorld. by rewrite Hr.
Qed.

Lemma calls_run n x cs i raw dec start d c c' s' :
  ws (pool x) !! i = Some (Handling raw dec start d) ->
  HandlerSteps.run json_Marshal (kafka cfg) (redis cfg) n dec c (sinksOf x) = (c', s') ->
  rtc step (mkProcess x (<[i := c]> cs)) (mkProcess (withPool (setSinks s' (pool x)) x) (<[i := c']> cs)).
Proof.
  revert x c. induction n as [|n IH]; intros x c Hi Hr.
  - cbn in Hr. runM. simplify_eq. destruct x as [[[m ca [nt sk cu sb] ef] wk ch cl sn ab] tk ss fl b]. constructor.
  - rewrite HandlerSteps.run_S in Hr.
    destruct (advance dec c (sinksOf x)) as [c1 s1] eqn:Ea. cbn [fst snd] in Hr.
    eapply rtc_l; [eapply s_move, s_call; [done|by rewrite lookup_insert_eq|done]|].
    rewrite insert_insert_eq.
    exact (IH (withPool (setSinks s1 (pool x)) x) c1 Hi Hr).
Qed.

Lemma attempt_alone x cs i raw dec start d ph' s' :
  ws (pool x) !! i = Some (Handling raw dec start d) -> cs !! i = None ->
  attempt rootW (Handling raw dec start d) (st (pool x)) = (ph', s') ->
  rtc step (mkProcess x cs) (mkProcess (withPool (attempted i raw ph' s' (pool x)) x) cs).
Proof.
  intros Hi Hn Hs. eapply rtc_l; [by eapply s_move, s_enter|].
  pose proof (HandlerSteps.run_alone json_Marshal (kafka cfg) (redis cfg) dec (sinksOf x)) as Hra.
  destruct (Handler.rootHandler (kafka cfg) (redis cfg) json_Marshal dec (sinksOf x)) as [r sk] eqn:Er.
  etrans; [by eapply calls_run|]. apply rtc_once.
  rewrite (attempt_const _ _ _ _ _ r (mkServices (net (worldOf (pool x))) sk (cursor (worldOf (pool x))) (subs (worldOf (pool x))))) in Hs.
  2: { unfold Pipeline.rootW, onSinks. unfold sinksOf, worldOf in Er. by rewrite Er. }
  pose proof (s_return (withPool (setSinks sk (pool x)) x) (<[i := HandlerSteps.Returned r]> cs) i raw dec start d r
    ph' s' Hi (lookup_insert_eq _ _ _) Hs) as Hst.
  rewrite delete_insert_id in Hst by done. apply s_move, Hst.
Qed.

(** ** The invariant *)

(** A worker with a call in progress is in the handler, and the sinks are as far as it
    knows. *)
Definition callsOK (x : Sys) (cs : gmap nat HandlerSteps.pc) : Prop :=
  forall i c, cs !! i = Some c -> exists raw dec start d,
    ws (pool x) !! i = Some (Handling raw dec start d) /\ HandlerSteps.knows (kafka cfg) (sinksOf x) dec c.

Definition pinvariant (x : Process) : Prop := inv (sys x) /\ callsOK (sys x) (calls x).

(** What every step but a restart does to the sinks: nothing is lost, no cursor
    disappears, and the base of a topic with a cursor is fixed. *)
Definition forward (x y : Sys) : Prop :=
  le (sinksOf x) (sinksOf y) /\
  forall t, is_Some (cursors (sinksOf x) !! t) ->
    is_Some (cursors (sinksOf y) !! t) /\ base y !! t = base x !! t.

Lemma forward_worker (x y : Sys) :
  workerFrame (worldOf (pool x)) (worldOf (pool y)) -> base y = base x -> forward x y.
Proof. intros [Hle Hc _ _ _] Hb. split; [done|]. intros t Ht. unfold sinksOf. by rewrite Hc, Hb. Qed.

Lemma forward_refl x y : sinksOf y = sinksOf x -> base y = base x -> forward x y.
Proof. intros Hs Hb. unfold forward. rewrite Hs, Hb. split; [apply le_refl|done]. Qed.

Lemma knows_le s s' dec c : le s s' -> HandlerSteps.knows (kafka cfg) s dec c -> HandlerSteps.knows (kafka cfg) s' dec c.
Proof.
  intros [Hs Hp]. assert (forall id, Handler.finished (kafka cfg) s id -> Handler.finished (kafka cfg) s' id) as Hf.
  { intros id [? Hk]. split; auto. }
  destruct c as [| | | |[]]; simpl; auto.
Qed.

(** Only the worker that moves loses its call. *)
Lemma callsOK_move (x y : Sys) cs cs' i :
  callsOK x cs -> le (sinksOf x) (sinksOf y) -> (forall j, j <> i -> ws (pool y) !! j = ws (pool x) !! j) ->
  (forall j, j <> i -> cs' !! j = cs !! j) ->
  (forall c, cs' !! i = Some c -> exists raw dec start d,
     ws (pool y) !! i = Some (Handling raw dec start d) /\ HandlerSteps.knows (kafka cfg) (sinksOf y) dec c) ->
  callsOK y cs'.
Proof.
  intros Hc Hle Hws Hcs Hi j c Hj. destruct (decide (j = i)) as [->|Hne]; [by apply Hi|].
  rewrite Hcs in Hj by done. destruct (Hc _ _ Hj) as (raw & dec & start & d & Hw & Hk).
  exists raw, dec, start, d. rewrite Hws by done. split; [done|]. by eapply knows_le.
Qed.

(** A worker that is not in the handler has no call. *)
Lemma no_call x cs i ph : callsOK x cs -> ws (pool x) !! i = Some ph ->
  (forall raw dec start d, ph <> Handling raw dec start d) -> cs !! i = None.
Proof.
  intros Hc Hi Hn. destruct (cs !! i) as [c|] eqn:E; [|done].
  destruct (Hc _ _ E) as (? & ? & ? & ? & Hw & _). simplify_eq. by destruct (Hn _ _ _ _ eq_refl).
Qed.

Lemma advance_cursors dec c s c' s' : advance dec c s = (c', s') -> cursors s' = cursors s.
Proof.
  destruct c as [| |v| |r]; cbn [HandlerSteps.advance]; rewrite ?M_bind_unfold.
  - pose proof (seen_cursors (EventID dec) s). destruct (Seen _ s) as [[[]|] s1]; cbn [fst snd] in *;
      intros; runM; by simplify_eq.
  - pose proof (persist_cursors dec s). destruct (PersistEvent _ s) as [[] s1]; cbn [fst snd] in *;
      intros; runM; by simplify_eq.
  - pose proof (produce_cursors (Topic dec) v (Handler.headers dec) s).
    destruct (Produce _ _ _ s) as [[] s1]; cbn [fst snd] in *; intros; runM; by simplify_eq.
  - pose proof (mark_cursors (EventID dec) s). destruct (MarkSeen _ s) as [? s1]; cbn [fst snd] in *;
      intros; runM; by simplify_eq.
  - intros; runM; by simplify_eq.
Qed.

Section Reachable.
Context (Hlog : forall t, SubscriberSpec.log_ok (L t)).
Context (Hlen : forall t, Z.of_nat (length (L t)) < 2 ^ 64 - 2).
Context (Htopics : NoDup (Config.Topics (Config.PubSub cfg))).

Lemma keep_idle x p' : inv x -> idleStep (pool x) p' -> inv (withPool p' x) /\ workerFrame (worldOf (pool x)) (worldOf p').
Proof.
  intros Hinv Hst. assert (pinv avro_Unmarshal p') as Hpi.
  { apply (pinv_step source avro_Parse avro_Unmarshal rootW ackW (pool x)); [apply Hinv|]. left.
    destruct Hst as [[] i raw q ph s' Hi Hc Hb|[s wk ch cl sn ab] i Hi Hc]; simpl in *; [by eapply p_take|].
    destruct Hc as [[-> ->]|Hc]; [by apply p_exit_closed|by apply p_exit_canceled]. }
  destruct x as [p tk ss fl b]. simpl in *. unfold withPool; cbn [taken streams flushing base pool].
  destruct Hst as [p i raw q ph s' Hi Hc Hb|p i Hi Hc].
  - unfold begin_ in Hb. rewrite M_bind_unfold in Hb. unfold onWorld in Hb. simpl in Hb. unfold onNet in Hb.
    destruct (time_Now (net (world (st p)))) as [now n]. runM. simplify_eq/=.
    split; [by eapply inv_take|]. by apply workerFrame_same; [apply le_refl| | |].
  - split; [|by apply workerFrame_same; [apply le_refl| | |]]. apply (inv_take _ _ _ _ _ p _ _ _ _ _ (net (worldOf p))); try done. unfold worldOf. simpl.
    by destruct (world (st p)).
Qed.

Lemma keep_attempt h x i ph ph' s' raw :
  inv x -> handlerOK cfg (worldOf (pool x)) raw h -> ws (pool x) !! i = Some ph -> rawOf ph = Some raw ->
  attempt h ph (st (pool x)) = (ph', s') ->
  inv (withPool (attempted i raw ph' s' (pool x)) x) /\ workerFrame (worldOf (pool x)) (world s').
Proof. intros Hinv Hh Hi Hr Hs. destruct x as [p tk ss fl b]. by eapply inv_attempt. Qed.

(** A handler that fails at once. *)
Lemma failing_OK w0 raw err : handlerOK cfg (D := D) (N := N) w0 raw (fun _ => mret (Some err)).
Proof. intros raw' pl w r w' HI Hr. runM. simplify_eq. done. Qed.

(** The result of the calls, once they returned. *)
Lemma returned_OK (w0 : @Services D N) raw dec r :
  HandlerSteps.knows (kafka cfg) (sinks w0) dec (HandlerSteps.Returned r) ->
  EventID dec = GetId (GetEvent (raw_Event raw)) ->
  handlerOK cfg w0 raw (fun _ => mret r).
Proof.
  intros Hk Hid raw' pl w r' w' HI Hr. runM. simplify_eq. split; [done|]. intros -> _.
  destruct HI as (_ & _ & Hle & _). unfold attemptQ. rewrite <- Hid. by apply (knows_le _ _ _ (HandlerSteps.Returned None) Hle).
Qed.

Lemma keep_call x cs i raw dec start d c c' s' :
  pinvariant (mkProcess x cs) -> ws (pool x) !! i = Some (Handling raw dec start d) -> cs !! i = Some c ->
  advance dec c (sinksOf x) = (c', s') ->
  inv (withPool (setSinks s' (pool x)) x) /\
  workerFrame (worldOf (pool x)) (worldOf (setSinks s' (pool x))) /\
  HandlerSteps.knows (kafka cfg) s' dec c'.
Proof.
  intros [(Hpi & Hca & Hinv) Hcs] Hw Hc Ha. simpl in *.
  destruct (Hcs _ _ Hc) as (raw' & dec' & start' & d' & Hw' & Hk). simplify_eq.
  pose proof (i_sinks _ _ _ _ _ _ _ _ _ _ _ _ Hinv) as Hok.
  destruct (HandlerSteps.advance_grows _ _ _ _ _ _ _ _ Hok Hk Ha) as [Hg Hk'].
  assert (le (sinksOf x) s') as Hle by (split; apply Hg).
  split; [|split; [by apply workerFrame_same; [|by apply (advance_cursors _ _ _ _ _ Ha)| |]|done]].
  split; [by destruct Hpi|]. split; [done|].
  eapply inv0_frame; [done|done|done|done|by eapply Handler.sinksOK_grows|by eapply advance_cursors].
Qed.

Lemma handling_id x i raw dec start d :
  inv x -> ws (pool x) !! i = Some (Handling raw dec start d) -> EventID dec = GetId (GetEvent (raw_Event raw)).
Proof.
  intros [Hpi _] Hi. pose proof (Forall_lookup_1 _ _ _ _ (pi_phases _ _ Hpi) Hi) as Hok.
  by destruct Hok as (sch & pl & _ & ->).
Qed.

Lemma keep_return x cs i raw dec start d r ph' s' :
  pinvariant (mkProcess x cs) -> ws (pool x) !! i = Some (Handling raw dec start d) ->
  cs !! i = Some (HandlerSteps.Returned r) ->
  attempt (fun _ => mret r) (Handling raw dec start d) (st (pool x)) = (ph', s') ->
  inv (withPool (attempted i raw ph' s' (pool x)) x) /\ workerFrame (worldOf (pool x)) (world s').
Proof.
  intros [Hi Hcs] Hw Hc Hs. simpl in *. destruct (Hcs _ _ Hc) as (raw' & dec' & start' & d' & Hw' & Hk). simplify_eq.
  eapply (keep_attempt (fun _ => mret r) x i (Handling raw dec start d) ph' s' raw Hi); try done.
  eapply returned_OK; [done|]. by eapply handling_id.
Qed.

Lemma keep_env x y cs :
  pinvariant (mkProcess x cs) -> estep L x y -> pinvariant (mkProcess y cs) /\ forward x y.
Proof.
  intros [Hi Hcs] He. simpl in *. pose proof (inv_env _ _ _ json_Marshal _ _ Hlog Hlen Htopics _ _ Hi He) as Hi'.
  destruct (env_frame _ _ _ _ _ Hlog Hlen _ _ Hi He) as (Hw & Hle & Hc).
  split; [|by split]. split; [done|]. apply (callsOK_move x y cs cs 0%nat); try done; [intros; by rewrite Hw|].
  intros c Hc0. destruct (Hcs _ _ Hc0) as (raw & dec & start & d & Hw0 & Hk). exists raw, dec, start, d.
  simpl. rewrite Hw. split; [done|]. by eapply knows_le.
Qed.

Lemma service_step x y :
  pinvariant x -> step x y -> pinvariant y /\ forward (sys x) (sys y).
Proof.
  intros Hinv Hst. pose proof Hinv as [Hi Hcs].
  step_cases Hst L; simpl in *.
  - by apply keep_env.
  - destruct (keep_idle _ _ Hi Hid) as [Hi' Hf]. split; [|by apply forward_worker]. split; [done|].
    assert (exists i ph, ws (pool x) !! i = Some Idle /\ ws p' = <[i := ph]> (ws (pool x))) as (i & ph & Hw & Hws)
      by (destruct Hid; eauto).
    apply (callsOK_move x (withPool p' x) cs cs i); try done; [apply Hf|simpl; rewrite Hws; intros; by rewrite list_lookup_insert_ne|].
    intros c. by rewrite (no_call _ _ _ _ Hcs Hw).
  - destruct (keep_attempt (fun _ => mret (Some (Join []))) x i _ ph' s' raw Hi (failing_OK _ _ _) Hw eq_refl Hs) as [Hi' Hf].
    split; [|by apply forward_worker]. split; [done|].
    apply (callsOK_move x (withPool (attempted i raw ph' s' (pool x)) x) cs cs i); try done; [apply Hf|simpl; intros; by rewrite list_lookup_insert_ne|].
    intros c. by rewrite (no_call _ _ _ _ Hcs Hw).
  - split; [|by apply forward_refl]. split; [done|].
    apply (callsOK_move x _ cs _ i); try done; [simpl; intros; by rewrite lookup_insert_ne|].
    simpl. rewrite lookup_insert_eq. intros c [= <-]. exists raw, dec, start, d. split; [done|].
    unfold HandlerSteps.start. by destruct (redis cfg).
  - destruct (keep_call _ _ _ _ _ _ _ _ _ _ Hinv Hw Hc Hadv) as (Hi' & Hf & Hk). split; [|by apply forward_worker]. split; [done|].
    apply (callsOK_move x _ cs _ i); try done; [apply Hf|simpl; intros; by rewrite lookup_insert_ne|].
    simpl. rewrite lookup_insert_eq. intros c0 [= <-]. exists raw, dec, start, d. done.
  - destruct (keep_return _ _ _ _ _ _ _ _ _ _ Hinv Hw Hc Hs) as [Hi' Hf].
    split; [|by apply forward_worker]. split; [done|].
    apply (callsOK_move x (withPool (attempted i raw ph' s' (pool x)) x) cs (delete i cs) i); try done;
      [apply Hf|simpl; intros; by rewrite list_lookup_insert_ne|intros; by rewrite lookup_delete_ne|].
    simpl. intros c. by rewrite lookup_delete_eq.
  - by apply keep_env.
  - split; [|by apply forward_refl]. split; [by apply inv_restart|].
    intros i c Hc0. simpl in Hc0. by rewrite lookup_empty in Hc0.
Qed.

Lemma service_reachable s0 n0 x :
  Handler.sinksOK (kafka cfg) s0 -> cursors s0 = ∅ -> rtc step (first s0 n0) x -> pinvariant x.
Proof.
  intros Hok Hc Hr. eapply (rtc_invariant step pinvariant); [intros; by eapply service_step| |exact Hr].
  split; [|intros i c Hc0; simpl in Hc0; by rewrite lookup_empty in Hc0].
  apply inv_boot; [done|]. intros t rid. rewrite Hc. by rewrite lookup_empty.
Qed.

Lemma progress_rtc x y t :
  pinvariant x -> rtc step x y -> is_Some (cursors (sinksOf (sys x)) !! t) ->
  pinvariant y /\ is_Some (cursors (sinksOf (sys y)) !! t) /\ base (sys y) !! t = base (sys x) !! t.
Proof.
  intros Hinv Hr Hc. apply (rtc_invariant step (fun z => pinvariant z /\
    is_Some (cursors (sinksOf (sys z)) !! t) /\ base (sys z) !! t = base (sys x) !! t) x y); [|done|done].
  intros a b (Ha & Hca & Hba) Hab. destruct (service_step _ _ Ha Hab) as [? [_ Hf]].
  destruct (Hf _ Hca). split; [done|]. split; [done|]. congruence.
Qed.

(** What the committer holds of topic [t], in terms of the acknowledged events. *)
Definition cursorOf (acked : list RawEvent) (t : string) (tc : Committer.topicCursor) : Prop :=
  let has q rid := exists raw, raw ∈ acked /\ keyOf raw = (t, q) /\ GetReplayId (raw_Event raw) = rid in
  (forall q, 1 <= q < Committer.next tc -> exists rid, has q rid) /\
  (forall rid, ~ has (Committer.next tc) rid) /\
  (forall q rid, Committer.done tc !! q = Some rid <-> Committer.next tc < q /\ has q rid) /\
  (Committer.next tc = 1 -> Committer.replayID tc = None) /\
  (Committer.next tc <> 1 -> has (Committer.next tc - 1) (Committer.replayID tc)).

Lemma acked_report (x : Sys) t q rid :
  inv x -> (exists raw, raw ∈ ackedOf (st (pool x)) /\ keyOf raw = (t, q) /\ GetReplayId (raw_Event raw) = rid) <->
  histOf (ackedOf (st (pool x))) !! (t, q) = Some rid.
Proof.
  intros (_ & _ & Hi). split.
  - intros (raw & Hin & Hk & <-). rewrite <- Hk.
    destruct (histOf (ackedOf (st (pool x))) !! keyOf raw) as [rid|] eqn:E; [|by destruct (histOf_not_None _ _ Hin)].
    destruct (keyOf raw) as [t' q'] eqn:Hk'. destruct (histOf_Some _ _ _ _ E) as (raw' & Hin' & Ht' & Hs' & <-).
    assert (raw' = raw) as ->; [|done].
    eapply sent_unique; [exact Hi|by apply (i_acked_sent _ _ _ _ _ _ _ _ _ _ _ _ Hi)..|].
    rewrite Hk'. unfold keyOf. by rewrite Ht', Hs'.
  - intros Hh. destruct (histOf_Some _ _ _ _ Hh) as (raw & Hin & Ht & Hs & Hr).
    exists raw. split; [done|]. split; [|done]. unfold keyOf. by rewrite Ht, Hs.
Qed.

Lemma committer_well_formed x t tc :
  inv x -> Committer.topics (cursor (worldOf (pool x))) !! t = Some tc -> cursorOf (ackedOf (st (pool x))) t tc.
Proof.
  intros Hinv Ht. pose proof Hinv as (_ & _ & Hi).
  pose proof (i_repr _ _ _ _ _ _ _ _ _ _ _ _ Hi t) as Hr. rewrite Ht in Hr.
  destruct Hr as [Hrng Hbel Hgap Hdone Hrid _]. unfold CommitterSpec.reports in *.
  pose proof (fun q rid => acked_report x t q rid Hinv) as Hrep.
  unfold cursorOf. split; [|split; [|split; [|split]]].
  - intros q Hq. destruct (Hbel q Hq) as [rid Hh]. exists rid. by apply Hrep.
  - intros rid Hh%Hrep. congruence.
  - intros q rid. rewrite Hrep, Hdone. destruct (decide (Committer.next tc < q)) as [Hq|Hq];
      [by split; [|intros [_ ?]]|by split; [|intros [? _]]].
  - intros Hn. by rewrite Hrid, decide_True.
  - intros Hn. apply Hrep. destruct (Hbel (Committer.next tc - 1)) as [rid Hh]; [lia|].
    by rewrite Hrid, decide_False, Hh.
Qed.

(** ** Properties *)

(** C1. At least once, over any number of crashes: in every state the service can
    reach from a first start, a cursor stored for a topic is the replay ID of a
    position of the topic's log such that every event from the topic's base up to
    that position is settled: stored in the database and, when the Kafka sink is on,
    published, or impossible to decode against the schema the source provides for it.
    So no event between the base and the cursor was skipped, whatever the
    interleaving of streams, workers and flushes, whichever
    operations failed, and wherever the crashes fell. *)
Theorem cursor_covers_settled s0 n0 x t rid :
  Handler.sinksOK (kafka cfg) s0 -> cursors s0 = ∅ -> rtc step (first s0 n0) x ->
  cursors (sinksOf (sys x)) !! t = Some rid ->
  exists b0 k e, base (sys x) !! t = Some b0 /\ (b0 <= k)%nat /\ L t !! k = Some e /\ ce_ReplayId e = rid /\
    forall i, (b0 <= i <= k)%nat -> settled (sinksOf (sys x)) t i.
Proof.
  intros Hok Hc0 Hr Hc. destruct (service_reachable _ _ _ Hok Hc0 Hr) as [(_ & _ & Hinv) _].
  exact (i_cursor _ _ _ _ _ _ _ _ _ _ _ _ Hinv _ _ Hc).
Qed.

(** C2. Once a topic has a cursor its base never moves and it always has a cursor,
    which covers settled events from that same base on: from the first commit on
    there is no way to lose an event, in this process or in any later one. *)
Theorem no_gap_after_first_commit s0 n0 x y t b0 rid :
  Handler.sinksOK (kafka cfg) s0 -> cursors s0 = ∅ -> rtc step (first s0 n0) x ->
  cursors (sinksOf (sys x)) !! t = Some rid -> base (sys x) !! t = Some b0 -> rtc step x y ->
  exists rid' k e, cursors (sinksOf (sys y)) !! t = Some rid' /\ (b0 <= k)%nat /\ L t !! k = Some e /\
    ce_ReplayId e = rid' /\ forall i, (b0 <= i <= k)%nat -> settled (sinksOf (sys y)) t i.
Proof.
  intros Hok Hc0 Hr Hc Hb Hxy. pose proof (service_reachable _ _ _ Hok Hc0 Hr) as Hinv.
  destruct (progress_rtc _ _ t Hinv Hxy ltac:(eauto)) as ([(_ & _ & Hiy) _] & [rid' Hc'] & Hby).
  destruct (i_cursor _ _ _ _ _ _ _ _ _ _ _ _ Hiy _ _ Hc') as (b1 & k & e & Hb1 & ?).
  simpl in Hb1. rewrite Hby, Hb in Hb1. simplify_eq. exists rid', k, e. done.
Qed.

(** C3. A restart redelivers what is not settled: for a topic with a cursor, the
    first stream that a fresh process opens starts after the base and at or before
    every event from the base on that is not settled. *)
Theorem restart_redelivers_unsettled s0 n0 x t rid b0 batch req s' start :
  Handler.sinksOK (kafka cfg) s0 -> cursors s0 = ∅ -> rtc step (first s0 n0) x ->
  cursors (sinksOf (sys x)) !! t = Some rid -> base (sys x) !! t = Some b0 ->
  Subscriber.initialFetch (Subscriber.NewSubscriber t batch) (sinksOf (sys x)) = (Ok req, s') ->
  SubscriberSpec.starts (L t) req start ->
  (b0 < start)%nat /\
  forall i, (b0 <= i)%nat -> ~ settled (sinksOf (sys x)) t i -> (start <= i)%nat.
Proof.
  intros Hok Hc0 Hr Hc Hb Hf Hs. destruct (service_reachable _ _ _ Hok Hc0 Hr) as [(_ & _ & Hinv) _].
  destruct (i_cursor _ _ _ _ _ _ _ _ _ _ _ _ Hinv _ _ Hc) as (b1 & k & e & Hb1 & Hk & HL & He & Hall).
  unfold sinksOf in *. assert (b1 = b0) as -> by (simpl in *; congruence).
  assert (forall r, cursors (sinks (worldOf (pool (sys x)))) !! t = Some r ->
    exists k e, L t !! k = Some e /\ ce_ReplayId e = r) as Hcur0
    by (intros r Hr'; rewrite Hc in Hr'; simplify_eq; eauto).
  destruct (fetch_cases L Hlog Hlen (Subscriber.NewSubscriber t batch) _ req s' t start 0%nat eq_refl
    (SubscriberSpec.emitted_new t (L t) 0 batch) Hcur0 Hf Hs) as
    [[Ho _]|[(_ & _ & k' & e' & rid' & Hc' & HL' & He' & ->)|(_ & _ & Hn)]].
  - by destruct Ho.
  - assert (k' = k) as -> by (eapply (proj2 (Hlog t)); [done..|congruence]).
    split; [lia|]. intros i Hi Hns. destruct (decide (i <= k)%nat) as [Hle|]; [|lia].
    destruct Hns. apply Hall. lia.
  - congruence.
Qed.

(** C24. The shape of every reachable state. There is a subscriber per configured topic, and
    what it received are consecutive events of the topic's log, numbered 1, 2, 3 and so on.
    An event that fan-in took came from a subscriber, is unique in its topic and number,
    and is in exactly one place: in the channel, with one worker, acknowledged, or given
    up, and then the context was canceled. Only a worker that is in the handler has a call
    in progress. For each topic the committer sits at the first number that is not
    acknowledged, holds exactly the acknowledged events above it, and has the replay ID of
    the event right below it. *)
Theorem service_well_formed s0 n0 x :
  Handler.sinksOK (kafka cfg) s0 -> cursors s0 = ∅ -> rtc step (first s0 n0) x ->
  let p := pool (sys x) in
  let w := worldOf p in
  Subscriber.topic <$> subs w = Config.Topics (Config.PubSub cfg) /\
  (forall j sb, subs w !! j = Some sb -> exists b, forall i raw, Subscriber.out sb !! i = Some raw ->
     raw_Topic raw = Subscriber.topic sb /\ raw_Seq raw = Z.of_nat i + 1 /\
     exists e, raw_Event raw = Some e /\ L (Subscriber.topic sb) !! (b + i)%nat = Some e) /\
  (forall raw, raw ∈ sent p -> exists j sb, subs w !! j = Some sb /\ raw ∈ Subscriber.out sb) /\
  NoDup (keyOf <$> sent p) /\
  sent p ≡ₚ chan p ++ inflight (ws p) ++ ackedOf (st p) ++ (abandoned p).*1 /\
  Forall (fun a => canceled a.2) (abandoned p) /\
  (forall i c, calls x !! i = Some c -> exists raw dec start d, ws p !! i = Some (Handling raw dec start d)) /\
  (forall t tc, Committer.topics (cursor w) !! t = Some tc -> cursorOf (ackedOf (st p)) t tc).
Proof.
  intros Hok Hc0 Hr p w. destruct (service_reachable _ _ _ Hok Hc0 Hr) as [Hinv Hcs].
  pose proof Hinv as (Hpi & _ & Hi).
  split; [apply (i_topics _ _ _ _ _ _ _ _ _ _ _ _ Hi)|]. split; [|split; [|split; [|split; [|split; [|split]]]]].
  - intros j sb Hj. destruct (i_sub _ _ _ _ _ _ _ _ _ _ _ _ Hi _ _ Hj) as (b & Hem & _). exists b. intros i raw Hraw.
    destruct (out_facts L Hlen _ _ _ _ _ Hem Hraw) as (? & ? & _ & e & ? & ?). eauto.
  - intros raw Hin. destruct (i_sent _ _ _ _ _ _ _ _ _ _ _ _ Hi _ Hin) as (j & sb & k & i & Hj & _ & _ & Hraw).
    exists j, sb. split; [done|]. by eapply list_elem_of_lookup_2.
  - apply (i_nodup _ _ _ _ _ _ _ _ _ _ _ _ Hi).
  - apply (pi_sent _ _ Hpi).
  - apply (pi_canceled _ _ Hpi).
  - intros i c Hc. destruct (Hcs _ _ Hc) as (raw & dec & start & d & Hw & _). eauto.
  - intros t tc. by apply committer_well_formed.
Qed.

End Reachable.
End Service.
End Service.
