(* ===== verification/Monotone.v ===== *)
(** * Stored cursors only move forward

    Over the whole life of the service, restarts included, the cursor stored for a topic
    never moves back in the topic's log. A flush saves what an earlier snapshot took, so
    this rests on the lock that keeps flushes apart, and on a process starting to number
    events after the stored cursor. *)

From S2P Require Import Prelude Event Schema Handler HandlerSteps Config.
From S2P Require Import Committer CommitterSpec Subscriber SubscriberSpec Pool App Pipeline Service.

Module Monotone.
Import Proto Event Pool Pipeline Service.

Section Monotone.
Context {D N Schema : Type} `{PipelineLaws D} `{ClockLaws N}.
Context (src : string -> M N (result string)) (avro_Parse : string -> result Schema)
  (avro_Unmarshal : Schema -> list Byte.byte -> result payload)
  (json_Marshal : Handler.Envelope -> result (list Byte.byte)) (cfg : Config.Config).
Context (L : string -> list ConsumerEvent).

#[local] Existing Instance Services_Clock.
#[local] Existing Instance Services_ClockLaws.
#[local] Abbreviation Sys := (@Pipeline.Sys D N Schema).
#[local] Abbreviation inv := (Pipeline.inv src avro_Parse avro_Unmarshal cfg L).
#[local] Abbreviation inv0 := (Pipeline.inv0 src avro_Parse avro_Unmarshal cfg L).
#[local] Abbreviation step := (Service.step src avro_Parse avro_Unmarshal json_Marshal cfg L).
#[local] Abbreviation pinvariant := (Service.pinvariant src avro_Parse avro_Unmarshal cfg L).

Context (Hlog : forall t, SubscriberSpec.log_ok (L t)).
Context (Hlen : forall t, Z.of_nat (length (L t)) < 2 ^ 64 - 2).
Context (Htopics : NoDup (Config.Topics (Config.PubSub cfg))).

(** The stored cursor of [t] is the replay ID of the event at position [k]. *)
Definition storedAt (s : D) (t : string) (k : nat) : Prop :=
  exists e, L t !! k = Some e /\ cursors s !! t = Some (ce_ReplayId e).

Lemma index_unique t i j e e' :
  L t !! i = Some e -> L t !! j = Some e' -> ce_ReplayId e = ce_ReplayId e' -> i = j.
Proof. apply (proj2 (Hlog t)). Qed.

Lemma storedAt_unique s t k k' : storedAt s t k -> storedAt s t k' -> k = k'.
Proof. intros (e & HL & Hc) (e' & HL' & Hc'). eapply index_unique; [done..|congruence]. Qed.

Lemma base_unique t b b' sb :
  Subscriber.out sb <> [] -> SubscriberSpec.emitted t (L t) b sb -> SubscriberSpec.emitted t (L t) b' sb -> b = b'.
Proof.
  intros Ho Hb Hb'. destruct (Subscriber.out sb) as [|raw l] eqn:E; [done|].
  destruct (SubscriberSpec.em_event _ _ _ _ Hb 0%nat raw) as (_ & _ & e & HL & He); [by rewrite E|].
  destruct (SubscriberSpec.em_event _ _ _ _ Hb' 0%nat raw) as (_ & _ & e' & HL' & He'); [by rewrite E|].
  rewrite Nat.add_0_r in *. eapply index_unique; [done..|congruence].
Qed.

(** Where an acknowledged position is in the log. *)
Lemma position_index snt acks (w : @Services D N) tk ss fl bs t rid p :
  inv0 snt acks w tk ss fl bs -> CommitterSpec.at_position (histOf acks) t rid p ->
  exists j sb b e, subs w !! j = Some sb /\ Subscriber.topic sb = t /\ Subscriber.out sb <> [] /\
    SubscriberSpec.emitted t (L t) b sb /\ L t !! (b + Z.to_nat (p - 1))%nat = Some e /\ ce_ReplayId e = rid.
Proof.
  intros Hinv [Hp Hat]. destruct (histOf_Some _ _ _ _ Hat) as (raw & Hr & Ht & Hs & Hrid).
  pose proof (i_acked_sent _ _ _ _ _ _ _ _ _ _ _ _ Hinv _ Hr) as Hsnt.
  destruct (sent_facts _ _ _ _ _ Hlen _ _ _ _ _ _ _ _ Hinv Hsnt)
    as (j & sb & k & i & b & e & Hj & Hk & Hik & Hts & Hi & Hem & Hor & Hseq & Hok & HL & He).
  rewrite Ht in *. exists j, sb, b, e. do 2 (split; [done|]). split; [by intros Hn; rewrite Hn in Hi|].
  split; [done|]. replace (Z.to_nat (p - 1)) with i by lia. split; [done|]. by rewrite He in Hrid.
Qed.

(** What is to come is ahead of the stored cursor: what the committer can report, where
    the first event of a stream is, and what a flush has yet to save. *)
Record ahead (x : Sys) : Prop := {
  a_mark : forall t k j sb b, storedAt (sinksOf x) t k ->
    subs (worldOf (pool x)) !! j = Some sb -> Subscriber.topic sb = t -> Subscriber.out sb <> [] ->
    SubscriberSpec.emitted t (L t) b sb ->
    Z.of_nat k < Z.of_nat b + CommitterSpec.markOf (cursor (worldOf (pool x))) t;
  a_open : forall t k j sb pos, storedAt (sinksOf x) t k ->
    subs (worldOf (pool x)) !! j = Some sb -> Subscriber.topic sb = t -> Subscriber.out sb = [] ->
    streams x !! j = Some (Some pos) -> pos = S k;
  a_pending : forall t k k' e pending, storedAt (sinksOf x) t k -> flushing x = Some pending ->
    pending !! t = Some (ce_ReplayId e) -> L t !! k' = Some e -> (k <= k')%nat;
}.

Definition monotone (x y : Sys) : Prop :=
  forall t k k', storedAt (sinksOf x) t k -> storedAt (sinksOf y) t k' -> (k <= k')%nat.

Lemma ahead_frame x y :
  ahead x -> cursors (sinksOf y) = cursors (sinksOf x) ->
  (forall t, CommitterSpec.markOf (cursor (worldOf (pool x))) t <= CommitterSpec.markOf (cursor (worldOf (pool y))) t) ->
  Forall2 (fun a b => SubscriberSpec.core b = SubscriberSpec.core a)
    (subs (worldOf (pool x))) (subs (worldOf (pool y))) ->
  (forall j pos, streams y !! j = Some (Some pos) -> streams x !! j = Some (Some pos)) ->
  (forall t rid pending, flushing y = Some pending -> pending !! t = Some rid ->
     exists pending', flushing x = Some pending' /\ pending' !! t = Some rid) ->
  ahead y /\ monotone x y.
Proof.
  intros [Hm Ho Hp] Hc Hmark Hsubs Hss Hfl.
  assert (forall t k, storedAt (sinksOf y) t k -> storedAt (sinksOf x) t k) as Hst
    by (intros t k; unfold storedAt; by rewrite Hc).
  split; [|intros t k k' Hk Hk'; rewrite (storedAt_unique _ _ _ _ Hk (Hst _ _ Hk')); done].
  split.
  - intros t k j sb b Hk Hj Ht Hne Hem. specialize (Hmark t).
    destruct (Forall2_lookup_r _ _ _ _ _ Hsubs Hj) as (sb0 & Hj0 & Hcore).
    enough (Z.of_nat k < Z.of_nat b + CommitterSpec.markOf (cursor (worldOf (pool x))) t) by lia.
    pose proof Hcore as Hcore0. unfold SubscriberSpec.core in Hcore0. injection Hcore0 as Hct Hco _ _.
    apply (Hm t k j sb0 b); [auto|done|congruence|congruence|].
    by eapply SubscriberSpec.emitted_core.
  - intros t k j sb pos Hk Hj Ht Hne Hpos.
    destruct (Forall2_lookup_r _ _ _ _ _ Hsubs Hj) as (sb0 & Hj0 & Hcore).
    unfold SubscriberSpec.core in Hcore. injection Hcore as Hct Hco _ _.
    eapply Ho; eauto; congruence.
  - intros t k k' e pending Hk Hf Hpe HL. destruct (Hfl _ _ _ Hf Hpe) as (pending' & Hf' & Hpe'). eauto.
Qed.

Lemma subs_same (l : list Subscriber.Subscriber) :
  Forall2 (fun a b => SubscriberSpec.core b = SubscriberSpec.core a) l l.
Proof. by apply Forall_Forall2_diag, Forall_true. Qed.

(** Nothing the invariant looks at changes. *)
Lemma ahead_same x y :
  ahead x -> cursors (sinksOf y) = cursors (sinksOf x) ->
  cursor (worldOf (pool y)) = cursor (worldOf (pool x)) -> subs (worldOf (pool y)) = subs (worldOf (pool x)) ->
  streams y = streams x -> flushing y = flushing x -> ahead y /\ monotone x y.
Proof.
  intros Ha Hc Hcu Hs Hss Hfl. apply ahead_frame; [done..| | | |]; rewrite ?Hcu, ?Hs, ?Hss, ?Hfl; try done.
  - apply subs_same.
  - eauto.
Qed.

Lemma ahead_worker x p' :
  ahead x -> workerFrame (worldOf (pool x)) (worldOf p') -> ahead (withPool p' x) /\ monotone x (withPool p' x).
Proof. intros Ha [_ Hc Hm Hs _]. apply ahead_frame; try done. simpl. eauto. Qed.

Lemma sub_same x j j' sb sb' :
  inv x -> subs (worldOf (pool x)) !! j = Some sb -> subs (worldOf (pool x)) !! j' = Some sb' ->
  Subscriber.topic sb = Subscriber.topic sb' -> j = j'.
Proof. intros (_ & _ & Hinv). eapply (sub_unique cfg Htopics). apply (i_topics _ _ _ _ _ _ _ _ _ _ _ _ Hinv). Qed.

Lemma mark_nonneg x t : inv x -> 0 <= CommitterSpec.markOf (cursor (worldOf (pool x))) t.
Proof.
  intros (_ & _ & Hinv). pose proof (i_repr _ _ _ _ _ _ _ _ _ _ _ _ Hinv) as Hr.
  pose proof (Committer.repr_range _ _ (CommitterSpec.committer_repr_cursor _ _ t Hr)).
  unfold CommitterSpec.markOf. lia.
Qed.

(** A stream without a received event starts past the stored cursor. *)
Lemma ahead_open p tk ss fl b j sb req s' start :
  inv (mkSys p tk ss fl b) -> ahead (mkSys p tk ss fl b) -> subs (worldOf p) !! j = Some sb ->
  Subscriber.initialFetch sb (sinks (worldOf p)) = (Ok req, s') ->
  SubscriberSpec.starts (L (Subscriber.topic sb)) req start ->
  let y := mkSys (setSinks s' p) tk (<[j := Some start]> ss) fl
    (match fr_ReplayPreset req with LATEST => <[Subscriber.topic sb := start]> b | _ => b end) in
  ahead y /\ monotone (mkSys p tk ss fl b) y.
Proof.
  intros Hi [Hm Ho Hp] Hj Hf Hs. simpl in *. destruct (fetch_frame src avro_Parse _ _ _ _ Hf) as [_ Hcu].
  assert (forall t k, storedAt s' t k -> storedAt (sinks (worldOf p)) t k) as Hst
    by (intros t k; unfold storedAt; by rewrite Hcu).
  split; [|intros t k k' Hk Hk'; rewrite (storedAt_unique _ _ _ _ Hk (Hst _ _ Hk')); done].
  split; simpl; unfold sinksOf in *; simpl in *; [by eauto| |by eauto].
  intros t k j' sb' pos Hk Hj' Ht Hout Hpos.
  destruct (streams_insert _ _ _ _ _ Hpos) as [[<- [= <-]]|[? ?]]; [|by eauto].
  simplify_eq. destruct Hi as (_ & _ & Hi). simpl in Hi.
  destruct (i_sub _ _ _ _ _ _ _ _ _ _ _ _ Hi _ _ Hj) as (b0 & Hem & _).
  destruct (Hst _ _ Hk) as (e & HL & Hc).
  assert (forall r, cursors (sinks (worldOf p)) !! Subscriber.topic sb = Some r ->
    exists k e, L (Subscriber.topic sb) !! k = Some e /\ ce_ReplayId e = r) as Hcur
    by (intros r Hr; exists k, e; split; [done|congruence]).
  destruct (fetch_cases L Hlog Hlen sb _ req s' _ start b0 eq_refl Hem Hcur Hf Hs)
    as [[? _]|[(_ & _ & k1 & e1 & rid & Hc1 & HL1 & Hr1 & ->)|(_ & _ & Hn)]]; [done| |congruence].
  assert (k = k1) as -> by (eapply index_unique; [done..|congruence]). lia.
Qed.

Lemma ahead_emit p tk ss fl b j sb pos e now :
  inv (mkSys p tk ss fl b) -> ahead (mkSys p tk ss fl b) -> subs (worldOf p) !! j = Some sb ->
  ss !! j = Some (Some pos) -> L (Subscriber.topic sb) !! pos = Some e ->
  let y := mkSys (setSub j (Subscriber.emit (Some e) now sb) p) tk (<[j := Some (S pos)]> ss) fl b in
  ahead y /\ monotone (mkSys p tk ss fl b) y.
Proof.
  intros Hi [Hm Ho Hp] Hj Hs HL. simpl in *.
  split; [|intros t k k' Hk Hk'; rewrite (storedAt_unique _ _ _ _ Hk Hk'); done].
  split; simpl; unfold sinksOf in *; simpl in *; [| |by eauto].
  - intros t k j' sb' b' Hk Hj' Ht Hne Hem.
    apply list_lookup_insert_Some in Hj' as [(<- & <- & _)|[Hjj Hj']]; [|by eauto].
    simpl in Ht. subst t.
    pose proof (mark_nonneg _ (Subscriber.topic sb) Hi) as Hpos. simpl in Hpos.
    destruct Hi as (_ & _ & Hi). simpl in Hi.
    destruct (i_sub _ _ _ _ _ _ _ _ _ _ _ _ Hi _ _ Hj) as (b0 & Hem0 & Hp0 & _). specialize (Hp0 _ Hs). subst pos.
    pose proof (SubscriberSpec.emitted_emit _ _ _ _ _ now Hem0 HL) as Hem1.
    assert (b' = b0) as -> by (by eapply base_unique).
    destruct (decide (Subscriber.out sb = [])) as [Hout|Hout]; [|by eapply Hm].
    specialize (Ho _ _ _ _ _ Hk Hj eq_refl Hout Hs). rewrite Hout in Ho. simpl in Ho. lia.
  - intros t k j' sb' pos' Hk Hj' Ht Hout Hpos'.
    apply list_lookup_insert_Some in Hj' as [(<- & <- & _)|[Hjj Hj']].
    + simpl in Hout. by destruct (Subscriber.out sb).
    + destruct (streams_insert _ _ _ _ _ Hpos') as [[? _]|[_ ?]]; [done|]. eauto.
Qed.

(** What the committer reports is ahead of the stored cursor. *)
Lemma reported_ahead x t k k' e rid p :
  inv x -> ahead x -> storedAt (sinksOf x) t k ->
  CommitterSpec.at_position (histOf (ackedOf (st (pool x)))) t rid p ->
  p = CommitterSpec.markOf (cursor (worldOf (pool x))) t ->
  L t !! k' = Some e -> ce_ReplayId e = rid -> (k <= k')%nat.
Proof.
  intros (_ & _ & Hi) Ha Hk Hat -> HL He. pose proof (proj1 Hat) as Hp.
  destruct (position_index _ _ _ _ _ _ _ _ _ _ Hi Hat) as (j & sb & b & e' & Hj & Ht & Hne & Hem & HL' & He').
  pose proof (a_mark _ Ha _ _ _ _ _ Hk Hj Ht Hne Hem).
  rewrite (index_unique _ _ _ _ _ HL HL') by congruence. lia.
Qed.

Lemma ahead_snapshot p tk ss b :
  inv (mkSys p tk ss None b) -> ahead (mkSys p tk ss None b) ->
  let y := mkSys (setCursor (sinks (worldOf p)) (Committer.snapshot (cursor (worldOf p))).2 p) tk ss
             (Some (Committer.snapshot (cursor (worldOf p))).1) b in
  ahead y /\ monotone (mkSys p tk ss None b) y.
Proof.
  intros Hi Ha. pose proof Ha as [Hm Ho Hp]. simpl in *.
  split; [|intros t k k' Hk Hk'; rewrite (storedAt_unique _ _ _ _ Hk Hk'); done].
  split; cbn [pool streams flushing]; [|by eauto|].
  - intros t k j sb b' Hk Hj Ht Hne Hem.
    change (Z.of_nat k < Z.of_nat b' + CommitterSpec.markOf (Committer.snapshot (cursor (worldOf p))).2 t).
    rewrite CommitterSpec.markOf_snapshot. by eapply Hm.
  - intros t k k' e pending Hk [= <-] Hpe HL.
    destruct (CommitterSpec.snapshot_lookup _ _ _ Hpe) as (tc & Htc & Hd & Hr).
    pose proof Hi as (_ & _ & Hi0). simpl in Hi0. pose proof (i_repr _ _ _ _ _ _ _ _ _ _ _ _ Hi0) as Hrepr.
    eapply (reported_ahead (mkSys p tk ss None b)); [done|done|done| |done|done|symmetry; exact Hr].
    apply CommitterSpec.mark_position; [done|done|].
    specialize (Hrepr t). rewrite Htc in Hrepr. by apply (Committer.repr_dirty _ _ Hrepr).
Qed.

(** A save, whatever it reports. *)
Lemma ahead_save p tk ss b pending t rid r s' c' :
  inv (mkSys p tk ss (Some pending) b) -> ahead (mkSys p tk ss (Some pending) b) ->
  pending !! t = Some rid -> SaveReplay t rid (sinks (worldOf p)) = (r, s') ->
  (forall t', CommitterSpec.markOf c' t' = CommitterSpec.markOf (cursor (worldOf p)) t') ->
  let y := mkSys (setCursor s' c' p) tk ss (Some (delete t pending)) b in
  ahead y /\ monotone (mkSys p tk ss (Some pending) b) y.
Proof.
  intros Hi Ha Hpe Hs Hmk y.
  assert (cursors s' = cursors (sinks (worldOf p)) \/ cursors s' = <[t := rid]> (cursors (sinks (worldOf p)))) as Hcu.
  { destruct r; [by eapply save_err|right; by apply save_ok]. }
  destruct Hcu as [Hcu|Hcu].
  { apply ahead_frame; [done|done| |apply subs_same|done|].
    - intros t'. simpl. by rewrite Hmk.
    - intros t' rid' pending' [= <-] [_ Hl]%lookup_delete_Some. eauto. }
  pose proof Hi as (_ & _ & Hi0). simpl in Hi0.
  destruct (i_pending _ _ _ _ _ _ _ _ _ _ _ _ Hi0 _ _ _ eq_refl Hpe) as (q & Hat & Hq).
  destruct (position_index _ _ _ _ _ _ _ _ _ _ Hi0 Hat) as (j0 & sb0 & b0 & e0 & Hj0 & Ht0 & Hne0 & Hem0 & HL0 & He0).
  pose proof (proj1 Hat) as Hq1. destruct Ha as [Hm Ho Hp].
  assert (forall t' k, storedAt s' t' k -> (t' = t /\ k = (b0 + Z.to_nat (q - 1))%nat) \/
    (t' <> t /\ storedAt (sinks (worldOf p)) t' k)) as Hst.
  { intros t' k (e & HL & Hc). rewrite Hcu in Hc. apply lookup_insert_Some in Hc as [[<- Hc]|[Hne Hc]].
    - left. split; [done|]. eapply index_unique; [done..|congruence].
    - right. split; [done|]. by exists e. }
  split; [|intros t' k k' Hk [[-> ->]|[_ Hk']]%Hst; [|by rewrite (storedAt_unique _ _ _ _ Hk Hk')];
           eapply (Hp t); [done|done| |done]; by rewrite Hpe, He0].
  split; subst y; cbn [pool streams flushing]; unfold sinksOf, setCursor, setWorld, worldOf; cbn.
  - intros t' k j sb b' [[-> ->]|[Hne Hk]]%Hst Hj Ht Hout Hem; rewrite Hmk; [|by eapply Hm].
    assert (j = j0) as -> by (eapply sub_same; [exact Hi|done|done|congruence]).
    assert (sb = sb0) as -> by (apply (inj Some); by rewrite <- Hj, <- Hj0).
    rewrite (base_unique _ _ _ _ Hout Hem Hem0). lia.
  - intros t' k j sb pos [[-> ->]|[Hne Hk]]%Hst Hj Ht Hout Hpos; [|by eapply Ho].
    assert (j = j0) as -> by (eapply sub_same; [exact Hi|done|done|congruence]).
    assert (sb = sb0) as -> by (apply (inj Some); by rewrite <- Hj, <- Hj0). done.
  - intros t' k k' e pending' [[-> ->]|[Hne Hk]]%Hst [= <-] Hl HL; [by rewrite lookup_delete_eq in Hl|].
    rewrite lookup_delete_ne in Hl by done. by eapply Hp.
Qed.

Lemma ahead_env x y : inv x -> ahead x -> estep L x y -> ahead y /\ monotone x y.
Proof.
  intros Hinv Ha Hst. env_cases Hst; simpl in *.
  - by apply ahead_same.
  - by apply ahead_same.
  - apply ahead_frame; try done; [apply subs_same| |by eauto]. intros j' pos Hp. simpl in *.
    destruct (streams_insert _ _ _ _ _ Hp) as [[_ ?]|[_ ?]]; done.
  - by apply ahead_open.
  - destruct (fetch_frame src avro_Parse _ _ _ _ Hf) as [_ Hcu']. by apply ahead_same.
  - by apply ahead_emit.
  - by apply ahead_same.
  - by apply ahead_same.
  - by apply ahead_same.
  - by apply ahead_snapshot.
  - by eapply ahead_save.
  - eapply ahead_save; try done. intros t'. by rewrite CommitterSpec.markOf_markDirty.
  - apply ahead_frame; try done. apply subs_same.
Qed.

(** A fresh process numbers its events after the cursor. *)
Lemma ahead_restart x n b : ahead (boot cfg (sinksOf x) n b) /\ monotone x (boot cfg (sinksOf x) n b).
Proof.
  assert (forall j sb, App.newSubs cfg !! j = Some sb -> Subscriber.out sb = []) as Hout.
  { intros j sb Hj. unfold App.newSubs in Hj. apply list_lookup_fmap_Some in Hj as (t & -> & _). done. }
  split; [|intros t k k' Hk Hk'; by rewrite (storedAt_unique _ _ _ _ Hk Hk')].
  split; unfold boot, worldOf; cbn.
  - intros t k j sb b' _ Hj _ Hne. by rewrite (Hout _ _ Hj) in Hne.
  - intros t k j sb pos _ _ _ _ Hpos. by apply lookup_replicate in Hpos as [? _].
  - done.
Qed.

Lemma ahead_step x y :
  pinvariant x -> ahead (sys x) -> step x y -> ahead (sys y) /\ monotone (sys x) (sys y).
Proof.
  intros Hinv Ha Hst. pose proof Hinv as [Hi Hcs].
  step_cases Hst L; simpl in *.
  - by apply ahead_env.
  - apply ahead_worker; [done|]. by eapply keep_idle.
  - apply ahead_worker; [done|].
    by eapply (keep_attempt src avro_Parse avro_Unmarshal cfg L Hlen (fun _ => mret (Some (Join []))) x i _ ph' s' raw Hi
      (failing_OK _ _ _ _)).
  - by apply ahead_same.
  - apply ahead_worker; [done|]. by eapply keep_call.
  - apply ahead_worker; [done|]. by eapply keep_return.
  - by apply ahead_env.
  - apply ahead_restart.
Qed.

Lemma ahead_rtc x y :
  pinvariant x -> ahead (sys x) -> rtc step x y -> pinvariant y /\ ahead (sys y).
Proof.
  intros Hi Ha Hr. apply (rtc_invariant step (fun z => pinvariant z /\ ahead (sys z)) x y); [|done|done].
  intros a b [Hia Haa] Hab. split; [by eapply service_step|by eapply ahead_step].
Qed.

(** Along a run the cursor of a topic is always there and at or past where it was. *)
Lemma stored_rtc x y t k :
  pinvariant x -> ahead (sys x) -> rtc step x y -> storedAt (sinksOf (sys x)) t k ->
  exists k', storedAt (sinksOf (sys y)) t k' /\ (k <= k')%nat.
Proof.
  intros Hi Ha Hr Hk. revert Hi Ha k Hk.
  induction Hr as [x|x z y Hxz _ IH]; intros Hi Ha k Hk; [by exists k|].
  destruct (service_step _ _ _ _ _ _ Hlog Hlen Htopics _ _ Hi Hxz) as [Hiz [_ Hf]].
  destruct (ahead_step _ _ Hi Ha Hxz) as [Haz Hm].
  destruct (Hf t) as [[rid Hrid] _]; [by destruct Hk as (e & _ & ->)|].
  pose proof Hiz as [(_ & _ & Hi0) _].
  destruct (i_cursor _ _ _ _ _ _ _ _ _ _ _ _ Hi0 _ _ Hrid) as (_ & k1 & e & _ & _ & HL & He & _).
  assert (storedAt (sinksOf (sys z)) t k1) as Hk1 by (exists e; by rewrite He).
  destruct (IH Hiz Haz k1 Hk1) as (k' & Hk' & Hle). exists k'. split; [done|].
  etrans; [by eapply Hm|done].
Qed.

(** ** Properties *)

(** C4. The stored cursor of a topic never moves back: if at some moment it is the replay
    ID of position [k] of the topic's log, then at every later moment, in this process or
    after any number of crashes and restarts, it is the replay ID of a position at or
    after [k]. A flush that another one overtook cannot put an older cursor back, and a
    process that starts over numbers its events after the cursor it loaded. *)
Theorem cursor_never_moves_back s0 n0 x y t k e :
  Handler.sinksOK (kafka cfg) s0 -> cursors s0 = ∅ ->
  rtc step (first cfg s0 n0) x -> rtc step x y ->
  L t !! k = Some e -> cursors (sinksOf (sys x)) !! t = Some (ce_ReplayId e) ->
  exists k' e', (k <= k')%nat /\ L t !! k' = Some e' /\
    cursors (sinksOf (sys y)) !! t = Some (ce_ReplayId e').
Proof.
  intros Hok Hc0 Hx Hxy HL Hc.
  pose proof (service_reachable _ _ _ json_Marshal _ _ Hlog Hlen Htopics s0 n0 _ Hok Hc0 (rtc_refl step _)) as Hi0.
  destruct (ahead_rtc _ x Hi0) as [Hi Ha]; [by apply (ahead_restart (boot cfg s0 n0 ∅))|done|].
  destruct (stored_rtc x y t k Hi Ha Hxy) as (k' & (e' & HL' & Hc') & Hle); [by exists e|]. eauto.
Qed.

End Monotone.
End Monotone.
