(* ===== verification/Healthy.v ===== *)
(** * Attempts that succeed

    What it means for the services around the process to work, and what a worker then
    does with an event: a fetch of the schema leads to the handler or to the
    acknowledgement of an event that does not decode; the calls of the handler end, with
    nil when none of them has failed yet; and a handler that returned nil is followed by
    the acknowledgement. *)

From S2P Require Import Prelude Backoff Event Schema Handler HandlerSteps Config.
From S2P Require Import Committer CommitterSpec Subscriber SubscriberSpec Pool App Pipeline Service.

Module Healthy.
Import Proto Event Pool Pipeline Service.

Section Healthy.
Context {D N Schema : Type} `{PipelineLaws D} `{ClockLaws N}.
Context (src : string -> M N (result string)) (avro_Parse : string -> result Schema)
  (avro_Unmarshal : Schema -> list Byte.byte -> result payload)
  (json_Marshal : Handler.Envelope -> result (list Byte.byte)) (cfg : Config.Config).
Context (L : string -> list ConsumerEvent).

#[local] Existing Instance Services_Clock.
#[local] Existing Instance Services_ClockLaws.
#[local] Abbreviation source := (Pipeline.source src).
#[local] Abbreviation rootW := (Pipeline.rootW json_Marshal cfg).
#[local] Abbreviation attempt h := (stepWorker source avro_Parse avro_Unmarshal h ackW).
#[local] Abbreviation State := (@Pool.State (@Services D N) Schema).
#[local] Abbreviation advance := (HandlerSteps.advance json_Marshal (kafka cfg) (redis cfg)).

(** An event of topic [t] as the handlers get it. *)
Definition fromLog (t : string) (dec : DecodedEvent) : Prop :=
  exists raw e sch pl, raw_Topic raw = t /\ raw_Event raw = Some e /\ e ∈ L t /\
    Schema.Decode avro_Unmarshal (Some sch) (GetPayload (GetEvent (Some e))) = Ok pl /\ dec = decodedOf raw pl.

(** The context is not canceled, and Kafka answers without errors. The cache may fail. *)
Record servicesWork (netOK : N -> Prop) (sinksOK : D -> Prop) : Prop := {
  w_now n : netOK n -> netOK (time_Now n).2;
  w_ctx n : netOK n -> netOK (ctx_Err n).2;
  w_sleep d n : netOK n -> netOK (sleep d n).2;
  w_canceled n : netOK n -> ~ canceled n;
  w_seen id s : sinksOK s -> sinksOK (Seen id s).2;
  w_mark id s : sinksOK s -> sinksOK (MarkSeen id s).2;
  w_produce k v h s : sinksOK s -> exists s', Produce k v h s = (None, s') /\ sinksOK s';
}.

(** For the events of topic [t] the schemas are there, the encoder takes the envelopes,
    and the database answers without errors. *)
Record topicWorks (t : string) (netOK : N -> Prop) (sinksOK : D -> Prop) : Prop := {
  t_source n e : netOK n -> e ∈ L t -> exists json sch n',
    src (GetSchemaId (GetEvent (Some e))) n = (Ok json, n') /\ avro_Parse json = Ok sch /\ netOK n';
  t_marshal dec : fromLog t dec -> exists v, json_Marshal (Handler.envelope dec) = Ok v;
  t_persist dec s : fromLog t dec -> sinksOK s -> exists r s', PersistEvent dec s = (Ok r, s') /\ sinksOK s';
  t_save rid s : rid <> None -> sinksOK s -> exists s', SaveReplay t rid s = (None, s') /\ sinksOK s';
  t_load s : sinksOK s -> exists v s', LoadReplay t s = (Ok v, s') /\ sinksOK s';
}.

Context (netOK : N -> Prop) (okSinks : D -> Prop) (Hw : servicesWork netOK okSinks).

Definition okWorld (w : @Services D N) : Prop := netOK (net w) /\ okSinks (sinks w).

Lemma okWorld_live w : okWorld w -> ~ canceled w.
Proof. intros [Hn _]. by apply (w_canceled _ _ Hw). Qed.

(** What an attempt leaves of the shared state when it succeeds. *)
Definition kept (s s' : State) : Prop :=
  okWorld (world s') /\ cursor (world s') = cursor (world s) /\ subs (world s') = subs (world s).

Lemma kept_trans s1 s2 s3 : kept s1 s2 -> kept s2 s3 -> kept s1 s3.
Proof. intros (_ & Hc & Hs) (Hok & Hc' & Hs'). split; [done|]. split; congruence. Qed.

(** An operation of the clock. *)
Lemma net_kept {A B} (m : M N A) (f : A -> M State B) (s : State) :
  (forall n, netOK n -> netOK (m n).2) -> okWorld (world s) ->
  exists s', mbind f (onWorld (onNet m) : M State A) s = f (m (net (world s))).1 s' /\ kept s s'.
Proof.
  intros Hm [Hn Hs]. rewrite M_bind_unfold. unfold onWorld, onNet.
  pose proof (Hm _ Hn) as Hn'. destruct (m (net (world s))) as [a n]. eexists. split; [done|]. done.
Qed.

Lemma ack_world raw (s : State) : world (ackEvent ackW raw s).2 = (ackW raw (world s)).2.
Proof.
  unfold ackEvent. rewrite M_bind_unfold. cbn [note modify fst snd]. unfold onWorld. cbn [world].
  by destruct (ackW raw (world s)).
Qed.

(** ** The schema *)

Lemma fetch_works raw start d (s : State) e :
  topicWorks (raw_Topic raw) netOK okSinks ->
  raw_Event raw = Some e -> e ∈ L (raw_Topic raw) -> okWorld (world s) ->
  exists s1, kept s s1 /\
    ((exists dec, attempt rootW (Fetching raw start d) s = (Handling raw dec start Backoff.retryMinDelay, s1)) \/
     (exists s2, attempt rootW (Fetching raw start d) s = (Idle, s2) /\ world s2 = (ackW raw (world s1)).2)).
Proof.
  intros Ht He HeL [Hn Hs].
  assert (exists sch s1, retryOnce "schema" d (getSchema source avro_Parse (schemaIDOf raw)) s = (Succeeded _ sch, s1)
    /\ kept s s1) as (sch & s1 & Hr & Hk).
  { assert (exists sch s1, getSchema source avro_Parse (schemaIDOf raw) s = (Ok sch, s1) /\ kept s s1)
      as (sch & s1 & Hg & Hk).
    { unfold getSchema, Schema.Get, Schema.fetch.
      destruct (Schema.parsed (cache s) !! schemaIDOf raw) as [sch|]; [by eexists _, _|].
      destruct (t_source _ _ _ Ht (net (world s)) e Hn HeL) as (json & sch & n' & Hsrc & Hp & Hn').
      unfold schemaIDOf. rewrite He. unfold Pipeline.source, onNet. rewrite Hsrc. cbn. rewrite Hp.
      destruct (Schema.parsed (cache s) !! _) as [sch'|]; by eexists _, _. }
    unfold retryOnce. rewrite M_bind_unfold, Hg. by eexists _, _. }
  cbn [stepWorker]. rewrite M_bind_unfold, Hr. cbn [fst snd]. exists s1.
  rewrite M_bind_unfold. unfold decodeOrSkip.
  destruct (Schema.Decode avro_Unmarshal (Some sch) _) as [pl|err] eqn:Hdec; cbn [mret M_ret fst snd].
  - split; [done|]. left. by eexists.
  - split; [done|]. right. rewrite !M_bind_unfold. cbn [incFailed modify fst snd mret M_ret].
    eexists. split; [done|]. by rewrite ack_world.
Qed.

(** ** The calls of the handler *)

(** How many calls can be left. *)
Definition rank (c : HandlerSteps.pc) : nat :=
  match c with
  | HandlerSteps.AtSeen => 4
  | HandlerSteps.AtPersist => 3
  | HandlerSteps.AtProduce _ => 2
  | HandlerSteps.AtMark => 1
  | HandlerSteps.Returned _ => 0
  end.

Lemma advance_rank dec c s : (rank (advance dec c s).1 <= pred (rank c))%nat.
Proof.
  assert (rank (HandlerSteps.afterChain (redis cfg)) <= 1)%nat as Hc
    by (unfold HandlerSteps.afterChain; destruct (redis cfg); simpl; lia).
  assert (rank (HandlerSteps.afterPersist json_Marshal (kafka cfg) (redis cfg) dec) <= 2)%nat as Hp.
  { unfold HandlerSteps.afterPersist. destruct (kafka cfg); [|lia]. destruct (json_Marshal _); simpl; lia. }
  destruct c as [| |v| |r]; cbn [HandlerSteps.advance rank pred]; rewrite ?M_bind_unfold.
  - destruct (Seen _ s) as [[[]|] s1]; simpl; lia.
  - destruct (PersistEvent _ s) as [[] s1]; simpl; lia.
  - destruct (Produce _ _ _ s) as [[] s1]; simpl; lia.
  - destruct (MarkSeen _ s); simpl; lia.
  - simpl; lia.
Qed.

(** No call has failed so far. *)
Definition unfailed (c : HandlerSteps.pc) : Prop := forall err, c <> HandlerSteps.Returned (Some err).

Lemma advance_works t dec c s :
  topicWorks t netOK okSinks -> fromLog t dec -> okSinks s ->
  okSinks (advance dec c s).2 /\ (unfailed c -> unfailed (advance dec c s).1).
Proof.
  intros Ht Hd Hs.
  assert (unfailed (HandlerSteps.afterChain (redis cfg))) as Hc
    by (unfold HandlerSteps.afterChain; by destruct (redis cfg)).
  destruct c as [| |v| |r]; cbn [HandlerSteps.advance]; rewrite ?M_bind_unfold.
  - pose proof (w_seen _ _ Hw (EventID dec) s Hs) as Hs1. by destruct (Seen _ s) as [[[]|] s1].
  - destruct (t_persist _ _ _ Ht dec s Hd Hs) as (r & s1 & -> & Hs1). cbn [fst snd mret M_ret]. split; [done|]. intros _.
    unfold HandlerSteps.afterPersist. destruct (kafka cfg); [|done].
    by destruct (t_marshal _ _ _ Ht dec Hd) as [v ->].
  - by destruct (w_produce _ _ Hw (Topic dec) v (Handler.headers dec) s Hs) as (s1 & -> & Hs1).
  - pose proof (w_mark _ _ Hw (EventID dec) s Hs) as Hs1. by destruct (MarkSeen _ s) as [r s1].
  - done.
Qed.

(** ** The end of an attempt of the handler *)

Lemma return_works raw dec start d (s : State) : okWorld (world s) ->
  exists s1 s2, kept s s1 /\ attempt (fun _ => mret None) (Handling raw dec start d) s = (Idle, s2) /\
    world s2 = (ackW raw (world s1)).2.
Proof.
  intros Hok. cbn [stepWorker]. rewrite M_bind_unfold. unfold retryOnce, handle. rewrite !M_bind_unfold.
  cbn [onWorld mret M_ret fst snd]. rewrite M_bind_unfold. unfold finishEvent.
  set (s0 := mkState _ _ _ _).
  destruct (net_kept time_Now (fun now => _ ← incProcessed (wrapS64 (now - start)); ackEvent ackW raw) s0
    (w_now _ _ Hw) Hok) as (s1 & Hb & Hk).
  exists s1. unfold time_Now at 1, Services_Clock. rewrite Hb. eexists. split; [exact Hk|]. split; [done|].
  rewrite M_bind_unfold. cbn [incProcessed modify fst snd]. rewrite ack_world. done.
Qed.

(** A failed attempt is followed by another. *)
Lemma return_again raw dec start d err (s : State) : okWorld (world s) ->
  exists d' s1, kept s s1 /\
    attempt (fun _ => mret (Some err)) (Handling raw dec start d) s = (Handling raw dec start d', s1).
Proof.
  intros Hok. cbn [stepWorker].
  assert (exists s1, kept s s1 /\
    retryOnce "handler" d (handle (fun _ => mret (Some err)) dec) s = (Again _, s1)) as (s1 & Hk & Hr).
  2: { rewrite M_bind_unfold, Hr. by eexists _, _. }
  unfold retryOnce, handle. rewrite !M_bind_unfold. cbn [onWorld mret M_ret fst snd].
  set (s0 := mkState _ _ _ _). rewrite M_bind_unfold.
  pose proof (w_ctx _ _ Hw _ (proj1 Hok)) as Hn1.
  destruct (ctx_Err (net (world s))) as [e n1] eqn:Ec.
  assert (onWorld ctx_Err s0 = (e, mkState (metrics s) (cache s)
    (mkServices n1 (sinks (world s)) (cursor (world s)) (subs (world s))) (effects s))) as ->
    by (unfold onWorld, s0; simpl; unfold onNet; by rewrite Ec).
  destruct e as [err'|]; [by destruct (w_canceled _ _ Hw _ Hn1); eapply ctx_Err_canceled|].
  cbn [fst snd]. rewrite !M_bind_unfold. cbn [incFailed note modify fst snd].
  simpl in Hn1. pose proof (w_sleep _ _ Hw d _ Hn1) as Hn2.
  destruct (sleep d n1) as [fired n2] eqn:Es. unfold onWorld. simpl. unfold onNet. simpl. rewrite Es. cbn [fst snd].
  destruct fired; [|by destruct (w_canceled _ _ Hw _ Hn2); eapply sleep_canceled].
  eexists. split; [|done]. split; [|done]. by split; [|apply Hok].
Qed.

End Healthy.
End Healthy.
