(* ===== verification/Shutdown.v ===== *)
(** * What is in the database when a flush is over

    Between flushes every topic is either marked dirty, and so in the next flush, or its
    stored cursor is that of the last event below which everything was acknowledged.
    [App.Run] makes its last flush after the workers have stopped; when that flush leaves
    nothing dirty, the database has everything the process finished. *)

From S2P Require Import Prelude Event Schema Handler HandlerSteps Config.
From S2P Require Import Committer CommitterSpec Subscriber SubscriberSpec Pool App Pipeline Service.

Module Shutdown.
Import Proto Event Pool Pipeline Service.

Section Shutdown.
Context {D N Schema : Type} `{PipelineLaws D} `{ClockLaws N}.
Context (src : string -> M N (result string)) (avro_Parse : string -> result Schema)
  (avro_Unmarshal : Schema -> list Byte.byte -> result payload)
  (json_Marshal : Handler.Envelope -> result (list Byte.byte)) (cfg : Config.Config).
Context (L : string -> list ConsumerEvent).

#[local] Existing Instance Services_Clock.
#[local] Existing Instance Services_ClockLaws.
#[local] Abbreviation Sys := (@Pipeline.Sys D N Schema).
#[local] Abbreviation step := (Service.step src avro_Parse avro_Unmarshal json_Marshal cfg L).
#[local] Abbreviation pinvariant := (Service.pinvariant src avro_Parse avro_Unmarshal cfg L).

Context (Hlog : forall t, SubscriberSpec.log_ok (L t)).
Context (Hlen : forall t, Z.of_nat (length (L t)) < 2 ^ 64 - 2).
Context (Htopics : NoDup (Config.Topics (Config.PubSub cfg))).

(** A topic that is clean is stored, or the flush in progress has its cursor. *)
Record synced (x : Sys) : Prop := {
  sy_stored : forall t tc, Committer.topics (cursor (worldOf (pool x))) !! t = Some tc ->
    Committer.dirty tc = false -> Committer.next tc <> 1 ->
    cursors (sinksOf x) !! t = Some (Committer.replayID tc) \/
    (exists pending, flushing x = Some pending /\ pending !! t = Some (Committer.replayID tc));
  sy_pending : forall t tc pending rid, Committer.topics (cursor (worldOf (pool x))) !! t = Some tc ->
    Committer.dirty tc = false -> Committer.next tc <> 1 ->
    flushing x = Some pending -> pending !! t = Some rid -> rid = Committer.replayID tc;
}.

Lemma synced_frame x y :
  synced x -> cursors (sinksOf y) = cursors (sinksOf x) -> flushing y = flushing x ->
  CommitterSpec.unmoved (cursor (worldOf (pool x))) (cursor (worldOf (pool y))) -> synced y.
Proof.
  intros [Hs Hp] Hc Hf Hu. split; rewrite ?Hc, ?Hf.
  - intros t tc Ht Hd Hn. destruct (Hu _ _ Ht Hd Hn) as (tc0 & Ht0 & Hd0 & Hn0 & <-). rewrite <- Hn0 in Hn. by apply Hs.
  - intros t tc pending rid Ht Hd Hn. destruct (Hu _ _ Ht Hd Hn) as (tc0 & Ht0 & Hd0 & Hn0 & <-).
    rewrite <- Hn0 in Hn. by apply Hp.
Qed.

Lemma synced_same x y :
  synced x -> cursors (sinksOf y) = cursors (sinksOf x) -> flushing y = flushing x ->
  cursor (worldOf (pool y)) = cursor (worldOf (pool x)) -> synced y.
Proof. intros Hs Hc Hf Hu. apply (synced_frame x); [done..|]. rewrite Hu. apply CommitterSpec.unmoved_refl. Qed.

Lemma synced_worker x p' : synced x -> workerFrame (worldOf (pool x)) (worldOf p') -> synced (withPool p' x).
Proof. intros Hs [_ Hc _ _ Hu]. by apply (synced_frame x). Qed.

Lemma synced_snapshot p tk ss b :
  synced (mkSys p tk ss None b) ->
  synced (mkSys (setCursor (sinks (worldOf p)) (Committer.snapshot (cursor (worldOf p))).2 p) tk ss
            (Some (Committer.snapshot (cursor (worldOf p))).1) b).
Proof.
  intros [Hs _]. simpl in Hs.
  assert (forall t tc, Committer.topics (Committer.snapshot (cursor (worldOf p))).2 !! t = Some tc ->
    exists tc0, Committer.topics (cursor (worldOf p)) !! t = Some tc0 /\
      Committer.next tc0 = Committer.next tc /\ Committer.replayID tc0 = Committer.replayID tc) as Hsnap.
  { intros t tc Ht. simpl in Ht. rewrite lookup_fmap in Ht. apply fmap_Some in Ht as (tc0 & Ht0 & ->).
    exists tc0. split; [done|]. by destruct (Committer.dirty tc0). }
  split; cbn [flushing pool].
  - intros t tc Ht Hd Hn. destruct (Hsnap _ _ Ht) as (tc0 & Ht0 & Hn0 & Hr0). rewrite <- Hn0 in Hn.
    destruct (Committer.dirty tc0) eqn:Hd0.
    + right. eexists. split; [done|]. simpl. by rewrite lookup_omap, Ht0; simpl; rewrite Hd0, Hr0.
    + left. destruct (Hs _ _ Ht0 Hd0 Hn) as [Hst|(? & ? & _)]; [|done]. rewrite <- Hr0. exact Hst.
  - intros t tc pending rid Ht Hd Hn [= <-] Hp. destruct (Hsnap _ _ Ht) as (tc0 & Ht0 & _ & <-).
    destruct (CommitterSpec.snapshot_lookup _ _ _ Hp) as (tc1 & Ht1 & _ & <-). by simplify_eq.
Qed.

(** A save that succeeded, or one that failed, whether or not it was applied. *)
Lemma synced_save p tk ss b pending t rid r s' c' :
  synced (mkSys p tk ss (Some pending) b) -> pending !! t = Some rid ->
  SaveReplay t rid (sinks (worldOf p)) = (r, s') ->
  CommitterSpec.unmoved (cursor (worldOf p)) c' ->
  (r <> None -> forall tc, Committer.topics c' !! t = Some tc -> Committer.dirty tc = true) ->
  synced (mkSys (setCursor s' c' p) tk ss (Some (delete t pending)) b).
Proof.
  intros [Hst Hpe] Hp Hs Hu Hr. simpl in Hst, Hpe.
  assert (forall t', t' <> t -> cursors s' !! t' = cursors (sinks (worldOf p)) !! t') as Hother.
  { intros t' Hne. destruct r; [destruct (save_err _ _ _ _ _ Hs) as [->| ->]|rewrite (save_ok _ _ _ _ Hs)];
      rewrite ?lookup_insert_ne by done; done. }
  split; cbn [flushing pool].
  - intros t' tc Ht Hd Hn. change (Committer.topics c' !! t' = Some tc) in Ht.
    destruct (Hu _ _ Ht Hd Hn) as (tc0 & Ht0 & Hd0 & Hn0 & Hr0). rewrite <- Hn0 in Hn.
    destruct (decide (t' = t)) as [->|Hne].
    + left. destruct r as [err|]; [by rewrite (Hr ltac:(done) _ Ht) in Hd|].
      change (cursors s' !! t = Some (Committer.replayID tc)). rewrite (save_ok _ _ _ _ Hs), lookup_insert_eq.
      f_equal. rewrite <- Hr0. by eapply Hpe.
    + rewrite <- Hr0. destruct (Hst _ _ Ht0 Hd0 Hn) as [Hc|(? & [= <-] & Hl)].
      * left. change (cursors s' !! t' = Some (Committer.replayID tc0)). by rewrite Hother.
      * right. eexists. split; [done|]. by rewrite lookup_delete_ne.
  - intros t' tc pending' rid' Ht Hd Hn [= <-] [_ Hl]%lookup_delete_Some.
    change (Committer.topics c' !! t' = Some tc) in Ht.
    destruct (Hu _ _ Ht Hd Hn) as (tc0 & Ht0 & Hd0 & Hn0 & <-). rewrite <- Hn0 in Hn. by eapply Hpe.
Qed.

Lemma synced_env x y : synced x -> estep L x y -> synced y.
Proof.
  intros Hsy Hst. env_cases Hst; simpl in *; try (by eapply synced_same; [exact Hsy|..]).
  - eapply synced_same; [exact Hsy|by destruct (fetch_frame src avro_Parse _ _ _ _ Hf)|done|done].
  - eapply synced_same; [exact Hsy|by destruct (fetch_frame src avro_Parse _ _ _ _ Hf)|done|done].
  - by apply synced_snapshot.
  - eapply synced_save; [exact Hsy|done|exact Hs| |done]. intros t' tc Ht Hd _. by exists tc.
  - eapply synced_save; [exact Hsy|done|exact Hs|exact (CommitterSpec.unmoved_markDirty (Committer.incCommits "error" (cursor (worldOf p))) t)|].
    intros _ tc Ht. simpl in Ht. rewrite lookup_alter_eq in Ht. apply fmap_Some in Ht as (tc0 & _ & ->). done.
  - destruct Hsy as [Hsy _]. split; [|done]. intros t tc Ht Hd Hn.
    destruct (Hsy t tc Ht Hd Hn) as [?|(? & [= <-] & Hl)]; [by left|done].
Qed.

(** A fresh process has nothing to commit. *)
Lemma synced_boot s n b : synced (boot cfg s n b).
Proof. split; [intros t tc Ht|intros t tc pending rid Ht]; by destruct (lookup_empty_Some _ _ Ht). Qed.

Lemma synced_step x y : pinvariant x -> synced (sys x) -> step x y -> synced (sys y).
Proof.
  intros Hinv Ha Hst. pose proof Hinv as [Hi Hcs].
  step_cases Hst L; simpl in *.
  - by eapply synced_env.
  - apply synced_worker; [done|]. by eapply keep_idle.
  - apply synced_worker; [done|].
    by eapply (keep_attempt src avro_Parse avro_Unmarshal cfg L Hlen (fun _ => mret (Some (Join []))) x i _ ph' s' raw Hi
      (failing_OK _ _ _ _)).
  - done.
  - apply synced_worker; [done|]. by eapply keep_call.
  - apply synced_worker; [done|]. by eapply keep_return.
  - by eapply synced_env.
  - apply synced_boot.
Qed.

Lemma synced_reachable s0 n0 x :
  Handler.sinksOK (kafka cfg) s0 -> cursors s0 = ∅ -> rtc step (first cfg s0 n0) x -> pinvariant x /\ synced (sys x).
Proof.
  intros Hok Hc Hr.
  apply (rtc_invariant step (fun z => pinvariant z /\ synced (sys z)) (first cfg s0 n0) x); [| |done].
  - intros a b [Ha Hs] Hab. split; [by eapply service_step|by eapply synced_step].
  - split; [|apply synced_boot].
    apply (service_reachable _ _ _ json_Marshal _ _ Hlog Hlen Htopics s0 n0); [done..|constructor].
Qed.

(** ** Properties *)

(** C7. When a flush is over and left nothing dirty for a topic, the database is up to
    date with the process: either no completion of the topic's first event was reported
    yet, or the stored cursor is the replay ID of an acknowledged event such that every
    event of the topic that the workers were given up to it is acknowledged, and the next
    one is not. So after the last flush of a shutdown, which [App.Run] makes when the
    workers have stopped, a restart repeats nothing but events above a gap. *)
Theorem flushed_means_committed s0 n0 x t tc :
  Handler.sinksOK (kafka cfg) s0 -> cursors s0 = ∅ -> rtc step (first cfg s0 n0) x ->
  flushing (sys x) = None ->
  Committer.topics (cursor (worldOf (pool (sys x)))) !! t = Some tc -> Committer.dirty tc = false ->
  let acked := ackedOf (st (pool (sys x))) in
  let key p raw := raw_Topic raw = t /\ raw_Seq raw = p in
  (forall raw, raw ∈ acked -> ~ key 1 raw) \/
  exists last, last ∈ acked /\ raw_Topic last = t /\
    cursors (sinksOf (sys x)) !! t = Some (GetReplayId (raw_Event last)) /\
    (forall raw, raw ∈ sent (pool (sys x)) -> raw_Topic raw = t -> raw_Seq raw <= raw_Seq last -> raw ∈ acked) /\
    (forall raw, raw ∈ acked -> ~ key (raw_Seq last + 1) raw).
Proof.
  intros Hok Hc0 Hr Hf Ht Hd acked key. destruct (synced_reachable _ _ _ Hok Hc0 Hr) as [[(_ & _ & Hi) _] Hsy].
  pose proof (i_repr _ _ _ _ _ _ _ _ _ _ _ _ Hi) as Hrepr. pose proof (Hrepr t) as Hrt. rewrite Ht in Hrt.
  assert (forall raw, raw ∈ acked -> raw_Topic raw = t -> raw_Seq raw <> Committer.next tc) as Hgap.
  { intros raw Hin Htp Hsq. pose proof (Committer.repr_gap _ _ Hrt) as Hg. unfold CommitterSpec.reports in Hg.
    eapply histOf_not_None; [exact Hin|]. unfold keyOf. by rewrite Htp, Hsq. }
  destruct (decide (Committer.next tc = 1)) as [Hn|Hn].
  { left. intros raw Hin [Htp Hsq]. apply (Hgap raw Hin Htp). congruence. }
  right. destruct (sy_stored _ Hsy _ _ Ht Hd Hn) as [Hst|(? & ? & _)]; [|congruence].
  destruct (CommitterSpec.mark_position _ _ _ _ Hrepr Ht Hn) as [Hp Hat].
  destruct (histOf_Some _ _ _ _ Hat) as (lst & Hin & Htp & Hsq & Hrid).
  unfold CommitterSpec.markOf in Hp, Hsq. rewrite Ht in Hp, Hsq. simpl in Hp, Hsq.
  exists lst. split; [done|]. split; [done|]. split; [by rewrite Hst, Hrid|]. split.
  - intros raw Hraw Htr Hle.
    destruct (sent_facts _ _ _ _ _ Hlen _ _ _ _ _ _ _ _ Hi Hraw)
      as (j & sb & k & i & b & e & _ & _ & _ & _ & _ & _ & _ & Hsr & _).
    destruct (CommitterSpec.mark_covers _ _ t (raw_Seq raw) Hrepr) as [r Hrr].
    { unfold CommitterSpec.markOf. rewrite Ht. simpl. lia. }
    destruct (histOf_Some _ _ _ _ Hrr) as (raw' & Hin' & Htp' & Hsq' & _).
    assert (raw' = raw) as ->; [|done]. eapply sent_unique; [exact Hi|by apply (i_acked_sent _ _ _ _ _ _ _ _ _ _ _ _ Hi)|done|].
    unfold keyOf. congruence.
  - intros raw Hraw [Htr Hsr]. apply (Hgap raw Hraw Htr). lia.
Qed.

End Shutdown.
End Shutdown.
