(* ===== verification/Progress.v ===== *)
(** * Every event can be finished

    Unless the context is canceled the process loses nothing: every event that fan-in took
    is in the channel, with a worker, or acknowledged, and no worker has left. From such a
    state, when the services work, the machine of Service.v has a run in which the workers
    finish what they have, a stream delivers the events of its topic, and a flush stores
    the cursor of the last of them. *)

From S2P Require Import Prelude Backoff Event Schema Handler HandlerSteps Config.
From S2P Require Import Committer CommitterSpec Subscriber SubscriberSpec Pool App Pipeline Service.
From S2P Require Import Monotone Healthy Shutdown.

Module Progress.
Import Proto Event Pool Pipeline Service Healthy.

Section Progress.
Context {D N Schema : Type} `{PipelineLaws D} `{ClockLaws N}.
Context (src : string -> M N (result string)) (avro_Parse : string -> result Schema)
  (avro_Unmarshal : Schema -> list Byte.byte -> result payload)
  (json_Marshal : Handler.Envelope -> result (list Byte.byte)) (cfg : Config.Config).
Context (L : string -> list ConsumerEvent).

#[local] Existing Instance Services_Clock.
#[local] Existing Instance Services_ClockLaws.
#[local] Abbreviation source := (Pipeline.source src).
#[local] Abbreviation rootW := (Pipeline.rootW json_Marshal cfg).
#[local] Abbreviation attempt h := (stepWorker source avro_Parse avro_Unmarshal h ackW).
#[local] Abbreviation Sys := (@Pipeline.Sys D N Schema).
#[local] Abbreviation Process := (@Service.Process D N Schema).
#[local] Abbreviation inv := (Pipeline.inv src avro_Parse avro_Unmarshal cfg L).
#[local] Abbreviation step := (Service.step src avro_Parse avro_Unmarshal json_Marshal cfg L).
#[local] Abbreviation move := (Service.move src avro_Parse avro_Unmarshal json_Marshal cfg L).
#[local] Abbreviation onward := (Service.onward src avro_Parse avro_Unmarshal json_Marshal cfg L).
#[local] Abbreviation pinvariant := (Service.pinvariant src avro_Parse avro_Unmarshal cfg L).
#[local] Abbreviation advance := (HandlerSteps.advance json_Marshal (kafka cfg) (redis cfg)).
#[local] Abbreviation world_ x := (worldOf (pool (sys x))).

Context (Hlog : forall t, SubscriberSpec.log_ok (L t)).
Context (Hlen : forall t, Z.of_nat (length (L t)) < 2 ^ 64 - 2).
Context (Htopics : NoDup (Config.Topics (Config.PubSub cfg))).

(** ** Nothing is lost *)

Record lossless (x : Sys) : Prop := {
  ll_open : closed (pool x) = false;
  ll_kept : abandoned (pool x) = [];
  ll_workers : Forall (fun ph => ph <> Exited) (ws (pool x));
  ll_count : length (ws (pool x)) = Z.to_nat (Config.Count (Config.Worker cfg));
  ll_taken : length (taken x) = length (subs (worldOf (pool x)));
  ll_streams : length (streams x) = length (subs (worldOf (pool x)));
  ll_sent : forall j sb k, subs (worldOf (pool x)) !! j = Some sb -> taken x !! j = Some k ->
    (k <= length (Subscriber.out sb))%nat /\
    forall i raw, (i < k)%nat -> Subscriber.out sb !! i = Some raw -> raw ∈ sent (pool x);
}.

(** Subscribers only receive more. *)
Definition longer (a b : Subscriber.Subscriber) : Prop := Subscriber.out a `prefix_of` Subscriber.out b.

Lemma core_longer (l l' : list Subscriber.Subscriber) :
  Forall2 (fun a b => SubscriberSpec.core b = SubscriberSpec.core a) l l' -> Forall2 longer l l'.
Proof.
  intros Hl. eapply Forall2_impl; [exact Hl|]. intros a b Hc. unfold SubscriberSpec.core in Hc.
  injection Hc as _ Ho _ _. unfold longer. by rewrite Ho.
Qed.

Lemma lossless_frame x y :
  lossless x -> closed (pool y) = false -> abandoned (pool y) = [] -> Forall (fun ph => ph <> Exited) (ws (pool y)) ->
  length (ws (pool y)) = length (ws (pool x)) -> length (streams y) = length (streams x) ->
  taken y = taken x -> sent (pool y) = sent (pool x) ->
  Forall2 longer (subs (worldOf (pool x))) (subs (worldOf (pool y))) -> lossless y.
Proof.
  intros [_ _ _ Hn Ht Hs Hse] ? ? ? Hw Hss Htk Hsn Hsub. pose proof (Forall2_length _ _ _ Hsub) as Hl.
  split; rewrite ?Htk, ?Hsn; try done; try congruence.
  intros j sb k Hj Hk. destruct (Forall2_lookup_r _ _ _ _ _ Hsub Hj) as (sb0 & Hj0 & Hpre).
  destruct (Hse _ _ _ Hj0 Hk) as [Hle Hin]. pose proof (prefix_length _ _ Hpre). split; [lia|].
  intros i raw Hi Hraw. apply (Hin i raw Hi). destruct Hpre as [l Hpre]. rewrite Hpre, lookup_app_l in Hraw by lia. done.
Qed.

Lemma lossless_world x y :
  lossless x -> ws (pool y) = ws (pool x) -> closed (pool y) = closed (pool x) ->
  abandoned (pool y) = abandoned (pool x) -> sent (pool y) = sent (pool x) -> taken y = taken x ->
  length (streams y) = length (streams x) ->
  Forall2 longer (subs (worldOf (pool x))) (subs (worldOf (pool y))) -> lossless y.
Proof.
  intros Hl Hw Hc Ha Hs Ht Hss Hsub. apply (lossless_frame x); rewrite ?Hw, ?Hc, ?Ha; try done; apply Hl.
Qed.

Lemma longer_refl (l : list Subscriber.Subscriber) : Forall2 longer l l.
Proof. apply Forall_Forall2_diag, Forall_true. intros sb. unfold longer. done. Qed.

Lemma lossless_fanin p tk ss fl b j sb k raw :
  lossless (mkSys p tk ss fl b) -> subs (worldOf p) !! j = Some sb -> tk !! j = Some k ->
  Subscriber.out sb !! k = Some raw ->
  lossless (mkSys (mkPSys (st p) (ws p) (chan p ++ [raw]) false (sent p ++ [raw]) (abandoned p)) (<[j := S k]> tk) ss fl b).
Proof.
  intros [Ho Ha He Hn Ht Hs Hse] Hj Hk Hr. split; try done; simpl; [by rewrite length_insert|].
  intros j' sb' k' Hj' Hk'. apply list_lookup_insert_Some in Hk' as [(<- & <- & _)|[Hne Hk']].
  - assert (sb' = sb) as -> by (change (subs (worldOf p) !! j = Some sb') in Hj'; congruence).
    destruct (Hse _ _ _ Hj Hk) as [_ Hin]. split; [by apply lookup_lt_Some in Hr|].
    intros i raw' Hi Hraw. apply elem_of_app. destruct (decide (i = k)) as [->|]; [right; simplify_eq; set_solver|].
    left. apply (Hin i); [lia|done].
  - destruct (Hse _ _ _ Hj' Hk') as [? Hin]. split; [done|]. intros. apply elem_of_app. left. eauto.
Qed.

Lemma lossless_env x y :
  lossless x -> estep L x y -> ~ canceled (worldOf (pool x)) -> lossless y.
Proof.
  intros Hl Hst Hlive. env_cases Hst; try (apply (lossless_world _ _ Hl); simpl; rewrite ?length_insert; try done; by apply longer_refl).
  - apply (lossless_world _ _ Hl); simpl; rewrite ?length_insert; try done.
    rewrite <- (list_insert_id _ _ _ Hj) at 1. apply Forall2_insert; [apply longer_refl|]. by eexists.
  - eapply lossless_fanin; [exact Hl|done..].
Qed.

Lemma lossless_idle x p' :
  lossless x -> idleStep (pool x) p' -> ~ canceled (worldOf (pool x)) -> lossless (withPool p' x).
Proof.
  intros Hl Hst Hlive. pose proof Hl as [Ho Ha He Hn Ht Hs Hse].
  destruct x as [p tk ss fl b]. simpl in *. destruct Hst as [p i raw q ph s' Hi Hc Hb|p i Hi Hc].
  - unfold begin_ in Hb. rewrite M_bind_unfold in Hb. unfold onWorld in Hb. simpl in Hb. unfold onNet in Hb.
    destruct (time_Now (net (world (st p)))) as [now n]. runM. simplify_eq/=.
    apply (lossless_frame _ _ Hl); simpl; try done; [|by rewrite length_insert|apply longer_refl].
    by apply Forall_insert.
  - destruct Hc as [[_ Hc]|Hc]; [congruence|done].
Qed.

Lemma lossless_attempt h x i ph raw ph' s' :
  lossless x -> inv x -> ws (pool x) !! i = Some ph -> rawOf ph = Some raw ->
  attempt h ph (st (pool x)) = (ph', s') -> workerFrame (worldOf (pool x)) (world s') ->
  ~ canceled (world s') -> lossless (withPool (attempted i raw ph' s' (pool x)) x).
Proof.
  intros Hl [Hpi _] Hi Hr Hs Hf Hlive. pose proof Hl as [Ho Ha He Hn Ht Hss Hse].
  destruct (stepWorker_cases _ _ _ _ _ _ _ _ _ _ Hr (Forall_lookup_1 _ _ _ _ (pi_phases _ _ Hpi) Hi) Hs) as [_ Hc].
  apply (lossless_frame _ _ Hl); simpl; try done.
  - destruct Hc as [[-> _]|[(-> & -> & _)|(_ & _ & ?)]]; [done| |done].
    rewrite (bool_decide_eq_false_2 (_ ++ [raw] = _)); [done|]. intros Heq.
    apply (f_equal length) in Heq. rewrite length_app in Heq. simpl in Heq. lia.
  - apply Forall_insert; [done|]. intros ->. destruct Hc as [[? _]|[(? & _)|(? & _)]]; done.
  - by rewrite length_insert.
  - by apply core_longer, wf_subs.
Qed.

Lemma lossless_boot s n b : lossless (boot cfg s n b).
Proof.
  split; simpl; try done; rewrite ?length_replicate; try done.
  - by apply Forall_replicate.
  - intros j sb k Hj Hk. apply lookup_replicate in Hk as [-> _]. split; [lia|]. intros i raw Hi. lia.
Qed.

Lemma lossless_step x y :
  pinvariant x -> lossless (sys x) -> step x y -> ~ canceled (world_ x) -> ~ canceled (world_ y) -> lossless (sys y).
Proof.
  intros Hinv Hl Hst Hx Hy. pose proof Hinv as [Hi Hcs].
  step_cases Hst L; simpl in *.
  - by eapply lossless_env.
  - by eapply lossless_idle.
  - eapply (lossless_attempt rootW); [done..| |done].
    by eapply (keep_attempt src avro_Parse avro_Unmarshal cfg L Hlen (fun _ => mret (Some (Join []))) x i _ ph' s' raw Hi
      (failing_OK _ _ _ _)).
  - done.
  - apply (lossless_world _ _ Hl); try done. simpl. apply longer_refl.
  - eapply lossless_attempt; [done|done|done|done|exact Hs| |done]. by eapply keep_return.
  - by eapply lossless_env.
  - apply lossless_boot.
Qed.

(** ** The services work *)

Section Stages.
Context (T : string -> Prop) (netOK : N -> Prop) (okSinks : D -> Prop).
Context (Hw : servicesWork netOK okSinks).
Context (Ht : forall t, T t -> topicWorks src avro_Parse avro_Unmarshal json_Marshal L t netOK okSinks).

#[local] Abbreviation okWorld := (Healthy.okWorld netOK okSinks).
#[local] Abbreviation kept := (Healthy.kept netOK okSinks).

(** A state to go on from: the services work for what the process holds. *)
Record good (x : Process) : Prop := {
  g_inv : pinvariant x;
  g_synced : Shutdown.synced (sys x);
  g_ahead : Monotone.ahead L (sys x);
  g_lossless : lossless (sys x);
  g_world : okWorld (world_ x);
  g_sent : forall raw, raw ∈ sent (pool (sys x)) -> T (raw_Topic raw);
}.

Lemma good_step x y :
  good x -> step x y -> okWorld (world_ y) ->
  (forall raw, raw ∈ sent (pool (sys y)) -> T (raw_Topic raw)) -> good y.
Proof.
  intros [Hi Hs Ha Hl Hok Hsn] Hst Hoky Hsny.
  pose proof (okWorld_live netOK okSinks Hw _ Hok). pose proof (okWorld_live netOK okSinks Hw _ Hoky).
  split; try done.
  - by eapply service_step.
  - by eapply Shutdown.synced_step.
  - by eapply Monotone.ahead_step.
  - by eapply lossless_step.
Qed.

(** What the workers leave alone. *)
Record worked (x y : Process) : Prop := {
  wk_taken : taken (sys y) = taken (sys x);
  wk_streams : streams (sys y) = streams (sys x);
  wk_flushing : flushing (sys y) = flushing (sys x);
  wk_sent : sent (pool (sys y)) = sent (pool (sys x));
  wk_subs : Forall2 (fun a b => SubscriberSpec.core b = SubscriberSpec.core a) (subs (world_ x)) (subs (world_ y));
}.

Lemma worked_refl x : worked x x.
Proof. split; try done. apply Monotone.subs_same. Qed.

Lemma worked_trans x y z : worked x y -> worked y z -> worked x z.
Proof.
  intros [A1 A2 A3 A4 A5] [B1 B2 B3 B4 B5]. split; try congruence.
  eapply Forall2_trans; [|exact A5|exact B5]. simpl. congruence.
Qed.

Lemma good_worked x y : good x -> move x y -> worked x y -> okWorld (world_ y) -> good y.
Proof. intros Hg Hst Hk Hok. apply (good_step x); [done|by apply s_move|done|]. rewrite (wk_sent _ _ Hk). apply Hg. Qed.

Lemma good_onward x y : move x y -> good y -> onward x y.
Proof. intros Hst Hg. split; [done|]. apply (okWorld_live netOK okSinks Hw), (g_world _ Hg). Qed.

(** *** A worker finishes its event *)

Lemma worker_sent x i ph raw : good x -> ws (pool (sys x)) !! i = Some ph -> rawOf ph = Some raw ->
  raw ∈ sent (pool (sys x)).
Proof.
  intros Hg Hi Hr. destruct (g_inv _ Hg) as [(Hpi & _) _]. rewrite (pi_sent _ _ Hpi), !elem_of_app.
  right. left. apply list_elem_of_omap. exists ph. split; [by eapply list_elem_of_lookup_2|done].
Qed.

Lemma sent_event x raw : good x -> raw ∈ sent (pool (sys x)) ->
  T (raw_Topic raw) /\ exists e, raw_Event raw = Some e /\ e ∈ L (raw_Topic raw).
Proof.
  intros Hg Hr. split; [by apply (g_sent _ Hg)|]. destruct (g_inv _ Hg) as [(_ & _ & Hi) _].
  destruct (sent_facts _ _ _ _ _ Hlen _ _ _ _ _ _ _ _ Hi Hr)
    as (j & sb & k & i & b & e & _ & _ & _ & _ & _ & _ & _ & _ & _ & HL & He).
  exists e. split; [done|]. by eapply list_elem_of_lookup_2.
Qed.

Lemma worker_event x i raw dec start d : good x -> ws (pool (sys x)) !! i = Some (Handling raw dec start d) ->
  T (raw_Topic raw) /\ fromLog avro_Unmarshal L (raw_Topic raw) dec.
Proof.
  intros Hg Hi. destruct (sent_event x raw Hg) as (? & e & He & Hin); [by eapply worker_sent|]. split; [done|].
  destruct (g_inv _ Hg) as [(Hpi & _) _].
  destruct (Forall_lookup_1 _ _ _ _ (pi_phases _ _ Hpi) Hi) as (sch & pl & Hd & ->).
  exists raw, e, sch, pl. by rewrite He in Hd.
Qed.

(** The worker is done with its event. *)
Definition finished (x y : Process) : Prop :=
  rtc onward x y /\ good y /\ worked x y /\ chan (pool (sys y)) = chan (pool (sys x)) /\
  S (length (inflight (ws (pool (sys y))))) = length (inflight (ws (pool (sys x)))).

Lemma acked_finished x i ph raw s1 s2 cs :
  good x -> ws (pool (sys x)) !! i = Some ph -> rawOf ph = Some raw ->
  kept (st (pool (sys x))) s1 -> world s2 = (ackW raw (world s1)).2 ->
  let y := mkProcess (withPool (attempted i raw Idle s2 (pool (sys x))) (sys x)) cs in
  move x y -> finished x y.
Proof.
  intros Hg Hi Hr (Hok & Hc & Hs) Hs2 y Hst.
  assert (worked x y) as Hk.
  { split; try done. unfold y, worldOf. simpl. rewrite Hs2. simpl. rewrite Hs. apply ackSubs_core. }
  assert (good y) as Hy by (apply (good_worked x); try done; unfold y, worldOf; simpl; by rewrite Hs2).
  split; [by apply rtc_once, good_onward|]. split; [done|]. split; [done|]. split; [done|].
  pose proof (inflight_insert (ws (pool (sys x))) i ph Idle Hi) as Hp. rewrite Hr in Hp.
  apply Permutation_length in Hp. rewrite !length_app in Hp. simpl in *. lia.
Qed.

Lemma finished_after x y z :
  rtc onward x y -> worked x y -> chan (pool (sys y)) = chan (pool (sys x)) ->
  length (inflight (ws (pool (sys y)))) = length (inflight (ws (pool (sys x)))) ->
  finished y z -> finished x z.
Proof.
  intros Hr Hk Hc Hn (Hr' & Hg & Hk' & Hc' & Hn'). split; [by etrans|]. split; [done|].
  split; [by eapply worked_trans|]. split; congruence.
Qed.

(** The calls of the handler up to its return. *)
Lemma calls_return n x i raw dec start d c :
  good x -> ws (pool (sys x)) !! i = Some (Handling raw dec start d) -> calls x !! i = Some c ->
  (rank c <= n)%nat ->
  exists y r, rtc onward x y /\ good y /\ worked x y /\ ws (pool (sys y)) = ws (pool (sys x)) /\
    chan (pool (sys y)) = chan (pool (sys x)) /\ calls y !! i = Some (HandlerSteps.Returned r) /\
    (unfailed c -> r = None).
Proof.
  revert x c. induction n as [|n IH]; intros x c Hg Hi Hc Hn.
  { destruct c as [| | | |r]; simpl in Hn; try lia. exists x, r. split; [constructor|]. split; [done|].
    split; [apply worked_refl|]. do 3 (split; [done|]). intros Hu. destruct r as [err|]; [|done]. by destruct (Hu err). }
  destruct (worker_event _ _ _ _ _ _ Hg Hi) as [HT Hd].
  destruct (advance_works _ _ _ json_Marshal cfg _ netOK okSinks Hw _ dec c (sinksOf (sys x)) (Ht _ HT) Hd)
    as [Hok Hu]; [apply (g_world _ Hg)|].
  pose proof (advance_rank json_Marshal cfg dec c (sinksOf (sys x))) as Hrk.
  destruct (advance dec c (sinksOf (sys x))) as [c' s'] eqn:Ea. simpl in Hok, Hu, Hrk.
  set (y := mkProcess (withPool (setSinks s' (pool (sys x))) (sys x)) (<[i := c']> (calls x))).
  assert (move x y) as Hst by (destruct x; by eapply s_call).
  assert (worked x y) as Hk by (split; try done; apply Monotone.subs_same).
  assert (good y) as Hy by (apply (good_worked x); try done; split; [apply (g_world _ Hg)|done]).
  destruct (IH y c' Hy Hi) as (z & r & Hr & Hz & Hkz & Hwz & Hcz & Hret & Huz);
    [apply lookup_insert_eq|lia|].
  exists z, r. split; [by eapply rtc_l; [apply good_onward|]|]. split; [done|]. split; [by eapply worked_trans|]. naive_solver.
Qed.

(** A handler none of whose calls has failed ends with the acknowledgement. *)
Lemma unfailed_finishes x i raw dec start d c :
  good x -> ws (pool (sys x)) !! i = Some (Handling raw dec start d) -> calls x !! i = Some c -> unfailed c ->
  exists y, finished x y.
Proof.
  intros Hg Hi Hc Hu. destruct (calls_return (rank c) x i raw dec start d c Hg Hi Hc (le_n _))
    as (y & r & Hr & Hy & Hk & Hws & Hch & Hret & Hnone). rewrite (Hnone Hu) in Hret. rewrite <- Hws in Hi.
  destruct (return_works src avro_Parse avro_Unmarshal netOK okSinks Hw raw dec start d _ (g_world _ Hy))
    as (s1 & s2 & Hkept & Ha & Hs2).
  eexists. eapply finished_after; [exact Hr|done|done|by rewrite Hws|].
  eapply (acked_finished y i _ raw s1 s2 (delete i (calls y)) Hy Hi eq_refl Hkept Hs2). destruct y. by eapply s_return.
Qed.

Lemma entered_finishes x i raw dec start d :
  good x -> ws (pool (sys x)) !! i = Some (Handling raw dec start d) -> calls x !! i = None ->
  exists y, finished x y.
Proof.
  intros Hg Hi Hc.
  set (y := mkProcess (sys x) (<[i := HandlerSteps.start (redis cfg)]> (calls x))).
  assert (move x y) as Hst by (destruct x; by eapply s_enter).
  assert (worked x y) as Hk by (split; try done; apply Monotone.subs_same).
  assert (good y) as Hy by (apply (good_worked x); try done; apply (g_world _ Hg)).
  destruct (unfailed_finishes y i raw dec start d (HandlerSteps.start (redis cfg)) Hy Hi) as [z Hz].
  { apply lookup_insert_eq. }
  { unfold HandlerSteps.start. by destruct (redis cfg). }
  exists z. eapply finished_after; [by apply rtc_once, good_onward|done..].
Qed.

(** One that failed is tried again first. *)
Lemma failed_finishes x i raw dec start d err :
  good x -> ws (pool (sys x)) !! i = Some (Handling raw dec start d) ->
  calls x !! i = Some (HandlerSteps.Returned (Some err)) -> exists y, finished x y.
Proof.
  intros Hg Hi Hc.
  destruct (return_again src avro_Parse avro_Unmarshal netOK okSinks Hw raw dec start d err _ (g_world _ Hg))
    as (d' & s1 & (Hok & Hcu & Hsu) & Ha).
  set (y := mkProcess (withPool (attempted i raw (Handling raw dec start d') s1 (pool (sys x))) (sys x)) (delete i (calls x))).
  assert (move x y) as Hst by (destruct x; by eapply s_return).
  assert (worked x y) as Hk by (split; try done; unfold y, worldOf; simpl; rewrite Hsu; apply Monotone.subs_same).
  assert (good y) as Hy by (by apply (good_worked x)).
  assert (ws (pool (sys y)) !! i = Some (Handling raw dec start d')) as Hiy
    by (by apply list_lookup_insert_eq, (lookup_lt_Some _ _ _ Hi)).
  destruct (entered_finishes y i raw dec start d' Hy Hiy) as [z Hz]; [apply lookup_delete_eq|].
  exists z. eapply finished_after; [by apply rtc_once, good_onward|done|done| |done].
  pose proof (inflight_insert (ws (pool (sys x))) i _ (Handling raw dec start d') Hi) as Hp.
  apply Permutation_length in Hp. rewrite !length_app in Hp. simpl in *. lia.
Qed.

Lemma handling_finishes x i raw dec start d :
  good x -> ws (pool (sys x)) !! i = Some (Handling raw dec start d) -> exists y, finished x y.
Proof.
  intros Hg Hi. destruct (calls x !! i) as [c|] eqn:Hc; [|by eapply entered_finishes].
  destruct (calls_return (rank c) x i raw dec start d c Hg Hi Hc (le_n _))
    as (y & r & Hr & Hy & Hk & Hws & Hch & Hret & _). rewrite <- Hws in Hi.
  assert (exists z, finished y z) as [z Hz].
  { destruct r as [err|]; [by eapply failed_finishes|]. by eapply unfailed_finishes. }
  exists z. eapply finished_after; [exact Hr|done|done|by rewrite Hws|done].
Qed.

Lemma fetching_finishes x i raw start d :
  good x -> ws (pool (sys x)) !! i = Some (Fetching raw start d) -> exists y, finished x y.
Proof.
  intros Hg Hi. destruct (sent_event x raw Hg) as (HT & e & He & HeL); [by eapply worker_sent|].
  assert (calls x !! i = None) as Hn by (eapply no_call; [apply (g_inv _ Hg)|exact Hi|done]).
  destruct (fetch_works src avro_Parse avro_Unmarshal json_Marshal cfg L netOK okSinks raw start d _ e (Ht _ HT) He HeL
    (g_world _ Hg)) as (s1 & Hkept & [(dec & Ha)|(s2 & Ha & Hs2)]).
  - destruct Hkept as (Hok & _ & Hsu).
    set (y := mkProcess (withPool (attempted i raw (Handling raw dec start Backoff.retryMinDelay) s1 (pool (sys x))) (sys x)) (calls x)).
    assert (move x y) as Hst by (destruct x; by eapply s_fetch).
    assert (worked x y) as Hk by (split; try done; unfold y, worldOf; simpl; rewrite Hsu; apply Monotone.subs_same).
    assert (good y) as Hy by (by apply (good_worked x)).
    destruct (entered_finishes y i raw dec start Backoff.retryMinDelay Hy) as [z Hz];
      [by apply list_lookup_insert_eq, (lookup_lt_Some _ _ _ Hi)|done|].
    exists z. eapply finished_after; [by apply rtc_once, good_onward|done|done| |done].
    pose proof (inflight_insert (ws (pool (sys x))) i _ (Handling raw dec start Backoff.retryMinDelay) Hi) as Hp.
    apply Permutation_length in Hp. rewrite !length_app in Hp. simpl in *. lia.
  - eexists. eapply (acked_finished x i _ raw s1 s2 (calls x) Hg Hi eq_refl Hkept Hs2). destruct x. by eapply s_fetch.
Qed.

(** *** The workers finish all they have *)

Lemma worker_takes x raw q :
  good x -> inflight (ws (pool (sys x))) = [] -> chan (pool (sys x)) = raw :: q -> 1 <= Config.Count (Config.Worker cfg) ->
  exists y, onward x y /\ good y /\ worked x y /\ chan (pool (sys y)) = q /\
    length (inflight (ws (pool (sys y)))) = 1%nat.
Proof.
  intros Hg Hin Hch Hc. pose proof (g_lossless _ Hg) as Hl.
  destruct (lookup_lt_is_Some_2 (ws (pool (sys x))) 0) as [ph Hi]; [rewrite (ll_count _ Hl); lia|].
  assert (ph = Idle) as ->.
  { pose proof (Forall_lookup_1 _ _ _ _ (ll_workers _ Hl) Hi). simpl in *.
    assert (rawOf ph = None); [|by destruct ph]. destruct (rawOf ph) as [r|] eqn:E; [|done].
    assert (r ∈ inflight (ws (pool (sys x)))) as Hbad
      by (apply list_elem_of_omap; exists ph; split; [by eapply list_elem_of_lookup_2|done]).
    rewrite Hin in Hbad. set_solver. }
  destruct (net_kept netOK okSinks time_Now (fun start => mret (Fetching raw start Backoff.retryMinDelay))
    (st (pool (sys x))) (w_now _ _ Hw) (g_world _ Hg)) as (s1 & Hb & Hok & _ & Hsu).
  set (ph' := Fetching raw (time_Now (net (world (st (pool (sys x)))))).1 Backoff.retryMinDelay).
  set (y := mkProcess (withPool (mkPSys s1 (<[0%nat := ph']> (ws (pool (sys x)))) q
    (closed (pool (sys x))) (sent (pool (sys x))) (abandoned (pool (sys x)))) (sys x)) (calls x)).
  assert (move x y) as Hst by (destruct x; eapply s_idle, w_take; [exact Hi|exact Hch|exact Hb]).
  assert (worked x y) as Hk by (split; try done; unfold y, worldOf; simpl; rewrite Hsu; apply Monotone.subs_same).
  assert (good y) as Hy by (by apply (good_worked x)).
  exists y. split; [by apply good_onward|]. split; [done|]. split; [done|]. split; [done|].
  pose proof (inflight_insert (ws (pool (sys x))) 0 _ ph' Hi) as Hp. rewrite Hin in Hp.
  apply Permutation_length in Hp. rewrite !length_app in Hp. simpl in *. lia.
Qed.

Lemma worker_busy x : inflight (ws (pool (sys x))) <> [] -> good x -> exists y, finished x y.
Proof.
  intros Hne Hg. destruct (inflight (ws (pool (sys x)))) as [|r l] eqn:E; [done|].
  assert (r ∈ inflight (ws (pool (sys x)))) as Hin by (rewrite E; set_solver).
  apply list_elem_of_omap in Hin as (ph & Hin & Hr). apply list_elem_of_lookup in Hin as [i Hi].
  destruct ph; [done|by eapply fetching_finishes|by eapply handling_finishes|done].
Qed.

Lemma workers_settle n x :
  good x -> 1 <= Config.Count (Config.Worker cfg) ->
  (length (inflight (ws (pool (sys x)))) + 2 * length (chan (pool (sys x))) <= n)%nat ->
  exists y, rtc onward x y /\ good y /\ worked x y /\ inflight (ws (pool (sys y))) = [] /\ chan (pool (sys y)) = [].
Proof.
  revert x. induction n as [|n IH]; intros x Hg Hc Hn.
  { exists x. split; [constructor|]. split; [done|]. split; [apply worked_refl|].
    split; apply length_zero_iff_nil; lia. }
  destruct (decide (inflight (ws (pool (sys x))) = [])) as [Hin|Hin].
  - destruct (chan (pool (sys x))) as [|raw q] eqn:Hch.
    { exists x. split; [constructor|]. split; [done|]. split; [apply worked_refl|done]. }
    destruct (worker_takes x raw q Hg Hin Hch Hc) as (y & Hst & Hy & Hk & Hq & Hone).
    destruct (IH y Hy Hc) as (z & Hr & Hz & Hkz & ?); [rewrite Hone, Hq; simpl in *; lia|].
    exists z. split; [by eapply rtc_l|]. split; [done|]. split; [by eapply worked_trans|done].
  - destruct (worker_busy x Hin Hg) as (y & Hr & Hy & Hk & Hch & Hlen').
    destruct (IH y Hy Hc) as (z & Hr' & Hz & Hkz & ?); [rewrite Hch; lia|].
    exists z. split; [by etrans|]. split; [done|]. split; [by eapply worked_trans|done].
Qed.

End Stages.
End Progress.
End Progress.
