(* ===== verification/Recovery.v ===== *)
(** * Catching up

    When the services work, the machine of Service.v has a run in which every event after
    the stored cursor is received, handled, acknowledged and covered by the next commit:
    from the start of a new process, whatever the previous one left behind, and from
    every state of a process whose context was never canceled. *)

From S2P Require Import Prelude Backoff Event Schema Handler HandlerSteps Config.
From S2P Require Import Committer CommitterSpec Subscriber SubscriberSpec Pool App Pipeline Service.
From S2P Require Import Monotone Healthy Shutdown Progress.

Module Recovery.
Import Proto Event Pool Pipeline Service Healthy Progress.

Section Recovery.
Context {D N Schema : Type} `{PipelineLaws D} `{ClockLaws N}.
Context (src : string -> M N (result string)) (avro_Parse : string -> result Schema)
  (avro_Unmarshal : Schema -> list Byte.byte -> result payload)
  (json_Marshal : Handler.Envelope -> result (list Byte.byte)) (cfg : Config.Config).
Context (L : string -> list ConsumerEvent).

#[local] Existing Instance Services_Clock.
#[local] Existing Instance Services_ClockLaws.
#[local] Abbreviation Process := (@Service.Process D N Schema).
#[local] Abbreviation step := (Service.step src avro_Parse avro_Unmarshal json_Marshal cfg L).
#[local] Abbreviation move := (Service.move src avro_Parse avro_Unmarshal json_Marshal cfg L).
#[local] Abbreviation onward := (Service.onward src avro_Parse avro_Unmarshal json_Marshal cfg L).
#[local] Abbreviation pinvariant := (Service.pinvariant src avro_Parse avro_Unmarshal cfg L).
#[local] Abbreviation settled := (Pipeline.settled src avro_Parse avro_Unmarshal cfg L).
#[local] Abbreviation world_ x := (worldOf (pool (sys x))).

Context (Hlog : forall t, SubscriberSpec.log_ok (L t)).
Context (Hlen : forall t, Z.of_nat (length (L t)) < 2 ^ 64 - 2).
Context (Htopics : NoDup (Config.Topics (Config.PubSub cfg))).

Section Stages.
Context (T : string -> Prop) (netOK : N -> Prop) (okSinks : D -> Prop).
Context (Hw : servicesWork netOK okSinks).
Context (Ht : forall t, T t -> topicWorks src avro_Parse avro_Unmarshal json_Marshal L t netOK okSinks).

#[local] Abbreviation good := (Progress.good src avro_Parse avro_Unmarshal cfg L T netOK okSinks).
#[local] Abbreviation storedAt := (Monotone.storedAt L).

(** A step around the workers goes on from a good state when the services still work. *)
Lemma good_inside x y cs :
  good (mkProcess x cs) -> inside L x y -> Healthy.okWorld netOK okSinks (worldOf (pool y)) ->
  (forall raw, raw ∈ sent (pool y) -> T (raw_Topic raw)) ->
  onward (mkProcess x cs) (mkProcess y cs) /\ good (mkProcess y cs).
Proof.
  intros Hg Hst Hok Hsn.
  assert (move (mkProcess x cs) (mkProcess y cs)) as Hmv by (by apply s_inside).
  assert (good (mkProcess y cs)) as Hy.
  { apply (good_step src avro_Parse avro_Unmarshal json_Marshal cfg L Hlog Hlen Htopics T netOK okSinks Hw (mkProcess x cs));
      [done|by apply s_move|done|done]. }
  split; [|done]. by eapply good_onward.
Qed.

(** And when it sends nothing and leaves the network alone. *)
Lemma good_inside_sinks x y cs :
  good (mkProcess x cs) -> inside L x y -> net (worldOf (pool y)) = net (worldOf (pool x)) ->
  okSinks (sinksOf y) -> sent (pool y) = sent (pool x) ->
  onward (mkProcess x cs) (mkProcess y cs) /\ good (mkProcess y cs).
Proof.
  intros Hg Hst Hn Hs Hsn. apply good_inside; [done|done| |].
  - split; [|done]. rewrite Hn. apply (g_world _ _ _ _ _ _ _ _ _ Hg).
  - rewrite Hsn. apply (g_sent _ _ _ _ _ _ _ _ _ Hg).
Qed.

(** ** The stream of a topic *)

(** The subscriber of [t], the [j]-th, in state [sb]. *)
Definition subscriber (x : Process) (j : nat) (t : string) (sb : Subscriber.Subscriber) : Prop :=
  subs (world_ x) !! j = Some sb /\ Subscriber.topic sb = t.

Lemma subscriber_emitted x j t sb : good x -> subscriber x j t sb ->
  exists b, SubscriberSpec.emitted t (L t) b sb /\
    forall pos, streams (sys x) !! j = Some (Some pos) -> pos = (b + length (Subscriber.out sb))%nat.
Proof.
  intros Hg [Hj <-]. destruct (g_inv _ _ _ _ _ _ _ _ _ Hg) as [(_ & _ & Hi) _].
  destruct (i_sub _ _ _ _ _ _ _ _ _ _ _ _ Hi _ _ Hj) as (b & Hem & Hp & _). by exists b.
Qed.

(** The request that opens the stream of a topic with a cursor. *)
Lemma request_custom x j t sb k :
  good x -> subscriber x j t sb -> T t -> storedAt (sinksOf (sys x)) t k ->
  exists req s' start, Subscriber.initialFetch sb (sinksOf (sys x)) = (Ok req, s') /\ okSinks s' /\
    SubscriberSpec.starts (L t) req start.
Proof.
  intros Hg Hsub HT (e & HL & Hc). destruct (subscriber_emitted _ _ _ _ Hg Hsub) as (b & Hem & _).
  destruct Hsub as [_ Htp]. pose proof (proj2 (g_world _ _ _ _ _ _ _ _ _ Hg)) as Hs.
  unfold Subscriber.initialFetch. rewrite Htp.
  destruct (Subscriber.lastReplayID sb) as [rid|] eqn:El.
  - rewrite (SubscriberSpec.em_last _ _ _ _ Hem) in El.
    destruct (last (Subscriber.out sb)) as [raw|] eqn:Ela; [|done]. rewrite last_lookup in Ela.
    destruct (out_facts L Hlen _ _ _ _ _ Hem Ela) as (_ & _ & _ & e' & HL' & He'). rewrite He' in El.
    eexists _, _, _. split; [done|]. split; [done|]. eexists _, e'. split; [done|]. by split.
  - destruct (t_load _ _ _ _ _ _ _ _ (Ht _ HT) _ Hs) as (v & s' & Hld & Hs').
    pose proof (load_value _ _ _ _ Hld) as Hv. change (sinks (worldOf (pool (sys x)))) with (sinksOf (sys x)) in *.
    rewrite Hc in Hv. simpl in Hv. destruct (ce_ReplayId e) as [rid|] eqn:Er; [|by destruct (proj1 (Hlog t) _ _ HL)].
    rewrite M_bind_unfold, Hld. cbn [fst snd]. rewrite Hv.
    eexists _, _, _. split; [done|]. split; [done|]. exists k, e. done.
Qed.

(** The stream is open. *)
Lemma stream_opens x j t sb k :
  good x -> subscriber x j t sb -> T t -> storedAt (sinksOf (sys x)) t k ->
  exists y pos, rtc onward x y /\ good y /\ subscriber y j t sb /\ streams (sys y) !! j = Some (Some pos) /\
    storedAt (sinksOf (sys y)) t k.
Proof.
  intros Hg Hsub HT Hk.
  destruct (lookup_lt_is_Some_2 (streams (sys x)) j) as [[pos|] Hss].
  { rewrite (ll_streams _ _ (g_lossless _ _ _ _ _ _ _ _ _ Hg)). by eapply lookup_lt_Some, Hsub. }
  { exists x, pos. split; [constructor|done]. }
  destruct (request_custom _ _ _ _ _ Hg Hsub HT Hk) as (req & s' & start & Hf & Hs' & Hst).
  destruct Hsub as [Hj <-]. destruct x as [[p tk ss fl b] cs]. simpl in *.
  pose proof (st_open L p tk ss fl b j sb req s' start Hj Hf Hst) as Hstep.
  destruct (good_inside_sinks _ _ cs Hg Hstep) as [Hon Hg']; [done..|].
  eexists _, start. split; [by apply rtc_once|]. split; [done|].
  split; [done|]. simpl. split; [by apply list_lookup_insert_eq, (lookup_lt_Some _ _ _ Hss)|].
  destruct Hk as (e & HL & Hc). exists e. split; [done|].
  destruct (fetch_frame src avro_Parse _ _ _ _ Hf) as [_ Hcu]. unfold sinksOf. simpl. by rewrite Hcu.
Qed.

Lemma stream_delivers n x j t sb pos :
  good x -> subscriber x j t sb -> streams (sys x) !! j = Some (Some pos) -> (pos + n <= length (L t))%nat ->
  exists y sb', rtc onward x y /\ good y /\ subscriber y j t sb' /\
    streams (sys y) !! j = Some (Some (pos + n)%nat) /\
    length (Subscriber.out sb') = (length (Subscriber.out sb) + n)%nat.
Proof.
  revert x sb pos. induction n as [|n IH]; intros x sb pos Hg Hsub Hss Hle.
  { exists x, sb. rewrite !Nat.add_0_r. split; [constructor|done]. }
  destruct (lookup_lt_is_Some_2 (L t) pos) as [e He]; [lia|]. destruct Hsub as [Hj Htp].
  destruct x as [[p tk ss fl b] cs]. simpl in *. subst t.
  pose proof (st_emit L p tk ss fl b j sb pos e 0 Hj Hss He) as Hstep.
  destruct (good_inside_sinks _ _ cs Hg Hstep) as [Hon Hg']; [done|apply (g_world _ _ _ _ _ _ _ _ _ Hg)|done|].
  destruct (IH _ (Subscriber.emit (Some e) 0 sb) (S pos) Hg') as (y & sb' & Hr & Hy & Hsub' & Hss' & Hl).
  - split; [|done]. simpl. by apply list_lookup_insert_eq, (lookup_lt_Some _ _ _ Hj).
  - simpl. by apply list_lookup_insert_eq, (lookup_lt_Some _ _ _ Hss).
  - simpl in *. lia.
  - exists y, sb'. split; [by eapply rtc_l|]. split; [done|]. split; [done|].
    rewrite Nat.add_succ_r. split; [done|]. rewrite Hl. simpl. rewrite length_app. simpl. lia.
Qed.

(** Fan-in takes everything a subscriber has. *)
Lemma fanin_takes n x j t sb k :
  good x -> subscriber x j t sb -> T t -> taken (sys x) !! j = Some k ->
  (length (Subscriber.out sb) <= k + n)%nat ->
  exists y, rtc onward x y /\ good y /\ subscriber y j t sb /\
    taken (sys y) !! j = Some (length (Subscriber.out sb)).
Proof.
  revert x k. induction n as [|n IH]; intros x k Hg Hsub HT Hk Hle.
  - destruct Hsub as [Hj Htp].
    destruct (ll_sent _ _ (g_lossless _ _ _ _ _ _ _ _ _ Hg) _ _ _ Hj Hk) as [Hle' _].
    exists x. split; [constructor|]. split; [done|]. split; [done|]. rewrite Hk. f_equal. lia.
  - destruct (Subscriber.out sb !! k) as [raw|] eqn:Hraw.
    2: { apply lookup_ge_None in Hraw. eapply IH; eauto. lia. }
    destruct (subscriber_emitted _ _ _ _ Hg Hsub) as (b0 & Hem & _).
    destruct (out_facts L Hlen _ _ _ _ _ Hem Hraw) as (Htr & _). destruct Hsub as [Hj Htp].
    pose proof (ll_open _ _ (g_lossless _ _ _ _ _ _ _ _ _ Hg)) as Hop.
    destruct x as [[p tk ss fl b] cs]. simpl in *.
    pose proof (st_fanin L p tk ss fl b j sb k raw Hj Hk Hraw Hop) as Hstep.
    destruct (good_inside _ _ cs Hg Hstep) as [Hon Hg']; [apply (g_world _ _ _ _ _ _ _ _ _ Hg)| |].
    { simpl. intros r [Hin|Hin]%elem_of_app; [by apply (g_sent _ _ _ _ _ _ _ _ _ Hg)|].
      apply list_elem_of_singleton in Hin as ->. by rewrite Htr. }
    destruct (IH _ (S k) Hg') as (y & Hr & Hy & Hsub' & Hk').
    + done.
    + done.
    + simpl. by apply list_lookup_insert_eq, (lookup_lt_Some _ _ _ Hk).
    + lia.
    + exists y. split; [by eapply rtc_l|done].
Qed.

(** ** The commit *)

(** One save of the flush in progress. *)
Lemma flush_saves p tk ss pending b cs t rid :
  good (mkProcess (mkSys p tk ss (Some pending) b) cs) -> pending !! t = Some rid ->
  exists s' c', onward (mkProcess (mkSys p tk ss (Some pending) b) cs)
      (mkProcess (mkSys (setCursor s' c' p) tk ss (Some (delete t pending)) b) cs) /\
    good (mkProcess (mkSys (setCursor s' c' p) tk ss (Some (delete t pending)) b) cs) /\
    cursors s' !! t = Some rid.
Proof.
  intros Hg Hp. destruct (g_inv _ _ _ _ _ _ _ _ _ Hg) as [(_ & _ & Hi) _]. simpl in Hi.
  destruct (i_pending _ _ _ _ _ _ _ _ _ _ _ _ Hi _ _ _ eq_refl Hp) as (q & [_ Hat] & _).
  destruct (histOf_Some _ _ _ _ Hat) as (raw & Hin & Htr & _ & Hrid).
  pose proof (i_acked_sent _ _ _ _ _ _ _ _ _ _ _ _ Hi _ Hin) as Hsnt.
  destruct (sent_event _ _ _ _ L Hlen _ _ _ _ raw Hg Hsnt) as (HT & e & He & HeL). rewrite Htr in *.
  apply list_elem_of_lookup in HeL as [i HL].
  destruct (t_save _ _ _ _ _ _ _ _ (Ht _ HT) rid (sinks (worldOf p))) as (s' & Hs & Hs').
  { rewrite <- Hrid, He. by apply (proj1 (Hlog t) _ _ HL). }
  { apply (g_world _ _ _ _ _ _ _ _ _ Hg). }
  pose proof (st_save L p tk ss b pending t rid s' Hp Hs) as Hst.
  destruct (good_inside_sinks _ _ cs Hg Hst) as [Hon Hg']; [done..|].
  eexists s', _. split; [done|]. split; [done|]. by rewrite (save_ok _ _ _ _ Hs), lookup_insert_eq.
Qed.

(** What a flush leaves alone. *)
Record untouched (x y : Process) : Prop := {
  u_taken : taken (sys y) = taken (sys x);
  u_subs : subs (world_ y) = subs (world_ x);
  u_chan : chan (pool (sys y)) = chan (pool (sys x));
  u_ws : ws (pool (sys y)) = ws (pool (sys x));
}.

Lemma flush_finishes n x :
  good x -> (forall pending, flushing (sys x) = Some pending -> (size pending <= n)%nat) ->
  exists y, rtc onward x y /\ good y /\ untouched x y /\ flushing (sys y) = None.
Proof.
  revert x. induction n as [|n IH]; intros x Hg Hn; destruct (flushing (sys x)) as [pending|] eqn:Hf;
    try (exists x; split; [constructor|done]).
  - specialize (Hn _ eq_refl). assert (pending = ∅) as -> by (apply map_size_empty_iff; lia).
    destruct x as [[p tk ss fl b] cs]. simpl in *. subst fl.
    destruct (good_inside_sinks _ _ cs Hg (st_flush_end L p tk ss b)) as [Hon Hg']; [done|apply (g_world _ _ _ _ _ _ _ _ _ Hg)|done|].
    eexists. split; [by apply rtc_once|]. done.
  - specialize (Hn _ eq_refl). destruct x as [[p tk ss fl b] cs]. simpl in *. subst fl.
    destruct (map_choose_or_empty pending) as [(t & rid & Hp)| ->].
    2: { apply (IH _ Hg). intros ? [= <-]. rewrite map_size_empty. lia. }
    destruct (flush_saves _ _ _ _ _ _ _ _ Hg Hp) as (s' & c' & Hst & Hg' & _).
    destruct (IH _ Hg') as (y & Hr & Hy & Hu & Hfy).
    { intros ? [= <-]. rewrite map_size_delete_Some by done. lia. }
    exists y. split; [by eapply rtc_l|]. split; [done|]. split; [|done]. destruct Hu. by split.
Qed.

(** Everything that was sent is acknowledged. *)
Lemma all_acked x :
  good x -> inflight (ws (pool (sys x))) = [] -> chan (pool (sys x)) = [] ->
  sent (pool (sys x)) ⊆ ackedOf (st (pool (sys x))).
Proof.
  intros Hg Hin Hch raw Hr. destruct (g_inv _ _ _ _ _ _ _ _ _ Hg) as [(Hpi & _) _].
  rewrite (pi_sent _ _ Hpi), Hin, Hch, (ll_kept _ _ (g_lossless _ _ _ _ _ _ _ _ _ Hg)) in Hr. simpl in Hr.
  by rewrite app_nil_r in Hr.
Qed.

(** The mark is at the last event received. *)
Lemma mark_last x j t sb :
  good x -> subscriber x j t sb -> taken (sys x) !! j = Some (length (Subscriber.out sb)) ->
  sent (pool (sys x)) ⊆ ackedOf (st (pool (sys x))) ->
  CommitterSpec.markOf (cursor (world_ x)) t = Z.of_nat (length (Subscriber.out sb)).
Proof.
  intros Hg Hsub Hk Hack. destruct (subscriber_emitted _ _ _ _ Hg Hsub) as (b & Hem & _). destruct Hsub as [Hj Htp].
  pose proof (g_inv _ _ _ _ _ _ _ _ _ Hg) as [(_ & _ & Hi) _].
  pose proof (i_repr _ _ _ _ _ _ _ _ _ _ _ _ Hi) as Hr.
  pose proof (CommitterSpec.committer_repr_cursor _ _ t Hr) as Hrt. pose proof (Committer.repr_range _ _ Hrt) as Hrange.
  set (c := cursor (world_ x)) in *. set (n := CommitterSpec.markOf c t).
  assert (0 <= n) by (unfold n, CommitterSpec.markOf; lia).
  apply Z.le_antisymm.
  - destruct (decide (n <= 0)) as [|Hn]; [lia|].
    destruct (CommitterSpec.mark_covers _ _ t n Hr) as [r Hrr]; [unfold n in *; lia|].
    destruct (histOf_Some _ _ _ _ Hrr) as (raw & Hin & Htr & Hsr & _).
    destruct (sent_facts _ _ _ _ _ Hlen _ _ _ _ _ _ _ _ Hi (i_acked_sent _ _ _ _ _ _ _ _ _ _ _ _ Hi _ Hin))
      as (j' & sb' & k & i & b' & e & Hj' & _ & _ & Hts & Hi' & _ & _ & Hsq & _).
    assert (j' = j) as -> by (eapply (sub_unique cfg Htopics); [apply (i_topics _ _ _ _ _ _ _ _ _ _ _ _ Hi)|done|done|congruence]).
    assert (sb' = sb) as -> by (apply (inj Some); by rewrite <- Hj, <- Hj').
    apply lookup_lt_Some in Hi'. lia.
  - destruct (decide (Z.of_nat (length (Subscriber.out sb)) <= n)) as [|Hlt]; [done|exfalso].
    destruct (lookup_lt_is_Some_2 (Subscriber.out sb) (Z.to_nat n)) as [raw Hraw]; [lia|].
    destruct (out_facts L Hlen _ _ _ _ _ Hem Hraw) as (Htr & Hsr & _).
    destruct (ll_sent _ _ (g_lossless _ _ _ _ _ _ _ _ _ Hg) _ _ _ Hj Hk) as [_ Hsn].
    assert (raw ∈ ackedOf (st (pool (sys x)))) as Hin by (apply Hack, (Hsn (Z.to_nat n)); [lia|done]).
    apply (histOf_not_None _ _ Hin). unfold keyOf. rewrite Htr, Hsr.
    pose proof (Committer.repr_gap _ _ Hrt) as Hgap. unfold CommitterSpec.reports in Hgap.
    rewrite <- Hgap. do 2 f_equal. unfold n, CommitterSpec.markOf in *. lia.
Qed.

(** Once all that was received is acknowledged, a flush stores the cursor of the last. *)
Lemma flush_commits x j t sb b e :
  good x -> flushing (sys x) = None -> subscriber x j t sb ->
  CommitterSpec.markOf (cursor (world_ x)) t = Z.of_nat (length (Subscriber.out sb)) -> Subscriber.out sb <> [] ->
  SubscriberSpec.emitted t (L t) b sb -> L t !! (b + pred (length (Subscriber.out sb)))%nat = Some e ->
  exists y, rtc onward x y /\ good y /\ cursors (sinksOf (sys y)) !! t = Some (ce_ReplayId e).
Proof.
  intros Hg Hfl [Hj Htp] Hm Hne Hem HL. pose proof (g_inv _ _ _ _ _ _ _ _ _ Hg) as [(_ & _ & Hi) _].
  pose proof (i_repr _ _ _ _ _ _ _ _ _ _ _ _ Hi) as Hr.
  assert (0 < length (Subscriber.out sb))%nat as Hpos by (destruct (Subscriber.out sb); [done|simpl; lia]).
  assert (exists tc, Committer.topics (cursor (world_ x)) !! t = Some tc /\ Committer.next tc <> 1) as (tc & Htc & Hn).
  { unfold CommitterSpec.markOf in Hm. destruct (Committer.topics _ !! t) as [tc|]; simpl in Hm; [|lia].
    exists tc. split; [done|lia]. }
  pose proof (CommitterSpec.mark_position _ _ _ _ Hr Htc Hn) as Hat.
  assert (Committer.replayID tc = ce_ReplayId e) as Hrid.
  { destruct (Monotone.position_index _ _ _ _ _ Hlen _ _ _ _ _ _ _ _ _ _ Hi Hat)
      as (j' & sb' & b' & e' & Hj' & Ht' & Hne' & Hem' & HL' & <-).
    assert (j' = j) as -> by (eapply (sub_unique cfg Htopics); [apply (i_topics _ _ _ _ _ _ _ _ _ _ _ _ Hi)|done|done|congruence]).
    assert (sb' = sb) as -> by (apply (inj Some); by rewrite <- Hj, <- Hj').
    rewrite (Monotone.base_unique L Hlog _ _ _ _ Hne' Hem' Hem), Hm in HL'.
    replace (Z.to_nat (Z.of_nat (length (Subscriber.out sb)) - 1)) with (pred (length (Subscriber.out sb))) in HL' by lia.
    congruence. }
  destruct (Committer.dirty tc) eqn:Hd.
  - destruct x as [[p tk ss fl bs] cs]. simpl in *. subst fl.
    assert ((Committer.snapshot (cursor (worldOf p))).1 !! t = Some (Committer.replayID tc)) as Hpend
      by (simpl; by rewrite lookup_omap, Htc; simpl; rewrite Hd).
    destruct (good_inside_sinks _ _ cs Hg (st_snapshot L p tk ss bs)) as [Hon Hg']; [done|apply (g_world _ _ _ _ _ _ _ _ _ Hg)|done|].
    destruct (flush_saves _ _ _ _ _ _ _ _ Hg' Hpend) as (s' & c' & Hst & Hy & Hc).
    eexists. split; [eapply rtc_l; [exact Hon|by apply rtc_once]|]. split; [exact Hy|].
    rewrite <- Hrid. exact Hc.
  - exists x. split; [constructor|]. split; [done|].
    destruct (Shutdown.sy_stored _ (g_synced _ _ _ _ _ _ _ _ _ Hg) _ _ Htc Hd Hn) as [Hst|(? & ? & _)]; [|congruence].
    by rewrite Hst, Hrid.
Qed.

(** ** From any state to the commit of an event *)

Lemma received_commits x j t sb b m e :
  good x -> subscriber x j t sb -> T t -> 1 <= Config.Count (Config.Worker cfg) -> Subscriber.out sb <> [] ->
  SubscriberSpec.emitted t (L t) b sb -> S m = (b + length (Subscriber.out sb))%nat -> L t !! m = Some e ->
  exists y, rtc onward x y /\ good y /\ cursors (sinksOf (sys y)) !! t = Some (ce_ReplayId e).
Proof.
  intros Hg Hsub HT Hc Hne Hem Hm HL.
  destruct (lookup_lt_is_Some_2 (taken (sys x)) j) as [k Hk].
  { rewrite (ll_taken _ _ (g_lossless _ _ _ _ _ _ _ _ _ Hg)). by eapply lookup_lt_Some, Hsub. }
  destruct (fanin_takes (length (Subscriber.out sb)) _ _ _ _ _ Hg Hsub HT Hk) as (x1 & Hr1 & Hg1 & Hsub1 & Hk1); [lia|].
  destruct (workers_settle src avro_Parse avro_Unmarshal json_Marshal cfg L Hlog Hlen Htopics T netOK okSinks Hw Ht _ x1 Hg1 Hc (le_n _))
    as (x2 & Hr2 & Hg2 & Hk2 & Hin2 & Hch2).
  destruct (flush_finishes (size (default ∅ (flushing (sys x2)))) x2 Hg2)
    as (x3 & Hr3 & Hg3 & [Ht3 Hs3 Hc3 Hw3] & Hf3); [by intros pending ->|].
  destruct (Forall2_lookup_l _ _ _ _ _ (wk_subs _ _ Hk2) (proj1 Hsub1)) as (sb' & Hj' & Hcore).
  pose proof Hcore as Hcore'. unfold SubscriberSpec.core in Hcore'. injection Hcore' as Htp' Ho' _ _.
  assert (subscriber x3 j t sb') as Hsub3 by (split; [by rewrite Hs3|rewrite Htp'; apply Hsub]).
  destruct (flush_commits x3 j t sb' b e) as (y & Hry & Hy & Hcy); try done.
  - eapply mark_last; [done|done| |].
    + by rewrite Ht3, (wk_taken _ _ Hk2), Ho'.
    + apply all_acked; [done|by rewrite Hw3|by rewrite Hc3].
  - by rewrite Ho'.
  - by eapply SubscriberSpec.emitted_core.
  - rewrite Ho'. rewrite <- HL. f_equal. destruct (Subscriber.out sb); [done|]. simpl in *. lia.
  - exists y. split; [|done]. do 3 (etrans; [done|]). done.
Qed.

Lemma topic_catches_up x j t sb k m e :
  good x -> subscriber x j t sb -> T t -> 1 <= Config.Count (Config.Worker cfg) ->
  storedAt (sinksOf (sys x)) t k -> (k <= m)%nat -> L t !! m = Some e ->
  (forall b, Subscriber.out sb <> [] -> SubscriberSpec.emitted t (L t) b sb -> (b + length (Subscriber.out sb) <= S m)%nat) ->
  exists y, rtc onward x y /\ good y /\ cursors (sinksOf (sys y)) !! t = Some (ce_ReplayId e).
Proof.
  intros Hg Hsub HT Hc Hk Hkm HL Hroom.
  destruct (stream_opens _ _ _ _ _ Hg Hsub HT Hk) as (x1 & pos & Hr1 & Hg1 & Hsub1 & Hss1 & Hk1).
  destruct (subscriber_emitted _ _ _ _ Hg1 Hsub1) as (b1 & Hem1 & Hp1). specialize (Hp1 _ Hss1).
  assert (Subscriber.out sb = [] -> pos = S k) as Hfirst.
  { intros Ho. eapply (Monotone.a_open _ _ (g_ahead _ _ _ _ _ _ _ _ _ Hg1)); [done|apply Hsub1|apply Hsub1|done|done]. }
  destruct (decide (Subscriber.out sb = [] /\ k = m)) as [[_ ->]|Hmore].
  { exists x1. split; [done|]. split; [done|]. destruct Hk1 as (e0 & HL0 & Hc0). congruence. }
  assert (pos <= S m)%nat as Hpm.
  { destruct (decide (Subscriber.out sb = [])) as [Ho|Ho]; [rewrite (Hfirst Ho); lia|]. rewrite Hp1. by apply Hroom. }
  pose proof (lookup_lt_Some _ _ _ HL) as Hm.
  destruct (stream_delivers (S m - pos) _ _ _ _ _ Hg1 Hsub1 Hss1) as (x2 & sb2 & Hr2 & Hg2 & Hsub2 & Hss2 & Hl2); [lia|].
  destruct (subscriber_emitted _ _ _ _ Hg2 Hsub2) as (b2 & Hem2 & Hp2). specialize (Hp2 _ Hss2).
  assert (Subscriber.out sb2 <> []) as Hne.
  { intros Ho. rewrite Ho in Hl2. simpl in Hl2. destruct (Subscriber.out sb) as [|r l] eqn:E; [|simpl in Hl2; lia].
    rewrite (Hfirst eq_refl) in Hl2. apply Hmore. split; [done|lia]. }
  destruct (received_commits x2 j t sb2 b2 m e Hg2 Hsub2 HT Hc Hne Hem2) as (y & Hry & Hy); [lia|done|].
  exists y. split; [|done]. do 2 (etrans; [done|]). done.
Qed.

End Stages.

(** ** Going on *)

Lemma onward_steps x y : rtc onward x y -> rtc step x y.
Proof. apply (rtc_congruence (fun x => x)). intros a b [Hm _]. by apply s_move. Qed.

(** A living process keeps what fan-in took. *)
Lemma sent_move x y : move x y -> sent (pool (sys x)) ⊆ sent (pool (sys y)).
Proof.
  intros Hm raw Hr. destruct Hm as [x y cs He|x p' cs Hid| | | |]; simpl in *; try done.
  - destruct He; simpl in *; try done. set_solver.
  - by destruct Hid.
Qed.

Lemma sent_onward x y : rtc onward x y -> sent (pool (sys x)) ⊆ sent (pool (sys y)).
Proof. induction 1 as [|a b c [Hm _] _ IH]; [done|]. by etrans; [apply sent_move|]. Qed.

(** ** What a commit settles *)

Lemma stored_settles x y t k m :
  pinvariant x -> rtc step x y -> Monotone.storedAt L (sinksOf (sys x)) t k -> Monotone.storedAt L (sinksOf (sys y)) t m ->
  forall i, (k <= i <= m)%nat -> settled (sinksOf (sys y)) t i.
Proof.
  intros Hi Hr (e & HL & Hc) (e' & HL' & Hc').
  destruct (progress_rtc _ _ _ json_Marshal _ _ Hlog Hlen Htopics x y t Hi Hr) as ([(_ & _ & Hiy) _] & _ & Hby); [by rewrite Hc|].
  destruct Hi as [(_ & _ & Hix) _].
  destruct (i_cursor _ _ _ _ _ _ _ _ _ _ _ _ Hix _ _ Hc) as (b0 & k0 & e0 & Hb0 & Hk0 & HL0 & He0 & _).
  destruct (i_cursor _ _ _ _ _ _ _ _ _ _ _ _ Hiy _ _ Hc') as (b1 & k1 & e1 & Hb1 & Hk1 & HL1 & He1 & Hall).
  rewrite (Monotone.index_unique L Hlog _ _ _ _ _ HL0 HL He0) in *.
  rewrite (Monotone.index_unique L Hlog _ _ _ _ _ HL1 HL' He1) in *.
  assert (b1 = b0) as -> by (apply (inj Some); by rewrite <- Hb1, <- Hb0, Hby).
  intros i Hik. apply Hall. lia.
Qed.

Lemma topic_subscriber x t :
  pinvariant x -> t ∈ Config.Topics (Config.PubSub cfg) -> exists j sb, subscriber x j t sb.
Proof.
  intros [(_ & _ & Hi) _] Ht. rewrite <- (i_topics _ _ _ _ _ _ _ _ _ _ _ _ Hi) in Ht.
  apply list_elem_of_fmap in Ht as (sb & -> & Hin). apply list_elem_of_lookup in Hin as [j Hj]. by exists j, sb.
Qed.

(** A step that does not cancel the context. *)
Definition live (x y : Process) : Prop := step x y /\ ~ canceled (world_ y).

Lemma live_reachable s0 n0 x :
  Handler.sinksOK (kafka cfg) s0 -> cursors s0 = ∅ -> ~ canceled n0 -> rtc live (first cfg s0 n0) x ->
  pinvariant x /\ Shutdown.synced (sys x) /\ Monotone.ahead L (sys x) /\ lossless cfg (sys x) /\ ~ canceled (world_ x).
Proof.
  intros Hok Hc Hn Hr.
  apply (rtc_invariant live (fun z => pinvariant z /\ Shutdown.synced (sys z) /\ Monotone.ahead L (sys z) /\
    lossless cfg (sys z) /\ ~ canceled (world_ z)) (first cfg s0 n0) x); [| |done].
  - intros a b (Hi & Hs & Ha & Hl & Hla) [Hst Hlb]. split; [by eapply service_step|]. split; [by eapply Shutdown.synced_step|].
    split; [by eapply Monotone.ahead_step|]. split; [by eapply lossless_step|done].
  - split; [by apply (service_reachable _ _ _ json_Marshal _ _ Hlog Hlen Htopics s0 n0); [..|constructor]|].
    split; [apply Shutdown.synced_boot|]. split; [by apply (Monotone.ahead_restart cfg L Hlog (boot cfg s0 n0 ∅))|].
    split; [apply lossless_boot|done].
Qed.

(** What fan-in took is of a subscribed topic, and what a subscriber has is of the log. *)
Lemma sent_subscribed x raw :
  pinvariant x -> raw ∈ sent (pool (sys x)) -> raw_Topic raw ∈ Config.Topics (Config.PubSub cfg).
Proof.
  intros [(_ & _ & Hi) _] Hin.
  destruct (sent_facts _ _ _ _ _ Hlen _ _ _ _ _ _ _ _ Hi Hin) as (j & sb & ? & ? & ? & ? & Hj & _ & _ & <- & _).
  rewrite <- (i_topics _ _ _ _ _ _ _ _ _ _ _ _ Hi). apply list_elem_of_fmap_2. by eapply list_elem_of_lookup_2.
Qed.

Lemma received_in_log t b sb : Subscriber.out sb <> [] -> SubscriberSpec.emitted t (L t) b sb ->
  (b + length (Subscriber.out sb) <= S (pred (length (L t))))%nat.
Proof.
  intros Hne Hem. assert (0 < length (Subscriber.out sb))%nat as Hpos by (destruct (Subscriber.out sb); [done|simpl; lia]).
  destruct (lookup_lt_is_Some_2 (Subscriber.out sb) (pred (length (Subscriber.out sb)))) as [raw Hraw]; [lia|].
  destruct (out_facts L Hlen _ _ _ _ _ Hem Hraw) as (_ & _ & _ & e0 & He0%lookup_lt_Some & _). lia.
Qed.

(** ** Properties *)

(** C5. The service can always catch up. Whatever state it has reached, through whatever
    failures, partial flushes and crashes: if the process is started on what is left, a
    topic with a stored cursor is among its topics, it has a worker, and the services
    work, then the events after the cursor, up to any position of the topic's log, can all
    be received, handled and acknowledged, and a flush stores the cursor of the last of
    them; by then every one of them is settled. No leftover of a failed attempt stands in
    the way. *)
Theorem service_catches_up t netOK okSinks s0 n0 x n k e m e' :
  servicesWork netOK okSinks -> topicWorks src avro_Parse avro_Unmarshal json_Marshal L t netOK okSinks ->
  Handler.sinksOK (kafka cfg) s0 -> cursors s0 = ∅ -> rtc step (first cfg s0 n0) x ->
  okSinks (sinksOf (sys x)) -> netOK n ->
  t ∈ Config.Topics (Config.PubSub cfg) -> 1 <= Config.Count (Config.Worker cfg) ->
  L t !! k = Some e -> cursors (sinksOf (sys x)) !! t = Some (ce_ReplayId e) ->
  (k <= m)%nat -> L t !! m = Some e' ->
  exists y, rtc step (mkProcess (boot cfg (sinksOf (sys x)) n (base (sys x))) ∅) y /\
    cursors (sinksOf (sys y)) !! t = Some (ce_ReplayId e') /\
    forall i, (k <= i <= m)%nat -> settled (sinksOf (sys y)) t i.
Proof.
  intros Hw Htw Hok Hc0 Hr Hs Hn Ht Hcount HL Hc Hkm HL'.
  pose proof (service_reachable _ _ _ json_Marshal _ _ Hlog Hlen Htopics _ _ _ Hok Hc0 Hr) as Hi.
  set (z := mkProcess (boot cfg (sinksOf (sys x)) n (base (sys x))) ∅).
  assert (pinvariant z) as Hiz by (eapply (service_step src avro_Parse avro_Unmarshal json_Marshal); [done..|destruct x; constructor]).
  assert (Progress.good src avro_Parse avro_Unmarshal cfg L (eq t) netOK okSinks z) as Hg.
  { split; [done|apply Shutdown.synced_boot|by apply (Monotone.ahead_restart cfg L Hlog (sys x))|apply lossless_boot|done|].
    intros raw Hin. simpl in Hin. by apply elem_of_nil in Hin. }
  assert (Monotone.storedAt L (sinksOf (sys z)) t k) as Hk by (by exists e).
  destruct (topic_subscriber z t Hiz Ht) as (j & sb & Hsub).
  destruct (topic_catches_up (eq t) netOK okSinks Hw ltac:(by intros ? <-) z j t sb k m e' Hg Hsub eq_refl Hcount Hk Hkm HL')
    as (y & Hzy & _ & Hcy).
  { intros b Hne. destruct Hne. destruct Hsub as [Hj _]. unfold z, worldOf in Hj. simpl in Hj.
    unfold App.newSubs in Hj. by apply list_lookup_fmap_Some in Hj as (? & -> & _). }
  apply onward_steps in Hzy.
  exists y. split; [done|]. split; [done|]. eapply stored_settles; [exact Hiz|done|done|by exists e'].
Qed.

(** C6. And no process gets stuck. As long as its context is not canceled, whatever the
    failures so far - attempts that are being retried, calls half done, saves that failed,
    streams that ended - once the services work again for the topics it subscribes to, the
    same process can go on from the very state it is in, by moves of its own and without
    another start: a topic with a stored cursor is brought to the end of its log, with
    every event from the cursor on settled and the cursor of the last one stored; the
    channel and the workers are empty, and every event that fan-in had taken is
    acknowledged. No event is left behind in a queue or with a worker, and no cursor is
    forgotten by a failed flush. *)
Theorem service_never_stuck netOK okSinks s0 n0 x t k e e' :
  servicesWork netOK okSinks ->
  (forall t, t ∈ Config.Topics (Config.PubSub cfg) ->
     topicWorks src avro_Parse avro_Unmarshal json_Marshal L t netOK okSinks) ->
  Handler.sinksOK (kafka cfg) s0 -> cursors s0 = ∅ -> ~ canceled n0 -> rtc live (first cfg s0 n0) x ->
  okSinks (sinksOf (sys x)) -> netOK (net (world_ x)) ->
  t ∈ Config.Topics (Config.PubSub cfg) -> 1 <= Config.Count (Config.Worker cfg) ->
  L t !! k = Some e -> cursors (sinksOf (sys x)) !! t = Some (ce_ReplayId e) -> last (L t) = Some e' ->
  exists y, rtc onward x y /\ cursors (sinksOf (sys y)) !! t = Some (ce_ReplayId e') /\
    (forall i, (k <= i < length (L t))%nat -> settled (sinksOf (sys y)) t i) /\
    chan (pool (sys y)) = [] /\ inflight (ws (pool (sys y))) = [] /\
    forall raw, raw ∈ sent (pool (sys x)) -> raw ∈ ackedOf (st (pool (sys y))).
Proof.
  intros Hw Htw Hok Hc0 Hn0 Hr Hs Hn Ht Hcount HL Hc Hlast. rewrite last_lookup in Hlast.
  destruct (live_reachable _ _ _ Hok Hc0 Hn0 Hr) as (Hi & Hsy & Ha & Hl & _).
  assert (Progress.good src avro_Parse avro_Unmarshal cfg L (fun t => t ∈ Config.Topics (Config.PubSub cfg)) netOK okSinks x) as Hg
    by (split; try done; intros raw; by apply sent_subscribed).
  pose proof (lookup_lt_Some _ _ _ HL) as Hk.
  destruct (topic_subscriber x t Hi Ht) as (j & sb & Hsub).
  destruct (topic_catches_up _ netOK okSinks Hw Htw x j t sb k (pred (length (L t))) e' Hg Hsub Ht Hcount) as (y & Hxy & Hgy & Hcy);
    [by exists e|lia|done|intros b; by apply received_in_log|].
  destruct (workers_settle src avro_Parse avro_Unmarshal json_Marshal cfg L Hlog Hlen Htopics _ netOK okSinks Hw Htw _ y Hgy Hcount (le_n _))
    as (z & Hyz & Hgz & _ & Hin & Hch).
  assert (Monotone.storedAt L (sinksOf (sys z)) t (pred (length (L t)))) as Hz.
  { destruct (Monotone.stored_rtc src avro_Parse avro_Unmarshal json_Marshal cfg L Hlog Hlen Htopics y z t (pred (length (L t))))
      as (k' & Hk' & Hle); [apply (g_inv _ _ _ _ _ _ _ _ _ Hgy)|apply (g_ahead _ _ _ _ _ _ _ _ _ Hgy)|by apply onward_steps|by exists e'|].
    destruct Hk' as (e2 & HL2 & Hc2). pose proof (lookup_lt_Some _ _ _ HL2).
    replace (pred (length (L t))) with k' by lia. by exists e2. }
  assert (rtc onward x z) as Hxz by (by etrans).
  exists z. split; [done|]. split; [destruct Hz as (e2 & HL2 & ->); congruence|]. split; [|split; [done|split; [done|]]].
  - intros i Hik. apply onward_steps in Hxz.
    eapply (stored_settles x z t k (pred (length (L t)))); [done|done|by exists e|done|lia].
  - intros raw Hraw. eapply (all_acked _ _ _ z); try done. by eapply sent_onward.
Qed.

End Recovery.
End Recovery.
