(* ===== verification/Schedule.v ===== *)
(** * Schedules, executed

    A run of the machine of Service.v written as a list of commands and evaluated: each
    command is a step, so that what it computes is reachable. *)

From S2P Require Import Prelude Event Schema Handler HandlerSteps Config.
From S2P Require Import Committer Subscriber SubscriberSpec Pool App Pipeline Service.

Module Schedule.
Import Proto Event Pool Pipeline Service.

Section Schedule.
Context {D N Schema : Type} `{PipelineLaws D} `{ClockLaws N}.
Context (src : string -> M N (result string)) (avro_Parse : string -> result Schema)
  (avro_Unmarshal : Schema -> list Byte.byte -> result payload)
  (json_Marshal : Handler.Envelope -> result (list Byte.byte)) (cfg : Config.Config).
Context (L : string -> list ConsumerEvent).

#[local] Existing Instance Services_Clock.
#[local] Existing Instance Services_ClockLaws.
#[local] Abbreviation Sys := (@Pipeline.Sys D N Schema).
#[local] Abbreviation Process := (@Service.Process D N Schema).
#[local] Abbreviation attempt h := (stepWorker (source src) avro_Parse avro_Unmarshal h ackW).
#[local] Abbreviation inside := (Pipeline.inside L).
#[local] Abbreviation step := (Service.step src avro_Parse avro_Unmarshal json_Marshal cfg L).

(** What happens around the workers. *)
Inductive ecmd :=
| EOpen (j : nat) (start : nat)
| EEmit (j : nat) (now : Z)
| EFanIn (j : nat)
| ESnapshot
| ESave (t : string)
| EFlushEnd.

(** The commands: those, what worker [i] does, and a crash. *)
Inductive pcmd :=
| PEnv (c : ecmd)
| PTake (i : nat)
| PFetch (i : nat)
| PEnter (i : nat)
| PCall (i : nat)
| PReturn (i : nat)
| PRestart (n : N).

(** Whether a stream may start at [start]. *)
Definition startsb (l : list ConsumerEvent) (req : FetchRequest) (start : nat) : bool :=
  match fr_ReplayPreset req with
  | LATEST => true
  | EARLIEST => (start =? 0)%nat
  | CUSTOM =>
      match start with
      | O => false
      | S i => match l !! i with Some e => bool_decide (ce_ReplayId e = fr_ReplayId req) | None => false end
      end
  end.

Definition eexec1 (c : ecmd) (x : Sys) : option Sys :=
  let p := pool x in
  let w := worldOf p in
  match c with
  | EOpen j start =>
      match subs w !! j with
      | Some sb =>
          match Subscriber.initialFetch sb (sinks w) with
          | (Ok req, s') =>
              if startsb (L (Subscriber.topic sb)) req start then
                Some (mkSys (setSinks s' p) (taken x) (<[j := Some start]> (streams x)) (flushing x)
                  (match fr_ReplayPreset req with LATEST => <[Subscriber.topic sb := start]> (base x) | _ => base x end))
              else None
          | (Err _, s') => Some (mkSys (setSinks s' p) (taken x) (streams x) (flushing x) (base x))
          end
      | None => None
      end
  | EEmit j now =>
      match subs w !! j, streams x !! j with
      | Some sb, Some (Some pos) =>
          match L (Subscriber.topic sb) !! pos with
          | Some e =>
              Some (mkSys (setSub j (Subscriber.emit (Some e) now sb) p) (taken x)
                (<[j := Some (S pos)]> (streams x)) (flushing x) (base x))
          | None => None
          end
      | _, _ => None
      end
  | EFanIn j =>
      match subs w !! j, taken x !! j with
      | Some sb, Some k =>
          match Subscriber.out sb !! k with
          | Some raw =>
              if closed p then None
              else Some (mkSys (mkPSys (st p) (ws p) (chan p ++ [raw]) false (sent p ++ [raw]) (abandoned p))
                     (<[j := S k]> (taken x)) (streams x) (flushing x) (base x))
          | None => None
          end
      | _, _ => None
      end
  | ESnapshot =>
      match flushing x with
      | None =>
          Some (mkSys (setCursor (sinks w) (Committer.snapshot (cursor w)).2 p) (taken x) (streams x)
            (Some (Committer.snapshot (cursor w)).1) (base x))
      | Some _ => None
      end
  | ESave t =>
      match flushing x with
      | Some pending =>
          match pending !! t with
          | Some rid =>
              let '(r, s') := SaveReplay t rid (sinks w) in
              let c' := match r with
                        | None => Committer.incCommits "ok" (cursor w)
                        | Some _ => Committer.markDirty (Committer.incCommits "error" (cursor w)) t
                        end in
              Some (mkSys (setCursor s' c' p) (taken x) (streams x) (Some (delete t pending)) (base x))
          | None => None
          end
      | None => None
      end
  | EFlushEnd =>
      match flushing x with
      | Some pending =>
          if decide (pending = ∅) then Some (mkSys p (taken x) (streams x) None (base x)) else None
      | None => None
      end
  end.

Definition pexec1 (c : pcmd) (x : Process) : option Process :=
  let '(mkProcess x cs) := x in
  let p := pool x in
  match c with
  | PEnv c => match eexec1 c x with Some y => Some (mkProcess y cs) | None => None end
  | PTake i =>
      match ws p !! i, chan p with
      | Some Idle, raw :: q =>
          let '(ph, s') := begin_ raw (st p) in
          Some (mkProcess (withPool (mkPSys s' (<[i := ph]> (ws p)) q (closed p) (sent p) (abandoned p)) x) cs)
      | _, _ => None
      end
  | PFetch i =>
      match ws p !! i with
      | Some (Fetching raw start d) =>
          let '(ph', s') := attempt (rootW json_Marshal cfg) (Fetching raw start d) (st p) in
          Some (mkProcess (withPool (attempted i raw ph' s' p) x) cs)
      | _ => None
      end
  | PEnter i =>
      match ws p !! i, cs !! i with
      | Some (Handling raw dec start d), None =>
          Some (mkProcess x (<[i := HandlerSteps.start (redis cfg)]> cs))
      | _, _ => None
      end
  | PCall i =>
      match ws p !! i, cs !! i with
      | Some (Handling raw dec start d), Some c =>
          let '(c', s') := HandlerSteps.advance json_Marshal (kafka cfg) (redis cfg) dec c (sinksOf x) in
          Some (mkProcess (withPool (setSinks s' p) x) (<[i := c']> cs))
      | _, _ => None
      end
  | PReturn i =>
      match ws p !! i, cs !! i with
      | Some (Handling raw dec start d), Some (HandlerSteps.Returned r) =>
          let '(ph', s') := attempt (fun _ => mret r) (Handling raw dec start d) (st p) in
          Some (mkProcess (withPool (attempted i raw ph' s' p) x) (delete i cs))
      | _, _ => None
      end
  | PRestart n => Some (mkProcess (boot cfg (sinksOf x) n (base x)) ∅)
  end.

Fixpoint pexec (cs : list pcmd) (x : Process) : option Process :=
  match cs with
  | [] => Some x
  | c :: cs' => match pexec1 c x with Some y => pexec cs' y | None => None end
  end.

Lemma startsb_spec l req start : startsb l req start = true -> SubscriberSpec.starts l req start.
Proof.
  unfold startsb, SubscriberSpec.starts. destruct (fr_ReplayPreset req); [done| |].
  - by intros ?%Nat.eqb_eq.
  - destruct start as [|i]; [done|]. destruct (l !! i) as [e|] eqn:E; [|done].
    intros Hb. bools. eauto.
Qed.

Lemma eexec1_step c x y : eexec1 c x = Some y -> inside x y.
Proof.
  destruct x as [p tk ss fl b]. unfold eexec1. cbn [pool taken streams flushing base]. intros He.
  destruct c as [j start|j now|j| |t|].
  - destruct (subs (worldOf p) !! j) as [sb|] eqn:Ej; [|done].
    destruct (Subscriber.initialFetch sb (sinks (worldOf p))) as [[req|e] s'] eqn:Ef.
    + destruct (startsb _ req start) eqn:Es; [|done]. simplify_eq.
      eapply st_open; [done|done|by apply startsb_spec].
    + simplify_eq. by eapply st_open_fail.
  - destruct (subs (worldOf p) !! j) as [sb|] eqn:Ej; [|done].
    destruct (ss !! j) as [[pos|]|] eqn:Es; try done.
    destruct (L (Subscriber.topic sb) !! pos) as [e|] eqn:El; [|done]. simplify_eq. by eapply st_emit.
  - destruct (subs (worldOf p) !! j) as [sb|] eqn:Ej; [|done].
    destruct (tk !! j) as [k|] eqn:Ek; [|done]. destruct (Subscriber.out sb !! k) as [raw|] eqn:Eo; [|done].
    destruct (closed p) eqn:Ec; [done|]. simplify_eq. by eapply st_fanin.
  - destruct fl; [done|]. simplify_eq. constructor.
  - destruct fl as [pending|]; [|done]. destruct (pending !! t) as [rid|] eqn:Et; [|done].
    destruct (SaveReplay t rid (sinks (worldOf p))) as [[e|] s'] eqn:Es; simplify_eq;
      [by eapply st_save_err|by eapply st_save].
  - destruct fl as [pending|]; [|done]. case_decide; simplify_eq. constructor.
Qed.

Lemma pexec1_step c x y : pexec1 c x = Some y -> step x y.
Proof.
  destruct x as [x cs]. unfold pexec1. intros He. destruct c as [c|i|i|i|i|i|n].
  - destruct (eexec1 c x) as [z|] eqn:E; [|done]. simplify_eq. by apply s_move, s_inside, (eexec1_step c).
  - destruct (ws (pool x) !! i) as [[]|] eqn:Ew; try done.
    destruct (chan (pool x)) as [|raw q] eqn:Ec; [done|].
    destruct (begin_ raw (st (pool x))) as [ph s'] eqn:Eb. simplify_eq. by apply s_move, s_idle; eapply w_take.
  - destruct (ws (pool x) !! i) as [[]|] eqn:Ew; try done.
    destruct (attempt _ _ (st (pool x))) as [ph s'] eqn:Eb. simplify_eq. by eapply s_move, s_fetch.
  - destruct (ws (pool x) !! i) as [[]|] eqn:Ew; try done.
    destruct (cs !! i) eqn:Ec; [done|]. simplify_eq. by eapply s_move, s_enter.
  - destruct (ws (pool x) !! i) as [[]|] eqn:Ew; try done. destruct (cs !! i) as [c|] eqn:Ec; [|done].
    destruct (HandlerSteps.advance _ _ _ _ c (sinksOf x)) as [c' s'] eqn:Ea. simplify_eq. by eapply s_move, s_call.
  - destruct (ws (pool x) !! i) as [[]|] eqn:Ew; try done. destruct (cs !! i) as [[]|] eqn:Ec; try done.
    destruct (attempt _ _ (st (pool x))) as [ph s'] eqn:Eb. simplify_eq. by eapply s_move, s_return.
  - simplify_eq. apply s_restart.
Qed.

Lemma pexec_steps cs x y : pexec cs x = Some y -> rtc step x y.
Proof.
  revert x. induction cs as [|c cs IH]; intros x He; cbn in He; [simplify_eq; constructor|].
  destruct (pexec1 c x) as [z|] eqn:E; [|done]. eapply rtc_l; [by eapply pexec1_step | by apply IH].
Qed.

End Schedule.
End Schedule.
