(* ===== verification/Metrics.v ===== *)
(** * Metrics

    Model of the metric constructors of every component (the [new...Metrics]
    functions) and of the way src/internal/app/app.go runs them against one
    registry. A collector is an object with an identity: the point of
    [registerOrReuse] in src/internal/pubsub/subscriber.go is that the subscribers of
    several topics end up with the same objects. The registry belongs to the
    Prometheus client library and is an interface with laws; a panic is [None]. *)

From S2P Require Import Prelude.
From Stdlib Require Import Ascii.

Module Collectors.

Inductive metricKind :=
| Counter | CounterVecKind | GaugeVecKind | GaugeFunc | Histogram | HistogramVec.

#[global] Instance metricKind_eq_dec : EqDecision metricKind.
Proof. solve_decision. Defined.

(** What a collector describes: its name, help text and variable labels. *)
Record Desc := mkDesc {
  d_Name : string;
  d_Help : string;
  d_Labels : list string;
}.

#[global] Instance Desc_eq_dec : EqDecision Desc.
Proof. solve_decision. Defined.

(** A collector object: its address, its Go type and its description. *)
Record Collector := mkCollector {
  c_Addr : nat;
  c_Kind : metricKind;
  c_Desc : Desc;
}.

Definition nameOf (c : Collector) : string := d_Name (c_Desc c).

(** The library's rule for names: a letter, underscore or colon, then also digits;
    labels have no colon. *)
Definition isLetter (a : ascii) : bool :=
  let n := nat_of_ascii a in
  ((65 <=? n)%nat && (n <=? 90)%nat) || ((97 <=? n)%nat && (n <=? 122)%nat) || (n =? 95)%nat.
Definition isDigit (a : ascii) : bool :=
  let n := nat_of_ascii a in (48 <=? n)%nat && (n <=? 57)%nat.
Definition isColon (a : ascii) : bool := (nat_of_ascii a =? 58)%nat.

Definition validName (colon : bool) (s : string) : bool :=
  match String.list_ascii_of_string s with
  | [] => false
  | a :: rest =>
      (isLetter a || colon && isColon a) &&
      forallb (fun b => isLetter b || isDigit b || colon && isColon b) rest
  end.

Definition validDesc (d : Desc) : bool :=
  validName true (d_Name d) && forallb (validName false) (d_Labels d) && bool_decide (NoDup (d_Labels d)).

(** [prometheus.AlreadyRegisteredError], or any other failure. *)
Inductive RegisterError :=
| AlreadyRegisteredError (existing : Collector)
| RegisterFailed (e : error).

End Collectors.
Import Collectors.

(** ** The registry *)

Class Registerer (R : Type) := {
  Register : Collector -> M R (option RegisterError);
}.

(** What the library documents: a valid collector whose name is new is added; one
    that describes the same metric as a registered collector is refused with an error
    that carries that collector, and nothing changes. *)
Class RegistererLaws (R : Type) `{Registerer R} := {
  registered : R -> list Collector;
  register_fresh c r :
    validDesc (c_Desc c) = true -> nameOf c ∉ nameOf <$> registered r ->
    exists r', Register c r = (None, r') /\ registered r' ≡ₚ c :: registered r;
  register_equal c x r :
    x ∈ registered r -> c_Desc x = c_Desc c ->
    exists y, y ∈ registered r /\ c_Desc y = c_Desc c /\ Register c r = (Some (AlreadyRegisteredError y), r);
}.

Module Metrics.

(** ** Descriptions *)

Definition refreshTotalDesc : Desc :=
  mkDesc "auth_token_refresh_total"
    "Number of Salesforce token refresh attempts, labelled by outcome." ["result"].
Definition expirySecondsDesc : Desc :=
  mkDesc "auth_token_expiry_seconds"
    "Seconds until the cached Salesforce token expires; 0 if no token cached." [].
Definition rpcDurationDesc : Desc :=
  mkDesc "pubsub_grpc_rpc_duration_seconds"
    "Duration of Salesforce Pub/Sub gRPC calls." ["method"].
Definition rpcTotalDesc : Desc :=
  mkDesc "pubsub_grpc_rpc_total"
    "Total Salesforce Pub/Sub gRPC calls by method and final status code." ["method"; "code"].
Definition rpcRetriesDesc : Desc :=
  mkDesc "pubsub_grpc_rpc_retries_total"
    "Retries performed by the unary interceptor, labelled by method and retried code." ["method"; "code"].
Definition schemaHitsDesc : Desc :=
  mkDesc "schema_cache_hits_total"
    "Number of schema cache lookups served from memory." [].
Definition schemaMissesDesc : Desc :=
  mkDesc "schema_cache_misses_total"
    "Number of schema cache lookups that triggered an upstream fetch." [].
Definition eventsReceivedDesc : Desc :=
  mkDesc "pubsub_events_received_total"
    "Number of events received from Salesforce Pub/Sub per topic." ["topic"].
Definition reconnectsDesc : Desc :=
  mkDesc "pubsub_reconnects_total"
    "Number of subscribe-stream reconnect attempts, labelled by topic and reason." ["topic"; "reason"].
Definition streamOpenDesc : Desc :=
  mkDesc "pubsub_stream_open"
    "1 if the Subscribe stream is currently open for the topic, 0 otherwise." ["topic"].
Definition producedDesc : Desc :=
  mkDesc "kafka_records_produced_total"
    "Records successfully acknowledged by Kafka." [].
Definition failedDesc : Desc :=
  mkDesc "kafka_records_failed_total"
    "Produce attempts that returned an error." [].
Definition bytesDesc : Desc :=
  mkDesc "kafka_record_bytes_total"
    "Total size of record values produced." [].
Definition durationDesc : Desc :=
  mkDesc "kafka_produce_duration_seconds"
    "Latency of a synchronous produce, including retries." [].
Definition redisHitsDesc : Desc :=
  mkDesc "dedup_cache_hits_total"
    "Events recognised as already processed, skipping the database write." [].
Definition redisMissesDesc : Desc :=
  mkDesc "dedup_cache_misses_total"
    "Events not found in the cache and passed through to the handler chain." [].
Definition redisErrorsDesc : Desc :=
  mkDesc "dedup_cache_errors_total"
    "Cache operations that failed, labelled by operation. These degrade to a miss." ["op"].
Definition commitsDesc : Desc :=
  mkDesc "replay_cursor_commits_total"
    "Number of replay cursor writes to storage, labelled by result." ["result"].
Definition processedDesc : Desc :=
  mkDesc "events_processed_total"
    "Number of events that completed handler.Handle successfully and were ack'd." [].
Definition poolFailedDesc : Desc :=
  mkDesc "events_failed_total"
    "Number of failed processing attempts, labelled by stage. Retried stages count every attempt." ["stage"].
Definition latencyDesc : Desc :=
  mkDesc "processing_latency_seconds"
    "Duration of full event processing (decode + handler) per worker." [].

(** Every metric the service may register. *)
Definition serviceDescs : list Desc :=
  [refreshTotalDesc; expirySecondsDesc; rpcDurationDesc; rpcTotalDesc; rpcRetriesDesc; schemaHitsDesc;
   schemaMissesDesc; eventsReceivedDesc; reconnectsDesc; streamOpenDesc; producedDesc; failedDesc; bytesDesc;
   durationDesc; redisHitsDesc; redisMissesDesc; redisErrorsDesc; commitsDesc; processedDesc; poolFailedDesc;
   latencyDesc].
Definition serviceNames : list string := d_Name <$> serviceDescs.

(** ** Constructors *)

Section Constructors.
Context {R : Type} `{Registerer R}.

(** The registry, and the address the next object gets; [None] is a panic. *)
Definition P (A : Type) : Type := R * nat -> option (A * (R * nat)).

#[global] Instance P_ret : MRet P := fun A a s => Some (a, s).
#[global] Instance P_bind : MBind P := fun A B f m s =>
  match m s with
  | Some (a, s') => f a s'
  | None => None
  end.

(** Building a collector allocates it. *)
Definition newCollector (k : metricKind) (d : Desc) : P Collector :=
  fun '(r, n) => Some (mkCollector n k d, (r, S n)).

(** [Registerer.MustRegister]: panics on the first error. *)
Fixpoint MustRegister (cs : list Collector) : P unit := fun '(r, n) =>
  match cs with
  | [] => Some (tt, (r, n))
  | c :: rest =>
      match Register c r with
      | (None, r') => MustRegister rest (r', n)
      | (Some _, _) => None
      end
  end.

(** [registerOrReuse]; the type assertion compares the Go types. *)
Definition registerOrReuse (c : Collector) : P Collector := fun '(r, n) =>
  match Register c r with
  | (None, r') => Some (c, (r', n))
  | (Some (AlreadyRegisteredError existing), r') =>
      if decide (c_Kind existing = c_Kind c) then Some (existing, (r', n)) else None
  | (Some (RegisterFailed _), _) => None
  end.

(** [reg] tells whether the registerer is not nil. *)
Definition mustRegisterIf (reg : bool) (cs : list Collector) : P unit :=
  if reg then MustRegister cs else mret tt.

Record providerMetrics := mkProviderMetrics { refreshTotal : Collector; expirySeconds : Collector }.

Definition newProviderMetrics (reg : bool) : P providerMetrics :=
  c1 ← newCollector CounterVecKind refreshTotalDesc;
  c2 ← newCollector GaugeFunc expirySecondsDesc;
  _ ← mustRegisterIf reg [c1; c2];
  mret (mkProviderMetrics c1 c2).

Record clientMetrics := mkClientMetrics {
  rpcDuration : Collector; rpcTotal : Collector; rpcRetries : Collector }.

Definition newClientMetrics (reg : bool) : P clientMetrics :=
  c1 ← newCollector HistogramVec rpcDurationDesc;
  c2 ← newCollector CounterVecKind rpcTotalDesc;
  c3 ← newCollector CounterVecKind rpcRetriesDesc;
  _ ← mustRegisterIf reg [c1; c2; c3];
  mret (mkClientMetrics c1 c2 c3).

Record schemaMetrics := mkSchemaMetrics { schemaHits : Collector; schemaMisses : Collector }.

Definition newSchemaMetrics (reg : bool) : P schemaMetrics :=
  c1 ← newCollector Counter schemaHitsDesc;
  c2 ← newCollector Counter schemaMissesDesc;
  _ ← mustRegisterIf reg [c1; c2];
  mret (mkSchemaMetrics c1 c2).

Record subscriberMetrics := mkSubscriberMetrics {
  eventsReceived : Collector; reconnects : Collector; streamOpen : Collector }.

Definition newSubscriberMetrics (reg : bool) : P subscriberMetrics :=
  c1 ← newCollector CounterVecKind eventsReceivedDesc;
  c2 ← newCollector CounterVecKind reconnectsDesc;
  c3 ← newCollector GaugeVecKind streamOpenDesc;
  if reg then
    e1 ← registerOrReuse c1;
    e2 ← registerOrReuse c2;
    e3 ← registerOrReuse c3;
    mret (mkSubscriberMetrics e1 e2 e3)
  else mret (mkSubscriberMetrics c1 c2 c3).

Record producerMetrics := mkProducerMetrics {
  produced : Collector; failed : Collector; bytes : Collector; duration : Collector }.

Definition newProducerMetrics (reg : bool) : P producerMetrics :=
  c1 ← newCollector Counter producedDesc;
  c2 ← newCollector Counter failedDesc;
  c3 ← newCollector Counter bytesDesc;
  c4 ← newCollector Histogram durationDesc;
  _ ← mustRegisterIf reg [c1; c2; c3; c4];
  mret (mkProducerMetrics c1 c2 c3 c4).

Record redisMetrics := mkRedisMetrics {
  redisHits : Collector; redisMisses : Collector; redisErrors : Collector }.

Definition newRedisMetrics (reg : bool) : P redisMetrics :=
  c1 ← newCollector Counter redisHitsDesc;
  c2 ← newCollector Counter redisMissesDesc;
  c3 ← newCollector CounterVecKind redisErrorsDesc;
  _ ← mustRegisterIf reg [c1; c2; c3];
  mret (mkRedisMetrics c1 c2 c3).

Record committerMetrics := mkCommitterMetrics { commits : Collector }.

Definition newCommitterMetrics (reg : bool) : P committerMetrics :=
  c1 ← newCollector CounterVecKind commitsDesc;
  _ ← mustRegisterIf reg [c1];
  mret (mkCommitterMetrics c1).

Record poolMetrics := mkPoolMetrics {
  processed : Collector; poolFailed : Collector; latency : Collector }.

Definition newPoolMetrics (reg : bool) : P poolMetrics :=
  c1 ← newCollector Counter processedDesc;
  c2 ← newCollector CounterVecKind poolFailedDesc;
  c3 ← newCollector Histogram latencyDesc;
  _ ← mustRegisterIf reg [c1; c2; c3];
  mret (mkPoolMetrics c1 c2 c3).

(** ** The constructors in the order of [app.New] *)

Record appMetrics := mkAppMetrics {
  m_auth : providerMetrics;
  m_client : clientMetrics;
  m_schema : schemaMetrics;
  m_subs : list subscriberMetrics;
  m_kafka : option producerMetrics;
  m_redis : option redisMetrics;
  m_cursor : committerMetrics;
  m_pool : poolMetrics;
}.

(** The loop over the topics. *)
Fixpoint newSubs (reg : bool) (topics : list string) : P (list subscriberMetrics) :=
  match topics with
  | [] => mret []
  | _ :: rest => m ← newSubscriberMetrics reg; ms ← newSubs reg rest; mret (m :: ms)
  end.

(** A sink that the configuration enables. *)
Definition optionally {A} (b : bool) (p : P A) : P (option A) :=
  if b then a ← p; mret (Some a) else mret None.

Definition newAppMetrics (reg : bool) (topics : list string) (kafka redis : bool) : P appMetrics :=
  m1 ← newProviderMetrics reg;
  m2 ← newClientMetrics reg;
  m3 ← newSchemaMetrics reg;
  m4 ← newSubs reg topics;
  m5 ← optionally kafka (newProducerMetrics reg);
  m6 ← optionally redis (newRedisMetrics reg);
  m7 ← newCommitterMetrics reg;
  m8 ← newPoolMetrics reg;
  mret (mkAppMetrics m1 m2 m3 m4 m5 m6 m7 m8).

(** The collectors of each group. *)
Definition ofProvider (m : providerMetrics) := [refreshTotal m; expirySeconds m].
Definition ofClient (m : clientMetrics) := [rpcDuration m; rpcTotal m; rpcRetries m].
Definition ofSchema (m : schemaMetrics) := [schemaHits m; schemaMisses m].
Definition ofSubscriber (m : subscriberMetrics) := [eventsReceived m; reconnects m; streamOpen m].
Definition ofProducer (m : producerMetrics) := [produced m; failed m; bytes m; duration m].
Definition ofRedis (m : redisMetrics) := [redisHits m; redisMisses m; redisErrors m].
Definition ofCommitter (m : committerMetrics) := [commits m].
Definition ofPool (m : poolMetrics) := [processed m; poolFailed m; latency m].

(** All of them, each once: the subscribers share theirs. *)
Definition collectorsOf (m : appMetrics) : list Collector :=
  ofPool (m_pool m) ++ ofCommitter (m_cursor m)
  ++ default [] (ofRedis <$> m_redis m) ++ default [] (ofProducer <$> m_kafka m)
  ++ default [] (ofSubscriber <$> head (m_subs m))
  ++ ofSchema (m_schema m) ++ ofClient (m_client m) ++ ofProvider (m_auth m).

End Constructors.

(** ** Lemmas *)

(** The new collectors [cs] can be registered where the service already holds [old]. *)
Definition addable (old cs : list Collector) : bool :=
  forallb (fun c => validDesc (c_Desc c)) cs && bool_decide (NoDup (nameOf <$> cs ++ old)) &&
  bool_decide (Forall (fun x => x ∈ serviceNames) (nameOf <$> cs)).

Lemma addable_spec old cs :
  addable old cs = true <->
  Forall (fun c => validDesc (c_Desc c) = true) cs /\ NoDup (nameOf <$> cs ++ old) /\
  Forall (fun c => nameOf c ∈ serviceNames) cs.
Proof.
  unfold addable. rewrite !andb_true_iff, !bool_decide_eq_true, forallb_forall, Forall_fmap, !Forall_forall.
  setoid_rewrite list_elem_of_In. naive_solver.
Qed.

Lemma addable_cons old c cs : addable old (c :: cs) = true -> addable old [c] = true /\ addable (c :: old) cs = true.
Proof.
  rewrite !addable_spec. intros ([Hv Hvs]%Forall_cons & Hn & [Hs Hss]%Forall_cons).
  rewrite !Forall_singleton. split; [split; [done|]; split; [|done]|split; [done|]; split; [|done]].
  - simpl in *. apply NoDup_cons in Hn as [Hn Hd]. rewrite fmap_app in Hn, Hd. apply NoDup_cons.
    apply NoDup_app in Hd as (_ & _ & ?). set_solver.
  - revert Hn. by rewrite <- (Permutation_middle cs old c).
Qed.

Section Lemmas.
Context {R : Type} `{RegistererLaws R}.

(** The registry [r0] the service was given, which has none of its names. *)
Definition foreign (r0 : R) : Prop := Forall (fun x => x ∉ serviceNames) (nameOf <$> registered r0).

(** The service holds [cs] in [r], on top of what was in [r0]. *)
Definition holds (r0 : R) (cs : list Collector) (r : R) : Prop := registered r ≡ₚ cs ++ registered r0.

Lemma holds_fresh r0 cs r c :
  foreign r0 -> holds r0 cs r -> addable cs [c] = true ->
  exists r', Register c r = (None, r') /\ holds r0 (c :: cs) r'.
Proof.
  intros Hf Hh (Hv & Hn & Hs)%addable_spec. rewrite Forall_singleton in Hv, Hs.
  destruct (register_fresh c r) as (r' & Hr & Hp); [exact Hv| |].
  - rewrite Hh, fmap_app, elem_of_app. intros [Hin|Hin].
    + by apply NoDup_cons in Hn as [? _].
    + by apply (proj1 (Forall_forall _ _) Hf) in Hin.
  - exists r'. split; [done|]. unfold holds. by rewrite Hp, Hh.
Qed.

Lemma MustRegister_ok r0 cs r new n :
  foreign r0 -> holds r0 cs r -> addable cs new = true ->
  exists r', MustRegister new (r, n) = Some (tt, (r', n)) /\ holds r0 (new ++ cs) r'.
Proof.
  intros Hf. revert cs r. induction new as [|c new IH]; intros cs r Hh Ha; [by exists r|].
  apply addable_cons in Ha as [Hc Ha]. destruct (holds_fresh _ _ _ _ Hf Hh Hc) as (r1 & H1 & Hh1).
  destruct (IH _ _ Hh1 Ha) as (r2 & H2 & Hh2). exists r2. simpl. rewrite H1. split; [done|].
  unfold holds in *. rewrite Hh2. simpl. by rewrite <- Permutation_middle.
Qed.

(** A collector that describes a metric the service holds is replaced by that one. *)
Lemma registerOrReuse_held r0 cs r x c n :
  foreign r0 -> holds r0 cs r -> NoDup (nameOf <$> cs) -> x ∈ cs -> nameOf x ∈ serviceNames ->
  c_Desc x = c_Desc c -> c_Kind x = c_Kind c ->
  registerOrReuse c (r, n) = Some (x, (r, n)).
Proof.
  intros Hf Hh Hn Hx Hs Hd Hk. unfold holds in Hh.
  destruct (register_equal c x r) as (y & Hy & Hyd & Hr); [rewrite Hh; set_solver|done|].
  assert (y = x) as ->; [|unfold registerOrReuse; rewrite Hr; by rewrite decide_True].
  assert (nameOf y = nameOf x) as Hyx by (unfold nameOf; congruence).
  rewrite Hh, elem_of_app in Hy. destruct Hy as [Hy|Hy].
  - apply list_elem_of_lookup in Hx as [i Hi], Hy as [j Hj].
    assert (i = j) as ->; [|congruence].
    eapply (NoDup_lookup _ i j (nameOf x) Hn); rewrite list_lookup_fmap; [by rewrite Hi|by rewrite Hj, <- Hyx].
  - exfalso. apply (list_elem_of_fmap_2 nameOf) in Hy. apply (proj1 (Forall_forall _ _) Hf) in Hy.
    apply Hy. by rewrite Hyx.
Qed.

Lemma registerOrReuse_fresh r0 cs r c n :
  foreign r0 -> holds r0 cs r -> addable cs [c] = true ->
  exists r', registerOrReuse c (r, n) = Some (c, (r', n)) /\ holds r0 (c :: cs) r'.
Proof.
  intros Hf Hh Ha. destruct (holds_fresh _ _ _ _ Hf Hh Ha) as (r' & Hr & Hh').
  exists r'. unfold registerOrReuse. by rewrite Hr.
Qed.

(** The collectors a subscriber allocates at address [n]. *)
Definition subscriberAt (n : nat) : subscriberMetrics :=
  mkSubscriberMetrics (mkCollector n CounterVecKind eventsReceivedDesc)
    (mkCollector (S n) CounterVecKind reconnectsDesc) (mkCollector (S (S n)) GaugeVecKind streamOpenDesc).

Lemma newSubscriberMetrics_eq r n :
  newSubscriberMetrics true (r, n) =
  (e1 ← registerOrReuse (eventsReceived (subscriberAt n));
   e2 ← registerOrReuse (reconnects (subscriberAt n));
   e3 ← registerOrReuse (streamOpen (subscriberAt n));
   mret (mkSubscriberMetrics e1 e2 e3)) (r, S (S (S n))).
Proof. done. Qed.

(** Once the service holds a subscriber's metrics, every further subscriber gets them. *)
Lemma newSubs_held r0 cs r a topics n :
  foreign r0 -> holds r0 cs r -> NoDup (nameOf <$> cs) ->
  Forall (fun x => x ∈ cs) (ofSubscriber (subscriberAt a)) ->
  exists n', newSubs true topics (r, n) = Some (replicate (length topics) (subscriberAt a), (r, n')).
Proof.
  intros Hf Hh Hn (H1 & (H2 & (H3 & _)%Forall_cons)%Forall_cons)%Forall_cons. revert n.
  induction topics as [|t topics IH]; intros n; [by exists n|].
  destruct (IH (S (S (S n)))) as [n' Hn']. exists n'. cbn [newSubs].
  unfold mbind at 1, P_bind. rewrite newSubscriberMetrics_eq. unfold mbind, P_bind, mret, P_ret.
  rewrite (registerOrReuse_held r0 cs r _ _ _ Hf Hh Hn H1) by (done || by apply (bool_decide_unpack _); vm_compute).
  rewrite (registerOrReuse_held r0 cs r _ _ _ Hf Hh Hn H2) by (done || by apply (bool_decide_unpack _); vm_compute).
  rewrite (registerOrReuse_held r0 cs r _ _ _ Hf Hh Hn H3) by (done || by apply (bool_decide_unpack _); vm_compute).
  by rewrite Hn'.
Qed.

(** The first subscriber registers its metrics, the others share them. *)
Lemma newSubs_ok r0 cs r topics n :
  foreign r0 -> holds r0 cs r -> addable cs (ofSubscriber (subscriberAt n)) = true ->
  exists r' n', newSubs true topics (r, n) = Some (replicate (length topics) (subscriberAt n), (r', n')) /\
    holds r0 (default [] (ofSubscriber <$> head (replicate (length topics) (subscriberAt n))) ++ cs) r'.
Proof.
  intros Hf Hh Ha. destruct topics as [|t topics]; [by exists r, n|].
  pose proof Ha as (Hc1 & (Hc2 & (Hc3 & _)%addable_cons)%addable_cons)%addable_cons.
  destruct (registerOrReuse_fresh _ _ _ _ (S (S (S n))) Hf Hh Hc1) as (r1 & E1 & Hh1).
  destruct (registerOrReuse_fresh _ _ _ _ (S (S (S n))) Hf Hh1 Hc2) as (r2 & E2 & Hh2).
  destruct (registerOrReuse_fresh _ _ _ _ (S (S (S n))) Hf Hh2 Hc3) as (r3 & E3 & Hh3).
  apply addable_spec in Ha as (_ & Hnd & _).
  assert (holds r0 (ofSubscriber (subscriberAt n) ++ cs) r3) as Hh'.
  { unfold holds in *. rewrite Hh3. simpl. solve_Permutation. }
  destruct (newSubs_held r0 _ r3 n topics (S (S (S n))) Hf Hh' Hnd) as [n' Hn'].
  { repeat constructor; simpl; set_solver. }
  exists r3, n'. split; [|done]. cbn [newSubs]. unfold mbind at 1, P_bind. rewrite newSubscriberMetrics_eq.
  unfold mbind, P_bind, mret, P_ret. rewrite E1, E2, E3, Hn'. done.
Qed.

(** A constructor that allocates its collectors and then registers them all. *)
Lemma group_ok {A} (new : P A) (cols : A -> list Collector) r0 cs r n m k :
  new (r, n) = (_ ← MustRegister (cols m); mret m) (r, k) ->
  foreign r0 -> holds r0 cs r -> addable cs (cols m) = true ->
  exists r', new (r, n) = Some (m, (r', k)) /\ holds r0 (cols m ++ cs) r'.
Proof.
  intros Hn Hf Hh Ha. destruct (MustRegister_ok r0 cs r (cols m) k Hf Hh Ha) as (r' & Hr & Hh').
  exists r'. rewrite Hn. unfold mbind, P_bind. by rewrite Hr.
Qed.

(** A registry that has one of the first metrics refuses a start. *)
Lemma second_start_panics r x topics kafka redis n :
  x ∈ registered r -> c_Desc x = refreshTotalDesc -> newAppMetrics true topics kafka redis (r, n) = None.
Proof.
  intros Hx Hd. destruct (register_equal (mkCollector n CounterVecKind refreshTotalDesc) x r Hx Hd)
    as (y & _ & _ & Hr).
  unfold newAppMetrics, mbind at 1, P_bind at 1.
  assert (newProviderMetrics true (r, n) = None) as ->; [|done].
  unfold newProviderMetrics, mbind, P_bind, newCollector, mustRegisterIf, mret, P_ret. simpl. by rewrite Hr.
Qed.

End Lemmas.

Lemma P_bind_Some {R A B} (p : @P R A) (f : A -> P B) s a s' : p s = Some (a, s') -> (p ≫= f) s = f a s'.
Proof. unfold mbind, P_bind. by intros ->. Qed.

Lemma optionally_Some {R A} (p : @P R A) s a s' : p s = Some (a, s') -> optionally true p s = Some (Some a, s').
Proof. unfold optionally, mbind, P_bind. by intros ->. Qed.

(** Runs the next constructor of a start: what it allocates is what it allocates without
    a registry. *)
Ltac next_group new cols Hf Hh :=
  match goal with
  | |- context [(_ ≫= _) (?r, ?n)] =>
      let x := eval cbv -[refreshTotalDesc expirySecondsDesc rpcDurationDesc rpcTotalDesc rpcRetriesDesc
        schemaHitsDesc schemaMissesDesc producedDesc failedDesc bytesDesc durationDesc redisHitsDesc
        redisMissesDesc redisErrorsDesc commitsDesc processedDesc poolFailedDesc latencyDesc]
        in (new false (r, n)) in
      match x with
      | Some (?m, (_, ?k)) =>
          let r' := fresh "r" in let E := fresh "E" in let Hh' := fresh "Hh" in
          destruct (group_ok (new true) cols _ _ r n m k eq_refl Hf Hh ltac:(by vm_compute)) as (r' & E & Hh');
          first [rewrite (P_bind_Some _ _ _ _ _ E) | rewrite (P_bind_Some _ _ _ _ _ (optionally_Some _ _ _ _ E))];
          clear E Hh; rename Hh' into Hh
      end
  end.

(** ** Properties *)

(** C26. Starting the service on a registry that has none of its metrics never panics,
    however many topics are configured and whichever sinks are enabled: every metric is
    registered exactly once, on top of what the registry held, and the subscribers of
    all topics share the same three collectors. Starting it a second time on the same
    registry panics. *)
Theorem start_registers_once {R} `{RegistererLaws R} (r : R) n topics kafka redis :
  foreign r ->
  exists m r' n', newAppMetrics true topics kafka redis (r, n) = Some (m, (r', n')) /\
    registered r' ≡ₚ collectorsOf m ++ registered r /\ NoDup (nameOf <$> collectorsOf m) /\
    length (m_subs m) = length topics /\ (forall s s', s ∈ m_subs m -> s' ∈ m_subs m -> s = s') /\
    (forall topics' kafka' redis' n2, newAppMetrics true topics' kafka' redis' (r', n2) = None).
Proof.
  intros Hf. assert (holds r [] r) as Hh by (unfold holds; done).
  unfold newAppMetrics.
  next_group (newProviderMetrics (R := R)) ofProvider Hf Hh.
  next_group (newClientMetrics (R := R)) ofClient Hf Hh.
  next_group (newSchemaMetrics (R := R)) ofSchema Hf Hh.
  match goal with |- context [(_ ≫= _) (?r, ?n)] =>
    destruct (newSubs_ok _ _ r topics n Hf Hh ltac:(by vm_compute)) as (r4 & n4 & E4 & Hh4) end.
  rewrite (P_bind_Some _ _ _ _ _ E4). clear Hh E4.
  destruct topics as [|t topics], kafka, redis; cbn [length replicate head fmap option_fmap option_map default] in *.
  all: first [next_group (newProducerMetrics (R := R)) ofProducer Hf Hh4 | rewrite (P_bind_Some _ _ _ None (r4, n4)) by done].
  all: first [next_group (newRedisMetrics (R := R)) ofRedis Hf Hh4
             | match goal with |- context [(_ ≫= _) ?s] => rewrite (P_bind_Some _ _ _ None s) by done end].
  all: next_group (newCommitterMetrics (R := R)) ofCommitter Hf Hh4.
  all: next_group (newPoolMetrics (R := R)) ofPool Hf Hh4.
  all: eexists _, _, _; split; [reflexivity|]; cbn [m_subs]; split; [exact Hh4|].
  all: split; [apply (bool_decide_unpack _); by vm_compute|].
  all: split; [simpl; by rewrite ?length_replicate|].
  all: split; [intros s s'; simpl; rewrite ?elem_of_cons, ?elem_of_replicate; set_solver|].
  all: intros; apply (second_start_panics _ (mkCollector n CounterVecKind refreshTotalDesc)); [rewrite Hh4; simpl; set_solver|done].
Qed.

(** ** A registry: the list of what was registered *)

Definition demoRegister (c : Collector) : M (list Collector) (option RegisterError) := fun l =>
  match list_find (fun x => c_Desc x = c_Desc c) l with
  | Some (_, x) => (Some (AlreadyRegisteredError x), l)
  | None =>
      if validDesc (c_Desc c) && bool_decide (nameOf c ∉ nameOf <$> l) then (None, c :: l)
      else (Some (RegisterFailed (NewErr [Lit "descriptor is invalid or inconsistent"])), l)
  end.

#[local] Instance demoRegisterer : Registerer (list Collector) := { Register := demoRegister }.

#[local] Program Instance demoRegistererLaws : RegistererLaws (list Collector) := { registered l := l }.
Next Obligation.
  intros c l Hv Hn. exists (c :: l). split; [|done]. simpl. unfold demoRegister.
  rewrite (proj2 (list_find_None _ l)).
  - by rewrite Hv, bool_decide_eq_true_2.
  - apply Forall_forall. intros x Hx Hd. apply Hn. assert (nameOf c = nameOf x) as -> by (unfold nameOf; congruence).
    by apply (list_elem_of_fmap_2 nameOf).
Qed.
Next Obligation.
  intros c x l Hx Hd. simpl. unfold demoRegister.
  destruct (list_find _ l) as [[i y]|] eqn:E.
  - apply list_find_Some in E as (Hy & Hyd & _). exists y. split; [by eapply list_elem_of_lookup_2|done].
  - apply list_find_None in E. by apply (proj1 (Forall_forall _ _) E) in Hx.
Qed.

(** Two topics and both sinks, on a registry that has a collector of the Go runtime. *)
Lemma start_registers_once_witness :
  let r0 := [mkCollector 0 GaugeFunc (mkDesc "go_goroutines" "Number of goroutines that currently exist." [])] in
  exists m r' n', newAppMetrics true ["/event/A__e"; "/event/B__e"] true true (r0, 1%nat) = Some (m, (r', n')) /\
    registered r' ≡ₚ collectorsOf m ++ registered r0 /\ NoDup (nameOf <$> collectorsOf m) /\
    length (m_subs m) = 2%nat /\ (forall s s', s ∈ m_subs m -> s' ∈ m_subs m -> s = s') /\
    (forall topics' kafka' redis' n2, newAppMetrics true topics' kafka' redis' (r', n2) = None).
Proof.
  intros r0. apply (start_registers_once r0 1%nat ["/event/A__e"; "/event/B__e"] true true).
  apply (bool_decide_unpack _). by vm_compute.
Defined.

End Metrics.
