(* ===== verification/Deployment.v ===== *)
(** * The pipeline on the real sinks

    PostgreSQL, Redis and Kafka together keep the promises Pipeline.v relies on, so
    its properties hold of the service as it is deployed; then concrete runs of the
    machine, among them one that shows what a topic without a cursor can lose. *)

From S2P Require Import Prelude Event Schema Handler Config Committer CommitterSpec.
From S2P Require Import Storage Subscriber SubscriberSpec Sinks Pool App Pipeline.
From S2P Require Import HandlerSteps Service Monotone Healthy Shutdown Recovery Schedule.

Module Deployment.
Import Proto Event Sinks.

(** ** The database keeps cursors and events apart *)

Lemma Get_state topic d :
  Storage.processed_events (Storage.Get topic d).2 = Storage.processed_events d /\
  Storage.replay_state (Storage.Get topic d).2 = Storage.replay_state d.
Proof.
  unfold Storage.Get. rewrite M_bind_unfold.
  destruct (Storage.statement _ d) as [r0 d0] eqn:Es. cbn [fst snd].
  destruct (Storage.statement_cases _ _ _ _ Es) as (d1 & f & Hf & Hcs).
  destruct (Storage.nextFault_state _ _ _ Hf) as (Hp & _ & Hr).
  assert (Storage.processed_events d0 = Storage.processed_events d /\ Storage.replay_state d0 = Storage.replay_state d)
    as [? ?].
  { destruct Hcs as [[-> Hu]|[(e & -> & -> & ->)|(e & r1 & -> & -> & Hu)]]; [|by rewrite Hp, Hr|];
      unfold Storage.selectReplay in Hu; destruct (Storage.replay_state d1 !! topic); by simplify_eq. }
  destruct r0 as [v|e]; [done|]. by destruct (Storage.isNoRows e).
Qed.

Lemma Set_events topic rid d :
  Storage.processed_events (Storage.Set_ topic rid d).2 = Storage.processed_events d.
Proof.
  unfold Storage.Set_. rewrite M_bind_unfold.
  destruct (Storage.statement _ d) as [r0 d0] eqn:Es. cbn [fst snd].
  destruct (Storage.statement_cases _ _ _ _ Es) as (d1 & f & Hf & Hcs).
  destruct (Storage.nextFault_state _ _ _ Hf) as (Hp & _ & _).
  assert (Storage.processed_events d0 = Storage.processed_events d) as Hd.
  { destruct Hcs as [[-> Hu]|[(e & -> & -> & ->)|(e & r1 & -> & -> & Hu)]]; [|done|];
      unfold Storage.upsertReplay in Hu; destruct rid; by simplify_eq/=. }
  by destruct r0.
Qed.

Section World.
Context {R K : Type} `{RedisLaws R} `{KafkaLaws K}.
Context (json_Marshal : payload -> result (list Byte.byte)).

#[local] Existing Instance World_SeenCache.
#[local] Existing Instance World_RecordProducer.
#[local] Instance W_EventStore : EventStore (World R K) := World_EventStore json_Marshal.
#[local] Instance W_SinkLaws : Handler.SinkLaws (World R K) := World_SinkLaws json_Marshal.

#[local] Instance World_CursorStore : CursorStore (World R K) := {
  SaveReplay t rid := onDB (SaveReplay t rid);
}.
#[local] Instance World_CursorLoader : CursorLoader (World R K) := {
  LoadReplay t := onDB (LoadReplay t);
}.

#[local] Program Instance World_CursorStoreLaws : CursorStoreLaws (World R K) := {
  cursors w := cursors (db w);
}.
Next Obligation.
  intros t rid w w' Hs. simpl in Hs. unfold onDB in Hs.
  destruct (Storage.Set_ t rid (db w)) as [r d] eqn:E. simplify_eq.
  exact (save_ok (W := Storage.DB) t rid (db w) d E).
Qed.
Next Obligation.
  intros t rid w e w' Hs. simpl in Hs. unfold onDB in Hs.
  destruct (Storage.Set_ t rid (db w)) as [r d] eqn:E. simplify_eq.
  exact (save_err (W := Storage.DB) t rid (db w) e d E).
Qed.

#[local] Program Instance World_PipelineLaws : PipelineLaws (World R K).
Next Obligation.
  intros e w. simpl. unfold onDB. destruct (Storage.PersistEvent _ e (db w)) as [r d] eqn:E. simpl.
  destruct (Storage.PersistEvent_Upsert _ _ _ _ _ E) as (r1 & Hu & _).
  destruct (Storage.Upsert_cases _ _ _ _ _ Hu) as (Hr & _). unfold Storage.storedCursors. by rewrite Hr.
Qed.
Next Obligation. intros k v h w. simpl. unfold onProducer. by destruct (Kafka.Produce _ _ _ _). Qed.
Next Obligation. intros id w. simpl. unfold onCache. by destruct (RedisCache.Seen _ _). Qed.
Next Obligation. intros id w. simpl. unfold onCache. by destruct (RedisCache.MarkSeen _ _). Qed.
Next Obligation.
  intros t rid w id. simpl. unfold onDB. pose proof (Set_events t rid (db w)) as Hs.
  destruct (Storage.Set_ t rid (db w)) as [r d]. simpl in *. unfold w_stored. simpl. by rewrite Hs.
Qed.
Next Obligation.
  intros t w id. simpl. unfold onDB, Storage.LoadReplay. destruct (Get_state t (db w)) as [Hs _].
  destruct (Storage.Get t (db w)) as [r d]. simpl in *. unfold w_stored. simpl. by rewrite Hs.
Qed.
Next Obligation.
  intros t w. simpl. unfold onDB, Storage.LoadReplay. destruct (Get_state t (db w)) as [_ Hs].
  destruct (Storage.Get t (db w)) as [r d]. simpl in *. unfold Storage.storedCursors. by rewrite Hs.
Qed.
Next Obligation.
  intros t w v w' Hl. simpl in Hl. unfold onDB, Storage.LoadReplay in Hl.
  destruct (Storage.Get t (db w)) as [r d] eqn:E. simplify_eq.
  rewrite (Storage.Get_spec _ _ _ _ E). simpl. unfold Storage.storedCursors. rewrite lookup_fmap.
  by destruct (Storage.replay_state (db w) !! t).
Qed.

End World.

(** ** Concrete runs

    One topic, an in-memory Redis and Kafka, and a clock that never cancels. *)

#[global] Instance mem_CursorStore : CursorStore memWorld := World_CursorStore.
#[global] Instance mem_CursorLoader : CursorLoader memWorld := World_CursorLoader.
#[global] Instance mem_CursorStoreLaws : CursorStoreLaws memWorld := World_CursorStoreLaws.
#[global] Instance mem_PipelineLaws : PipelineLaws memWorld := World_PipelineLaws Storage.demoMarshal.

Definition topicA : string := "/event/A__e".
Definition demoEv (id : string) (rid : Byte.byte) : ConsumerEvent :=
  mkConsumerEvent (Some (mkProducerEvent id "s1" (Some [Byte.x00]))) (Some [rid]).
Definition demoLog (t : string) : list ConsumerEvent :=
  if decide (t = topicA) then [demoEv "e1" Byte.x01; demoEv "e2" Byte.x02; demoEv "e3" Byte.x03] else [].
Definition demoCfg : Config.Config := Config.demoConfig [topicA].

Abbreviation Demo := (Service.Process (D := memWorld) (N := nat) (Schema := string)).
Definition demoStep : relation Demo :=
  Service.step Pool.Demo.src Pool.Demo.parse Pool.Demo.unmarshal demoEnvelope demoCfg demoLog.
Definition demoOnward : relation Demo :=
  Service.onward Pool.Demo.src Pool.Demo.parse Pool.Demo.unmarshal demoEnvelope demoCfg demoLog.
Definition demoExec : list Schedule.pcmd -> Demo -> option Demo :=
  Schedule.pexec Pool.Demo.src Pool.Demo.parse Pool.Demo.unmarshal demoEnvelope demoCfg demoLog.
Definition demoBoot : Demo := Service.first demoCfg (memStart true true) 0%nat.
Definition ackedIn (x : Demo) : list RawEvent := Pool.ackedOf (Pool.st (Pipeline.pool (Service.sys x))).
(** What the process leaves behind in the database, the cache and Kafka. *)
Abbreviation sinksIn x := (Pipeline.sinksOf (Service.sys x)).

(** Opens a stream at [start] and takes its next event through the pipeline. *)
Definition oneEvent (start : nat) : list (Schedule.pcmd (N := nat)) :=
  [Schedule.PEnv (Schedule.EOpen 0 start); Schedule.PEnv (Schedule.EEmit 0 7); Schedule.PEnv (Schedule.EFanIn 0);
   Schedule.PTake 0; Schedule.PFetch 0; Schedule.PEnter 0; Schedule.PCall 0; Schedule.PCall 0; Schedule.PCall 0;
   Schedule.PCall 0; Schedule.PReturn 0;
   Schedule.PEnv Schedule.ESnapshot; Schedule.PEnv (Schedule.ESave topicA); Schedule.PEnv Schedule.EFlushEnd].

Definition committed1 : Demo := default demoBoot (demoExec (oneEvent 0) demoBoot).
(** The same after a crash, at which the next event is taken. *)
Definition committed2 : Demo :=
  default demoBoot (demoExec (Schedule.PRestart 5%nat :: oneEvent 1) committed1).
(** The first event is received; the process dies before anything is committed. *)
Definition received1 : Demo :=
  default demoBoot (demoExec [Schedule.PEnv (Schedule.EOpen 0 0); Schedule.PEnv (Schedule.EEmit 0 7)] demoBoot).
Definition skipped1 : Demo :=
  default demoBoot (demoExec (Schedule.PRestart 5%nat :: oneEvent 1) received1).

Lemma exec_default cs x : is_Some (demoExec cs x) -> rtc demoStep x (default demoBoot (demoExec cs x)).
Proof. intros [y Hy]. rewrite Hy. by eapply Schedule.pexec_steps. Qed.

Lemma committed1_reached : rtc demoStep demoBoot committed1.
Proof. apply exec_default. vm_compute. eauto. Qed.
Lemma committed2_reached : rtc demoStep committed1 committed2.
Proof. apply exec_default. vm_compute. eauto. Qed.
Lemma received1_reached : rtc demoStep demoBoot received1.
Proof. apply exec_default. vm_compute. eauto. Qed.
Lemma skipped1_reached : rtc demoStep received1 skipped1.
Proof. apply exec_default. vm_compute. eauto. Qed.

Lemma demo_log_ok t : SubscriberSpec.log_ok (demoLog t).
Proof.
  unfold demoLog. case_decide; [|split; intros; by rewrite lookup_nil in *].
  split.
  - intros [|[|[|i]]] e Hi; simplify_eq/=; done.
  - intros [|[|[|i]]] [|[|[|j]]] e e' Hi Hj Heq; simplify_eq/=; done.
Qed.

Lemma demo_log_short t : Z.of_nat (length (demoLog t)) < 2 ^ 64 - 2.
Proof. unfold demoLog. case_decide; simpl; lia. Qed.

Lemma demo_topics : NoDup (Config.Topics (Config.PubSub demoCfg)).
Proof. repeat constructor. set_solver. Qed.

Definition demoSettled : memWorld -> string -> nat -> Prop :=
  Pipeline.settled (D := memWorld) (N := nat) Pool.Demo.src Pool.Demo.parse Pool.Demo.unmarshal demoCfg demoLog.

Lemma cursor_covers_settled_witness :
  exists b0 k e, Pipeline.base (Service.sys committed1) !! topicA = Some b0 /\ (b0 <= k)%nat /\
    demoLog topicA !! k = Some e /\ ce_ReplayId e = Some [Byte.x01] /\
    forall i, (b0 <= i <= k)%nat -> demoSettled (sinksIn committed1) topicA i.
Proof.
  apply (Service.cursor_covers_settled Pool.Demo.src Pool.Demo.parse Pool.Demo.unmarshal demoEnvelope demoCfg
    demoLog demo_log_ok demo_log_short demo_topics (memStart true true) 0%nat);
    [apply memStart_ok | by vm_compute | apply committed1_reached | by vm_compute].
Defined.

Lemma no_gap_after_first_commit_witness :
  exists rid' k e, cursors (sinksIn committed2) !! topicA = Some rid' /\ (0 <= k)%nat /\
    demoLog topicA !! k = Some e /\ ce_ReplayId e = rid' /\
    forall i, (0 <= i <= k)%nat -> demoSettled (sinksIn committed2) topicA i.
Proof.
  apply (Service.no_gap_after_first_commit Pool.Demo.src Pool.Demo.parse Pool.Demo.unmarshal demoEnvelope demoCfg
    demoLog demo_log_ok demo_log_short demo_topics (memStart true true) 0%nat committed1 committed2 topicA 0%nat
    (Some [Byte.x01]));
    [apply memStart_ok | by vm_compute | apply committed1_reached | by vm_compute | by vm_compute
    | apply committed2_reached].
Defined.

Lemma restart_redelivers_unsettled_witness :
  (0 < 1)%nat /\
  forall i, (0 <= i)%nat -> ~ demoSettled (sinksIn committed1) topicA i -> (1 <= i)%nat.
Proof.
  apply (Service.restart_redelivers_unsettled Pool.Demo.src Pool.Demo.parse Pool.Demo.unmarshal demoEnvelope demoCfg
    demoLog demo_log_ok demo_log_short demo_topics (memStart true true) 0%nat committed1 topicA (Some [Byte.x01])
    0%nat 100 (mkFetchRequest topicA CUSTOM (Some [Byte.x01]) 100)
    (Subscriber.initialFetch (Subscriber.NewSubscriber topicA 100) (sinksIn committed1)).2 1%nat);
    [apply memStart_ok | by vm_compute | apply committed1_reached | by vm_compute | by vm_compute
    | apply pair_eta; by vm_compute |].
  exists 0%nat, (demoEv "e1" Byte.x01). by vm_compute.
Defined.

Lemma cursor_never_moves_back_witness :
  exists k' e', (0 <= k')%nat /\ demoLog topicA !! k' = Some e' /\
    cursors (sinksIn committed2) !! topicA = Some (ce_ReplayId e').
Proof.
  apply (Monotone.cursor_never_moves_back Pool.Demo.src Pool.Demo.parse Pool.Demo.unmarshal demoEnvelope demoCfg
    demoLog demo_log_ok demo_log_short demo_topics (memStart true true) 0%nat committed1 committed2 topicA 0%nat
    (demoEv "e1" Byte.x01));
    [apply memStart_ok | by vm_compute | apply committed1_reached | apply committed2_reached | by vm_compute
    | by vm_compute].
Defined.

(** A database without faults and a Kafka that is up, whatever Redis does. *)
Definition memHealthy (s : memWorld) : Prop :=
  Storage.faults (db s) = [] /\ kafkaUp (Kafka.client (producer s)) = true.

Lemma demo_services : Healthy.servicesWork (D := memWorld) (N := nat) (fun _ => True) memHealthy.
Proof.
  split; unfold memHealthy; simpl; try done.
  - by intros n _ [].
  - intros id s [Hf Hk]. unfold onCache. by destruct (RedisCache.Seen _ _).
  - intros id s [Hf Hk]. unfold onCache. by destruct (RedisCache.MarkSeen _ _).
  - intros k v h [d c [cl ? ? ? ? ? ? ?]] [Hf Hk]. simpl in *. unfold onProducer, Kafka.Produce, mbind, M_bind. simpl.
    rewrite Hk. simpl. by eexists.
Qed.

Lemma demo_topic : Healthy.topicWorks Pool.Demo.src Pool.Demo.parse Pool.Demo.unmarshal demoEnvelope demoLog topicA
  (fun _ => True) memHealthy.
Proof.
  split; unfold memHealthy; simpl.
  - intros n e _ _. by eexists _, _, _.
  - intros dec _. by eexists.
  - intros dec s (raw & e & sch & pl & _ & He & Hin & _ & ->) [Hf Hk].
    assert (exists rid, ce_ReplayId e = Some rid) as [rid Hrid].
    { unfold demoLog in Hin. rewrite decide_True in Hin by done. set_unfold in Hin.
      destruct_or? Hin; subst; by eexists. }
    destruct s as [[evs nid rs fs] c pr]. simpl in *. subst fs.
    unfold onDB, Storage.PersistEvent, Storage.Upsert, Pool.decodedOf. rewrite He. simpl. rewrite Hrid.
    unfold Storage.statement, Storage.nextFault, Storage.insertEvent, mbind, M_bind. simpl.
    destruct (evs !! _); by eexists _, _.
  - intros [rid|] [[evs nid rs fs] c pr] Hr [Hf Hk]; [|done]. simpl in *. subst fs. by eexists.
  - intros [[evs nid rs fs] c pr] [Hf Hk]. simpl in *. subst fs.
    unfold onDB, Storage.LoadReplay, Storage.Get. unfold Storage.statement, Storage.nextFault, mbind, M_bind. simpl.
    unfold Storage.selectReplay. simpl. destruct (rs !! topicA); by eexists _, _.
Qed.

Lemma service_catches_up_witness :
  exists y, rtc demoStep (Service.mkProcess (Pipeline.boot demoCfg (sinksIn committed1) 0%nat
      (Pipeline.base (Service.sys committed1))) ∅) y /\
    cursors (sinksIn y) !! topicA = Some (Some [Byte.x03]) /\
    forall i, (0 <= i <= 2)%nat -> demoSettled (sinksIn y) topicA i.
Proof.
  apply (Recovery.service_catches_up Pool.Demo.src Pool.Demo.parse Pool.Demo.unmarshal demoEnvelope demoCfg demoLog
    demo_log_ok demo_log_short demo_topics topicA (fun _ => True) memHealthy (memStart true true) 0%nat committed1
    0%nat 0%nat (demoEv "e1" Byte.x01) 2%nat (demoEv "e3" Byte.x03));
    [apply demo_services | apply demo_topic | apply memStart_ok | by vm_compute | apply committed1_reached | by vm_compute | done | by vm_compute; constructor | by vm_compute
    | by vm_compute | by vm_compute | lia | by vm_compute].
Defined.

(** A process in the middle of its work: the second event is stored but not published, the
    third is in the channel, and no flush has saved anything since the first. *)
Definition midway : Demo :=
  default committed1 (demoExec [Schedule.PEnv (Schedule.EEmit 0 8); Schedule.PEnv (Schedule.EFanIn 0);
    Schedule.PTake 0; Schedule.PFetch 0; Schedule.PEnter 0; Schedule.PCall 0; Schedule.PCall 0;
    Schedule.PEnv (Schedule.EEmit 0 9); Schedule.PEnv (Schedule.EFanIn 0)] committed1).

Lemma midway_reached : rtc demoStep committed1 midway.
Proof.
  unfold midway.
  match goal with |- rtc _ _ (default _ ?e) => assert (is_Some e) as [y Hy] by (vm_compute; eauto); rewrite Hy end.
  by eapply Schedule.pexec_steps.
Qed.

Lemma service_well_formed_witness :
  let p := Pipeline.pool (Service.sys midway) in
  let tc := default Committer.newCursor (Committer.topics (Pipeline.cursor (Pipeline.worldOf p)) !! topicA) in
  Pool.sent p ≡ₚ Pool.chan p ++ Pool.inflight (Pool.ws p) ++ ackedIn midway ++ (Pool.abandoned p).*1 /\
  length (Pool.chan p) = 1%nat /\ length (Pool.inflight (Pool.ws p)) = 1%nat /\ length (ackedIn midway) = 1%nat /\
  Service.cursorOf (ackedIn midway) topicA tc.
Proof.
  intros p tc.
  destruct (Service.service_well_formed Pool.Demo.src Pool.Demo.parse Pool.Demo.unmarshal demoEnvelope demoCfg demoLog
    demo_log_ok demo_log_short demo_topics (memStart true true) 0%nat midway)
    as (_ & _ & _ & _ & Hp & _ & _ & Hc);
    [apply memStart_ok | by vm_compute | etrans; [apply committed1_reached|apply midway_reached] |].
  split; [exact Hp|]. do 3 (split; [by vm_compute|]). apply (Hc topicA). by vm_compute.
Defined.

Lemma service_never_stuck_witness :
  exists y, rtc demoOnward midway y /\ cursors (sinksIn y) !! topicA = Some (Some [Byte.x03]) /\
    (forall i, (0 <= i < length (demoLog topicA))%nat -> demoSettled (sinksIn y) topicA i) /\
    Pool.chan (Pipeline.pool (Service.sys y)) = [] /\ Pool.inflight (Pool.ws (Pipeline.pool (Service.sys y))) = [] /\
    forall raw, raw ∈ Pool.sent (Pipeline.pool (Service.sys midway)) -> raw ∈ ackedIn y.
Proof.
  apply (Recovery.service_never_stuck Pool.Demo.src Pool.Demo.parse Pool.Demo.unmarshal demoEnvelope demoCfg demoLog
    demo_log_ok demo_log_short demo_topics (fun _ => True) memHealthy (memStart true true) 0%nat midway topicA
    0%nat (demoEv "e1" Byte.x01) (demoEv "e3" Byte.x03));
    [apply demo_services | | apply memStart_ok | by vm_compute | intros [] | | by vm_compute | done
    | by vm_compute; constructor | by vm_compute | by vm_compute | by vm_compute | by vm_compute].
  - intros t Ht. assert (t = topicA) as -> by (vm_compute in Ht; set_solver). apply demo_topic.
  - eapply (rtc_congruence (R := demoStep) (fun x => x)); [|etrans; [apply committed1_reached|apply midway_reached]].
    intros x y Hst. split; [exact Hst|intros []].
Defined.

Definition committedCursor : Committer.topicCursor :=
  default Committer.newCursor
    (Committer.topics (Pipeline.cursor (Pipeline.worldOf (Pipeline.pool (Service.sys committed1)))) !! topicA).

Lemma flushed_means_committed_witness :
  exists last, last ∈ ackedIn committed1 /\ cursors (sinksIn committed1) !! topicA = Some (GetReplayId (raw_Event last)).
Proof.
  destruct (Shutdown.flushed_means_committed Pool.Demo.src Pool.Demo.parse Pool.Demo.unmarshal demoEnvelope demoCfg
    demoLog demo_log_ok demo_log_short demo_topics (memStart true true) 0%nat committed1 topicA committedCursor)
    as [Hnone|(last & Hin & _ & Hc & _)];
    [apply memStart_ok | by vm_compute | apply committed1_reached | by vm_compute | by vm_compute | by vm_compute | |].
  - destruct (Hnone (mkRawEvent topicA 1 (Some (demoEv "e1" Byte.x01)) 7)); [by vm_compute; constructor|by split].
  - exists last. split; [exact Hin|exact Hc].
Defined.

(** C39. What the first commit protects from: before a topic has a cursor, an event
    the service has received can be lost. The process receives the first event of the
    log, dies, starts again at the tip (nothing was committed), handles the second
    event and commits: the cursor is past the first event, which is not settled and
    which no later start will ask for. *)
Theorem uncommitted_topic_can_skip :
  exists y x : Demo, rtc demoStep demoBoot y /\ rtc demoStep y x /\
    (exists sb raw, Pipeline.subs (Pipeline.worldOf (Pipeline.pool (Service.sys y))) !! 0%nat = Some sb /\
       Subscriber.topic sb = topicA /\ raw ∈ Subscriber.out sb /\
       raw_Event raw = demoLog topicA !! 0%nat) /\
    cursors (sinksIn x) !! topicA = Some (Some [Byte.x02]) /\
    ~ demoSettled (sinksIn x) topicA 0.
Proof.
  exists received1, skipped1. split; [apply received1_reached|]. split; [apply skipped1_reached|].
  split; [|split; [by vm_compute|]].
  - eexists _, _. split; [by vm_compute|]. split; [by vm_compute|]. split; [by vm_compute; constructor|done].
  - intros (e & He & Hs). vm_compute in He. simplify_eq.
    destruct Hs as [[Hst _]|(sch & err & _ & Hd)]; [|by vm_compute in Hd].
    revert Hst. vm_compute. by intros [? ?].
Qed.

(** *** A topic listed twice *)

Definition dupCfg : Config.Config := Config.demoConfig [topicA; topicA].
Definition dupBoot : Demo := Service.first dupCfg (memStart true true) 0%nat.
Definition dupStep : relation Demo :=
  Service.step Pool.Demo.src Pool.Demo.parse Pool.Demo.unmarshal demoEnvelope dupCfg demoLog.
(** Both subscribers start at the tip, one event apart; only the later event is handled. *)
Definition dupCmds : list (Schedule.pcmd (N := nat)) :=
  [Schedule.PEnv (Schedule.EOpen 0 0); Schedule.PEnv (Schedule.EEmit 0 7);
   Schedule.PEnv (Schedule.EOpen 1 1); Schedule.PEnv (Schedule.EEmit 1 8); Schedule.PEnv (Schedule.EFanIn 1);
   Schedule.PTake 0; Schedule.PFetch 0; Schedule.PEnter 0; Schedule.PCall 0; Schedule.PCall 0; Schedule.PCall 0;
   Schedule.PCall 0; Schedule.PReturn 0;
   Schedule.PEnv Schedule.ESnapshot; Schedule.PEnv (Schedule.ESave topicA)].
Definition dupEnd : option Demo :=
  Schedule.pexec Pool.Demo.src Pool.Demo.parse Pool.Demo.unmarshal demoEnvelope dupCfg demoLog dupCmds dupBoot.
Definition dupFinal : Demo := default dupBoot dupEnd.

Lemma dupFinal_reached : rtc dupStep dupBoot dupFinal.
Proof.
  apply (Schedule.pexec_steps _ _ _ _ _ _ dupCmds). change (dupEnd = Some dupFinal). unfold dupFinal.
  assert (is_Some dupEnd) as [x Hx] by (vm_compute; eauto). by rewrite Hx.
Qed.

(** C40. Why the topics must be distinct, which [Validate] does not check: with a topic
    listed twice there are two subscribers that number their events independently, and
    the committer takes the second one's event 1 for the first one's. Without any
    failure or crash, the stored cursor passes an event that a subscriber holds and
    that is not settled. *)
Theorem duplicate_topic_can_skip :
  Config.Validate Config.demoParse dupCfg = None /\
  exists x : Demo, rtc dupStep dupBoot x /\
    (exists sb raw, Pipeline.subs (Pipeline.worldOf (Pipeline.pool (Service.sys x))) !! 0%nat = Some sb /\
       raw ∈ Subscriber.out sb /\ raw_Event raw = demoLog topicA !! 0%nat) /\
    cursors (sinksIn x) !! topicA = Some (Some [Byte.x02]) /\
    ~ Pipeline.settled (D := memWorld) (N := nat) Pool.Demo.src Pool.Demo.parse Pool.Demo.unmarshal dupCfg demoLog
        (sinksIn x) topicA 0.
Proof.
  split; [by vm_compute|]. exists dupFinal. split; [apply dupFinal_reached|].
  split; [|split; [by vm_compute|]].
  - eexists _, _. split; [by vm_compute|]. split; [by vm_compute; constructor|done].
  - intros (e & He & Hs). vm_compute in He. simplify_eq.
    destruct Hs as [[Hst _]|(sch & err & _ & Hd)]; [|by vm_compute in Hd].
    revert Hst. vm_compute. by intros [? ?].
Qed.

End Deployment.
