(* ===== verification/Encoding.v ===== *)
(** * What the service writes as JSON

    [json.Marshal] of decoded payloads and of the Kafka envelope
    (src/internal/storage/event_repo.go, src/internal/handler/kafka.go), built on Json.v
    and Time.v, and that a published envelope can be read back, the payload's numbers,
    strings, bytes, times, arrays and records included. *)

From S2P Require Import Prelude Text Time Json Number Event Base64 Handler.
From Stdlib Require Import SpecFloat.
From stdpp Require Import sorting.
#[local] Open Scope Z_scope.

Module Encoding.
Import Text Json Number Event.

(** ** Values *)

(** The order of Go strings, byte by byte. *)
Definition keyLe {A} (x y : string * A) : Prop := String.leb x.1 y.1 = true.
#[global] Instance keyLe_dec {A} (x y : string * A) : Decision (keyLe x y).
Proof. unfold keyLe. apply _. Defined.

(** Map keys are written in order. *)
Definition sortKeys {A} (m : list (string * A)) : list (string * A) := merge_sort keyLe m.

(** The first error of a list, or all values. *)
Fixpoint collect {A} (l : list (result A)) : result (list A) :=
  match l with
  | [] => Ok []
  | Err e :: _ => Err e
  | Ok a :: rest => match collect rest with Ok r => Ok (a :: r) | Err e => Err e end
  end.

Definition member (kv : string * result json) : result (bytes * json) :=
  match kv.2 with Ok j => Ok (bytesOf kv.1, j) | Err e => Err e end.

Definition base64Bytes (b : GoBytes) : bytes := bytesOf (Base64.EncodeToString b).

Section Marshal.
Context `{FloatText}.

Definition timeJson (ns off : Z) : result json :=
  match Time.format ns off with
  | Ok b => Ok (JString b)
  | Err e => Err (Wrap [Lit "json: error calling MarshalJSON for type time.Time"] e)
  end.

(** [json.Marshal] on a decoded Avro value, up to printing. *)
Fixpoint toJson (v : any) : result json :=
  match v with
  | ANull => Ok JNull
  | ABool b => Ok (JBool b)
  | AInt z => Ok (JNumber (decimal z))
  | AFloat single f =>
      if isFinite f then Ok (JNumber (appendFloat single f))
      else Err (External "json.UnsupportedValueError" 0)
  | AString s => Ok (JString (bytesOf s))
  | ABytes b => Ok (JString (base64Bytes (Some b)))
  | ATime ns => timeJson ns 0
  | AArray l => match collect (map toJson l) with Ok js => Ok (JArray js) | Err e => Err e end
  | AMap m =>
      match collect (map member (sortKeys (map (fun kv => (kv.1, toJson kv.2)) m))) with
      | Ok ms => Ok (JObject ms)
      | Err e => Err e
      end
  end.

(** [json.Marshal(e.Payload)] *)
Definition marshalPayload (p : payload) : result bytes :=
  match toJson (AMap p) with Ok j => Ok (print j) | Err e => Err e end.

(** [Local] gives the offset of the machine's time zone at an instant: [time.Now] is
    local time. *)
Context (Local : Z -> Z).

Definition envelopeJson (env : Handler.Envelope) : result json :=
  match timeJson (Handler.env_ReceivedAt env) (Local (Handler.env_ReceivedAt env)) with
  | Err e => Err e
  | Ok t =>
      match toJson (AMap (Handler.env_Payload env)) with
      | Err e => Err e
      | Ok p =>
          Ok (JObject
                [(bytesOf "event_id", JString (bytesOf (Handler.env_EventID env)));
                 (bytesOf "topic", JString (bytesOf (Handler.env_Topic env)));
                 (bytesOf "schema_id", JString (bytesOf (Handler.env_SchemaID env)));
                 (bytesOf "replay_id", JString (bytesOf (Handler.env_ReplayID env)));
                 (bytesOf "received_at", t);
                 (bytesOf "payload", p)])
      end
  end.

(** [json.Marshal(env)] *)
Definition marshalEnvelope (env : Handler.Envelope) : result bytes :=
  match envelopeJson env with Ok j => Ok (print j) | Err e => Err e end.

End Marshal.

(** ** Reading a value back

    JSON does not say whether a string is text, base64 or a time, nor whether a number is
    an integer: a reader knows from the Avro schema. A shape is what it knows. *)

Unset Elimination Schemes.
Inductive shape :=
| SNull
| SBool
| SInt
| SFloat (single : bool)
| SString
| SBytes
| STime
| SArray (l : list shape)
| SMap (m : list (string * shape)).
Set Elimination Schemes.

Fixpoint shapeOf (v : any) : shape :=
  match v with
  | ANull => SNull
  | ABool _ => SBool
  | AInt _ => SInt
  | AFloat single _ => SFloat single
  | AString _ => SString
  | ABytes _ => SBytes
  | ATime _ => STime
  | AArray l => SArray (map shapeOf l)
  | AMap m => SMap (map (fun kv => (kv.1, shapeOf kv.2)) m)
  end.

(** The elements of an array, each with its reader. *)
Fixpoint readElems (rs : list (json -> option any)) (js : list json) : option (list any) :=
  match rs, js with
  | [], [] => Some []
  | rd :: rs', j :: js' => a ← rd j; l ← readElems rs' js'; Some (a :: l)
  | _, _ => None
  end.

(** The value of a member, and the members that a record asks for. *)
Fixpoint lookupKey (k : bytes) (ms : list (bytes * json)) : option json :=
  match ms with
  | [] => None
  | (k', j) :: ms' => if bool_decide (k' = k) then Some j else lookupKey k ms'
  end.

Fixpoint readFields (rs : list (string * (json -> option any))) (ms : list (bytes * json))
    : option (list (string * any)) :=
  match rs with
  | [] => Some []
  | (k, rd) :: rs' =>
      j ← lookupKey (bytesOf k) ms; a ← rd j; l ← readFields rs' ms; Some ((k, a) :: l)
  end.

Fixpoint ofJson (sh : shape) (j : json) : option any :=
  match sh, j with
  | SNull, JNull => Some ANull
  | SBool, JBool b => Some (ABool b)
  | SInt, JNumber l => AInt <$> readInt l
  | SFloat single, JNumber l => AFloat single <$> parseFloat single l
  | SString, JString s => Some (AString (stringOf s))
  | SBytes, JString s => ABytes <$> Base64.DecodeString (stringOf s)
  | STime, JString s => ATime <$> Time.parse s
  | SArray l, JArray js => AArray <$> readElems (map ofJson l) js
  | SMap m, JObject ms =>
      if (length ms =? length m)%nat then AMap <$> readFields (map (fun kv => (kv.1, ofJson kv.2)) m) ms else None
  | _, _ => None
  end.

(** ** Which values have a JSON form *)

Lemma any_induction (P : any -> Prop) :
  P ANull -> (forall b, P (ABool b)) -> (forall z, P (AInt z)) -> (forall s f, P (AFloat s f)) ->
  (forall s, P (AString s)) -> (forall b, P (ABytes b)) -> (forall ns, P (ATime ns)) ->
  (forall l, Forall P l -> P (AArray l)) -> (forall m, Forall (fun kv => P kv.2) m -> P (AMap m)) ->
  forall v, P v.
Proof.
  intros H1 H2 H3 H4 H5 H6 H7 Ha Hm. fix IH 1. intros [|b|z|s f|s|b|ns|l|m]; [done..| |].
  - apply Ha. induction l; constructor; [apply IH|done].
  - apply Hm. induction m as [|[k v] m IHm]; constructor; [apply IH|done].
Qed.

(** No infinite or undefined number, no timestamp outside the years 0 to 9999. *)
Fixpoint representable (v : any) : bool :=
  match v with
  | AFloat _ f => isFinite f
  | ATime ns => is_Ok (Time.format ns 0)
  | AArray l => forallb representable l
  | AMap m => forallb (fun kv => representable kv.2) m
  | _ => true
  end.

(** What the decoder can produce, with strings and keys that are UTF-8: the floats are
    float32 or float64, and a record's keys are distinct. *)
Inductive textual : any -> Prop :=
| textual_null : textual ANull
| textual_bool b : textual (ABool b)
| textual_int z : textual (AInt z)
| textual_float s f : isFloat s f -> textual (AFloat s f)
| textual_string s : utf8 (bytesOf s) -> textual (AString s)
| textual_bytes b : textual (ABytes b)
| textual_time ns : textual (ATime ns)
| textual_array l : Forall textual l -> textual (AArray l)
| textual_map m : NoDup m.*1 -> Forall (fun kv => utf8 (bytesOf kv.1) /\ textual kv.2) m -> textual (AMap m).

Lemma collect_spec {A} (l : list (result A)) :
  match collect l with
  | Ok r => Forall2 (fun x a => x = Ok a) l r
  | Err _ => ~ Forall (fun x => is_Ok x = true) l
  end.
Proof.
  induction l as [|[a|e] l IH]; simpl; [constructor| |by intros [? _]%Forall_cons].
  destruct (collect l); [by constructor|]. by intros [_ ?]%Forall_cons.
Qed.

Lemma collect_is_Ok {A} (l : list (result A)) : is_Ok (collect l) = true <-> Forall (fun x => is_Ok x = true) l.
Proof.
  pose proof (collect_spec l) as Hc. destruct (collect l) as [r|e]; simpl; [|naive_solver].
  split; [intros _|done]. apply Forall_forall. intros x Hx.
  apply list_elem_of_lookup in Hx as [i Hi]. destruct (Forall2_lookup_l _ _ _ _ _ Hc Hi) as (a & _ & ->). done.
Qed.

Lemma sortKeys_perm {A} (m : list (string * A)) : sortKeys m ≡ₚ m.
Proof. apply merge_sort_Permutation. Qed.

Section MarshalLemmas.
Context `{FloatText}.

Lemma toJson_is_Ok v : is_Ok (toJson v) = true <-> representable v = true.
Proof.
  induction v as [|b|z|s f|s|b|ns|l IH|m IH] using any_induction; simpl; try done.
  - by destruct (isFinite f).
  - unfold timeJson. by destruct (Time.format ns 0).
  - transitivity (is_Ok (collect (map toJson l)) = true); [by destruct (collect _)|].
    rewrite collect_is_Ok, forallb_forall. change (map toJson l) with (toJson <$> l). rewrite Forall_fmap, Forall_forall.
    rewrite Forall_forall in IH. setoid_rewrite list_elem_of_In. setoid_rewrite list_elem_of_In in IH.
    unfold compose. split; intros Hx x Hin; by apply IH, Hx.
  - match goal with |- context [collect ?l] => transitivity (is_Ok (collect l) = true); [by destruct (collect l)|] end.
    rewrite collect_is_Ok, forallb_forall. change (map member ?l) with (member <$> l). rewrite Forall_fmap, sortKeys_perm.
    change (map ?f m) with (f <$> m). rewrite Forall_fmap, Forall_forall. rewrite Forall_forall in IH.
    setoid_rewrite list_elem_of_In. setoid_rewrite list_elem_of_In in IH.
    assert (forall kv : string * any, is_Ok (member (kv.1, toJson kv.2)) = is_Ok (toJson kv.2)) as Hm
      by (intros kv; unfold member; simpl; by destruct (toJson kv.2)).
    unfold compose. setoid_rewrite Hm. split; intros Hx x Hin; by apply IH, Hx.
Qed.

(** ** The text is well formed *)

Lemma isDigit_ascii b : isDigit b = true -> isAscii b = true.
Proof. by destruct b. Qed.

Lemma padded_ascii w z : Forall (fun b => isAscii b = true) (padded w z).
Proof. eapply Forall_impl; [apply padded_digits|]. apply isDigit_ascii. Qed.

Lemma fraction_ascii ns : Forall (fun b => isAscii b = true) (Time.fraction ns).
Proof.
  unfold Time.fraction. destruct (Time.trimZeros_spec (padded 9 ns)) as [k Hk].
  pose proof (padded_ascii 9 ns) as Hp. rewrite Hk in Hp. apply Forall_app in Hp as [Hp _].
  destruct (Time.trimZeros _); [constructor|]. by constructor.
Qed.

Lemma zone_ascii (off : Z) : Forall (fun b => isAscii b = true) (Time.zone off).
Proof.
  unfold Time.zone. destruct (off =? 0); [by repeat constructor|]. constructor; [by destruct (_ <? 0)|].
  apply Forall_app. split; [apply padded_ascii|]. constructor; [done|apply padded_ascii].
Qed.

Lemma format_ascii ns off b : Time.format ns off = Ok b -> Forall (fun b => isAscii b = true) b.
Proof.
  unfold Time.format. destruct (_ || _); [done|]. destruct (24 <=? _); [done|].
  assert (forall x : bytes, Ok x = Ok b -> x = b) as Hinj by congruence. intros Hb%Hinj. subst b. clear Hinj.
  apply Forall_app. split; [|constructor; [done|]; apply Forall_app; split; [|apply Forall_app; split]].
  - unfold Time.date. destruct (Time.monthDay _ _ _) as [m d].
    apply Forall_app. split; [apply padded_ascii|]. constructor; [done|]. apply Forall_app.
    split; [apply padded_ascii|]. constructor; [done|apply padded_ascii].
  - unfold Time.clock. apply Forall_app. split; [apply padded_ascii|]. constructor; [done|]. apply Forall_app.
    split; [apply padded_ascii|]. constructor; [done|apply padded_ascii].
  - apply fraction_ascii.
  - apply zone_ascii.
Qed.

Lemma base64_utf8 b : utf8 (base64Bytes b).
Proof.
  apply utf8_ascii. unfold base64Bytes, Base64.EncodeToString, bytesOf, String.list_byte_of_string.
  rewrite String.list_ascii_of_string_of_list_ascii. change (map ?f ?l) with (f <$> l). apply Forall_fmap.
  assert (forall n, isAscii (Ascii.byte_of_ascii (Base64.encodeDigit n)) = true) as Hd.
  { intros n. unfold Base64.encodeDigit. generalize (N.to_nat n). intros k.
    do 64 (destruct k as [|k]; [done|]). by destruct k. }
  generalize (default [] b). intros l. induction l as [|x|x y|x y z l IH] using Base64.list_ind3; simpl;
    repeat constructor; auto.
Qed.

(** A value with an infinite number, say, makes [Marshal] fail, every time. *)
Lemma marshalPayload_fails p : representable (AMap p) = false -> exists e, marshalPayload p = Err e.
Proof.
  intros Hr. unfold marshalPayload. pose proof (toJson_is_Ok (AMap p)) as Ht.
  destruct (toJson (AMap p)) as [j|e]; [|eauto]. rewrite (proj1 Ht eq_refl) in Hr. done.
Qed.

End MarshalLemmas.

Section RoundTrip.
Context `{FloatTextLaws}.

Lemma collect_Forall {A} (Q : A -> Prop) (l : list (result A)) r :
  collect l = Ok r -> Forall (fun x => forall a, x = Ok a -> Q a) l -> Forall Q r.
Proof.
  intros Hc Hl. pose proof (collect_spec l) as Hs. rewrite Hc in Hs.
  clear Hc. induction Hs as [|x a l r Hx _ IH]; [constructor|]. apply Forall_cons in Hl as [Hq Hl].
  constructor; auto.
Qed.

Lemma timeJson_wf ns off j : timeJson ns off = Ok j -> wf j.
Proof.
  unfold timeJson. destruct (Time.format ns off) as [b|] eqn:E; [|done]. intros [= <-]. constructor.
  apply utf8_ascii. by eapply format_ascii.
Qed.

Lemma toJson_wf v j : textual v -> toJson v = Ok j -> wf j.
Proof.
  revert j. induction v as [|b|z|s f|s|b|ns|l IH|m IH] using any_induction; intros j Ht; cbn [toJson]; intros Hj.
  - injection Hj as <-. constructor.
  - injection Hj as <-. constructor.
  - injection Hj as <-. constructor. apply decimal_validNumber.
  - destruct (isFinite f) eqn:Hf; [|done]. injection Hj as <-. constructor. by apply appendFloat_valid.
  - injection Hj as <-. constructor. by inversion Ht.
  - injection Hj as <-. constructor. apply base64_utf8.
  - by eapply timeJson_wf.
  - destruct (collect _) as [js|] eqn:Ec; [|done]. injection Hj as <-. constructor.
    inversion Ht; subst. eapply collect_Forall; [exact Ec|]. change (map toJson l) with (toJson <$> l).
    apply Forall_fmap, Forall_forall. intros x Hx a Ha. rewrite Forall_forall in IH. eapply IH; [done| |done].
    by eapply Forall_forall.
  - destruct (collect _) as [ms|] eqn:Ec; [|done]. injection Hj as <-. constructor.
    inversion Ht; subst. eapply collect_Forall; [exact Ec|]. change (map member ?l) with (member <$> l).
    rewrite Forall_fmap, sortKeys_perm. change (map ?f m) with (f <$> m). rewrite Forall_fmap, Forall_forall.
    intros [k x] Hx [kb a]. unfold compose, member. simpl. destruct (toJson x) as [jx|] eqn:Ex; [|done].
    intros [= <- <-]. rewrite Forall_forall in IH. pose proof (proj1 (Forall_forall _ _) H3 _ Hx) as [Hk Hv].
    split; [done|]. by apply (IH _ Hx).
Qed.

(** *** What is written is read back *)

Lemma lookupKey_in k j ms : NoDup ms.*1 -> (k, j) ∈ ms -> lookupKey k ms = Some j.
Proof.
  intros Hnd Hin. induction ms as [|[k' j'] ms IH]; [by apply not_elem_of_nil in Hin|].
  simpl in Hnd. apply NoDup_cons in Hnd as [Hni Hnd]. simpl. apply elem_of_cons in Hin as [Heq|Hin].
  - injection Heq as -> ->. by rewrite bool_decide_eq_true_2.
  - rewrite bool_decide_eq_false_2; [by apply IH|]. intros ->. apply Hni. by apply (list_elem_of_fmap_2 fst _ (k, j)).
Qed.

(** The members written for a record. *)
Lemma members_spec (m : list (string * any)) ms :
  collect (map member (sortKeys (map (fun kv => (kv.1, toJson kv.2)) m))) = Ok ms ->
  length ms = length m /\ (NoDup m.*1 -> NoDup ms.*1) /\
  forall k v, (k, v) ∈ m -> exists j, toJson v = Ok j /\ (bytesOf k, j) ∈ ms.
Proof.
  intros Hc. set (l := map (fun kv => (kv.1, toJson kv.2)) m) in *.
  pose proof (collect_spec (map member (sortKeys l))) as Hs. rewrite Hc in Hs. pose proof (sortKeys_perm l) as Hp.
  assert (ms.*1 = bytesOf <$> (sortKeys l).*1) as Hk.
  { clear -Hs. revert ms Hs. induction (sortKeys l) as [|[k rj] l' IH]; intros ms Hs; inversion Hs as [|x a ? r Hx Hr]; subst; [done|].
    unfold member in Hx. simpl in Hx. destruct rj as [j|]; [|done]. injection Hx as <-. simpl. f_equal. by apply IH. }
  split; [|split].
  - apply (f_equal length) in Hk. rewrite !length_fmap in Hk. rewrite Hk, Hp. unfold l. apply length_map.
  - intros Hnd. rewrite Hk. apply NoDup_fmap_2; [exact bytesOf_inj|]. rewrite Hp. unfold l.
    change (map ?f m) with (f <$> m). by rewrite <- list_fmap_compose.
  - intros k v Hin. assert ((k, toJson v) ∈ sortKeys l) as Hin'.
    { rewrite Hp. unfold l. change (map ?f m) with (f <$> m).
      by apply (list_elem_of_fmap_2 (fun kv : string * any => (kv.1, toJson kv.2)) _ (k, v)). }
    apply list_elem_of_lookup in Hin' as [i Hi].
    assert (map member (sortKeys l) !! i = Some (member (k, toJson v))) as Hm
      by (change (map member ?x) with (member <$> x); by rewrite list_lookup_fmap, Hi).
    destruct (Forall2_lookup_l _ _ _ _ _ Hs Hm) as (a & Ha & Hma). unfold member in Hma. simpl in Hma.
    destruct (toJson v) as [j|]; [|done]. injection Hma as <-. exists j. split; [done|]. by eapply list_elem_of_lookup_2.
Qed.

Lemma readFields_all (m : list (string * any)) ms :
  Forall (fun kv => exists j, lookupKey (bytesOf kv.1) ms = Some j /\ ofJson (shapeOf kv.2) j = Some kv.2) m ->
  readFields (map (fun kv => (kv.1, ofJson kv.2)) (map (fun kv => (kv.1, shapeOf kv.2)) m)) ms = Some m.
Proof.
  induction 1 as [|[k v] m (j & Hj & Hv) _ IH]; [done|]. simpl in *. rewrite Hj. simpl. rewrite Hv. simpl. by rewrite IH.
Qed.

Lemma readElems_all l js :
  Forall2 (fun v j => ofJson (shapeOf v) j = Some v) l js -> readElems (map ofJson (map shapeOf l)) js = Some l.
Proof. induction 1 as [|v j l js Hv _ IH]; [done|]. simpl. rewrite Hv. simpl. by rewrite IH. Qed.

Lemma toJson_read v j : textual v -> toJson v = Ok j -> ofJson (shapeOf v) j = Some v.
Proof.
  revert j. induction v as [|b|z|s f|s|b|ns|l IH|m IH] using any_induction; intros j Ht; cbn [toJson shapeOf]; intros Hj.
  - by injection Hj as <-.
  - by injection Hj as <-.
  - injection Hj as <-. simpl. by rewrite readInt_decimal.
  - destruct (isFinite f) eqn:Hf; [|done]. injection Hj as <-. simpl. inversion Ht; subst.
    by rewrite appendFloat_read.
  - injection Hj as <-. simpl. by rewrite stringOf_bytesOf.
  - injection Hj as <-. simpl. unfold base64Bytes. rewrite stringOf_bytesOf, Base64.base64_roundtrip. done.
  - unfold timeJson in Hj. destruct (Time.format ns 0) as [t|] eqn:Ef; [|done]. injection Hj as <-. simpl.
    by rewrite (Time.format_roundtrip ns 0 t eq_refl Ef).
  - destruct (collect _) as [js|] eqn:Ec; [|done]. injection Hj as <-. simpl.
    pose proof (collect_spec (map toJson l)) as Hs. rewrite Ec in Hs. inversion Ht as [| | | | | | |l' Hl|]; subst.
    rewrite (readElems_all l js); [done|]. clear Ec Ht. change (map toJson l) with (toJson <$> l) in Hs.
    apply Forall2_fmap_l in Hs. induction Hs as [|v j l js Hv _ IHl]; [constructor|].
    apply Forall_cons in IH as [Hd IH]. apply Forall_cons in Hl as [Hv' Hl]. constructor; [by apply Hd|by apply IHl].
  - destruct (collect _) as [ms|] eqn:Ec; [|done]. injection Hj as <-. simpl.
    destruct (members_spec m ms Ec) as (Hlen & Hnd & Hall). rewrite length_map, Hlen, Nat.eqb_refl.
    inversion Ht as [| | | | | | | |m' Hkeys Hm]; subst. rewrite readFields_all; [done|].
    apply Forall_forall. intros [k v] Hin. destruct (Hall k v Hin) as (jv & Hv & Hjv). exists jv. simpl.
    rewrite Forall_forall in IH, Hm. split; [by apply lookupKey_in; [apply Hnd|]|].
    destruct (Hm _ Hin) as [_ Htv]. by apply (IH _ Hin).
Qed.

(** What is needed of an event for its envelope to be read back. *)
Record readable (Local : Z -> Z) (e : DecodedEvent) : Prop := {
  rd_id : utf8 (bytesOf (EventID e));
  rd_topic : utf8 (bytesOf (Topic e));
  rd_schema : utf8 (bytesOf (SchemaID e));
  rd_payload : textual (AMap (Payload e));
  rd_zone : Local (ReceivedAt e) mod 60 = 0;
}.

Lemma envelope_read Local e v :
  readable Local e -> marshalEnvelope Local (Handler.envelope e) = Ok v ->
  exists p t, ofJson (shapeOf (AMap (Payload e))) p = Some (AMap (Payload e)) /\ Time.parse t = Some (ReceivedAt e) /\
    parse v = Some (JObject
      [(bytesOf "event_id", JString (bytesOf (EventID e)));
       (bytesOf "topic", JString (bytesOf (Topic e)));
       (bytesOf "schema_id", JString (bytesOf (SchemaID e)));
       (bytesOf "replay_id", JString (base64Bytes (ReplayID e)));
       (bytesOf "received_at", JString t);
       (bytesOf "payload", p)]).
Proof.
  intros [R1 R2 R3 R4 R5]. unfold marshalEnvelope, envelopeJson. cbn [Handler.envelope Handler.env_ReceivedAt
    Handler.env_Payload Handler.env_EventID Handler.env_Topic Handler.env_SchemaID Handler.env_ReplayID].
  unfold timeJson. destruct (Time.format (ReceivedAt e) (Local (ReceivedAt e))) as [t|] eqn:Et; [|done].
  destruct (toJson (AMap (Payload e))) as [p|] eqn:Ep; [|done]. intros Hv.
  exists p, t. split; [by apply toJson_read|]. split; [by eapply Time.format_roundtrip|].
  assert (forall x : bytes, Ok x = Ok v -> x = v) as Hinj by congruence. apply Hinj in Hv as <-. clear Hinj.
  apply parse_print. constructor.
  assert (forall s, utf8 (bytesOf s) -> wf (JString (bytesOf s))) as Hs by (intros; by constructor).
  repeat (apply Forall_cons; split; [split; cbn [fst snd]|]); try (apply Forall_nil; done);
    try (apply utf8_ascii, (bool_decide_unpack _); by vm_compute); try (by apply Hs).
  - constructor. apply base64_utf8.
  - constructor. apply utf8_ascii. by eapply format_ascii.
  - by eapply toJson_wf.
Qed.

End RoundTrip.

(** ** Properties *)

(** C23. What the forward handler publishes can be read back: the record is the topic's
    key, the headers of the event and a JSON document whose fields decode to the event
    ID, topic, schema ID, replay ID and time of receipt of the event, and to its payload: a
    reader that knows the types of the Avro record gets from the document exactly the
    integers, nearest floats, strings, bytes, times, arrays and records that were decoded
    from the event. When there is no such document nothing is sent and the handler fails. *)
Theorem envelope_roundtrip {W} `{RecordProducer W} `{FloatTextLaws} Local e (w w' : W) r :
  readable Local e -> Handler.ForwardHandle (marshalEnvelope Local) e w = (r, w') ->
  match marshalEnvelope Local (Handler.envelope e) with
  | Err _ => w' = w /\ r <> None
  | Ok v =>
      w' = (Produce (Topic e) v (Handler.headers e) w).2 /\
      exists p t, ofJson (shapeOf (AMap (Payload e))) p = Some (AMap (Payload e)) /\ Time.parse t = Some (ReceivedAt e) /\
        Base64.DecodeString (stringOf (base64Bytes (ReplayID e))) = Some (default [] (ReplayID e)) /\
        parse v = Some (JObject
          [(bytesOf "event_id", JString (bytesOf (EventID e)));
           (bytesOf "topic", JString (bytesOf (Topic e)));
           (bytesOf "schema_id", JString (bytesOf (SchemaID e)));
           (bytesOf "replay_id", JString (base64Bytes (ReplayID e)));
           (bytesOf "received_at", JString t);
           (bytesOf "payload", p)])
  end.
Proof.
  intros Hr. unfold Handler.ForwardHandle. destruct (marshalEnvelope Local (Handler.envelope e)) as [v|err] eqn:Ev.
  2: { intros. runM. by simplify_eq. }
  destruct (envelope_read Local e v Hr Ev) as (p & t & Hp & Ht & Hj). rewrite M_bind_unfold.
  destruct (Produce _ v _ w) as [pr w1]. intros Hh. split.
  - destruct pr; runM; by simplify_eq.
  - exists p, t. split; [done|]. split; [done|]. split; [|done].
    unfold base64Bytes. rewrite stringOf_bytesOf. apply Base64.base64_roundtrip.
Qed.

(** ** An example, with floats written out exactly *)

#[local] Instance exactFloats : FloatText := fun _ f => exactText f.
#[local] Instance exactFloatsLaws : FloatTextLaws.
Proof. split; intros b f Hf; [by apply exactText_laws|]. intros Hfl. by apply exactText_laws. Qed.

Definition demoOrder : DecodedEvent :=
  mkDecodedEvent "/event/Order__e" "uuid-1" "schema-1" (Some [Byte.x00; Byte.xff; Byte.x07])
    [("Qty", AInt (-30)); ("Price", AFloat false (S754_finite false 7036874417766400 (-49)));
     ("Name", AString "a<b"); ("Lines", AArray [AInt 7; ANull; AMap [("Raw", ABytes [Byte.x01])]]);
     ("At", ATime (1700000000 * Second))] (1700000000 * Second + 5).

(** The producer records what it is given. *)
#[local] Instance demoProducer : RecordProducer (list (list Byte.byte)) := {
  Produce _ v _ := fun w => (None, w ++ [v]);
}.

Lemma utf8_check s : forallb isAscii (bytesOf s) = true -> utf8 (bytesOf s).
Proof.
  intros Hs. apply utf8_ascii, Forall_forall. intros b Hb. apply list_elem_of_In in Hb.
  rewrite forallb_forall in Hs. by apply Hs.
Qed.

Lemma demoOrder_textual : textual (AMap (Payload demoOrder)).
Proof.
  constructor; [apply (bool_decide_unpack _); by vm_compute|].
  repeat apply Forall_cons_2; try apply Forall_nil_2; (split; [by apply utf8_check|]); constructor; try done; [by apply utf8_check|].
  repeat apply Forall_cons_2; try apply Forall_nil_2; constructor; [apply NoDup_singleton|].
  repeat constructor.
Qed.

(** 12.5 as the document has it, and read from there. *)
Lemma envelope_roundtrip_witness :
  exists v p, (Handler.ForwardHandle (marshalEnvelope (fun _ => 3600)) demoOrder []).2 = [v] /\
    (exists ms, parse v = Some (JObject ms) /\ lookupKey (bytesOf "payload") ms = Some p) /\
    ofJson (shapeOf (AMap (Payload demoOrder))) p = Some (AMap (Payload demoOrder)).
Proof.
  pose proof (envelope_roundtrip (fun _ => 3600) demoOrder [] (Handler.ForwardHandle (marshalEnvelope (fun _ => 3600)) demoOrder []).2
    (Handler.ForwardHandle (marshalEnvelope (fun _ => 3600)) demoOrder []).1) as H.
  destruct (marshalEnvelope (fun _ => 3600) (Handler.envelope demoOrder)) as [v|] eqn:E; [|by vm_compute in E].
  destruct H as (Hw & p & t & Hp & Ht & _ & Hv); [..|exists v, p].
  - split; [by apply utf8_check..|exact demoOrder_textual|done].
  - by destruct (Handler.ForwardHandle _ demoOrder []).
  - split; [exact Hw|]. split; [|exact Hp]. eexists. split; [exact Hv|]. cbn. done.
Defined.

End Encoding.
