(* ===== verification/Admin.v ===== *)
(** * The admin endpoints

    What src/internal/httpserver/server.go serves, as bytes: the routes of [New], the
    checkers that src/internal/app/app.go builds from the configuration, and [writeJSON]
    of src/internal/health/health.go on top of Json.v. The router's matching, the
    Prometheus handler and the rendering of an error as text are parameters. *)

From S2P Require Import Prelude Text Json Config Auth Sinks Health App Encoding.
From stdpp Require Import sorting.
From Stdlib Require Import Strings.Byte.

#[local] Open Scope Z_scope.

Module Admin.
Import Text Json.

(** ** The checkers *)

(** What the checkers reach: the token provider with the network it uses, the database,
    the producer and the cache. *)
Record Deps (H D K R : Type) := mkDeps {
  prov : Auth.Provider;
  net : H;
  db : D;
  producer : Kafka.Producer K;
  cache : RedisCache.Cache R;
}.
Arguments mkDeps {H D K R}. Arguments prov {H D K R}. Arguments net {H D K R}.
Arguments db {H D K R}. Arguments producer {H D K R}. Arguments cache {H D K R}.

Record response := mkResponse {
  code : Z;
  contentType : string;
  body : bytes;
}.

Section Server.
Context {H D K R : Type} `{KafkaClient K} `{RedisClient R}.
Context (token : Auth.Provider -> H -> result Auth.Credentials * Auth.Provider * H).
Context (ping : M D (option error)).
Context (errorText : error -> string).
Context (metrics : M (Deps H D K R) response).

Abbreviation Checker := (@Health.Checker (Deps H D K R)).

(** [health.NewAuthChecker] *)
Definition NewAuthChecker : Checker := fun d =>
  let '(r, (p, h)) := Health.authCheck token (prov d, net d) in
  (r, mkDeps p h (db d) (producer d) (cache d)).

Definition newDBChecker : Checker := fun d =>
  let '(r, x) := Health.dbChecker ping (db d) in (r, mkDeps (prov d) (net d) x (producer d) (cache d)).

Definition newKafkaChecker : Checker := fun d =>
  let '(r, p) := Kafka.CheckKafka (producer d) in (r, mkDeps (prov d) (net d) (db d) p (cache d)).

Definition newRedisChecker : Checker := fun d =>
  let '(r, c) := RedisCache.CheckRedis (cache d) in (r, mkDeps (prov d) (net d) (db d) (producer d) c).

(** The map [checkers] of [app.New]. *)
Definition checkers (cfg : Config.Config) : list (string * Checker) :=
  [("auth", NewAuthChecker); ("database", newDBChecker)]%string
  ++ (if Config.Kafka_Enabled (Config.Kafka cfg) then [("kafka", newKafkaChecker)]%string else [])
  ++ (if Config.Redis_Enabled (Config.Redis cfg) then [("redis", newRedisChecker)]%string else []).

(** ** Responses *)

Definition jstring (s : string) : json := JString (bytesOf s).
Definition field (k : string) (j : json) : bytes * json := (bytesOf k, j).

(** A [map[string]string], its keys in order. *)
Definition stringMap (m : list (string * string)) : json :=
  JObject ((fun '(k, v) => field k (jstring v)) <$> Encoding.sortKeys m).

(** [writeJSON]: the encoder ends the document with a newline. *)
Definition writeJSON (status : Z) (j : json) : response :=
  mkResponse status "application/json" (print j ++ [x0a]).

(** A checker's entry in the results: "ok" or the text of its error. *)
Definition resultText (r : option error) : string :=
  match r with Some err => errorText err | None => "ok" end.

Definition readyJson (b : Health.readyBody) : json :=
  JObject [field "status" (jstring (Health.body_Status b));
           field "checks" (stringMap (prod_map id resultText <$> map_to_list (Health.body_Checks b)))].

Definition healthz : M (Deps H D K R) response :=
  mret (writeJSON Health.StatusOK (stringMap (map_to_list (Health.Healthz).2))).

(** [cs] is the map of checkers in the order in which it is ranged over. *)
Definition readyz (cs : list (string * Checker)) : M (Deps H D K R) response :=
  r ← Health.Readiness cs;
  let '(status, b) := r in mret (writeJSON status (readyJson b)).

(** [httpserver.New] *)
Definition New (cs : list (string * Checker)) : list (string * M (Deps H D K R) response) :=
  [("/healthz", healthz); ("/readyz", readyz cs); ("/metrics", metrics)]%string.

(** ** Lemmas *)

#[local] Instance keyLe_total {A} : Total (Encoding.keyLe (A := A)).
Proof. intros x y. apply String.leb_total. Qed.

Lemma results_perm (rs : list (string * option error)) : NoDup rs.*1 ->
  map_to_list (foldl (fun m x => <[x.1 := x.2]> m) (∅ : gmap string (option error)) rs) ≡ₚ rs /\
  forall k, k ∉ rs.*1 -> foldl (fun m x => <[x.1 := x.2]> m) (∅ : gmap string (option error)) rs !! k = None.
Proof.
  induction rs as [|[k v] rs IH] using rev_ind; intros Hnd; [split; [done|intros k _; apply lookup_empty]|].
  rewrite fmap_app in Hnd. apply NoDup_app in Hnd as (Hnd & Hdis & _). destruct (IH Hnd) as [Hp Hl].
  rewrite foldl_app. simpl. split.
  - rewrite map_to_list_insert by (apply Hl; intros Hin; apply (Hdis _ Hin); simpl; constructor).
    rewrite Hp. by rewrite Permutation_app_comm.
  - intros k' Hk'. rewrite fmap_app in Hk'. rewrite lookup_insert_ne by set_solver. apply Hl. set_solver.
Qed.

Lemma stringMap_wf m : Forall (fun kv => utf8 (bytesOf kv.1) /\ utf8 (bytesOf kv.2)) m -> wf (stringMap m).
Proof.
  intros Hm. constructor. apply Forall_fmap. rewrite Encoding.sortKeys_perm. eapply Forall_impl; [exact Hm|].
  intros [k v] [Hk Hv]. split; [done|]. by constructor.
Qed.

(** The newline after the document is not part of it. *)
Lemma parse_writeJSON status j : wf j -> parse (body (writeJSON status j)) = Some j.
Proof.
  intros Hw. unfold parse. pose proof (cost_print j Hw) as Hc. cbn [body writeJSON].
  rewrite (reads_all j Hw [x0a]); [done|by right; right; right|]. rewrite length_app. lia.
Qed.

Lemma checkers_names cfg env a acts : App.New cfg env = (Ok a, acts) -> (checkers cfg).*1 = App.app_checkers a.
Proof.
  unfold App.New, App.newTail, checkers. destruct (App.dialErr env), (App.poolErr env); try done.
  destruct (Config.Kafka_Enabled _); [destruct (App.kafkaErr env); [done|]; destruct (Config.CreateTopic _);
    [destruct (App.ensureErr env); [done|]|]|]; destruct (Config.Redis_Enabled _); intros; by simplify_eq.
Qed.

Lemma names_unique cfg : NoDup (checkers cfg).*1.
Proof.
  unfold checkers. destruct (Config.Kafka_Enabled _), (Config.Redis_Enabled _);
    apply (bool_decide_unpack _); by vm_compute.
Qed.

(** The text of what a check found is UTF-8: what the encoder keeps unchanged. *)
Definition readableResults (rs : list (string * option error)) : Prop :=
  Forall (fun x => utf8 (bytesOf x.1) /\ utf8 (bytesOf (resultText x.2))) rs.

Definition summary (ok : bool) : string := if ok then "ready" else "not ready".

Lemma summary_utf8 ok : utf8 (bytesOf (summary ok)).
Proof. destruct ok; apply utf8_ascii, (bool_decide_unpack _); by vm_compute. Qed.

(** ** Properties *)

(** C31. The readiness probe of a started application, as bytes on the wire. Whatever
    the order in which the checkers run, each of the dependencies the configuration
    enables (token, database, Kafka, Redis) is probed once; the answer is 200 exactly
    when all of them passed and 503 otherwise; and the body is a JSON document that
    reads back to that verdict and to one entry per dependency, in the order of the
    names: "ok" or the text of its error. *)
Theorem readyz_response cfg env a acts cs d :
  App.New cfg env = (Ok a, acts) -> cs ≡ₚ checkers cfg ->
  exists handler rs d' resp,
    list_to_map (M := gmap string _) (New cs) !! "/readyz"%string = Some handler /\
    handler d = (resp, d') /\ Health.ran cs d rs d' /\ rs.*1 ≡ₚ App.app_checkers a /\
    let ok := forallb (fun x => bool_decide (x.2 = None)) rs in
    code resp = (if ok then 200 else 503) /\ contentType resp = "application/json"%string /\
    (readableResults rs ->
     exists ms, Sorted Encoding.keyLe ms /\ ms ≡ₚ (prod_map id resultText <$> rs) /\
       parse (body resp) = Some (JObject
         [field "status" (jstring (summary ok));
          field "checks" (JObject ((fun '(k, v) => field k (jstring v)) <$> ms))])).
Proof.
  intros Ha Hcs. destruct (Health.runChecks_spec cs true ∅ d) as (rs & d' & Hr & Hn & He).
  assert (NoDup rs.*1) as Hnd by (rewrite Hn, Hcs; apply names_unique).
  destruct (results_perm rs Hnd) as [Hp _].
  set (ok := forallb (fun x => bool_decide (x.2 = None)) rs) in *.
  set (b := Health.mkReadyBody (summary ok) (foldl (fun m x => <[x.1 := x.2]> m) ∅ rs)).
  exists (readyz cs), rs, d', (writeJSON (if ok then 200 else 503) (readyJson b)).
  split; [unfold New; cbn [list_to_map foldr]; by rewrite lookup_insert_ne, lookup_insert_eq|]. split.
  { unfold readyz, Health.Readiness. rewrite !M_bind_unfold, He. cbn [fst snd andb]. by destruct ok. }
  split; [done|]. split; [by rewrite Hn, Hcs, (checkers_names _ _ _ _ Ha)|]. split; [done|]. split; [done|].
  intros Hu. exists (Encoding.sortKeys (prod_map id resultText <$> map_to_list (Health.body_Checks b))). split; [|split; [|apply parse_writeJSON]].
  - apply (Sorted_merge_sort _).
  - rewrite Encoding.sortKeys_perm. cbn [b Health.body_Checks]. by rewrite Hp.
  - constructor. repeat (apply Forall_cons; split; [split; cbn [fst snd field]|]);
      try (apply utf8_ascii, (bool_decide_unpack _); by vm_compute); try done.
    + constructor. apply summary_utf8.
    + apply stringMap_wf, Forall_fmap. cbn [Health.body_Checks b]. rewrite Hp. exact Hu.
Qed.

End Server.

(** ** An example: Kafka is down *)

Definition demoConfig : Config.Config := Config.demoConfig ["/event/Order__e"%string].

Definition demoToken := Auth.Token Auth.Demo.post Auth.Demo.unmarshal Auth.Demo.parse Auth.Demo.now.
Definition demoPing : M unit (option error) := fun w => (None, w).
Definition demoText (e : error) : string := "unreachable".
Definition demoMetrics : M (Deps Z unit Sinks.memKafka Sinks.memRedis) response :=
  mret (mkResponse 200 "text/plain" []).
Definition demoDeps : Deps Z unit Sinks.memKafka Sinks.memRedis :=
  mkDeps Auth.Demo.provider 0 tt (Kafka.mkProducer (Sinks.mkMemKafka [] false) "salesforce.events" 3 1 0 0 0 0)
    (RedisCache.mkCache (Sinks.mkMemRedis ∅ true) "seen:" 0 0 0 ∅).
Definition demoCheckers := checkers (R := Sinks.memRedis) (K := Sinks.memKafka) demoToken demoPing demoConfig.
Definition demoEnv : App.newEnv := App.mkNewEnv None None None None.

Lemma demoReadyz : (readyz demoText demoCheckers demoDeps).1 =
  mkResponse 503 "application/json"
    (bytesOf "{" ++ quote (bytesOf "status") ++ bytesOf ":" ++ quote (bytesOf "not ready") ++ bytesOf "," ++
     quote (bytesOf "checks") ++ bytesOf ":{" ++ quote (bytesOf "auth") ++ bytesOf ":" ++ quote (bytesOf "ok") ++
     bytesOf "," ++ quote (bytesOf "database") ++ bytesOf ":" ++ quote (bytesOf "ok") ++ bytesOf "," ++
     quote (bytesOf "kafka") ++ bytesOf ":" ++ quote (bytesOf "unreachable") ++ bytesOf "," ++
     quote (bytesOf "redis") ++ bytesOf ":" ++ quote (bytesOf "ok") ++ bytesOf "}}" ++ [x0a]).
Proof. by vm_compute. Qed.

Lemma readyz_response_witness : exists handler rs d' resp,
  list_to_map (M := gmap string _) (New demoText demoMetrics demoCheckers) !! "/readyz"%string = Some handler /\
  handler demoDeps = (resp, d') /\ Health.ran demoCheckers demoDeps rs d' /\
  rs.*1 ≡ₚ ["auth"; "database"; "kafka"; "redis"]%string.
Proof.
  destruct (readyz_response demoToken demoPing demoText demoMetrics demoConfig demoEnv _ _ demoCheckers demoDeps
    eq_refl (Permutation_refl _)) as (handler & rs & d' & resp & H1 & H2 & H3 & H4 & _).
  exists handler, rs, d', resp. done.
Defined.

End Admin.
