(* ===== verification/Wiring.v ===== *)
(** * How the parts are put together

    The structs of the handlers, of the worker pool, of the store and of the gRPC client,
    with their constructors, and the assembly that [app.New] makes of them. A field holds
    the object it was given; the state behind the objects is the state the methods of the
    other files work on. Launch.v builds the application with these constructors, and
    Assembly.v shows that it is the machine of Pipeline.v. *)

From S2P Require Import Prelude Event Config Auth Schema Handler Committer Subscriber Pool App.

Module Wiring.
Import Event.

(** ** The handlers

    [S], [P] and [C] are the store, the producer and the cache. *)

Record PersistHandler (S : Type) := mkPersistHandler { ph_store : S }.
Record ForwardHandler (P : Type) := mkForwardHandler { fh_producer : P }.
Record LogHandler := mkLogHandler {}.
(** A handler that other handlers are part of, [H] being the interface. *)
Record Chain (H : Type) := mkChain { ch_handlers : list H }.
Record DedupHandler (C H : Type) := mkDedupHandler { dh_cache : C; dh_next : H }.
Arguments mkPersistHandler {S}. Arguments ph_store {S}.
Arguments mkForwardHandler {P}. Arguments fh_producer {P}.
Arguments mkChain {H}. Arguments ch_handlers {H}.
Arguments mkDedupHandler {C H}. Arguments dh_cache {C H}. Arguments dh_next {C H}.

(** What a variable of the interface [handler.Handler] can hold. *)
Inductive handler (S P C : Type) :=
| APersist (h : PersistHandler S)
| AForward (h : ForwardHandler P)
| ALog (h : LogHandler)
| AChain (c : Chain (handler S P C))
| ADedup (h : DedupHandler C (handler S P C)).
Arguments APersist {S P C}. Arguments AForward {S P C}. Arguments ALog {S P C}.
Arguments AChain {S P C}. Arguments ADedup {S P C}.

Section Handlers.
Context {S P C : Type}.

Definition NewPersist (store : S) : PersistHandler S := mkPersistHandler store.
Definition NewForward (producer : P) : ForwardHandler P := mkForwardHandler producer.
Definition NewLog : LogHandler := mkLogHandler.
Definition NewChain (handlers : list (handler S P C)) : Chain (handler S P C) := mkChain handlers.
Definition NewDedup (cache : C) (next : handler S P C) : DedupHandler C (handler S P C) := mkDedupHandler cache next.

(** A call of [Handle] on a variable of the interface. *)
Fixpoint Handle {W} (json_Marshal : Handler.Envelope -> result (list Byte.byte))
    `{EventStore W, RecordProducer W, SeenCache W} (h : handler S P C) : Handler.Handler W :=
  match h with
  | APersist _ => Handler.PersistHandle
  | AForward _ => Handler.ForwardHandle json_Marshal
  | ALog _ => Handler.LogHandle
  | AChain (mkChain hs) => Handler.ChainHandle (map (Handle json_Marshal) hs)
  | ADedup (mkDedupHandler _ next) => Handler.DedupHandle (Handle json_Marshal next)
  end.

(** The handlers [app.New] chains: there is a producer when the Kafka sink is on. *)
Definition newHandlers (store : S) (producer : option P) : list (handler S P C) :=
  [APersist (NewPersist store)] ++
  match producer with Some p => [AForward (NewForward p)] | None => [] end.

(** The root: the cache, when there is one, around the chain. *)
Definition newRoot (store : S) (producer : option P) (cache : option C) : handler S P C :=
  let root := AChain (NewChain (newHandlers store producer)) in
  match cache with Some c => ADedup (NewDedup c root) | None => root end.

Lemma newRoot_handles {W} json_Marshal `{EventStore W, RecordProducer W, SeenCache W} store producer cache :
  Handle json_Marshal (newRoot store producer cache) =
  Handler.rootHandler (bool_decide (is_Some producer)) (bool_decide (is_Some cache)) json_Marshal (W := W).
Proof. by destruct producer, cache. Qed.

End Handlers.

(** ** The worker pool *)

(** [worker.AckFn]; [A] is the state of its owner. *)
Definition AckFn (A : Type) : Type := RawEvent -> M A unit.

Record Pool (H A Schema : Type) := mkPool {
  p_n : Z;
  p_cache : @Schema.Cache Schema;
  p_handler : H;
  p_ack : AckFn A;
  p_metrics : Pool.poolMetrics;
}.
Arguments mkPool {H A Schema}. Arguments p_n {H A Schema}. Arguments p_cache {H A Schema}.
Arguments p_handler {H A Schema}. Arguments p_ack {H A Schema}. Arguments p_metrics {H A Schema}.

(** [worker.New] *)
Definition newPool {H A Schema} (n : Z) (cache : @Schema.Cache Schema) (handler : H) (ack : AckFn A)
    : Pool H A Schema :=
  mkPool n cache handler ack Pool.newPoolMetrics.

(** [Pool.Run] in world [w]: the workers start. *)
Definition start {H A Schema W} (p : Pool H A Schema) (w : W) : @Pool.PSys W Schema :=
  Pool.Run (Z.to_nat (p_n p)) (Pool.mkState (p_metrics p) (p_cache p) w []).

(** [App.ack] works on the committer and the subscribers of the application. *)
Definition appAck : AckFn (Committer.Committer * list Subscriber.Subscriber) := fun e '(c, ss) => (tt, App.ack e c ss).

(** ** The store, the client and its credentials *)

(** [storage.Store]; [D] is the pool of connections. *)
Record Store (D : Type) := mkStore { store_pool : D }.
Arguments mkStore {D}. Arguments store_pool {D}.

Definition NewStore {D} (pool : D) : Store D := mkStore pool.

(** [pubsub.Client]; [G] is the connection, on which the generated stub is built too. *)
Record Client (G : Type) := mkClient { conn : G; grpc : G }.
Arguments mkClient {G}. Arguments conn {G}. Arguments grpc {G}.

Definition newClient {G} (c : G) : Client G := mkClient c c.

(** [perRPCCredentials]: the token provider, asked before every call. *)
Record perRPCCredentials := mkPerRPCCredentials { tp : Auth.Provider }.

Definition newPerRPCCredentials (p : Auth.Provider) : perRPCCredentials := mkPerRPCCredentials p.

(** What closing each of them releases. *)
Definition Client_Close : list App.action := [App.Closed App.GrpcClient].
Definition Store_Close : list App.action := [App.Closed App.DBPool].
Definition Producer_Close : list App.action := [App.Closed App.KafkaProducer].
Definition Cache_Close : list App.action := [App.Closed App.RedisClient].

End Wiring.
