(* ===== verification/Launch.v ===== *)
(** * Start-up in detail

    What the constructors pass to the libraries and what they build: [pubsub.Dial],
    [storage.NewPool], [kafka.New], [rediscache.New], [log.New], the options of
    [auth.New], and [app.New] composed of them. App.v keeps of a start only which
    constructor failed; here [New] is written with the constructors themselves and shown
    to refine it. The libraries are parameters. *)

From S2P Require Import Prelude Backoff Config Auth Schema Committer Subscriber Storage Sinks Pool App Wiring.
#[local] Open Scope Z_scope.

Module Launch.

(** A pointer that is not nil. *)
Definition isSome {A} (o : option A) : bool := match o with Some _ => true | None => false end.

(** ** Options handed to the libraries *)

Inductive tlsVersion := VersionTLS10 | VersionTLS11 | VersionTLS12 | VersionTLS13.

Inductive dialOption :=
| WithTransportCredentials (minVersion : tlsVersion)
| WithPerRPCCredentials (c : Wiring.perRPCCredentials)
| WithKeepaliveParams (time timeout : Z) (permitWithoutStream : bool)
| WithUnaryInterceptor.

Inductive acks := NoAck | LeaderAck | AllISRAcks.
Inductive codec := SnappyCompression | NoCompression.

Inductive kgoOption :=
| SeedBrokers (brokers : list string)
| ClientID (id : string)
| DefaultProduceTopic (topic : string)
| RequiredAcks (a : acks)
| ProducerBatchCompression (preference : list codec)
| RecordDeliveryTimeout (d : Z).

Record redisOptions := mkRedisOptions { Addr : string; Password : string; DB : Z }.

(** A pool configuration: what was parsed from the DSN and the two fields that are set. *)
Record poolConfig (C : Type) := mkPoolConfig { parsedDSN : C; pool_MaxConns : Z; HealthCheckPeriod : Z }.
Arguments mkPoolConfig {C}. Arguments parsedDSN {C}. Arguments pool_MaxConns {C}. Arguments HealthCheckPeriod {C}.

Definition poolHealthCheckPeriod : Z := 30 * Second.

(** ** The logger *)

Record Logger (L : Type) := mkLogger { level : L; timeKey : string; messageKey : string; fields : list (string * string) }.
Arguments mkLogger {L}. Arguments level {L}. Arguments timeKey {L}. Arguments messageKey {L}. Arguments fields {L}.

Definition serviceName : string := "pubsub-event-processor".

(** [log.New]: only the level can be wrong. *)
Definition newLogger {L} (parseLevel : string -> result L) (lvl version : string) : result (Logger L) :=
  match parseLevel lvl with
  | Err err => Err (Wrap [Lit "parse log level "; Quoted lvl] err)
  | Ok l => Ok (mkLogger l "ts" "msg" [("service", serviceName); ("version", version)]%string)
  end.

(** ** The token provider's options *)

Inductive option_ := WithDefaultTTL (d : Z) | WithRefreshAhead (d : Z).

Definition applyOption (p : Auth.Provider) (o : option_) : Auth.Provider :=
  match o with
  | WithDefaultTTL d => Auth.mkProvider (Auth.cfg p) (Auth.refreshAhead p) d (Auth.cached p) (Auth.expiresAt p) (Auth.refreshTotal p)
  | WithRefreshAhead d => Auth.mkProvider (Auth.cfg p) d (Auth.defaultTTL p) (Auth.cached p) (Auth.expiresAt p) (Auth.refreshTotal p)
  end.

Definition newProvider (c : Config.SalesforceConfig) (opts : list option_) : Auth.Provider :=
  foldl applyOption (Auth.New c) opts.

Section Libraries.
(** Connections of gRPC, of the database, of Kafka and of Redis; a parsed DSN; a parsed
    schema. *)
Context {G D K R C S : Type} `{KafkaClient K}.
Context (grpc_NewClient : string -> list dialOption -> result G).
Context (pgxpool_ParseConfig : string -> result C).
Context (pgxpool_NewWithConfig : poolConfig C -> result D).
Context (kgo_NewClient : list kgoOption -> result K).
Context (redis_NewClient : redisOptions -> R).

(** [perRPCCredentials.RequireTransportSecurity] *)
Definition RequireTransportSecurity (c : Wiring.perRPCCredentials) : bool := true.

Definition dialOptions (tp : Auth.Provider) : list dialOption :=
  [WithTransportCredentials VersionTLS12; WithPerRPCCredentials (Wiring.newPerRPCCredentials tp);
   WithKeepaliveParams (30 * Second) (10 * Second) true; WithUnaryInterceptor].

(** [pubsub.Dial] *)
Definition Dial (cfg : Config.PubSubConfig) (tp : Auth.Provider) : result (Wiring.Client G) :=
  match grpc_NewClient (Config.Endpoint cfg) (dialOptions tp) with
  | Err err => Err (Wrap [Lit "grpc new client"] err)
  | Ok conn => Ok (Wiring.newClient conn)
  end.

(** [storage.NewPool] *)
Definition NewPool (dsn : string) (maxConns : Z) : result D :=
  match pgxpool_ParseConfig dsn with
  | Err err => Err (Wrap [Lit "parse dsn"] err)
  | Ok c =>
      match pgxpool_NewWithConfig (mkPoolConfig c (Storage.poolMaxConns maxConns) poolHealthCheckPeriod) with
      | Err err => Err (Wrap [Lit "new pool"] err)
      | Ok pool => Ok pool
      end
  end.

Definition kgoOptions (cfg : Config.KafkaConfig) : list kgoOption :=
  [SeedBrokers (Config.Brokers cfg); ClientID (Config.Kafka_ClientID cfg); DefaultProduceTopic (Config.Kafka_Topic cfg);
   RequiredAcks AllISRAcks; ProducerBatchCompression [SnappyCompression; NoCompression];
   RecordDeliveryTimeout (Config.ProduceTimeout cfg)].

(** [kafka.New] *)
Definition newProducer (cfg : Config.KafkaConfig) : result (Kafka.Producer K) :=
  match kgo_NewClient (kgoOptions cfg) with
  | Err err => Err (Wrap [Lit "new kafka client"] err)
  | Ok client =>
      Ok (Kafka.mkProducer client (Config.Kafka_Topic cfg) (Config.TopicPartitions cfg)
            (Config.TopicReplicationFactor cfg) 0 0 0 0)
  end.

(** [rediscache.New] *)
Definition newCache (cfg : Config.RedisConfig) : RedisCache.Cache R :=
  RedisCache.mkCache (redis_NewClient (mkRedisOptions (Config.Redis_Addr cfg) (Config.Redis_Password cfg) (Config.Redis_DB cfg)))
    (Config.KeyPrefix cfg) (Config.TTL cfg) 0 0 ∅.

(** ** app.New *)

(** The handler over these connections, and the worker pool that runs it; [S] is a parsed
    schema. *)
Definition Root : Type := Wiring.handler (Wiring.Store D) (Kafka.Producer K) (RedisCache.Cache R).
Definition Workers : Type := Wiring.Pool Root (Committer.Committer * list Subscriber.Subscriber) S.

Record Graph := mkGraph {
  g_client : Wiring.Client G;
  g_store : Wiring.Store D;
  g_subs : list Subscriber.Subscriber;
  g_cursor : Committer.Committer;
  g_producer : option (Kafka.Producer K);
  g_redis : option (RedisCache.Cache R);
  g_checkers : list string;
  g_pool : Workers;
  g_addr : string;
}.

(** The part after the Kafka block. *)
Definition finish (cfg : Config.Config) (client : Wiring.Client G) (store : Wiring.Store D) (producer : option (Kafka.Producer K))
    (acts : list App.action) : result Graph * list App.action :=
  let redis := if Config.Redis_Enabled (Config.Redis cfg) then Some (newCache (Config.Redis cfg)) else None in
  let root := Wiring.newRoot store producer redis in
  (Ok (mkGraph client store (App.newSubs cfg) Committer.NewCommitter producer redis
         (["auth"; "database"]%string ++ (if isSome producer then ["kafka"%string] else []) ++ (if isSome redis then ["redis"%string] else []))
         (Wiring.newPool (Config.Count (Config.Worker cfg)) Schema.NewCache root Wiring.appAck) (Config.HTTP_Addr (Config.HTTP cfg))),
   acts ++ (if isSome redis then [App.Opened App.RedisClient] else [])).

Definition New (cfg : Config.Config) : result Graph * list App.action :=
  match Dial (Config.PubSub cfg) (newProvider (Config.Salesforce cfg) []) with
  | Err err => (Err (Wrap [Lit "pubsub dial"] err), [])
  | Ok client =>
      match NewPool (Config.URL_ (Config.Database cfg)) (Config.MaxConns (Config.Database cfg)) with
      | Err err => (Err (Wrap [Lit "database pool"] err), App.Opened App.GrpcClient :: Wiring.Client_Close)
      | Ok pool =>
          let store := Wiring.NewStore pool in
          let acts := [App.Opened App.GrpcClient; App.Opened App.DBPool] in
          if Config.Kafka_Enabled (Config.Kafka cfg) then
            match newProducer (Config.Kafka cfg) with
            | Err err => (Err (Wrap [Lit "kafka producer"] err), acts ++ Wiring.Store_Close ++ Wiring.Client_Close)
            | Ok producer =>
                let acts := acts ++ [App.Opened App.KafkaProducer] in
                if Config.CreateTopic (Config.Kafka cfg) then
                  match Kafka.EnsureTopic producer with
                  | (Some err, _) =>
                      (Err (Wrap [Lit "ensure kafka topic"] err),
                       acts ++ Wiring.Producer_Close ++ Wiring.Store_Close ++ Wiring.Client_Close)
                  | (None, producer') => finish cfg client store (Some producer') acts
                  end
                else finish cfg client store (Some producer) acts
            end
          else finish cfg client store None acts
      end
  end.

(** The channel of events that [Run] makes: an [int] product. *)
Definition eventsCapacity (cfg : Config.Config) : Z := wrapS64 (Config.FlowBatchSize (Config.Worker cfg) * 2).

(** [run] of src/cmd/processor/main.go: load, logger, migrations, application; [migrate]
    is the outcome of the migrations of a database, [wait] what the group of [Run] ends
    with. *)
Definition run {L} (url_Parse : string -> result Config.URL) (parsed : result Config.Config)
    (parseLevel : string -> result L) (version : string) (migrate : string -> option error)
    (wait : option error) : option error * list App.action :=
  match Config.Load url_Parse parsed with
  | Err err => (Some err, [])
  | Ok cfg =>
      match newLogger parseLevel (Config.LogLevel cfg) version with
      | Err err => (Some err, [])
      | Ok _ =>
          match migrate (Config.URL_ (Config.Database cfg)) with
          | Some err => (Some err, [])
          | None =>
              match New cfg with
              | (Err err, acts) => (Some err, acts)
              | (Ok g, acts) =>
                  let closing :=
                    (if isSome (g_redis g) then Wiring.Cache_Close else [])
                    ++ (if isSome (g_producer g) then Wiring.Producer_Close else [])
                    ++ Wiring.Store_Close ++ Wiring.Client_Close in
                  (match App.runResult wait with
                   | Some err => if errors_Is err "context.Canceled" then None else Some err
                   | None => None
                   end, acts ++ closing)
              end
          end
      end
  end.

(** ** Refinement *)

Definition errOf {A} (r : result A) : option error := match r with Ok _ => None | Err err => Some err end.

(** What the constructors answer, as App.v sees it. *)
Definition envOf (cfg : Config.Config) : App.newEnv :=
  App.mkNewEnv (errOf (Dial (Config.PubSub cfg) (newProvider (Config.Salesforce cfg) [])))
    (errOf (NewPool (Config.URL_ (Config.Database cfg)) (Config.MaxConns (Config.Database cfg))))
    (errOf (newProducer (Config.Kafka cfg)))
    (match newProducer (Config.Kafka cfg) with
     | Ok producer => (Kafka.EnsureTopic producer).1
     | Err _ => None
     end).

(** The parts of a graph that App.v keeps. *)
Definition abstract (cfg : Config.Config) (g : Graph) : App.App :=
  App.mkApp cfg (g_subs g) (g_cursor g) (isSome (g_producer g)) (isSome (g_redis g))
    (g_checkers g) (Wiring.p_n (g_pool g)).

(** ** What a started application was built with *)

Definition secure (opts : list dialOption) : Prop :=
  WithTransportCredentials VersionTLS12 ∈ opts /\
  forall c, WithPerRPCCredentials c ∈ opts -> RequireTransportSecurity c = true.

(** The producer and the topic it may have created. *)
Definition producerOf (cfg : Config.KafkaConfig) (p : Kafka.Producer K) : Prop :=
  exists client, kgo_NewClient (kgoOptions cfg) = Ok client /\ RequiredAcks AllISRAcks ∈ kgoOptions cfg /\
    Kafka.topic p = Config.Kafka_Topic cfg /\ Config.Kafka_Topic cfg <> ""%string /\
    (Config.CreateTopic cfg = true ->
     exists e, (createTopic (Config.TopicPartitions cfg) (Config.TopicReplicationFactor cfg) (Config.Kafka_Topic cfg) client).1 = e /\
       (e = None \/ exists err, e = Some err /\ Kafka.isTopicAlreadyExists err = true) /\
       1 <= Config.TopicPartitions cfg /\ 1 <= Config.TopicReplicationFactor cfg).

Lemma ensured cfg p : newProducer cfg = Ok p -> (Kafka.EnsureTopic p).1 = None ->
  exists e, (createTopic (Config.TopicPartitions cfg) (Config.TopicReplicationFactor cfg) (Config.Kafka_Topic cfg) (Kafka.client p)).1 = e /\
    (e = None \/ exists err, e = Some err /\ Kafka.isTopicAlreadyExists err = true).
Proof.
  unfold newProducer, Kafka.EnsureTopic. destruct (kgo_NewClient _) as [cl|]; [|done]. intros [= <-]. simpl.
  destruct (createTopic _ _ _ cl) as [[e|] cl'] eqn:E; eexists; (split; [done|]); simpl; [|by left].
  destruct (Kafka.isTopicAlreadyExists e) eqn:Ei; [|done]. right. by exists e.
Qed.

(** The successful runs of [New], piece by piece. *)
Lemma New_Ok cfg g acts : New cfg = (Ok g, acts) ->
  Dial (Config.PubSub cfg) (newProvider (Config.Salesforce cfg) []) = Ok (g_client g) /\
  NewPool (Config.URL_ (Config.Database cfg)) (Config.MaxConns (Config.Database cfg)) = Ok (Wiring.store_pool (g_store g)) /\
  g_subs g = App.newSubs cfg /\ g_cursor g = Committer.NewCommitter /\
  g_pool g = Wiring.newPool (Config.Count (Config.Worker cfg)) Schema.NewCache
    (Wiring.newRoot (g_store g) (g_producer g) (g_redis g)) Wiring.appAck /\
  (Config.Kafka_Enabled (Config.Kafka cfg) = isSome (g_producer g)) /\
  g_redis g = (if Config.Redis_Enabled (Config.Redis cfg) then Some (newCache (Config.Redis cfg)) else None) /\
  (forall p, g_producer g = Some p -> Config.Kafka_Enabled (Config.Kafka cfg) = true /\
     exists p0, newProducer (Config.Kafka cfg) = Ok p0 /\ Kafka.topic p = Kafka.topic p0 /\
       (Config.CreateTopic (Config.Kafka cfg) = true -> (Kafka.EnsureTopic p0).1 = None)).
Proof.
  unfold New. destruct (Dial _ _) as [conn|]; [|done]. destruct (NewPool _ _) as [pool|]; [|done]. cbv zeta.
  destruct (Config.Kafka_Enabled _).
  2: { unfold finish. intros [= <- _]. simpl. split_and!; try done. }
  destruct (newProducer _) as [p0|] eqn:Ep; [|done]. destruct (Config.CreateTopic _) eqn:Ec.
  - destruct (Kafka.EnsureTopic p0) as [[e|] p'] eqn:Ee; [done|]. unfold finish. intros [= <- _]. simpl. split_and!; try done.
    intros p [= <-]. split; [done|]. exists p0. split; [done|]. rewrite Ee. split; [|done].
    unfold Kafka.EnsureTopic in Ee. destruct (createTopic _ _ _ _) as [[x|] y]; [|by simplify_eq].
    destruct (Kafka.isTopicAlreadyExists x); by simplify_eq.
  - unfold finish. intros [= <- _]. simpl. split_and!; try done. intros p [= <-]. split; [done|]. by exists p0.
Qed.

(** ** The outcome of a start *)

(** What can fail, in the order it is tried: its error, and what it opens otherwise. The
    start stops at the first error. *)
Fixpoint firstFailure (l : list (option error * list App.resource)) : option error * list App.resource :=
  match l with
  | [] => (None, [])
  | (Some err, _) :: _ => (Some err, [])
  | (None, opened) :: rest => let '(r, more) := firstFailure rest in (r, opened ++ more)
  end.

(** What a start under a configuration tries: every call of a library with the messages
    that its error is given on the way up. *)
Definition attempts {L} (parseLevel : string -> result L) (migrate : string -> option error) (cfg : Config.Config)
    : list (option error * list App.resource) :=
  let wrapped msgs (e : option error) : option error := foldr (fun msg e => Wrap [Lit msg] <$> e) e msgs in
  let url := Config.URL_ (Config.Database cfg) in
  let kafka := Config.Kafka cfg in
  [(Wrap [Lit "parse log level "; Quoted (Config.LogLevel cfg)] <$> errOf (parseLevel (Config.LogLevel cfg)), []);
   (migrate url, []);
   (wrapped ["pubsub dial"; "grpc new client"]
      (errOf (grpc_NewClient (Config.Endpoint (Config.PubSub cfg)) (dialOptions (newProvider (Config.Salesforce cfg) [])))),
    [App.GrpcClient]);
   (wrapped ["database pool"; "parse dsn"] (errOf (pgxpool_ParseConfig url)), []);
   (match pgxpool_ParseConfig url with
    | Ok c => wrapped ["database pool"; "new pool"] (errOf (pgxpool_NewWithConfig
        (mkPoolConfig c (Storage.poolMaxConns (Config.MaxConns (Config.Database cfg))) poolHealthCheckPeriod)))
    | Err _ => None
    end, [App.DBPool])]%string
  ++ (if Config.Kafka_Enabled kafka then
        [(wrapped ["kafka producer"; "new kafka client"]%string (errOf (kgo_NewClient (kgoOptions kafka))), [App.KafkaProducer])]
        ++ (if Config.CreateTopic kafka then
              [(match newProducer kafka with
                | Ok p => wrapped ["ensure kafka topic"]%string (Kafka.EnsureTopic p).1
                | Err _ => None
                end, [])]
            else [])
      else [])
  ++ (if Config.Redis_Enabled (Config.Redis cfg) then [(None, [App.RedisClient])] else []).

Lemma eventsCapacity_spec cfg :
  1 <= Config.FlowBatchSize (Config.Worker cfg) -> in_S64 (Config.FlowBatchSize (Config.Worker cfg)) ->
  (0 <= eventsCapacity cfg <-> Config.FlowBatchSize (Config.Worker cfg) < 2 ^ 62) /\
  (Config.FlowBatchSize (Config.Worker cfg) < 2 ^ 62 -> eventsCapacity cfg = 2 * Config.FlowBatchSize (Config.Worker cfg)).
Proof.
  unfold eventsCapacity, in_S64. set (n := Config.FlowBatchSize _). intros H1 H2.
  destruct (decide (n < 2 ^ 62)) as [Hn|Hn].
  - assert (wrapS64 (n * 2) = 2 * n) as -> by (rewrite wrapS64_id; [lia|unfold in_S64; lia]). lia.
  - assert (wrapS64 (n * 2) < 0); [|lia]. unfold wrapS64.
    rewrite <- (Z_mod_plus_full _ (-1)), Z.mod_small by lia. lia.
Qed.

(** ** Properties *)

Lemma New_refines cfg :
  App.New cfg (envOf cfg) =
    (match (New cfg).1 with Ok g => Ok (abstract cfg g) | Err err => Err err end, (New cfg).2).
Proof.
  unfold New, App.New, envOf. cbn [App.dialErr App.poolErr App.kafkaErr App.ensureErr].
  destruct (Dial _ _) as [conn|]; [|done]. destruct (NewPool _ _) as [pool|]; [|done]. cbn [errOf]. cbv zeta.
  unfold finish, App.newTail, abstract.
  destruct (Config.Kafka_Enabled _), (Config.Redis_Enabled _); try done;
    (destruct (newProducer _) as [p|]; [|done]); cbn [errOf]; destruct (Config.CreateTopic _); try done;
    by destruct (Kafka.EnsureTopic p) as [[e|] p'].
Qed.

(** The whole run is that of App.v. *)
Lemma run_refines {L} url_Parse parsed (parseLevel : string -> result L) version migrate wait closeErr :
  run url_Parse parsed parseLevel version migrate wait =
    match Config.Load url_Parse parsed with
    | Err err => App.run (Err err) None None (App.mkNewEnv None None None None) wait closeErr
    | Ok cfg =>
        App.run (Ok cfg) (errOf (newLogger parseLevel (Config.LogLevel cfg) version))
          (migrate (Config.URL_ (Config.Database cfg))) (envOf cfg) wait closeErr
    end.
Proof.
  unfold run, App.run. destruct (Config.Load _ _) as [cfg|]; [|done].
  destruct (newLogger _ _ _); [|done]. cbn [errOf]. destruct (migrate _); [done|]. rewrite New_refines.
  destruct (New cfg) as [[g|err] acts]; [|done]. cbn [fst snd abstract App.Close App.app_redis App.app_producer].
  destruct (App.runResult wait) as [err|]; [|done]. by destruct (errors_Is err _).
Qed.

(** What is closed after a run of the application, and what the run returns. *)
Lemma closing_spec cfg g acts : New cfg = (Ok g, acts) ->
  (if isSome (g_redis g) then Wiring.Cache_Close else []) ++ (if isSome (g_producer g) then Wiring.Producer_Close else [])
  ++ Wiring.Store_Close ++ Wiring.Client_Close = App.Closed <$> reverse (App.opens cfg).
Proof.
  intros HN. destruct (New_Ok _ _ _ HN) as (_ & _ & _ & _ & _ & Hk & Hr & _). unfold App.opens. rewrite Hk, Hr.
  by destruct (isSome (g_producer g)), (Config.Redis_Enabled _).
Qed.

Lemma attempts_New {L} (parseLevel : string -> result L) migrate cfg l :
  parseLevel (Config.LogLevel cfg) = Ok l -> migrate (Config.URL_ (Config.Database cfg)) = None ->
  let '(err, opened) := firstFailure (attempts parseLevel migrate cfg) in
  match New cfg with
  | (Err e, acts) => err = Some e /\ acts = (App.Opened <$> opened) ++ (App.Closed <$> reverse opened)
  | (Ok _, acts) => err = None /\ opened = App.opens cfg /\ acts = App.Opened <$> opened
  end.
Proof.
  intros Hl Hm. unfold attempts, New, Dial, NewPool, newProducer, App.opens. cbv zeta. rewrite Hl, Hm.
  destruct (grpc_NewClient _ _) as [conn|]; [|done].
  destruct (pgxpool_ParseConfig _) as [c|]; [|done]. destruct (pgxpool_NewWithConfig _) as [pool|]; [|done].
  unfold finish. destruct (Config.Kafka_Enabled _).
  - destruct (kgo_NewClient _) as [k|]; [|done]. destruct (Config.CreateTopic _).
    + destruct (Kafka.EnsureTopic _) as [[e|] p]; [done|]. by destruct (Config.Redis_Enabled _).
    + by destruct (Config.Redis_Enabled _).
  - by destruct (Config.Redis_Enabled _).
Qed.

(** C27. A start that fails says why and leaves nothing open. With no valid configuration
    nothing is tried. Otherwise the logger, the migrations, the gRPC connection, the DSN,
    the connection pool, the Kafka client, its topic and the cache are tried in this
    order, the last three only if they are configured; the process ends with the error of
    the first that fails, under the messages of the constructors above it, and the
    connections opened until then are closed in the reverse order, those after it never
    opened. When nothing fails everything configured is opened, the process ends with
    the error of its group, cancellation not being one, and closes in reverse order. *)
Theorem start_outcome {L} url_Parse parsed (parseLevel : string -> result L) version migrate wait r acts :
  run url_Parse parsed parseLevel version migrate wait = (r, acts) ->
  match Config.Load url_Parse parsed with
  | Err err => r = Some err /\ acts = []
  | Ok cfg =>
      let '(err, opened) := firstFailure (attempts parseLevel migrate cfg) in
      acts = (App.Opened <$> opened) ++ (App.Closed <$> reverse opened) /\
      match err with
      | Some e => r = Some e
      | None => opened = App.opens cfg /\
          match wait with
          | Some e => r = if errors_Is e "context.Canceled" then None else Some e
          | None => r = None
          end
      end
  end.
Proof.
  unfold run. destruct (Config.Load _ _) as [cfg|e]; [|by intros; simplify_eq].
  unfold newLogger. destruct (parseLevel _) as [l|e] eqn:Hl.
  2: { intros. simplify_eq. unfold attempts. cbv zeta. by rewrite Hl. }
  destruct (migrate _) as [e|] eqn:Hm.
  { intros. simplify_eq. unfold attempts. cbv zeta. by rewrite Hl, Hm. }
  pose proof (attempts_New parseLevel migrate cfg l Hl Hm) as Ha. pose proof (closing_spec cfg) as Hc.
  destruct (firstFailure _) as [err opened]. destruct (New cfg) as [[g|e] acts0].
  - destruct Ha as (-> & -> & ->). rewrite (Hc _ _ eq_refl). intros Hr. injection Hr as <- <-. split; [done|].
    split; [done|]. unfold App.runResult. destruct wait as [e|]; [|done].
    destruct (errors_Is e _) eqn:Ei; [done|]. by rewrite Ei.
  - destruct Ha as [-> ->]. intros. by simplify_eq.
Qed.

(** C28. An application started from a loaded configuration has the sizes it asks for.
    The pool of connections holds exactly the configured number (no truncation to 32
    bits) and the worker pool has exactly the configured number of workers, at least one.
    There is one subscriber per topic, at least one, and it requests the batch size, or
    2^31 - 1 when the configured one is above that. There is a producer when Kafka is
    enabled and a cache when Redis is; the cache has the configured address, prefix and
    time to live, which is positive; the topic is the configured one, created if asked
    for with positive counts. The channel of events gets twice the batch size, as long as
    that is below 2^62: from there on the product is negative. The gRPC connection always
    uses TLS 1.2 or later and credentials that insist on it; Kafka writes wait for all
    in-sync replicas. *)
Theorem started_as_configured url_Parse parsed cfg g acts :
  Config.Load url_Parse parsed = Ok cfg -> in_S64 (Config.FlowBatchSize (Config.Worker cfg)) ->
  New cfg = (Ok g, acts) ->
  (exists opts, grpc_NewClient (Config.Endpoint (Config.PubSub cfg)) opts = Ok (Wiring.conn (g_client g)) /\ secure opts) /\
  (exists c, pgxpool_NewWithConfig (mkPoolConfig c (Config.MaxConns (Config.Database cfg)) poolHealthCheckPeriod) = Ok (Wiring.store_pool (g_store g))) /\
  Subscriber.topic <$> g_subs g = Config.Topics (Config.PubSub cfg) /\ g_subs g <> [] /\
  Forall (fun s => Subscriber.batchSize s = Z.min (Config.FlowBatchSize (Config.Worker cfg)) Backoff.maxInt32 /\
                   1 <= Subscriber.batchSize s) (g_subs g) /\
  (Wiring.p_n (g_pool g) = Config.Count (Config.Worker cfg) /\ 1 <= Config.Count (Config.Worker cfg)) /\
  (is_Some (g_producer g) <-> Config.Kafka_Enabled (Config.Kafka cfg) = true) /\
  (forall p, g_producer g = Some p -> producerOf (Config.Kafka cfg) p) /\
  (is_Some (g_redis g) <-> Config.Redis_Enabled (Config.Redis cfg) = true) /\
  (forall c, g_redis g = Some c ->
     RedisCache.client c = redis_NewClient (mkRedisOptions (Config.Redis_Addr (Config.Redis cfg))
       (Config.Redis_Password (Config.Redis cfg)) (Config.Redis_DB (Config.Redis cfg))) /\
     RedisCache.prefix c = Config.KeyPrefix (Config.Redis cfg) /\
     RedisCache.ttl c = Config.TTL (Config.Redis cfg) /\ 0 < Config.TTL (Config.Redis cfg)) /\
  (0 <= eventsCapacity cfg <-> Config.FlowBatchSize (Config.Worker cfg) < 2 ^ 62) /\
  (Config.FlowBatchSize (Config.Worker cfg) < 2 ^ 62 -> eventsCapacity cfg = 2 * Config.FlowBatchSize (Config.Worker cfg)).
Proof.
  intros [_ [Vc Vb Vm [Vt _] _ _ Vr Vk _]%Config.validateErrs_nil]%Config.Load_cases Hw HN.
  destruct (New_Ok _ _ _ HN) as (Hd & Hp & Hs & _ & Hn & Hke & Hr & Hk).
  split. { unfold Dial in Hd. destruct (grpc_NewClient _ _) as [c|] eqn:E; [|done]. injection Hd as <-. eexists. split; [exact E|].
           split; [set_solver|]. unfold dialOptions. set_solver. }
  split. { unfold NewPool in Hp. destruct (pgxpool_ParseConfig _) as [c|]; [|done]. exists c.
           unfold Storage.poolMaxConns in Hp. rewrite wrapS32_id in Hp by (unfold in_S32; lia).
           by destruct (pgxpool_NewWithConfig _). }
  rewrite Hs, Hn. unfold App.newSubs. split; [by rewrite <- list_fmap_compose, list_fmap_id|].
  split; [by destruct (Config.Topics _)|]. split.
  { apply Forall_fmap, Forall_forall. intros t _. simpl. rewrite Backoff.clampToInt32_spec.
    unfold Backoff.maxInt32. rewrite wrapS32_id by (unfold in_S32; lia). lia. }
  split; [done|]. split; [rewrite Hke; destruct (g_producer g); simpl; naive_solver|].
  split; [|split; [rewrite Hr; destruct (Config.Redis_Enabled _); naive_solver|split; [|by apply eventsCapacity_spec]]].
  - intros p Hp'. destruct (Hk _ Hp') as (He & p0 & Hp0 & Ht & Hc). destruct (Vk He) as [_ Ktop _ Kcr].
    pose proof (ensured _ _ Hp0) as Hen. unfold newProducer in Hp0. destruct (kgo_NewClient _) as [cl|] eqn:Ek; simplify_eq.
    exists cl. split_and!; try done; [set_solver|]. intros HC. destruct (Hen (Hc HC)) as (e & E1 & E2).
    exists e. split_and!; try done; by apply Kcr.
  - intros c. rewrite Hr. destruct (Config.Redis_Enabled _); [|done]. intros [= <-]. simpl. split_and!; try done. by apply Vr.
Qed.

End Libraries.

(** ** Examples: libraries that accept everything *)

Definition acceptGrpc (endpoint : string) (opts : list dialOption) : result string := Ok endpoint.
Definition acceptDSN (dsn : string) : result string := Ok dsn.
Definition acceptPool (c : poolConfig string) : result (poolConfig string) := Ok c.
Definition acceptKafka (opts : list kgoOption) : result Sinks.memKafka := Ok (Sinks.mkMemKafka [] true).
Definition acceptRedis (o : redisOptions) : Sinks.memRedis := Sinks.mkMemRedis ∅ true.

Definition demoConfig : Config.Config := Config.demoConfig ["/event/Order__e"; "/event/Invoice__e"]%string.
Definition demoNew := New (S := string) acceptGrpc acceptDSN acceptPool acceptKafka acceptRedis.

Definition demoGraph : Graph :=
  match (demoNew demoConfig).1 with
  | Ok g => g
  | Err _ =>
      let store := Wiring.NewStore (mkPoolConfig "" 0 0) in
      mkGraph (Wiring.newClient "") store [] Committer.NewCommitter None None []
        (Wiring.newPool 0 Schema.NewCache (Wiring.newRoot store None None) Wiring.appAck) ""
  end.

Lemma demoNew_graph : demoNew demoConfig = (Ok demoGraph, (demoNew demoConfig).2).
Proof.
  assert (is_Ok (demoNew demoConfig).1 = true) as Hok by (by vm_compute).
  unfold demoGraph. by destruct (demoNew demoConfig) as [[g|err] acts].
Qed.

(** Kafka cannot be reached: the error, and the two connections opened until then. *)
Definition refuseKafka (opts : list kgoOption) : result Sinks.memKafka := Err (External "kgo" 3).

Lemma start_outcome_witness :
  run (S := string) acceptGrpc acceptDSN acceptPool refuseKafka acceptRedis Config.demoParse (Ok demoConfig)
    (fun l => Ok l) "v1" (fun _ => None) None =
  (Some (Wrap [Lit "kafka producer"] (Wrap [Lit "new kafka client"] (External "kgo" 3))),
   [App.Opened App.GrpcClient; App.Opened App.DBPool; App.Closed App.DBPool; App.Closed App.GrpcClient]).
Proof.
  destruct (run (S := string) acceptGrpc acceptDSN acceptPool refuseKafka acceptRedis Config.demoParse (Ok demoConfig)
    (fun l => Ok l) "v1" (fun _ => None) None) as [r acts] eqn:Hr.
  destruct (start_outcome acceptGrpc acceptDSN acceptPool refuseKafka acceptRedis Config.demoParse (Ok demoConfig)
    (fun l => Ok l) "v1" (fun _ => None) None r acts Hr) as [-> ->]. by vm_compute.
Defined.

Lemma started_as_configured_witness :
  pool_MaxConns (Wiring.store_pool (g_store demoGraph)) = 20 /\ Subscriber.batchSize <$> g_subs demoGraph = [100; 100] /\
  (0 <= eventsCapacity demoConfig <-> Config.FlowBatchSize (Config.Worker demoConfig) < 2 ^ 62) /\
  eventsCapacity demoConfig = 200.
Proof.
  split; [by vm_compute|]. split; [by vm_compute|].
  destruct (started_as_configured acceptGrpc acceptDSN acceptPool acceptKafka acceptRedis Config.demoParse (Ok demoConfig)
    demoConfig demoGraph (demoNew demoConfig).2) as (_ & _ & _ & _ & _ & _ & _ & _ & _ & _ & H1 & H2).
  - by vm_compute.
  - unfold in_S64. simpl. lia.
  - apply demoNew_graph.
  - split; [exact H1|]. rewrite H2; simpl; lia.
Defined.

(** A batch size of 2^62 is accepted, the application is built, and the channel [Run]
    asks for has a negative capacity, on which [make] panics. *)
Definition hugeConfig : Config.Config :=
  Config.mkConfig (Config.Salesforce demoConfig) (Config.PubSub demoConfig) (Config.Database demoConfig)
    (Config.Redis demoConfig) (Config.Kafka demoConfig) (Config.Sink demoConfig) (Config.HTTP demoConfig)
    (Config.mkWorker 8 (2 ^ 62)) (Config.LogLevel demoConfig).

Lemma huge_batch_is_accepted :
  Config.Load Config.demoParse (Ok hugeConfig) = Ok hugeConfig /\ is_Ok (demoNew hugeConfig).1 = true /\
  eventsCapacity hugeConfig = - 2 ^ 63.
Proof. by vm_compute. Qed.

End Launch.
