(* ===== verification/Assembly.v ===== *)
(** * The application that is built is the machine that is verified

    Launch.v builds the application, Pipeline.v runs one. Here the two meet: a machine
    starts in the state [app.New] leaves, its workers run the handler that was assembled
    and call the acknowledgement that was registered. *)

From S2P Require Import Prelude Event Schema Handler Config Committer CommitterSpec Subscriber Storage Sinks Pool App.
From S2P Require Import Pipeline Service Wiring Launch Deployment.

Module Assembly.
Import Proto Event Sinks.

Section Assembly.
(** The sinks, the network and the schemas of the machine. *)
Context {D N Schema : Type} `{PipelineLaws D} `{ClockLaws N}.
Context (json_Marshal : Handler.Envelope -> result (list Byte.byte)).
(** The libraries of the constructors. *)
Context {G P K R C : Type} `{KafkaClient K}.
Context (grpc_NewClient : string -> list Launch.dialOption -> result G).
Context (pgxpool_ParseConfig : string -> result C).
Context (pgxpool_NewWithConfig : Launch.poolConfig C -> result P).
Context (kgo_NewClient : list Launch.kgoOption -> result K).
Context (redis_NewClient : Launch.redisOptions -> R).

#[local] Abbreviation New := (Launch.New (S := Schema) grpc_NewClient pgxpool_ParseConfig pgxpool_NewWithConfig kgo_NewClient redis_NewClient).
#[local] Abbreviation Services := (@Pipeline.Services D N).

(** The committer and the subscribers are the application's own part of what the
    goroutines share. *)
Definition onOwn {A} (m : M (Committer.Committer * list Subscriber.Subscriber) A) : M Services A := fun w =>
  let '(a, (c, ss)) := m (Pipeline.cursor w, Pipeline.subs w) in
  (a, Pipeline.mkServices (Pipeline.net w) (Pipeline.sinks w) c ss).

Lemma built_handler (g : @Launch.Graph G P K R Schema) cfg :
  Wiring.p_handler (Launch.g_pool g) =
    Wiring.newRoot (Launch.g_store g) (Launch.g_producer g) (Launch.g_redis g) ->
  Config.Kafka_Enabled (Config.Kafka cfg) = Launch.isSome (Launch.g_producer g) ->
  Config.Redis_Enabled (Config.Redis cfg) = Launch.isSome (Launch.g_redis g) ->
  Wiring.Handle json_Marshal (Wiring.p_handler (Launch.g_pool g)) =
    Handler.rootHandler (Pipeline.kafka cfg) (Pipeline.redis cfg) json_Marshal (W := D).
Proof.
  intros -> Hk Hr. unfold Pipeline.kafka, Pipeline.redis. rewrite Hk, Hr, Wiring.newRoot_handles.
  by destruct (Launch.g_producer g), (Launch.g_redis g).
Qed.

(** ** Properties *)

(** C29. The machine that the properties of the service are about is the application that
    [app.New] builds. When the start succeeds, a process begins with the workers, the
    metrics and the empty schema cache of the pool that was constructed, with the
    committer and the subscribers that were constructed, one stream and one fan-in per
    subscriber; what its workers run is the handler that was assembled over the store, the
    producer when Kafka is enabled, and the cache around both when Redis is; and what they
    call when an event is finished is the acknowledgement the pool was given. *)
Theorem new_wires_service cfg g acts (s : D) (n : N) bs :
  New cfg = (Ok g, acts) ->
  let x := Pipeline.boot (Schema := Schema) cfg s n bs in
  Pipeline.pool x = Wiring.start (Launch.g_pool g) (Pipeline.mkServices n s (Launch.g_cursor g) (Launch.g_subs g)) /\
  length (Pipeline.taken x) = length (Launch.g_subs g) /\ length (Pipeline.streams x) = length (Launch.g_subs g) /\
  Pipeline.rootW (D := D) (N := N) json_Marshal cfg =
    (fun e => Pipeline.onSinks (Wiring.Handle json_Marshal (Wiring.p_handler (Launch.g_pool g)) e)) /\
  Pipeline.ackW (D := D) (N := N) = (fun e => onOwn (Wiring.p_ack (Launch.g_pool g) e)).
Proof.
  intros HN. destruct (Launch.New_Ok _ _ _ _ _ _ _ _ HN) as (_ & _ & Hs & Hc & Hp & Hk & Hr & _).
  assert (Config.Redis_Enabled (Config.Redis cfg) = Launch.isSome (Launch.g_redis g)) as Hr'
    by (rewrite Hr; by destruct (Config.Redis_Enabled _)).
  cbv zeta. rewrite (built_handler g cfg) by (try done; by rewrite Hp).
  rewrite Hp, Hs, Hc. simpl. by rewrite !length_replicate.
Qed.

End Assembly.

(** ** An example *)

Lemma new_wires_service_witness :
  let x := Pipeline.boot (D := memWorld) (N := nat) (Schema := string) Launch.demoConfig (memStart true true) 0%nat ∅ in
  length (Pool.ws (Pipeline.pool x)) = 8%nat /\ length (Pipeline.streams x) = 2%nat /\
  Pipeline.rootW (D := memWorld) (N := nat) demoEnvelope Launch.demoConfig =
    (fun e => Pipeline.onSinks (Wiring.Handle demoEnvelope (Wiring.p_handler (Launch.g_pool Launch.demoGraph)) e)).
Proof.
  destruct (new_wires_service (D := memWorld) (N := nat) demoEnvelope Launch.acceptGrpc Launch.acceptDSN Launch.acceptPool
    Launch.acceptKafka Launch.acceptRedis Launch.demoConfig Launch.demoGraph (Launch.demoNew Launch.demoConfig).2
    (memStart true true) 0%nat ∅ Launch.demoNew_graph) as (_ & _ & _ & Hroot & _).
  split; [by vm_compute|]. split; [by vm_compute|exact Hroot].
Defined.

End Assembly.
