(* ===== verification/Unencodable.v ===== *)
(** * Events without a JSON form

    src/internal/worker/pool.go skips an event that does not decode, because it fails the
    same way on every attempt and retrying it would hold the topic's cursor for ever. An
    event that decodes to a value JSON cannot express, such as an undefined number,
    fails the same way too, in [json.Marshal] of the persist handler, but it is retried:
    this file shows that its worker never finishes it. *)

From S2P Require Import Prelude Text Event Schema Handler Config Storage Subscriber Committer CommitterSpec.
From S2P Require Import Sinks Pool App Pipeline Json Number Encoding.
From Stdlib Require Import SpecFloat.
#[local] Open Scope Z_scope.

Module Unencodable.
Import Proto Event Sinks Pool.

(** ** A stage that can only fail *)

Section Retry.
Context {W Schema : Type} `{ClockLaws W}.

(** A property of the pool's state that looks at the world and the schemas, and that the
    clock leaves alone. *)
Context (Q : @State W Schema -> Prop).
Context (Q_ext : forall s s', cache s' = cache s -> world s' = world s -> Q s -> Q s').
Context (Q_ctx : forall s, Q s -> Q (onWorld ctx_Err s).2) (Q_sleep : forall d s, Q s -> Q (onWorld (sleep d) s).2).

(** A stage that leaves [Q] and makes no acknowledgement. *)
Definition keeps {A} (fn : M (@State W Schema) A) : Prop :=
  quiet fn /\ forall s, Q s -> Q (fn s).2.

Lemma retryOnce_keeps {A} stage delay (fn : M State (result A)) s x s1 :
  keeps fn -> Q s -> retryOnce stage delay fn s = (x, s1) -> Q s1 /\ ackedOf s1 = ackedOf s.
Proof.
  intros [Hq Hf] Hs E. pose proof (retryOnce_effects _ _ _ _ _ _ Hq E) as He. split.
  - unfold retryOnce in E. rewrite M_bind_unfold in E. specialize (Hf s Hs).
    destruct (fn s) as [[a|err] s2]; cbn [fst snd] in *; [runM; by simplify_eq|].
    rewrite M_bind_unfold in E. pose proof (Q_ctx _ Hf) as Hc.
    destruct (onWorld ctx_Err s2) as [[e|] s3]; cbn [fst snd] in *; [runM; by simplify_eq|].
    rewrite !M_bind_unfold in E. cbn [incFailed note fst snd] in E.
    set (s4 := (note (Slept stage delay) (incFailed stage s3).2).2) in E.
    assert (Q s4) as Hs4 by (by apply (Q_ext s3)). pose proof (Q_sleep delay _ Hs4) as Hsl.
    destruct (onWorld (sleep delay) s4) as [[] s5]; cbn [fst snd] in *; runM; by simplify_eq.
  - destruct x as [a| |]; [|done|].
    + unfold ackedOf. destruct (Hq s) as [_ Hq']. rewrite He in Hq'. simpl in Hq'. by rewrite Hq'.
    + destruct He as (He & _). unfold ackedOf. rewrite He, omap_app. simpl. by rewrite app_nil_r.
Qed.

Lemma retryFrom_keeps {A} fuel stage delay (fn : M State (result A)) s r s' :
  keeps fn -> Q s -> retryFrom fuel stage delay fn s = (r, s') ->
  Q s' /\ ackedOf s' = ackedOf s /\
  match r with
  | Some (Some a) => exists s0, Q s0 /\ fn s0 = (Ok a, s')
  | Some None => canceled (world s')
  | None => True
  end.
Proof.
  intros Hk. revert delay s. induction fuel as [|fuel IH]; intros delay s Hs; simpl.
  { intros Hr. runM. by simplify_eq. }
  rewrite M_bind_unfold. destruct (retryOnce stage delay fn s) as [x s1] eqn:E. cbn [fst snd].
  destruct (retryOnce_keeps _ _ _ _ _ _ Hk Hs E) as [Hs1 Ha].
  pose proof (retryOnce_effects _ _ _ _ _ _ (proj1 Hk) E) as He. destruct x as [a| |]; intros Hr.
  - runM. simplify_eq. split; [done|]. split; [done|]. by exists s.
  - runM. simplify_eq. split; [done|]. split; [done|]. by eapply retryOnce_gaveUp.
  - destruct (IH _ _ Hs1 Hr) as (? & Ha' & ?). split; [done|]. split; [congruence|done].
Qed.

(** A stage that fails whenever [Q] holds never succeeds. *)
Lemma retryFrom_doomed {A} fuel stage delay (fn : M State (result A)) s r s' :
  keeps fn -> (forall s, Q s -> is_Ok (fn s).1 = false) -> Q s ->
  retryFrom fuel stage delay fn s = (r, s') -> r = None \/ r = Some None.
Proof.
  intros Hk Hf Hs Hr. destruct (retryFrom_keeps _ _ _ _ _ _ _ Hk Hs Hr) as (_ & _ & Hx).
  destruct r as [[a|]|]; [|by right|by left]. destruct Hx as (s0 & Hs0 & He). specialize (Hf s0 Hs0). by rewrite He in Hf.
Qed.

End Retry.

(** ** The handler on a payload without a JSON form *)

Section Root.
Context {R K : Type} `{RedisLaws R} `{KafkaLaws K} `{Number.FloatText}.
Context (Local : Z -> Z) (kafka redis : bool).

#[local] Existing Instance World_SeenCache.
#[local] Existing Instance World_RecordProducer.
#[local] Instance U_EventStore : EventStore (World R K) := World_EventStore Encoding.marshalPayload.
#[local] Instance U_SinkLaws : Handler.SinkLaws (World R K) := World_SinkLaws Encoding.marshalPayload.

(** The cache does not claim the event. *)
Definition unmarked (id : string) (w : World R K) : Prop := redis = true -> ~ Handler.marked w id.

Lemma persist_refuses e (w : World R K) :
  Encoding.representable (AMap (Payload e)) = false -> exists err, PersistEvent e w = (Err err, w).
Proof.
  intros Hr. destruct (Encoding.marshalPayload_fails _ Hr) as [err He]. simpl. unfold onDB, Storage.PersistEvent.
  rewrite M_bind_unfold. unfold Storage.Upsert. rewrite He. destruct w as [d c p]. by eexists.
Qed.

Lemma chain_refuses e (w : World R K) :
  Encoding.representable (AMap (Payload e)) = false ->
  exists err, Handler.ChainHandle (if kafka then [Handler.PersistHandle; Handler.ForwardHandle (Encoding.marshalEnvelope Local)]
                                   else [Handler.PersistHandle]) e w = (Some err, w).
Proof.
  intros Hr. destruct (persist_refuses e w Hr) as [err He].
  assert (Handler.PersistHandle e w = (Some (Wrap [Lit "persist event "; Quoted (EventID e)] err), w)) as Hp.
  { unfold Handler.PersistHandle. by rewrite M_bind_unfold, He. }
  unfold Handler.ChainHandle. destruct kafka; cbn [Handler.ChainFrom]; rewrite M_bind_unfold, Hp; by eexists.
Qed.

Lemma root_refuses e (w : World R K) :
  Encoding.representable (AMap (Payload e)) = false -> unmarked (EventID e) w ->
  exists err w', Handler.rootHandler kafka redis (Encoding.marshalEnvelope Local) e w = (Some err, w') /\
    unmarked (EventID e) w'.
Proof.
  intros Hr Hu. unfold Handler.rootHandler. destruct redis eqn:Er.
  2: { destruct (chain_refuses e w Hr) as [err He]. exists err, w. split; [exact He|]. intros ?. congruence. }
  unfold Handler.DedupHandle. rewrite M_bind_unfold. destruct (Seen (EventID e) w) as [sr w1] eqn:Es. cbn [fst snd].
  assert (~ Handler.marked w1 (EventID e)) as Hu1.
  { intros Hm. apply (Hu Er). by apply (Handler.seen_keeps _ _ _ _ (EventID e) Es). }
  assert (exists err w', Handler.handleThenMark (Handler.ChainHandle (if kafka then
     [Handler.PersistHandle; Handler.ForwardHandle (Encoding.marshalEnvelope Local)] else [Handler.PersistHandle])) e w1
     = (Some err, w') /\ unmarked (EventID e) w') as Hn.
  { destruct (chain_refuses e w1 Hr) as [err He]. unfold Handler.handleThenMark. rewrite M_bind_unfold, He.
    exists err, w1. split; [done|]. by intros _. }
  destruct sr as [[]|]; [|done..]. exfalso. apply (Hu Er). by eapply Handler.seen_hit.
Qed.

End Root.

(** ** The worker *)

Section Service.
Context {R K N Schema : Type} `{RedisLaws R} `{KafkaLaws K} `{ClockLaws N} `{Number.FloatText}.
Context (src : string -> M N (result string)) (avro_Parse : string -> result Schema)
  (avro_Unmarshal : Schema -> list Byte.byte -> result payload) (Local : Z -> Z) (cfg : Config.Config).

#[local] Existing Instance World_SeenCache.
#[local] Existing Instance World_RecordProducer.
#[local] Existing Instance U_EventStore.
#[local] Existing Instance U_SinkLaws.

Abbreviation Services := (Pipeline.Services (D := World R K) (N := N)).
#[local] Instance S_Clock : Clock Services := Pipeline.Services_Clock.
#[local] Instance S_ClockLaws : ClockLaws Services := Pipeline.Services_ClockLaws.

#[local] Abbreviation source := (Pipeline.source (D := World R K) (N := N) src).

(** [process] of the deployed service. *)
Definition processEvent (fuel : nat) (raw : RawEvent) : M (@State Services Schema) (option unit) :=
  process source avro_Parse avro_Unmarshal
    (Pipeline.rootW (Encoding.marshalEnvelope Local) cfg) Pipeline.ackW fuel raw.

Definition eventID (raw : RawEvent) : string := GetId (GetEvent (raw_Event raw)).

(** With the schema that the source provides for the event's ID, the payload decodes to a
    value without a JSON form. *)
Definition unencodable (raw : RawEvent) : Prop :=
  forall sch, provides source avro_Parse (schemaIDOf raw) sch ->
    exists p, Schema.Decode avro_Unmarshal (Some sch) (GetPayload (GetEvent (raw_Event raw))) = Ok p /\
      Encoding.representable (AMap p) = false.

(** The cache does not claim the event. *)
Definition notMarked (raw : RawEvent) (w : Services) : Prop :=
  unmarked (Pipeline.redis cfg) (eventID raw) (Pipeline.sinks w).

(** And the schemas at hand are those of the source. *)
Definition ready (raw : RawEvent) (s : @State Services Schema) : Prop :=
  notMarked raw (world s) /\ cache_ok source avro_Parse (cache s).

Lemma ready_ext raw (s s' : @State Services Schema) :
  cache s' = cache s -> world s' = world s -> ready raw s -> ready raw s'.
Proof. unfold ready. by intros -> ->. Qed.

Lemma onNet_ready raw {A} (m : M N A) (s : @State Services Schema) :
  ready raw s -> ready raw (onWorld (Pipeline.onNet m) s).2.
Proof. unfold ready, onWorld, Pipeline.onNet. by destruct (m (Pipeline.net (world s))). Qed.

Lemma ctx_ready raw (s : @State Services Schema) : ready raw s -> ready raw (onWorld ctx_Err s).2.
Proof. apply (onNet_ready raw ctx_Err). Qed.

Lemma sleep_ready raw d (s : @State Services Schema) : ready raw s -> ready raw (onWorld (sleep d) s).2.
Proof. apply (onNet_ready raw (sleep d)). Qed.

Lemma source_keeps raw id (w : Services) : notMarked raw w -> notMarked raw (source id w).2.
Proof. unfold notMarked, Pipeline.source, Pipeline.onNet. by destruct (src id (Pipeline.net w)). Qed.

Lemma getSchema_keeps raw : keeps (ready raw) (getSchema source avro_Parse (schemaIDOf raw)).
Proof.
  split; [apply getSchema_quiet|]. intros s [Hs Hc].
  destruct (getSchema source avro_Parse (schemaIDOf raw) s) as [r s'] eqn:E.
  destruct (getSchema_frame source avro_Parse (notMarked raw) (source_keeps raw) _ _ _ _ Hs Hc E) as (? & ? & _). done.
Qed.

Lemma getSchema_provides raw s sch s' :
  ready raw s -> getSchema source avro_Parse (schemaIDOf raw) s = (Ok sch, s') ->
  provides source avro_Parse (schemaIDOf raw) sch.
Proof.
  intros [Hs Hc] E.
  destruct (getSchema_frame source avro_Parse (fun _ => True) (fun _ _ _ => I) _ _ _ _ I Hc E) as (_ & _ & Hp). by apply Hp.
Qed.

Lemma handle_doomed raw p :
  Encoding.representable (AMap p) = false ->
  keeps (ready raw) (handle (Schema := Schema) (Pipeline.rootW (Encoding.marshalEnvelope Local) cfg) (decodedOf raw p)) /\
  forall s, ready raw s ->
    is_Ok (handle (Schema := Schema) (Pipeline.rootW (Encoding.marshalEnvelope Local) cfg) (decodedOf raw p) s).1 = false.
Proof.
  intros Hr.
  assert (forall s, ready raw s -> exists err s1,
    handle (Schema := Schema) (Pipeline.rootW (Encoding.marshalEnvelope Local) cfg) (decodedOf raw p) s = (Err err, s1) /\
    ready raw s1) as Hh.
  { intros s [Hs Hc]. destruct (root_refuses Local (Pipeline.kafka cfg) (Pipeline.redis cfg) (decodedOf raw p)
      (Pipeline.sinks (world s)) Hr Hs) as (err & w' & He & Hu).
    unfold handle. rewrite M_bind_unfold. unfold onWorld, Pipeline.rootW, Pipeline.onSinks. rewrite He. by eexists _, _. }
  split; [split; [apply handle_quiet|]|]; intros s Hs; destruct (Hh s Hs) as (err & s1 & -> & ?); done.
Qed.

(** C22. An event that decodes, with the schema the source provides for it, to a value
    without a JSON form (an undefined or infinite number, a timestamp outside the years 0
    to 9999) is never acknowledged: with any number of attempts, and whatever the source,
    the database and Kafka answer meanwhile, its worker is still retrying, or gave up
    because the context was canceled. The topic's cursor therefore stays below it, although
    a payload that does not decode is skipped for that very reason. *)
Theorem unencodable_never_finishes fuel raw (s s' : @State Services Schema) r :
  unencodable raw -> notMarked raw (world s) -> cache_ok source avro_Parse (cache s) ->
  processEvent fuel raw s = (r, s') ->
  ackedOf s' = ackedOf s /\ (r = None \/ r = Some tt /\ canceled (world s')).
Proof.
  intros Hu Hm Hca. unfold processEvent, process.
  rewrite M_bind_unfold. destruct (onWorld_quiet time_Now s) as [_ Ht].
  pose proof (onNet_ready raw time_Now s (conj Hm Hca)) as Hm0. change (Pipeline.onNet time_Now) with (time_Now (W := Services)) in Hm0.
  destruct (onWorld time_Now s) as [start s0]. cbn [fst snd] in *.
  assert (ackedOf s0 = ackedOf s) as Ha0 by (unfold ackedOf; by rewrite Ht).
  rewrite M_bind_unfold.
  destruct (retry fuel "schema" (getSchema source avro_Parse (schemaIDOf raw)) s0) as [x s1] eqn:E1.
  destruct (retryFrom_keeps _ (ready_ext raw) (ctx_ready raw) (sleep_ready raw) _ _ _ _ _ _ _
    (getSchema_keeps raw) Hm0 E1) as (Hm1 & Ha1 & Hx1).
  cbn [fst snd]. destruct x as [[sch|]|].
  2: { intros. runM. simplify_eq. split; [congruence|]. by right. }
  2: { intros. runM. simplify_eq. split; [congruence|]. by left. }
  destruct Hx1 as (s2 & Hs2 & Hsch). rewrite M_bind_unfold.
  destruct (Hu sch (getSchema_provides _ _ _ _ Hs2 Hsch)) as (p & Hd & Hp). unfold decodeOrSkip. rewrite Hd.
  change (mret (M := M State) (Some (decodedOf raw p)) s1) with (Some (decodedOf raw p), s1). cbn [fst snd].
  destruct (handle_doomed raw p Hp) as [Hk Hf]. rewrite M_bind_unfold.
  destruct (retry fuel "handler" _ s1) as [y s3] eqn:E2.
  destruct (retryFrom_keeps _ (ready_ext raw) (ctx_ready raw) (sleep_ready raw) _ _ _ _ _ _ _
    Hk Hm1 E2) as (_ & Ha2 & Hx2).
  destruct (retryFrom_doomed _ (ready_ext raw) (ctx_ready raw) (sleep_ready raw) _ _ _ _ _ _ _
    Hk Hf Hm1 E2) as [->| ->]; cbn [fst snd]; intros; runM; simplify_eq.
  - split; [congruence|]. by left.
  - split; [congruence|]. by right.
Qed.

End Service.

(** ** A payload that decodes to an undefined number *)

(** A payload is decoded against the schema the registry has, and against no other. *)
Definition nanUnmarshal (sch : string) (b : list Byte.byte) : result payload :=
  if bool_decide (sch = "{}") then Ok [("Ratio", AFloat false S754_nan)] else Err (External "avro" 1).

#[local] Instance zeroText : Number.FloatText := fun _ _ => Text.bytesOf "0".

Definition nanServices : Pipeline.Services (D := memWorld) (N := nat) :=
  Pipeline.mkServices 0%nat (memStart true true) Committer.NewCommitter [].
Definition nanState : @State (Pipeline.Services (D := memWorld) (N := nat)) string :=
  mkState newPoolMetrics Schema.NewCache nanServices [].

Definition nanRun (fuel : nat) :=
  processEvent (R := memRedis) (K := memKafka) Pool.Demo.src Pool.Demo.parse nanUnmarshal (fun _ => 0)
    (Config.demoConfig ["a"]) fuel Pool.Demo.event1 nanState.

(** Twenty attempts, and no acknowledgement. *)
Lemma unencodable_never_finishes_witness :
  ackedOf (nanRun 20).2 = [] /\ (nanRun 20).1 = None.
Proof.
  split; [|by vm_compute].
  refine (proj1 (unencodable_never_finishes Pool.Demo.src Pool.Demo.parse nanUnmarshal (fun _ => 0)
    (Config.demoConfig ["a"]) 20 Pool.Demo.event1 nanState (nanRun 20).2 (nanRun 20).1 _ _ _ _)).
  - intros sch (w & json & w' & Hsrc & Hparse). vm_compute in Hsrc, Hparse. simplify_eq.
    eexists. split; [reflexivity|]. by vm_compute.
  - intros _ Hm. by destruct (not_elem_of_empty (C := gset string) _ Hm).
  - intros id sch Hc. by destruct (lookup_empty_Some _ _ Hc).
  - fold (nanRun 20). by destruct (nanRun 20).
Defined.

End Unencodable.
